(* ===== verification/_CoqProject ===== *)
-Q . S2P
Prelude.v
Json.v
CoreTypes.v
OversizedFrame.v
OversizedCodec.v
Instances.v
OversizedReceiver.v
OversizedProofs.v
Lru.v
Authorization.v
RouteStore.v
SessionStore.v
OpenStreamFrame.v
OpenStreamSession.v
OpenStreamRegistry.v
OpenStreamWriter.v
PaymentTypes.v
ServerTasks.v
ServerPayments.v
ServerPaymentsProofs.v
BaseTransport.v
Announcements.v
Discovery.v
ClientPayments.v
ClientEngineProofs.v
ClientState.v
ClientOutbound.v
ClientInbound.v
ClientRuns.v
ClientWallet.v
ClientAdmission.v
ClientSends.v
ServerNegotiation.v
ServerState.v
ServerOutbound.v
ServerStreams.v
ServerInbound.v
ServerRefinement.v
ServerDeferral.v
ServerPolicy.v
ServerResponses.v
ServerAdmission.v
EndToEnd.v
Lifecycle.v
RmcpBridge.v
RmcpStreams.v
TestDoubles.v
FfiTypes.v
FfiChannel.v
FfiDiscovery.v
Uniffi.v
FfiInstances.v
FfiCalls.v
FfiOwnership.v
FfiEquivalence.v
FfiReceive.v
