(* ===== verification/Prelude.v ===== *)
(** * A verification library for the ContextVM Rust SDK ("MCP over Nostr")

    The SDK carries JSON-RPC (MCP) messages in signed Nostr events.  A server
    transport ([src/transport/server]) receives requests, remembers where each
    answer has to go, and publishes the answers; a client transport
    ([src/transport/client]) publishes requests and matches the answers.  Three
    extensions sit between them: CEP-22 splits a message too large for one event
    into frames and reassembles it ([src/transport/oversized_transfer]); CEP-41
    streams the output of a running tool call ([src/transport/open_stream]);
    CEP-8 makes a call depend on a payment ([src/payments]).  Other languages use
    the SDK through a C interface of handles and an object interface
    ([contextvm-ffi]).

    ** Files

    - [Prelude]: machine integers, [result] and its [let?] notation, strings as
      bytes, hint databases and tactics.
    - [Json]: [serde_json::Value], the derived serde conversions' building
      blocks, and the class [SerdeJson] of the text parser and printer.
    - [CoreTypes]: [src/core] ([constants.rs], [types.rs], [validation.rs],
      [serializers.rs]): tags, modes, sessions, JSON-RPC messages.
    - [OversizedFrame], [OversizedCodec], [OversizedReceiver],
      [OversizedProofs]: CEP-22.  Frames, errors and configuration; splitting
      and building ([codec.rs]), sizing by binary search ([sizing.rs]), sending
      with the accept handshake ([sender.rs]); the reassembly engine
      ([receiver.rs]); its correctness.
    - [Instances]: a text format for JSON and a digest that satisfy the laws of
      the third-party interfaces; they make the witnesses concrete.
    - [Lru]: the operations of the crate [lru] the SDK calls, as a class with
      laws, and a list-based cache satisfying them.
    - [Authorization]: [src/payments/canonical.rs] and
      [authorization_store.rs].
    - [RouteStore]: [src/transport/server/correlation_store.rs] and
      [src/transport/client/correlation_store.rs].
    - [SessionStore]: [src/transport/server/session_store.rs].
    - [OpenStreamFrame], [OpenStreamSession], [OpenStreamRegistry],
      [OpenStreamWriter]: CEP-41.  Frames; the reader's session (module
      [Session]); the map from tokens to sessions (modules [Registry] and
      [Receiver]); the writer (module [Writer]).
    - [PaymentTypes]: [src/payments/constants.rs], [errors.rs], [types.rs],
      [tags.rs] and the pure helpers of [server_payments_utils.rs].
    - [ServerTasks]: the tasks of the server as programs over atomic commands,
      the shared state, the schedules, a small program logic for counting events;
      the middleware chain ([src/transport/server/middleware.rs]) and the writer
      slots it releases.
    - [ServerPayments], [ServerPaymentsProofs]: both payment lifecycles
      ([server_explicit_gating.rs], [server_payments.rs]), their registration
      ([server_transport_payments.rs]), and their correctness under every
      schedule.
    - [BaseTransport]: [src/transport/base.rs], [src/encryption/mod.rs],
      [src/transport/discovery_tags.rs], [src/core/error.rs]: signing, wrapping
      and publishing a message, discovery tags; the class [Nostr] of the relay
      pool, the signer and the event types.
    - [Announcements]: [src/transport/server/announcement_manager.rs] (module
      [Manager]).
    - [Discovery]: the client's side of it: [src/discovery/mod.rs],
      [src/transport/client/server_relay_discovery.rs], [relay_resolution.rs],
      [server_identity.rs] and the part of [src/relay/mod.rs] they call.
    - [ClientPayments], [ClientEngineProofs]:
      [src/payments/client_payments.rs] (module [ClientEngine]): the hooks of the
      payments engine and the tasks it spawns, each known by the await it is
      suspended at; where the hook panics, and the retry budget.
    - [ClientState], [ClientOutbound], [ClientInbound]:
      [src/transport/client/mod.rs].  The state [ClientTransport] and its critical
      sections; a send as a machine that stops where others can get in between;
      one relay event, the sweeps, the tasks, construction and closing.
      [client_step] interleaves the application, the event loop, the sends and the
      engine's tasks.
    - [ClientRuns], [ClientWallet], [ClientAdmission], [ClientSends]: what holds
      in every run of the client: the form of what it publishes and when it
      announces its capabilities; which offers its wallets pay and how often; which
      events act on it and what answers a request; what a fragmented send puts on the
      wire when everything else runs between its segments.
    - [ServerNegotiation], [ServerState], [ServerOutbound], [ServerStreams],
      [ServerInbound]: [src/transport/server/mod.rs].  The pure decisions
      (negotiation, tags, gift-wrap kinds, authorization); the state [Transport]
      and the critical sections on it; responses, notifications and hooks; the
      writers, readers and the keepalive sweep; one relay event, the cleanup
      task, construction and closing.  [transport_step] interleaves them.
    - [ServerRefinement]: every run of the transport is a schedule of
      [ServerTasks] (which sets the state the transport owns to whatever the transport
      made of it); the payment guarantees of the whole server.
    - [ServerDeferral]: the final response of a stream, with the two critical
      sections of its hook as separate steps, failing publishes and the drain of
      [close].
    - [ServerPolicy]: the encryption policy and the survival of the event loop,
      by an invariant over all runs.
    - [ServerResponses]: the contract of [send_response].
    - [ServerAdmission]: which events are handed over, and the cleanup of
      sessions.
    - [EndToEnd]: the responses of the server transport received by the client
      transport, given that the client can decrypt, parse and verify what the
      server wraps, prints and signs ([channel]).
    - [Lifecycle]: starting, closing and the message channel of both transports
      (modules [Server] and [Client]), the interface [LifecycleTransport] they
      implement, and the facades written against it: [src/gateway/mod.rs] and
      [src/proxy/mod.rs] (modules [Gateway] and [Proxy]).
    - [RmcpBridge]: [src/rmcp_transport/convert.rs] and [worker.rs]: the
      conversions and the two workers (modules [ServerWorker] and
      [ClientWorker]), whose steps interleave with those of the transports.
    - [RmcpStreams]: [src/rmcp_transport/progress.rs] and [open_stream.rs]: request
      options, and concurrent streaming calls up to the binding of their streams.
    - [TestDoubles]: [src/relay/mock.rs] (module [MockRelay]) and
      [src/payments/fakes.rs] (module [Fakes]).
    - [FfiTypes], [FfiChannel], [FfiDiscovery]: the C interface of
      [contextvm-ffi/src].  Errors, structs, the heap of the library, the
      conversions ([types.rs], [error.rs]) and the configuration builders
      ([builders.rs], with the [with_] methods they call); the table of handles
      ([handle.rs], [kv.rs]) and the functions on keys and on the four channel kinds
      ([channel.rs]); relay pools, discovery and encryption ([discovery.rs],
      [types.rs]).
    - [Uniffi]: the object interface, [uniffi_types.rs].
    - [FfiInstances]: an allocator, keys and relays for concrete runs.
    - [FfiCalls]: the C functions that take an error variable or touch the table of
      handles, with the resumed half of the sends that wait, as one machine
      ([c_step]): the error contract and the life of handles.  The functions that only
      free or read memory are in [FfiTypes].
    - [FfiOwnership]: what is received and handed out is read and freed.
    - [FfiEquivalence]: the C interface does what the object interface does.
    - [FfiReceive]: threads that receive from one channel; the end of the future
      that holds the lock and the return of the call are separate steps.

    Names follow the source.  A Rust method [f] of a type [T] is a function [f]
    of the module or section of [T] from the state to the new state and the
    result.

    ** How the code is modelled

    - State.  A struct is a record; a [HashMap] is a [gmap]; an [LruCache] is an
      element of the interface [Lru]; sessions shared through an [Arc] live in a
      heap and are named by references.
    - Errors.  A fallible function returns [result]; where the code has changed
      state before it returns an error, the changed state is returned with it.
    - Time.  [Instant::now()] and [SystemTime::now()] are arguments; an
      [Instant] is a number of nanoseconds.
    - Concurrency.  The stores and sessions do their work under a mutex held for
      the whole method, so an execution is a sequence of operations; theorems
      about executions quantify over all sequences.  The inbound chains of the
      server are programs over atomic commands that interleave at every command;
      the handlers of the transport are single steps between them, except where
      [ServerDeferral] splits them.  A step that the configured timers trigger may
      happen at any time.  In the transparent payment lifecycle the clock is read just
      before the lock of the pending payments is taken; [server_single_charge] assumes
      that the readings are ordered as the locks are.
    - Integers are [Z], and [u64] and [usize] arithmetic that can leave its
      range wraps (the release profile).
    - Callbacks, wakers and published events are returned as values.
    - The heap a C caller sees is a map from pointers to blocks; freeing what is not
      there, or with the wrong capacity, is [None]; an empty vector has a block only if
      it has capacity, and its pointer dangles otherwise.  A C call is one step; one that
      would block answers [Blocks] and a send that waits answers [Awaits].  The
      tasks of the transports change the channels between the calls.
    - Third-party code is a parameter: [SerdeJson] (text of JSON), [Sha256],
      [JsonCanon] (RFC 8785 printing), [Lru], [Nostr] (keys, signatures, NIP-44,
      the relay pool; an operation that can differ from call to call takes the
      number of publish attempts so far), [NostrClient] (relay queries, NIP-19),
      [Rmcp] (the message types of the crate [rmcp] and their serde), [Malloc],
      [Keychain], [FfiText] and [FfiNostr] (allocator, key pairs, messages of
      third-party errors and queries of the foreign interface).
      Their laws ([SerdeJsonLaws], [JsonCanonLaws], [LruLaws], [NostrLaws],
      [MallocLaws]) state documented behaviour only (among it: an event that is signed
      keeps the kind, tags and content it was built with; values with one RFC 8785 text
      are equal up to key order and the representation of numbers; the allocator
      returns new pointers, never null or dangling), and [Instances], [Lru],
      [BaseTransport] and [FfiInstances] give instances that satisfy them.
    - A panic of the server's event loop is the flag [t_alive]; the client's event
      loop runs while [c_running] holds, which a panic clears.
    - User code (payment policy, wallets, callbacks) answers as it likes, panics
      included; the calls made to it are logged.

    ** Fuel

    [Session.flush_loop] takes as fuel the number of buffered chunks, each
    iteration removing one; the receiver's [advance] takes the number of stored
    chunks; the binary search of [resolve_safe_chunk_size] halves its interval,
    so the logarithm of the width plus one is enough.  The theorems about these
    functions ([split_string_by_byte_size_correct], [safe_chunk_size_fits],
    [stream_any_order_complete]) are about
    their results, so running out of fuel would refute them.

    ** What the theorems show

    - CEP-22: what the codec builds is reassembled to the same message, in order
      and in any order of its chunks; every surfaced message has the declared
      length and digest and parses to the value returned; the receiver's memory
      is bounded by its policy; frames of one transfer do not touch another; the
      watchdog removes exactly the overdue transfers; the split is exact, on
      character boundaries and within the size limit; the chunk size found fits and
      the next does not; sending publishes start, chunks, end in order and only
      after the handshake.
    - CEP-41: what a tool writes is what a consumer that keeps up reads; payload is
      delivered once, in order, without gaps under any frames, ticks and polls; buffers are
      bounded; a graceful close is complete; a terminated stream drains; silent
      peers are aborted; the registry is bounded and its streams are isolated;
      the writer's frames are in order whatever fails.
    - CEP-8: a grant is consumed at most once and nothing is authorized without
      one; the pending marker excludes duplicate payment requests; the atomic
      claim refines its two-step specification; equal identities mean invocations
      with the same meaning, up to the metadata that is left out.
      Under every schedule of the server's tasks, nothing priced is forwarded
      without a verified payment or a waiver, in either lifecycle, and one
      request event is charged at most once per payment window.
    - Stores: the secondary indexes of the route store agree with the routes after
      every operation; a route is answered once; sweeps and client removal are
      exact; sessions are evicted least recently used first.
    - Server transport: in every run the payment guarantees hold, every message
      to a client has the form the encryption and gift-wrap modes allow, and the
      event loop survives when there is room for two sessions; an event hands over
      at most one message, after every check and in the name of its signer; a
      response that [send_response] reports as sent is read by the client exactly
      once with its original id, a failed one can be retried, a paid one survives
      the loss of its route, and the final response of a stream is never doubled and
      lost only to a failed publish or to [close]; a cleanup removes exactly the idle
      sessions and what they kept;
      the negotiated payment mode is the one the server supports; cached
      announcement tags are never stale and the announcement handshake is ordered.
    - Client transport: in every run, every published event is tagged with the server
      and has the kind and the (encrypted) content the modes ask for; a request leaves
      with the
      capability tags or after them; a wallet pays only what the server offered for
      a waiting request and what policy and wallet agreed to, each offer at most
      once, and never two chains for one invoice; only events of the server act on
      the client; a request is answered once by a message in one event; a fragmented
      send publishes its frames in order, after the accept where one is needed; the
      retries of a pending request are bounded, with delays between one and ten seconds.
    - Life cycle and [rmcp] bridge: whatever is called in whatever order, a gateway
      or proxy hands out its receiver once, runs at most one event loop and is over
      after a stop; the handler gets the transport's messages in order, each
      request under the id of its event and with its caller; a worker that ends has
      closed its transport; what a handler answers is what the handler of the
      client receives, under the id it chose; concurrent streaming calls each get
      the stream of their own request.
    - Discovery: the relays a client resolves follow the documented priority,
      whoever wins the race, and come from the caller or the server's newest
      relay list; the relay list, the announcement and the capability lists a
      server publishes are what a client finds.
    - Foreign interface: every failing C call reports one error object and leaks
      nothing, every succeeding one allocates what it hands out; no sequence of
      calls panics, reuses a handle or changes its type; a received request reads
      as the SDK's, its payload parses back, and freeing it restores the heap; the
      C functions and the methods of the object interface leave the same channels
      and report the same errors, but for the text that refuses a JSON list, and take
      the same messages; whoever receives, each message is taken once, in order, and
      returned once, and waiting calls are served in the order they began; a timed
      receive of the object interface returns in time.
    - Mock relay: a pool that subscribes once is sent each matching event once,
      however its replay interleaves with publications
      ([mock_subscriber_served_once]).
    - Divergences: the theorems [start_progress_overflow],
      [buffered_bytes_exceed_declared], [shared_token_mapping_lost],
      [vetoed_eviction_drops_session], [waived_redelivery_loses_route],
      [close_u64_max_accepted], [single_session_server_dies],
      [sessionless_response_lost], [cleanup_drops_foreign_route],
      [fragments_bypass_authorization], [payment_hook_panics_iff],
      [late_registration_loses_response], [stale_touch_loop_unregisters],
      [closing_forgets_invoices], [settled_invoice_paid_again],
      [reassembled_delivered], [taken_receiver_leaks_tasks],
      [late_request_crosses_streams], [plain_call_takes_stream],
      [array_free_needs_exact_capacity], [timed_receives] and [verify_cancelled_late]
      exhibit inputs on which the code does not do what its comments promise.

    ** Not modelled

    - The relay connection, signing and encryption (crate [nostr_sdk]).
    - The service loop of the crate [rmcp]; the workers' channels to and from it
      are.
    - The mutex around a transport in the foreign interface: a call on it is a
      step.  The tokio runtime, the UniFFI scaffolding and the lag of a broadcast
      channel.
    - Examples and tests.
    - Log lines, [Debug] and [Display] of values that no code reads. *)

From stdpp Require Export base gmap sets list strings pretty.
From Stdlib Require Export ZArith Lia.
#[global] Open Scope Z_scope.

(** ** Machine integers

    A Rust [u64], [i64] or [usize] is a [Z]; arithmetic that can leave the
    range is written with its wrap-around (the release profile, in which
    overflow checks are off).  [usize] is 64 bits wide. *)

Definition u64_modulus : Z := 2 ^ 64.
Definition u64_max : Z := u64_modulus - 1.
Definition i64_max : Z := 2 ^ 63 - 1.
Definition i64_min : Z := - 2 ^ 63.

Definition in_u64 (n : Z) : bool := (0 <=? n) && (n <=? u64_max).
Definition in_i64 (n : Z) : bool := (i64_min <=? n) && (n <=? i64_max).

(** [a + b] and [a - b] on [u64] in the release profile. *)
Definition u64_add (a b : Z) : Z := (a + b) mod u64_modulus.
Definition u64_sub (a b : Z) : Z := (a - b) mod u64_modulus.

Lemma in_u64_spec n : in_u64 n = true ↔ 0 ≤ n < u64_modulus.
Proof. unfold in_u64, u64_max. rewrite andb_true_iff, !Z.leb_le. lia. Qed.

Lemma u64_modulus_pos : 0 < u64_modulus.
Proof. done. Qed.

Lemma u64_add_range a b : 0 ≤ u64_add a b < u64_modulus.
Proof. apply Z.mod_pos_bound, u64_modulus_pos. Qed.

Lemma u64_add_small a b : 0 ≤ a → 0 ≤ b → a + b < u64_modulus → u64_add a b = a + b.
Proof. intros. apply Z.mod_small. lia. Qed.

Lemma u64_sub_small a b : 0 ≤ b ≤ a → a < u64_modulus → u64_sub a b = a - b.
Proof. intros. apply Z.mod_small. lia. Qed.

(** ** Results

    [Result<T, E>] and the [?] operator. *)

Inductive result (A E : Type) : Type :=
| Ok (a : A)
| Err (e : E).
Arguments Ok {A E} a.
Arguments Err {A E} e.

Definition result_bind {A B E} (c : result A E) (k : A → result B E) : result B E :=
  match c with Ok a => k a | Err e => Err e end.

(** [Result::ok]. *)
Definition result_ok {A E} (c : result A E) : option A :=
  match c with Ok a => Some a | Err _ => None end.

Definition is_ok {A E} (c : result A E) : bool :=
  match c with Ok _ => true | Err _ => false end.

Declare Scope rs_scope.
Delimit Scope rs_scope with rs.
Notation "'let?' x ':=' c 'in' k" := (result_bind c (λ x, k))
  (at level 10, x pattern, c at level 100, k at level 200) : rs_scope.
#[global] Open Scope rs_scope.

Lemma result_bind_Ok {A B E} (c : result A E) (k : A → result B E) b :
  result_bind c k = Ok b ↔ ∃ a, c = Ok a ∧ k a = Ok b.
Proof. destruct c; cbn; split; [eauto | by intros (? & [= ->] & ?) | done | by intros (? & ? & ?)]. Qed.

Lemma result_bind_Err {A B E} (c : result A E) (k : A → result B E) e :
  result_bind c k = Err e ↔ c = Err e ∨ ∃ a, c = Ok a ∧ k a = Err e.
Proof.
  destruct c; cbn; split; [eauto | by intros [? | (? & [= ->] & ?)] | intros [= ->]; auto |].
  by intros [[= ->] | (? & ? & ?)].
Qed.

(** ** Lists *)

(** [Iterator::filter] with a boolean test. *)
Lemma filter_sublist' {A} (f : A → bool) l : List.filter f l `sublist_of` l.
Proof. induction l as [|x l IH]; cbn; [done|]. destruct (f x); by constructor. Qed.

(** ** Strings

    A Rust [str] is a sequence of UTF-8 bytes, modelled as a Rocq [string] of
    bytes; [len] counts bytes. *)

Definition str_len (s : string) : Z := Z.of_nat (String.length s).
Definition str_is_empty (s : string) : bool := String.eqb s "".
Definition starts_with (s p : string) : bool := String.prefix p s.

(** [format!("{n}")] of an integer. *)
Definition show_Z (n : Z) : string := pretty n.

(** Concatenation of a list of strings ([push_str] in a loop). *)
Fixpoint concat_str (l : list string) : string :=
  match l with [] => "" | s :: l' => s +:+ concat_str l' end.

#[global] Arguments String.append !_ _ / : simpl nomatch.
#[global] Arguments String.length !_ / : simpl nomatch.

Lemma append_nil_r s : s +:+ "" = s.
Proof. induction s as [|a s IH]; cbn; [done|]. by f_equal. Qed.

Lemma append_assoc s t u : s +:+ (t +:+ u) = (s +:+ t) +:+ u.
Proof. induction s as [|a s IH]; cbn; [done|]. by f_equal. Qed.

Lemma length_append s t : String.length (s +:+ t) = (String.length s + String.length t)%nat.
Proof. induction s as [|a s IH]; cbn; [done|]. by f_equal. Qed.

Lemma str_len_append s t : str_len (s +:+ t) = str_len s + str_len t.
Proof. unfold str_len. rewrite length_append. lia. Qed.

Lemma str_len_nonneg s : 0 ≤ str_len s.
Proof. unfold str_len. lia. Qed.

Lemma concat_str_app l1 l2 : concat_str (l1 ++ l2) = concat_str l1 +:+ concat_str l2.
Proof.
  induction l1 as [|s l1 IH]; cbn; [done|].
  by rewrite IH, append_assoc.
Qed.

Lemma concat_str_snoc l s : concat_str (l ++ [s]) = concat_str l +:+ s.
Proof. rewrite concat_str_app. cbn. by rewrite append_nil_r. Qed.

Lemma prefix_append p s : String.prefix p (p +:+ s) = true.
Proof.
  induction p as [|a p IH]; [by destruct s|].
  cbn. by destruct (Ascii.ascii_dec a a).
Qed.

Lemma append_inj s1 s2 t1 t2 :
  str_len s1 = str_len s2 → s1 +:+ t1 = s2 +:+ t2 → s1 = s2 ∧ t1 = t2.
Proof.
  unfold str_len. revert s2. induction s1 as [|a s1 IH]; intros [|b s2]; cbn; try lia; [done|].
  intros Hl [= -> Ht]. destruct (IH s2) as [-> ->]; [lia|done|done].
Qed.

(** The byte order on strings ([Ord for str]). *)

Lemma string_compare_refl s : String.compare s s = Eq.
Proof.
  induction s as [|a s IH]; cbn; [done|].
  unfold Ascii.compare. by rewrite N.compare_refl.
Qed.

Lemma string_ltb_irrefl s : String.ltb s s = false.
Proof. unfold String.ltb. by rewrite string_compare_refl. Qed.

Lemma string_ltb_leb s t : String.ltb s t = true ↔ String.leb s t = true ∧ s ≠ t.
Proof.
  unfold String.ltb, String.leb. destruct (String.compare s t) eqn:E.
  - apply String.compare_eq_iff in E. naive_solver.
  - split; [|done]. split; [done|]. intros ->. by rewrite string_compare_refl in E.
  - naive_solver.
Qed.

Lemma string_ltb_trans s t u :
  String.ltb s t = true → String.ltb t u = true → String.ltb s u = true.
Proof.
  rewrite !string_ltb_leb. intros [H1 N1] [H2 N2]. split.
  - apply Is_true_true. apply (transitivity (R := String.le) (y := t)); by apply Is_true_true.
  - intros ->. apply N1. by apply String.leb_antisym.
Qed.

(** ** Automation *)

Create HintDb cvm.
Create Rewrite HintDb cvm.
#[export] Hint Resolve u64_add_range str_len_nonneg u64_modulus_pos : cvm.
#[export] Hint Rewrite @str_len_append @concat_str_app @append_nil_r : cvm.

(** Break every [match] or [if] of the hypothesis [H]. *)
Ltac break H :=
  repeat (match type of H with
          | context [match ?x with _ => _ end] => destruct x eqn:?
          end; simplify_eq/=).

(** Break every [match] or [if] of the goal. *)
Ltac break_goal :=
  repeat (case_match; simplify_eq/=).

(** Turn boolean comparisons of hypotheses and goal into propositions. *)
Ltac b2p :=
  repeat match goal with
  | H : (_ <=? _) = true |- _ => apply Z.leb_le in H
  | H : (_ <=? _) = false |- _ => apply Z.leb_gt in H
  | H : (_ <? _) = true |- _ => apply Z.ltb_lt in H
  | H : (_ <? _) = false |- _ => apply Z.ltb_ge in H
  | H : (_ =? _) = true |- _ => apply Z.eqb_eq in H
  | H : (_ =? _) = false |- _ => apply Z.eqb_neq in H
  | H : String.eqb _ _ = true |- _ => apply String.eqb_eq in H
  | H : String.eqb _ _ = false |- _ => apply String.eqb_neq in H
  | H : negb _ = true |- _ => apply negb_true_iff in H
  | H : negb _ = false |- _ => apply negb_false_iff in H
  | H : (_ && _) = true |- _ => apply andb_true_iff in H as [? ?]
  | H : (_ || _) = false |- _ => apply orb_false_iff in H as [? ?]
  | H : bool_decide _ = true |- _ => apply bool_decide_eq_true in H
  | H : bool_decide _ = false |- _ => apply bool_decide_eq_false in H
  end.
