(* ===== verification/Json.v ===== *)
(** * JSON values and the serde conversions the SDK derives

    [Value] is [serde_json::Value] with the default [Map] (a [BTreeMap], so
    an object is a list of entries sorted by key).  The text parser and printer
    of [serde_json] are third-party code: they are the fields of the class
    [SerdeJson], with what is relied on in [SerdeJsonLaws].  The conversions
    that [#[derive(Serialize, Deserialize)]] generates for the SDK's own types
    are written out next to those types. *)

From S2P Require Import Prelude.

(** ** Numbers and values *)

(** [serde_json::Number]: an unsigned, a negative or a finite [f64] number.
    A finite [f64] is the dyadic rational [m * 2^e]. *)
Inductive Number : Type :=
| PosInt (n : Z)
| NegInt (z : Z)
| Float (m e : Z).

#[warnings="-register-all"]
Inductive Value : Type :=
| VNull
| VBool (b : bool)
| VNumber (n : Number)
| VString (s : string)
| VArray (items : list Value)
| VObject (entries : list (string * Value)).

#[export] Instance Number_eq_dec : EqDecision Number.
Proof. solve_decision. Defined.

Section Value_induction.
Context (P : Value → Prop).
Context (HNull : P VNull) (HBool : ∀ b, P (VBool b)) (HNumber : ∀ n, P (VNumber n))
        (HString : ∀ s, P (VString s))
        (HArray : ∀ l, Forall P l → P (VArray l))
        (HObject : ∀ l, Forall (λ kv, P kv.2) l → P (VObject l)).

Fixpoint Value_ind' (v : Value) : P v :=
  match v with
  | VNull => HNull
  | VBool b => HBool b
  | VNumber n => HNumber n
  | VString s => HString s
  | VArray l =>
      HArray l ((fix go (l : list Value) : Forall P l :=
                   match l with
                   | [] => @List.Forall_nil _ P
                   | x :: l' => @List.Forall_cons _ P x l' (Value_ind' x) (go l')
                   end) l)
  | VObject l =>
      HObject l ((fix go (l : list (string * Value)) : Forall (λ kv, P kv.2) l :=
                    match l with
                    | [] => @List.Forall_nil _ (λ kv, P kv.2)
                    | x :: l' => @List.Forall_cons _ (λ kv, P kv.2) x l' (Value_ind' x.2) (go l')
                    end) l)
  end.
End Value_induction.

Fixpoint Value_eqb (v w : Value) : bool :=
  match v, w with
  | VNull, VNull => true
  | VBool b, VBool c => Bool.eqb b c
  | VNumber n, VNumber m => bool_decide (n = m)
  | VString s, VString t => String.eqb s t
  | VArray l, VArray k =>
      (fix go (l k : list Value) : bool :=
         match l, k with
         | [], [] => true
         | x :: l', y :: k' => Value_eqb x y && go l' k'
         | _, _ => false
         end) l k
  | VObject l, VObject k =>
      (fix go (l k : list (string * Value)) : bool :=
         match l, k with
         | [], [] => true
         | x :: l', y :: k' => String.eqb x.1 y.1 && Value_eqb x.2 y.2 && go l' k'
         | _, _ => false
         end) l k
  | _, _ => false
  end.

Lemma Value_eqb_eq v : ∀ w, Value_eqb v w = true ↔ v = w.
Proof.
  induction v as [|b|n|s|l IH|l IH] using Value_ind'; intros []; cbn; try (split; congruence).
  - rewrite eqb_true_iff. naive_solver.
  - rewrite bool_decide_eq_true. naive_solver.
  - rewrite String.eqb_eq. naive_solver.
  - transitivity (l = items); [|split; congruence].
    revert items. induction IH as [|x l Hx _ IHl]; intros [|y k]; try (split; congruence).
    rewrite andb_true_iff, Hx, IHl. split; [by intros [-> ->] | by intros [= -> ->]].
  - transitivity (l = entries); [|split; congruence].
    revert entries. induction IH as [|[a x] l Hx _ IHl]; intros [|[b y] k]; try (split; congruence).
    cbn in *. rewrite !andb_true_iff, String.eqb_eq, Hx, IHl.
    split; [by intros [[-> ->] ->] | by intros [= -> -> ->]].
Qed.

#[export] Instance Value_eq_dec : EqDecision Value.
Proof.
  intros v w. destruct (Value_eqb v w) eqn:E.
  - left. by apply Value_eqb_eq.
  - right. intros Heq. apply Value_eqb_eq in Heq. congruence.
Defined.

(** ** Accessors of [serde_json::Value] *)

(** Lookup in, insertion into and removal from a sorted entry list ([BTreeMap]). *)
Fixpoint obj_get (k : string) (l : list (string * Value)) : option Value :=
  match l with
  | [] => None
  | (k', v) :: l' => if String.eqb k k' then Some v else obj_get k l'
  end.

Fixpoint obj_insert (k : string) (v : Value) (l : list (string * Value)) : list (string * Value) :=
  match l with
  | [] => [(k, v)]
  | (k', v') :: l' =>
      match String.compare k k' with
      | Eq => (k, v) :: l'
      | Lt => (k, v) :: (k', v') :: l'
      | Gt => (k', v') :: obj_insert k v l'
      end
  end.

Fixpoint obj_remove (k : string) (l : list (string * Value)) : list (string * Value) :=
  match l with
  | [] => []
  | (k', v') :: l' => if String.eqb k k' then l' else (k', v') :: obj_remove k l'
  end.

(** [Map::from_iter] of entries given in any order. *)
Definition obj_of_list (l : list (string * Value)) : list (string * Value) :=
  foldl (λ m kv, obj_insert kv.1 kv.2 m) [] l.

(** [Value::get] with a string index. *)
Definition get (v : Value) (k : string) : option Value :=
  match v with VObject l => obj_get k l | _ => None end.

Definition as_str (v : Value) : option string :=
  match v with VString s => Some s | _ => None end.

Definition as_bool (v : Value) : option bool :=
  match v with VBool b => Some b | _ => None end.

Definition as_object (v : Value) : option (list (string * Value)) :=
  match v with VObject l => Some l | _ => None end.

(** The tests [in_u64] and [in_i64] are the ranges of the Rust types that carry
    the number: [PosInt(u64)] and [NegInt(i64)]. *)
Definition number_as_u64 (n : Number) : option Z :=
  match n with PosInt n => if in_u64 n then Some n else None | _ => None end.

Definition number_as_i64 (n : Number) : option Z :=
  match n with
  | PosInt n | NegInt n => if in_i64 n then Some n else None
  | Float _ _ => None
  end.

Definition as_u64 (v : Value) : option Z :=
  match v with VNumber n => number_as_u64 n | _ => None end.

(** [f.fract() == 0.0] for the finite double [m * 2^e]. *)
Definition f64_is_integral (m e : Z) : bool :=
  (0 <=? e) || (m mod 2 ^ (- e) =? 0).

(** [f as u64] for a positive integral double: a saturating cast. *)
Definition f64_to_u64 (m e : Z) : Z :=
  Z.min u64_max (if 0 <=? e then m * 2 ^ e else m / 2 ^ (- e)).

(** [Value::from(u64)]. *)
Definition number_of_u64 (n : Z) : Value := VNumber (PosInt n).

(** ** The third-party text format *)

(** [serde_json::from_str::<Value>], [serde_json::to_string] and the [Display]
    of a [f64] number. *)
Class SerdeJson := {
  from_str : string → option Value;
  to_string : Value → string;
  fmt_f64 : Z → Z → string;
}.

(** [Number::to_string]. *)
Definition number_to_string `{SerdeJson} (n : Number) : string :=
  match n with
  | PosInt n => show_Z n
  | NegInt z => show_Z z
  | Float m e => fmt_f64 m e
  end.

(** The keys of an object are distinct (always true of a [Map] and of the fields
    of a struct). *)
Fixpoint nodup_keys (l : list (string * Value)) : bool :=
  match l with
  | [] => true
  | (k, _) :: l' => (if obj_get k l' is None then true else false) && nodup_keys l'
  end.

(** The values [serde_json] represents exactly in text: integers in range, no
    floats (whose text need not be read back to the same double), objects
    without repeated keys. *)
Fixpoint json_exact (v : Value) : bool :=
  match v with
  | VNumber (PosInt n) => in_u64 n
  | VNumber (NegInt z) => (i64_min <=? z) && (z <? 0)
  | VNumber (Float _ _) => false
  | VArray l => forallb json_exact l
  | VObject l => nodup_keys l && forallb (λ kv, json_exact kv.2) l
  | _ => true
  end.

(** A struct is printed in the order of its fields; reading the text into a
    [Value] puts the entries of every object in key order. *)
Fixpoint json_norm (v : Value) : Value :=
  match v with
  | VArray l => VArray (map json_norm l)
  | VObject l => VObject (obj_of_list (map (λ kv, (kv.1, json_norm kv.2)) l))
  | _ => v
  end.

Fixpoint json_depth (v : Value) : nat :=
  match v with
  | VArray l => S (foldr (λ x n, Nat.max (json_depth x) n) 0%nat l)
  | VObject l => S (foldr (λ kv n, Nat.max (json_depth kv.2) n) 0%nat l)
  | _ => 0%nat
  end.

(** Nesting [serde_json] refuses to parse (its recursion limit). *)
Definition RECURSION_LIMIT : nat := 127.

(** What the SDK relies on: the printed text of a value is read back to it, with
    the entries of its objects in key order. *)
Class SerdeJsonLaws `{SerdeJson} := {
  from_str_to_string v :
    json_exact v = true → (json_depth v <= RECURSION_LIMIT)%nat → 
    from_str (to_string v) = Some (json_norm v);
}.

#[global] Arguments obj_of_list : simpl never.

(** ** Lemmas on objects *)

Lemma obj_get_insert k v k' l :
  obj_get k' (obj_insert k v l) = if String.eqb k' k then Some v else obj_get k' l.
Proof.
  induction l as [|[k0 v0] l IH]; [done|].
  cbn [obj_insert obj_get]. destruct (String.compare k k0) eqn:E; cbn.
  - apply String.compare_eq_iff in E as ->. by destruct (String.eqb k' k0).
  - by destruct (String.eqb k' k).
  - rewrite IH. destruct (String.eqb_spec k' k0) as [->|]; [|done].
    destruct (String.eqb_spec k0 k) as [->|]; [|done].
    rewrite string_compare_refl in E. congruence.
Qed.

#[global] Arguments obj_insert : simpl never.

Lemma obj_get_remove_ne k k' l : k ≠ k' → obj_get k' (obj_remove k l) = obj_get k' l.
Proof.
  intros Hne. induction l as [|[k0 v0] l IH]; cbn; [done|].
  destruct (String.eqb_spec k k0) as [->|]; cbn.
  - by destruct (String.eqb_spec k' k0) as [->|].
  - by rewrite IH.
Qed.

Lemma obj_get_foldl k l m :
  obj_get k (foldl (λ m kv, obj_insert kv.1 kv.2 m) m l) =
  match obj_get k (reverse l) with Some v => Some v | None => obj_get k m end.
Proof.
  revert m. induction l as [|[k0 v0] l IH]; intros m; [done|].
  rewrite reverse_cons. cbn [foldl]. rewrite IH, obj_get_insert. cbn [fst snd]. clear IH.
  induction (reverse l) as [|[k1 v1] r IHr]; cbn.
  - by destruct (String.eqb k k0).
  - by destruct (String.eqb k k1).
Qed.

Lemma obj_get_app k l1 l2 :
  obj_get k (l1 ++ l2) = match obj_get k l1 with Some v => Some v | None => obj_get k l2 end.
Proof.
  induction l1 as [|[k1 v1] l1 IH]; cbn; [done|]. by destruct (String.eqb k k1).
Qed.

Lemma obj_get_reverse k l : nodup_keys l = true → obj_get k (reverse l) = obj_get k l.
Proof.
  induction l as [|[k0 v0] l IH]; [done|]. cbn [nodup_keys].
  rewrite andb_true_iff. intros [H0 Hl]. rewrite reverse_cons, obj_get_app, IH by done. cbn.
  destruct (String.eqb_spec k k0) as [->|].
  - by destruct (obj_get k0 l).
  - by destruct (obj_get k l).
Qed.

Lemma obj_get_of_list k l : nodup_keys l = true → obj_get k (obj_of_list l) = obj_get k l.
Proof.
  intros Hl. unfold obj_of_list. rewrite obj_get_foldl, obj_get_reverse by done.
  by destruct (obj_get k l).
Qed.

Lemma obj_get_map (f : Value → Value) k l :
  obj_get k (map (λ kv, (kv.1, f kv.2)) l) = f <$> obj_get k l.
Proof.
  induction l as [|[k0 v0] l IH]; cbn; [done|]. by destruct (String.eqb k k0).
Qed.

Lemma nodup_keys_map (f : Value → Value) l :
  nodup_keys (map (λ kv, (kv.1, f kv.2)) l) = nodup_keys l.
Proof.
  induction l as [|[k0 v0] l IH]; cbn; [done|]. rewrite IH, obj_get_map.
  by destruct (obj_get k0 l).
Qed.

(** Reading a field of a normalised object. *)
Lemma get_json_norm k l :
  nodup_keys l = true → get (json_norm (VObject l)) k = json_norm <$> obj_get k l.
Proof.
  intros Hl. cbn. rewrite obj_get_of_list; [apply obj_get_map|].
  by rewrite nodup_keys_map.
Qed.

Lemma obj_get_remove k l : nodup_keys l = true → obj_get k (obj_remove k l) = None.
Proof.
  induction l as [|[k0 v0] l IH]; [done|]. cbn. rewrite andb_true_iff.
  intros [H0 Hl]. destruct (String.eqb_spec k k0) as [->|Hne]; cbn; [by destruct (obj_get k0 l)|].
  apply String.eqb_neq in Hne as ->. by apply IH.
Qed.

Lemma obj_remove_absent k l : obj_get k l = None → obj_remove k l = l.
Proof.
  induction l as [|[k0 v0] l IH]; cbn; [done|]. destruct (String.eqb k k0); [done|].
  intros. by rewrite IH.
Qed.

Lemma json_exact_remove k l :
  json_exact (VObject l) = true → json_exact (VObject (obj_remove k l)) = true.
Proof.
  cbn. induction l as [|[k0 v0] l IH]; [done|]. cbn. rewrite !andb_true_iff.
  intros [[H0 Hl] [Hv Ha]]. destruct (String.eqb_spec k k0) as [->|Hne]; cbn.
  - by rewrite Hl, Ha.
  - rewrite obj_get_remove_ne by done. rewrite H0, Hv. cbn.
    apply andb_true_iff, IH. by rewrite Hl.
Qed.
