(* ===== verification/CoreTypes.v ===== *)
(** * Core: constants, types, validation and serializers

    Models [src/core/constants.rs], [src/core/types.rs], [src/core/validation.rs]
    and the tag lookup of [src/core/serializers.rs]. *)

From S2P Require Import Prelude Json.

(** ** Constants ([core/constants.rs]) *)

Definition CTXVM_MESSAGES_KIND : Z := 25910.
Definition GIFT_WRAP_KIND : Z := 1059.
Definition EPHEMERAL_GIFT_WRAP_KIND : Z := 21059.
Definition RELAY_LIST_METADATA_KIND : Z := 10002.
Definition SERVER_ANNOUNCEMENT_KIND : Z := 11316.
Definition TOOLS_LIST_KIND : Z := 11317.
Definition RESOURCES_LIST_KIND : Z := 11318.
Definition RESOURCETEMPLATES_LIST_KIND : Z := 11319.
Definition PROMPTS_LIST_KIND : Z := 11320.

Module tags.
Definition PUBKEY : string := "p".
Definition RELAY : string := "r".
Definition EVENT_ID : string := "e".
Definition CAPABILITY : string := "cap".
Definition NAME : string := "name".
Definition WEBSITE : string := "website".
Definition PICTURE : string := "picture".
Definition ABOUT : string := "about".
Definition SUPPORT_ENCRYPTION : string := "support_encryption".
Definition SUPPORT_ENCRYPTION_EPHEMERAL : string := "support_encryption_ephemeral".
Definition SUPPORT_OVERSIZED_TRANSFER : string := "support_oversized_transfer".
Definition SUPPORT_OPEN_STREAM : string := "support_open_stream".
Definition PMI : string := "pmi".
Definition PAYMENT_INTERACTION : string := "payment_interaction".
End tags.

Definition MAX_MESSAGE_SIZE : Z := 1024 * 1024.
Definition DEFAULT_LRU_SIZE : Z := 5000.
Definition INITIALIZE_METHOD : string := "initialize".
Definition NOTIFICATIONS_INITIALIZED_METHOD : string := "notifications/initialized".
Definition UNENCRYPTED_KINDS : list Z :=
  [SERVER_ANNOUNCEMENT_KIND; TOOLS_LIST_KIND; RESOURCES_LIST_KIND;
   RESOURCETEMPLATES_LIST_KIND; PROMPTS_LIST_KIND].

(** ** Modes ([core/types.rs]) *)

Inductive EncryptionMode : Type := EncOptional | EncRequired | EncDisabled.
#[export] Instance EncryptionMode_eq_dec : EqDecision EncryptionMode.
Proof. solve_decision. Defined.

Inductive GiftWrapMode : Type := GwOptional | GwEphemeral | GwPersistent.
#[export] Instance GiftWrapMode_eq_dec : EqDecision GiftWrapMode.
Proof. solve_decision. Defined.

(** [GiftWrapMode::allows_kind] *)
Definition allows_kind (mode : GiftWrapMode) (kind : Z) : bool :=
  match mode with
  | GwOptional => (kind =? GIFT_WRAP_KIND) || (kind =? EPHEMERAL_GIFT_WRAP_KIND)
  | GwEphemeral => kind =? EPHEMERAL_GIFT_WRAP_KIND
  | GwPersistent => kind =? GIFT_WRAP_KIND
  end.

(** [GiftWrapMode::supports_ephemeral] *)
Definition supports_ephemeral (mode : GiftWrapMode) : bool :=
  match mode with GwPersistent => false | _ => true end.

Inductive PaymentInteractionMode : Type := Transparent | ExplicitGating.
#[export] Instance PaymentInteractionMode_eq_dec : EqDecision PaymentInteractionMode.
Proof. solve_decision. Defined.

(** ** Client sessions *)

Record ClientSession : Type := mkClientSession {
  is_initialized : bool;
  is_encrypted : bool;
  has_sent_common_tags : bool;
  supports_ephemeral_gift_wrap : bool;
  supports_encryption : bool;
  supports_ephemeral_encryption : bool;
  supports_oversized_transfer : bool;
  supports_open_stream : bool;
  requested_payment_interaction : option PaymentInteractionMode;
  effective_payment_interaction : option PaymentInteractionMode;
  has_disclosed_payment_interaction : bool;
  last_activity : Z;
  pending_requests : gmap string Value;
  event_to_progress_token : gmap string string;
}.

(** [ClientSession::new]; [now] is the reading of the clock. *)
Definition ClientSession_new (now : Z) (is_encrypted : bool) : ClientSession := {|
  is_initialized := false;
  is_encrypted := is_encrypted;
  has_sent_common_tags := false;
  supports_ephemeral_gift_wrap := false;
  supports_encryption := false;
  supports_ephemeral_encryption := false;
  supports_oversized_transfer := false;
  supports_open_stream := false;
  requested_payment_interaction := None;
  effective_payment_interaction := None;
  has_disclosed_payment_interaction := false;
  last_activity := now;
  pending_requests := ∅;
  event_to_progress_token := ∅;
|}.

(** ** JSON-RPC messages *)

Record JsonRpcRequest : Type := mkRequest {
  req_jsonrpc : string;
  req_id : Value;
  req_method : string;
  req_params : option Value;
}.

Record JsonRpcResponse : Type := mkResponse {
  resp_jsonrpc : string;
  resp_id : Value;
  resp_result : Value;
}.

Record JsonRpcError : Type := mkError {
  err_code : Z;
  err_message : string;
  err_data : option Value;
}.

Record JsonRpcErrorResponse : Type := mkErrorResponse {
  eresp_jsonrpc : string;
  eresp_id : Value;
  eresp_error : JsonRpcError;
}.

Record JsonRpcNotification : Type := mkNotification {
  notif_jsonrpc : string;
  notif_method : string;
  notif_params : option Value;
}.

Inductive JsonRpcMessage : Type :=
| Request (r : JsonRpcRequest)
| Response (r : JsonRpcResponse)
| ErrorResponse (r : JsonRpcErrorResponse)
| Notification (n : JsonRpcNotification).

#[export] Instance JsonRpcRequest_eq_dec : EqDecision JsonRpcRequest.
Proof. solve_decision. Defined.
#[export] Instance JsonRpcResponse_eq_dec : EqDecision JsonRpcResponse.
Proof. solve_decision. Defined.
#[export] Instance JsonRpcError_eq_dec : EqDecision JsonRpcError.
Proof. solve_decision. Defined.
#[export] Instance JsonRpcErrorResponse_eq_dec : EqDecision JsonRpcErrorResponse.
Proof. solve_decision. Defined.
#[export] Instance JsonRpcNotification_eq_dec : EqDecision JsonRpcNotification.
Proof. solve_decision. Defined.
#[export] Instance JsonRpcMessage_eq_dec : EqDecision JsonRpcMessage.
Proof. solve_decision. Defined.

Definition is_request (m : JsonRpcMessage) : bool :=
  match m with Request _ => true | _ => false end.
Definition is_response (m : JsonRpcMessage) : bool :=
  match m with Response _ => true | _ => false end.
Definition is_error (m : JsonRpcMessage) : bool :=
  match m with ErrorResponse _ => true | _ => false end.
Definition is_notification (m : JsonRpcMessage) : bool :=
  match m with Notification _ => true | _ => false end.

(** [JsonRpcMessage::method] *)
Definition msg_method (m : JsonRpcMessage) : option string :=
  match m with
  | Request r => Some (req_method r)
  | Notification n => Some (notif_method n)
  | _ => None
  end.

(** [JsonRpcMessage::id] *)
Definition msg_id (m : JsonRpcMessage) : option Value :=
  match m with
  | Request r => Some (req_id r)
  | Response r => Some (resp_id r)
  | ErrorResponse r => Some (eresp_id r)
  | Notification _ => None
  end.

(** *** Deserialization (the derived [Deserialize], [#[serde(untagged)]])

    A struct is read from an object by field name, or from an array by
    position; an [Option] field reads [null] as [None]. *)

Definition de_option (v : Value) : option Value :=
  match v with VNull => None | _ => Some v end.

(** A defaulted [Option<Value>] field that may be absent. *)
Definition de_opt_field (o : option Value) : option Value := o ≫= de_option.

Definition de_i64 (v : Value) : option Z :=
  match v with VNumber n => number_as_i64 n | _ => None end.

Definition de_request (v : Value) : option JsonRpcRequest :=
  match v with
  | VObject l =>
      jsonrpc ← obj_get "jsonrpc" l ≫= as_str;
      id ← obj_get "id" l;
      method ← obj_get "method" l ≫= as_str;
      Some (mkRequest jsonrpc id method (de_opt_field (obj_get "params" l)))
  | VArray (j :: i :: m :: rest) =>
      jsonrpc ← as_str j; method ← as_str m;
      match rest with
      | [] => Some (mkRequest jsonrpc i method None)
      | [p] => Some (mkRequest jsonrpc i method (de_option p))
      | _ => None
      end
  | _ => None
  end.

Definition de_response (v : Value) : option JsonRpcResponse :=
  match v with
  | VObject l =>
      jsonrpc ← obj_get "jsonrpc" l ≫= as_str;
      id ← obj_get "id" l;
      result ← obj_get "result" l;
      Some (mkResponse jsonrpc id result)
  | VArray [j; i; r] => jsonrpc ← as_str j; Some (mkResponse jsonrpc i r)
  | _ => None
  end.

Definition de_error (v : Value) : option JsonRpcError :=
  match v with
  | VObject l =>
      code ← obj_get "code" l ≫= de_i64;
      message ← obj_get "message" l ≫= as_str;
      Some (mkError code message (de_opt_field (obj_get "data" l)))
  | VArray (c :: m :: rest) =>
      code ← de_i64 c; message ← as_str m;
      match rest with
      | [] => Some (mkError code message None)
      | [d] => Some (mkError code message (de_option d))
      | _ => None
      end
  | _ => None
  end.

Definition de_error_response (v : Value) : option JsonRpcErrorResponse :=
  match v with
  | VObject l =>
      jsonrpc ← obj_get "jsonrpc" l ≫= as_str;
      id ← obj_get "id" l;
      error ← obj_get "error" l ≫= de_error;
      Some (mkErrorResponse jsonrpc id error)
  | VArray [j; i; e] =>
      jsonrpc ← as_str j; error ← de_error e; Some (mkErrorResponse jsonrpc i error)
  | _ => None
  end.

Definition de_notification (v : Value) : option JsonRpcNotification :=
  match v with
  | VObject l =>
      jsonrpc ← obj_get "jsonrpc" l ≫= as_str;
      method ← obj_get "method" l ≫= as_str;
      Some (mkNotification jsonrpc method (de_opt_field (obj_get "params" l)))
  | VArray (j :: m :: rest) =>
      jsonrpc ← as_str j; method ← as_str m;
      match rest with
      | [] => Some (mkNotification jsonrpc method None)
      | [p] => Some (mkNotification jsonrpc method (de_option p))
      | _ => None
      end
  | _ => None
  end.

(** [serde_json::from_value::<JsonRpcMessage>]: the first variant that reads. *)
Definition message_from_value (v : Value) : option JsonRpcMessage :=
  match de_request v with
  | Some r => Some (Request r)
  | None =>
  match de_response v with
  | Some r => Some (Response r)
  | None =>
  match de_error_response v with
  | Some r => Some (ErrorResponse r)
  | None => Notification <$> de_notification v
  end end end.

(** *** Serialization: the fields in declaration order, [None] skipped. *)

Definition ser_opt (k : string) (o : option Value) : list (string * Value) :=
  match o with Some v => [(k, v)] | None => [] end.

(** [Value::from(i64)]. *)
Definition number_of_i64 (z : Z) : Value :=
  VNumber (if z <? 0 then NegInt z else PosInt z).

Definition ser_error (e : JsonRpcError) : Value :=
  VObject ([("code", number_of_i64 (err_code e)); ("message", VString (err_message e))]
             ++ ser_opt "data" (err_data e)).

Definition message_to_value (m : JsonRpcMessage) : Value :=
  match m with
  | Request r =>
      VObject ([("jsonrpc", VString (req_jsonrpc r)); ("id", req_id r);
                ("method", VString (req_method r))] ++ ser_opt "params" (req_params r))
  | Response r =>
      VObject [("jsonrpc", VString (resp_jsonrpc r)); ("id", resp_id r);
               ("result", resp_result r)]
  | ErrorResponse r =>
      VObject [("jsonrpc", VString (eresp_jsonrpc r)); ("id", eresp_id r);
               ("error", ser_error (eresp_error r))]
  | Notification n =>
      VObject ([("jsonrpc", VString (notif_jsonrpc n)); ("method", VString (notif_method n))]
                 ++ ser_opt "params" (notif_params n))
  end.

(** ** Validation ([core/validation.rs]) *)

Definition validate_message_size (content : string) : bool :=
  str_len content <=? MAX_MESSAGE_SIZE.

Definition validate_message (value : Value) : option JsonRpcMessage :=
  jsonrpc ← get value "jsonrpc" ≫= as_str;
  if negb (String.eqb jsonrpc "2.0") then None else message_from_value value.

Definition validate_and_parse `{SerdeJson} (content : string) : option JsonRpcMessage :=
  if negb (validate_message_size content) then None
  else value ← from_str content; validate_message value.

Definition validate_and_parse_oversized `{SerdeJson} (content : string) (max_bytes : Z)
  : option JsonRpcMessage :=
  if max_bytes <? str_len content then None
  else value ← from_str content; validate_message value.

(** ** Tags ([core/serializers.rs])

    A Nostr tag is the vector of strings [Tag::to_vec] returns. *)

Abbreviation Tag := (list string).

Fixpoint get_tag_value (tags : list Tag) (name : string) : option string :=
  match tags with
  | [] => None
  | tag :: rest =>
      match (if decide (head tag = Some name) then tag !! 1%nat else None) with
      | Some v => Some v
      | None => get_tag_value rest name
      end
  end.

(** ** Messages survive the wire *)

(** A payload that text represents exactly, in the form a [Value] has. *)
Definition payload_ok (v : Value) : bool := json_exact v && bool_decide (json_norm v = v).

(** An optional payload: present payloads are not [null], which reads as absent. *)
Definition opt_payload_ok (o : option Value) : bool :=
  match o with Some v => payload_ok v && negb (bool_decide (v = VNull)) | None => true end.

Definition message_ok (m : JsonRpcMessage) : bool :=
  match m with
  | Request r => String.eqb (req_jsonrpc r) "2.0" && payload_ok (req_id r) && opt_payload_ok (req_params r)
  | Response r => String.eqb (resp_jsonrpc r) "2.0" && payload_ok (resp_id r) && payload_ok (resp_result r)
  | ErrorResponse r =>
      String.eqb (eresp_jsonrpc r) "2.0" && payload_ok (eresp_id r)
      && in_i64 (err_code (eresp_error r)) && opt_payload_ok (err_data (eresp_error r))
  | Notification n => String.eqb (notif_jsonrpc n) "2.0" && opt_payload_ok (notif_params n)
  end.

Lemma payload_ok_spec v : payload_ok v = true ↔ json_exact v = true ∧ json_norm v = v.
Proof. unfold payload_ok. by rewrite andb_true_iff, bool_decide_eq_true. Qed.

Lemma opt_payload_ok_spec o :
  opt_payload_ok o = true ↔ o = None ∨ ∃ v, o = Some v ∧ json_exact v = true ∧ json_norm v = v ∧ v ≠ VNull.
Proof.
  destruct o as [v|]; cbn; [|naive_solver].
  rewrite andb_true_iff, payload_ok_spec, negb_true_iff, bool_decide_eq_false. naive_solver.
Qed.

Lemma de_option_id v : v ≠ VNull → de_option v = Some v.
Proof. by destruct v. Qed.

#[global] Arguments number_of_i64 : simpl never.

Lemma de_i64_number z : in_i64 z = true → de_i64 (json_norm (number_of_i64 z)) = Some z.
Proof.
  unfold number_of_i64. intros H. by destruct (z <? 0); cbn; rewrite H.
Qed.

Lemma number_of_i64_exact z : in_i64 z = true → json_exact (number_of_i64 z) = true.
Proof.
  unfold in_i64, number_of_i64, i64_min, i64_max. intros H. b2p.
  destruct (z <? 0) eqn:E; cbn; b2p.
  - apply andb_true_iff. split; [apply Z.leb_le|apply Z.ltb_lt]; unfold i64_min; lia.
  - apply in_u64_spec. unfold u64_modulus. lia.
Qed.

Lemma message_to_value_exact m : message_ok m = true → json_exact (message_to_value m) = true.
Proof.
  destruct m as [[? ? ? o]|[]|[? ? [? ? o]]|[? ? o]]; cbn; intros H; b2p;
    rewrite ?payload_ok_spec, ?opt_payload_ok_spec in *; destruct_and?;
    repeat match goal with H : _ ∨ _ |- _ => destruct H as [-> | (? & -> & ? & _)] end; cbn;
    rewrite ?number_of_i64_exact by done; cbn;
    repeat match goal with H : json_exact _ = true |- _ => rewrite H; clear H end; done.
Qed.

(** The fields of a message, read back from its normalised text. *)
Lemma message_from_norm m :
  message_ok m = true → validate_message (json_norm (message_to_value m)) = Some m.
Proof.
  destruct m as [[? ? ? o]|[]|[? ? [? ? o]]|[? ? o]]; cbn [message_ok]; intros H; b2p;
    cbn in *; subst; rewrite ?payload_ok_spec, ?opt_payload_ok_spec in *; destruct_and?;
    repeat match goal with H : _ ∨ _ |- _ => destruct H as [-> | (v & -> & ? & ? & ?)] end;
    unfold validate_message, message_from_value, de_request, de_response, de_error_response,
      de_error, de_notification, ser_error; cbn [ser_opt app map fst snd json_norm get];
    rewrite ?obj_get_of_list by done; cbn;
    rewrite ?obj_get_of_list by done; cbn;
    repeat match goal with H : json_norm _ = _ |- _ => rewrite H; clear H end;
    rewrite ?de_i64_number, ?de_option_id by done; done.
Qed.

(** The text of a well-formed message within the size limit of the reader is
    read back to that message. *)
Lemma parse_message_text `{SerdeJsonLaws} m :
  message_ok m = true → (json_depth (message_to_value m) <= RECURSION_LIMIT)%nat →
  (value ← from_str (to_string (message_to_value m)); validate_message value) = Some m.
Proof.
  intros Hm Hd. rewrite from_str_to_string by eauto using message_to_value_exact.
  by apply message_from_norm.
Qed.
