(* ===== verification/OversizedFrame.v ===== *)
(** * CEP-22 oversized transfer: constants, errors and frames

    Models [src/transport/oversized_transfer/constants.rs], [errors.rs],
    [frame.rs] and the configuration of [mod.rs]. *)

From S2P Require Import Prelude Json CoreTypes.

(** ** Constants *)

Definition OVERSIZED_TRANSFER_TYPE : string := "oversized-transfer".
Definition DIGEST_PREFIX : string := "sha256:".
Definition NOTIFICATIONS_PROGRESS_METHOD : string := "notifications/progress".
Definition DEFAULT_CHUNK_SIZE : Z := 48000.
Definition DEFAULT_OVERSIZED_THRESHOLD : Z := 48000.
Definition DEFAULT_MAX_TRANSFER_BYTES : Z := 100 * 1024 * 1024.
Definition DEFAULT_MAX_TRANSFER_CHUNKS : Z := 10000.
Definition DEFAULT_MAX_CONCURRENT_TRANSFERS : Z := 64.
Definition DEFAULT_TRANSFER_TIMEOUT_MS : Z := 5 * 60 * 1000.
Definition DEFAULT_MAX_OUT_OF_ORDER_WINDOW : Z := 21.
Definition DEFAULT_MAX_OUT_OF_ORDER_CHUNKS : Z := 42.
Definition DEFAULT_ACCEPT_TIMEOUT_MS : Z := 30000.
Definition START_PROGRESS : Z := 1.
Definition ACCEPT_PROGRESS : Z := 2.

(** ** Errors *)

Inductive OversizedTransferError : Type :=
| Abort (token : string) (reason : option string)
| Policy (msg : string)
| Digest (msg : string)
| Reassembly (msg : string)
| Sequence (msg : string).

#[export] Instance OversizedTransferError_eq_dec : EqDecision OversizedTransferError.
Proof. solve_decision. Defined.

Definition is_abort (e : OversizedTransferError) : bool :=
  match e with Abort _ _ => true | _ => false end.

(** ** Frames *)

Inductive CompletionMode : Type := Render.

Inductive OversizedFrame : Type :=
| Start (completion_mode : CompletionMode) (digest : string) (total_bytes total_chunks : Z)
| Accept
| Chunk (data : string)
| End
| AbortFrame (reason : option string).

#[export] Instance CompletionMode_eq_dec : EqDecision CompletionMode.
Proof. solve_decision. Defined.
#[export] Instance OversizedFrame_eq_dec : EqDecision OversizedFrame.
Proof. solve_decision. Defined.

Definition frame_type (f : OversizedFrame) : string :=
  match f with
  | Start _ _ _ _ => "start"
  | Accept => "accept"
  | Chunk _ => "chunk"
  | End => "end"
  | AbortFrame _ => "abort"
  end.

(** The derived [Serialize] (internally tagged on [frameType], camelCase). *)
Definition frame_fields (f : OversizedFrame) : list (string * Value) :=
  match f with
  | Start Render digest total_bytes total_chunks =>
      [("completionMode", VString "render"); ("digest", VString digest);
       ("totalBytes", number_of_u64 total_bytes); ("totalChunks", number_of_u64 total_chunks)]
  | Chunk data => [("data", VString data)]
  | AbortFrame (Some reason) => [("reason", VString reason)]
  | _ => []
  end.

(** [OversizedFrame::to_cvm_value].  The derived serialization of these types
    has string keys only, so [serde_json::to_value] does not fail. *)
Definition to_cvm_value (f : OversizedFrame) : Value :=
  VObject (obj_insert "type" (VString OVERSIZED_TRANSFER_TYPE)
             (obj_of_list (("frameType", VString (frame_type f)) :: frame_fields f))).

(** The derived [Deserialize] of [CompletionMode]: the variant name, or an
    object with the variant name as its only key and no content. *)
Definition de_completion_mode (v : Value) : option CompletionMode :=
  match v with
  | VString s => if String.eqb s "render" then Some Render else None
  | VObject [(k, VNull)] | VObject [(k, VObject [])] =>
      if String.eqb k "render" then Some Render else None
  | _ => None
  end.

(** The derived [Deserialize] of [OversizedFrame] on an object; unknown fields
    are ignored. *)
Definition frame_from_value (v : Value) : option OversizedFrame :=
  match v with
  | VObject l =>
      tag ← obj_get "frameType" l ≫= as_str;
      if String.eqb tag "start" then
        mode ← obj_get "completionMode" l ≫= de_completion_mode;
        digest ← obj_get "digest" l ≫= as_str;
        total_bytes ← obj_get "totalBytes" l ≫= as_u64;
        total_chunks ← obj_get "totalChunks" l ≫= as_u64;
        Some (Start mode digest total_bytes total_chunks)
      else if String.eqb tag "accept" then Some Accept
      else if String.eqb tag "chunk" then
        data ← obj_get "data" l ≫= as_str; Some (Chunk data)
      else if String.eqb tag "end" then Some End
      else if String.eqb tag "abort" then
        match obj_get "reason" l with
        | None | Some VNull => Some (AbortFrame None)
        | Some (VString r) => Some (AbortFrame (Some r))
        | Some _ => None
        end
      else None
  | _ => None
  end.

(** [OversizedFrame::from_cvm_value] *)
Definition from_cvm_value (value : Value) : option OversizedFrame :=
  if decide (get value "type" ≫= as_str = Some OVERSIZED_TRANSFER_TYPE)
  then frame_from_value value
  else None.

(** [OversizedFrame::is_frame_value] *)
Definition is_frame_value (value : Value) : bool :=
  bool_decide (get value "type" ≫= as_str = Some OVERSIZED_TRANSFER_TYPE)
  && bool_decide (is_Some (get value "frameType" ≫= as_str)).

(** [OversizedFrame::into_progress_notification] *)
Definition into_progress_notification (f : OversizedFrame) (progress_token : string)
    (progress : Z) (message : option string) : JsonRpcNotification :=
  let params := obj_insert "progressToken" (VString progress_token) [] in
  let params := obj_insert "progress" (number_of_u64 progress) params in
  let params := match message with
                | Some m => obj_insert "message" (VString m) params
                | None => params
                end in
  let params := obj_insert "cvm" (to_cvm_value f) params in
  mkNotification "2.0" NOTIFICATIONS_PROGRESS_METHOD (Some (VObject params)).

(** [progress_token_string] *)
Definition progress_token_string `{SerdeJson} (value : Value) : option string :=
  match value with
  | VString s => Some s
  | VNumber n => Some (number_to_string n)
  | _ => None
  end.

(** ** Configuration ([oversized_transfer/mod.rs]) *)

Record OversizedTransferConfig : Type := mkOversizedConfig {
  oc_enabled : bool;
  oc_threshold : Z;
  oc_chunk_size : Z;
  oc_max_transfer_bytes : Z;
  oc_max_transfer_chunks : Z;
  oc_max_concurrent_transfers : Z;
  oc_transfer_timeout_ms : Z;
  oc_max_out_of_order_window : Z;
  oc_max_out_of_order_chunks : Z;
  oc_accept_timeout_ms : Z;
}.

Definition OversizedTransferConfig_default : OversizedTransferConfig := {|
  oc_enabled := true;
  oc_threshold := DEFAULT_OVERSIZED_THRESHOLD;
  oc_chunk_size := DEFAULT_CHUNK_SIZE;
  oc_max_transfer_bytes := DEFAULT_MAX_TRANSFER_BYTES;
  oc_max_transfer_chunks := DEFAULT_MAX_TRANSFER_CHUNKS;
  oc_max_concurrent_transfers := DEFAULT_MAX_CONCURRENT_TRANSFERS;
  oc_transfer_timeout_ms := DEFAULT_TRANSFER_TIMEOUT_MS;
  oc_max_out_of_order_window := DEFAULT_MAX_OUT_OF_ORDER_WINDOW;
  oc_max_out_of_order_chunks := DEFAULT_MAX_OUT_OF_ORDER_CHUNKS;
  oc_accept_timeout_ms := DEFAULT_ACCEPT_TIMEOUT_MS;
|}.

Record TransferPolicy : Type := mkPolicy {
  max_transfer_bytes : Z;
  max_transfer_chunks : Z;
  max_concurrent_transfers : Z;
  max_out_of_order_window : Z;
  max_out_of_order_chunks : Z;
  transfer_timeout_ms : Z;
}.

Definition TransferPolicy_default : TransferPolicy := {|
  max_transfer_bytes := DEFAULT_MAX_TRANSFER_BYTES;
  max_transfer_chunks := DEFAULT_MAX_TRANSFER_CHUNKS;
  max_concurrent_transfers := DEFAULT_MAX_CONCURRENT_TRANSFERS;
  max_out_of_order_window := DEFAULT_MAX_OUT_OF_ORDER_WINDOW;
  max_out_of_order_chunks := DEFAULT_MAX_OUT_OF_ORDER_CHUNKS;
  transfer_timeout_ms := DEFAULT_TRANSFER_TIMEOUT_MS;
|}.

(** [impl From<&OversizedTransferConfig> for TransferPolicy] *)
Definition policy_of_config (c : OversizedTransferConfig) : TransferPolicy := {|
  max_transfer_bytes := oc_max_transfer_bytes c;
  max_transfer_chunks := oc_max_transfer_chunks c;
  max_concurrent_transfers := oc_max_concurrent_transfers c;
  max_out_of_order_window := oc_max_out_of_order_window c;
  max_out_of_order_chunks := oc_max_out_of_order_chunks c;
  transfer_timeout_ms := oc_transfer_timeout_ms c;
|}.

(** ** Frames survive the [cvm] object *)

Lemma nodup_frame_fields f : nodup_keys (("frameType", VString (frame_type f)) :: frame_fields f) = true.
Proof. by destruct f as [[]| | | |[]]. Qed.

Lemma get_cvm_type f : get (to_cvm_value f) "type" = Some (VString OVERSIZED_TRANSFER_TYPE).
Proof. unfold to_cvm_value. cbn [get]. by rewrite obj_get_insert. Qed.

Lemma get_cvm_field f k :
  String.eqb k "type" = false →
  get (to_cvm_value f) k = obj_get k (("frameType", VString (frame_type f)) :: frame_fields f).
Proof.
  intros Hk. unfold to_cvm_value. cbn [get].
  by rewrite obj_get_insert, Hk, obj_get_of_list by apply nodup_frame_fields.
Qed.

(** The declared sizes of a start frame are [u64] values. *)
Definition frame_ok (f : OversizedFrame) : bool :=
  match f with Start _ _ b c => in_u64 b && in_u64 c | _ => true end.

Lemma from_to_cvm_value f : frame_ok f = true → from_cvm_value (to_cvm_value f) = Some f.
Proof.
  intros Hok.
  unfold from_cvm_value. rewrite get_cvm_type. cbn [mbind option_bind as_str].
  rewrite decide_True by done. unfold frame_from_value.
  pose proof (λ k, get_cvm_field f k) as Hget. unfold to_cvm_value in *. cbn [get] in Hget.
  rewrite !Hget by done. destruct f as [[]| | | |[]]; try done.
  cbn in *. b2p. by repeat match goal with H : in_u64 _ = true |- _ => rewrite H; clear H end.
Qed.

(** The parameters of a frame's notification. *)
Lemma notification_params f t p m :
  ∃ params, notif_params (into_progress_notification f t p m) = Some (VObject params) ∧
    obj_get "cvm" params = Some (to_cvm_value f) ∧
    obj_get "progressToken" params = Some (VString t) ∧
    obj_get "progress" params = Some (number_of_u64 p).
Proof.
  eexists. split; [done|]. destruct m; by rewrite !obj_get_insert.
Qed.

(** A frame that was read has sizes in range. *)
Lemma from_cvm_value_ok v f : from_cvm_value v = Some f → frame_ok f = true.
Proof.
  unfold from_cvm_value, frame_from_value. intros Hf. case_decide; [|done].
  destruct v; try done. destruct (obj_get "frameType" entries ≫= as_str) as [tag|]; [|done].
  cbn in Hf. destruct (String.eqb tag "start").
  2:{ destruct (obj_get "data" entries ≫= as_str); by repeat case_match; simplify_eq/=. }
  repeat match goal with H : context [_ ≫= _] |- _ => apply bind_Some in H as (? & ? & ?) end.
  simplify_eq. unfold as_u64, number_as_u64 in *. repeat case_match; simplify_eq. cbn.
  apply andb_true_iff. by split.
Qed.
