(* ===== verification/OversizedCodec.v ===== *)
(** * CEP-22 oversized transfer: splitting, building, sizing and sending

    Models [src/transport/oversized_transfer/codec.rs], [sizing.rs] and
    [sender.rs].  SHA-256 with hex encoding is third-party code: a field of the
    class [Sha256]. *)

From S2P Require Import Prelude Json CoreTypes OversizedFrame.

(** [hex::encode] of the SHA-256 of the bytes of a string. *)
Class Sha256 := sha256_hex : string → string.

(** ** UTF-8

    A Rust [char] of a [str] is the byte string of its encoding; the lead byte
    gives its width. *)

Definition byte_of (a : Ascii.ascii) : Z := Z.of_N (Ascii.N_of_ascii a).

Definition utf8_width (lead : Ascii.ascii) : nat :=
  let b := byte_of lead in
  if b <? 128 then 1%nat else if b <? 224 then 2%nat else if b <? 240 then 3%nat else 4%nat.

Fixpoint take_bytes (n : nat) (s : string) : string :=
  match n, s with
  | S n', String a s' => String a (take_bytes n' s')
  | _, _ => EmptyString
  end.

Fixpoint drop_bytes (n : nat) (s : string) : string :=
  match n, s with
  | S n', String _ s' => drop_bytes n' s'
  | _, _ => s
  end.

Fixpoint chars_fuel (fuel : nat) (s : string) : list string :=
  match fuel, s with
  | S fuel', String a _ =>
      let w := utf8_width a in
      take_bytes w s :: chars_fuel fuel' (drop_bytes w s)
  | _, _ => []
  end.

(** [str::chars], each character as its bytes.  A character has at least one
    byte, so the length of the string is enough fuel. *)
Definition chars (s : string) : list string := chars_fuel (String.length s) s.

(** [str::len] of a character is [char::len_utf8]. *)
Definition len_utf8 (ch : string) : Z := str_len ch.

Definition is_cont (a : Ascii.ascii) : bool :=
  let b := byte_of a in (128 <=? b) && (b <? 192).

(** The well-formed encodings of Unicode scalar values (RFC 3629). *)
Definition valid_char (c : string) : bool :=
  match c with
  | String a EmptyString => byte_of a <? 128
  | String a (String b EmptyString) => (194 <=? byte_of a) && (byte_of a <? 224) && is_cont b
  | String a (String b (String d EmptyString)) =>
      is_cont b && is_cont d &&
      (if byte_of a =? 224 then 160 <=? byte_of b
       else if byte_of a =? 237 then byte_of b <? 160
       else (225 <=? byte_of a) && (byte_of a <? 240))
  | String a (String b (String d (String e EmptyString))) =>
      is_cont b && is_cont d && is_cont e &&
      (if byte_of a =? 240 then 144 <=? byte_of b
       else if byte_of a =? 244 then byte_of b <? 144
       else (241 <=? byte_of a) && (byte_of a <? 244))
  | _ => false
  end.

(** The validity invariant of the type [str]. *)
Definition valid_utf8 (s : string) : bool := forallb valid_char (chars s).

(** ** The codec ([codec.rs]) *)

Definition utf8_byte_len (value : string) : Z := str_len value.

Definition sha256_digest `{Sha256} (value : string) : string :=
  DIGEST_PREFIX +:+ sha256_hex value.

(** The loop of [split_string_by_byte_size]. *)
Fixpoint split_loop (max_bytes : Z) (chs : list string)
    (chunks : list string) (current : string) (current_bytes : Z)
  : result (list string) OversizedTransferError :=
  match chs with
  | [] => Ok (if str_is_empty current then chunks else chunks ++ [current])
  | ch :: chs' =>
      let char_bytes := len_utf8 ch in
      if max_bytes <? char_bytes then
        Err (Policy ("Unable to split message: single character exceeds chunk size ("
                     +:+ show_Z char_bytes +:+ " > " +:+ show_Z max_bytes +:+ ")"))
      else
        let '(chunks, current, current_bytes) :=
          if (0 <? current_bytes) && (max_bytes <? current_bytes + char_bytes)
          then (chunks ++ [current], "", 0)
          else (chunks, current, current_bytes) in
        split_loop max_bytes chs' chunks (current +:+ ch) (current_bytes + char_bytes)
  end.

Definition split_string_by_byte_size (value : string) (max_bytes : Z)
  : result (list string) OversizedTransferError :=
  if max_bytes =? 0 then Err (Policy "chunk_size_bytes must be greater than zero")
  else split_loop max_bytes (chars value) [] "" 0.

Record OversizedSenderOptions : Type := mkSenderOptions {
  progress_token : string;
  chunk_size_bytes : Z;
  needs_accept_handshake : bool;
}.

Definition OversizedSenderOptions_new (token : string) : OversizedSenderOptions :=
  mkSenderOptions token DEFAULT_CHUNK_SIZE false.
Definition with_chunk_size (o : OversizedSenderOptions) (n : Z) : OversizedSenderOptions :=
  mkSenderOptions (progress_token o) n (needs_accept_handshake o).
Definition with_accept_handshake (o : OversizedSenderOptions) (b : bool) : OversizedSenderOptions :=
  mkSenderOptions (progress_token o) (chunk_size_bytes o) b.

Record BuiltOversizedFrames : Type := mkBuilt {
  built_start : JsonRpcNotification;
  built_chunks : list JsonRpcNotification;
  built_end : JsonRpcNotification;
}.

Definition frame_count (b : BuiltOversizedFrames) : Z := Z.of_nat (length (built_chunks b)) + 2.

Definition into_ordered (b : BuiltOversizedFrames) : list JsonRpcNotification :=
  [built_start b] ++ built_chunks b ++ [built_end b].

(** [chunk_base_progress] of [build_oversized_frames] *)
Definition chunk_base_progress (o : OversizedSenderOptions) : Z :=
  if needs_accept_handshake o then u64_add ACCEPT_PROGRESS 1 else ACCEPT_PROGRESS.

(** The body of the [for] loop of [build_oversized_frames]. *)
Definition chunk_notification (token : string) (base : Z) (i : nat) (data : string)
  : JsonRpcNotification :=
  into_progress_notification (Chunk data) token (u64_add base (Z.of_nat i)) None.

Definition build_oversized_frames `{Sha256} (serialized : string) (options : OversizedSenderOptions)
  : result BuiltOversizedFrames OversizedTransferError :=
  let total_bytes := utf8_byte_len serialized in
  let digest := sha256_digest serialized in
  let? text_chunks := split_string_by_byte_size serialized (chunk_size_bytes options) in
  let total_chunks := Z.of_nat (length text_chunks) in
  let base := chunk_base_progress options in
  let token := progress_token options in
  let start := into_progress_notification (Start Render digest total_bytes total_chunks)
                 token START_PROGRESS (Some "starting oversized transfer") in
  let chunks := imap (chunk_notification token base) text_chunks in
  let end_ := into_progress_notification End token (u64_add base total_chunks)
                (Some "oversized transfer complete") in
  Ok (mkBuilt start chunks end_).

(** ** Sizing ([sizing.rs]) *)

Definition SIZING_PROBE_TOKEN : string := "00000000-0000-0000-0000-000000000000".
Definition SIZING_PROBE_PROGRESS : Z := 2.

Fixpoint repeat_str (c : string) (n : nat) : string :=
  match n with O => EmptyString | S n' => c +:+ repeat_str c n' end.

Section sizing.
(** [BaseTransport::prepare_mcp_message] for the recipient, tags and
    encryption settings of the call, then [serde_json::to_string]: the text of
    the event that would be published, or an error. *)
Context {E : Type} (published_text : JsonRpcNotification → result string E).

Definition measure_published_event_size (frame : JsonRpcNotification) : result Z E :=
  let? text := published_text frame in Ok (str_len text).

Definition sizing_probe (mid : Z) : JsonRpcNotification :=
  into_progress_notification (Chunk (repeat_str "\" (Z.to_nat mid)))
    SIZING_PROBE_TOKEN SIZING_PROBE_PROGRESS None.

(** Whether a chunk of [mid] worst-case bytes fits ([fits] of the loop body). *)
Definition fits (max_event_bytes mid : Z) : bool :=
  match measure_published_event_size (sizing_probe mid) with
  | Ok size => size <=? max_event_bytes
  | Err _ => false
  end.

(** The binary search; [None] when the fuel is used up. *)
Fixpoint resolve_loop (max_event_bytes : Z) (fuel : nat) (low high best : Z) : option Z :=
  if high <? low then Some best
  else match fuel with
       | O => None
       | S fuel' =>
           let mid := low + (high - low) / 2 in
           if fits max_event_bytes mid
           then resolve_loop max_event_bytes fuel' (mid + 1) high mid
           else resolve_loop max_event_bytes fuel' low (mid - 1) best
       end.

(** The search halves its interval: [log2 desired + 1] iterations are enough. *)
Definition resolve_safe_chunk_size (desired max_event_bytes : Z) : option Z :=
  let high := Z.max desired 1 in
  resolve_loop max_event_bytes (S (Z.to_nat (Z.log2 high))) 1 high 1.
End sizing.

(** ** The sending driver ([sender.rs]) *)

Definition progress_token_of (frame : JsonRpcNotification) : string :=
  default "" (params ← notif_params frame; token ← get params "progressToken"; as_str token).

(** How waiting on the accept waiter ends. *)
Inductive AcceptOutcome : Type := Accepted | WaiterDropped | TimedOut.

Section sender.
(** [publish] with its captured state, and the conversion of an
    oversized-transfer error into the crate error. *)
Context {S EventId E : Type} (of_oversized : OversizedTransferError → E)
        (publish : S → JsonRpcNotification → S * result EventId E).

Fixpoint publish_all (s : S) (frames : list JsonRpcNotification) : S * result () E :=
  match frames with
  | [] => (s, Ok ())
  | f :: frames' =>
      match publish s f with
      | (s', Ok _) => publish_all s' frames'
      | (s', Err e) => (s', Err e)
      end
  end.

Definition send_oversized_transfer (s : S) (frames : BuiltOversizedFrames)
    (needs_accept : bool) (await_accept : option AcceptOutcome) : S * result EventId E :=
  let token := progress_token_of (built_start frames) in
  match publish s (built_start frames) with
  | (s1, Err e) => (s1, Err e)
  | (s1, Ok _) =>
      let accepted : result () E :=
        if needs_accept then
          match await_accept with
          | Some Accepted => Ok ()
          | Some _ => Err (of_oversized (Abort token (Some "timed out waiting for accept frame")))
          | None => Err (of_oversized (Abort token (Some "no accept waiter registered")))
          end
        else Ok () in
      match accepted with
      | Err e => (s1, Err e)
      | Ok _ =>
          match publish_all s1 (built_chunks frames) with
          | (s2, Err e) => (s2, Err e)
          | (s2, Ok _) => publish s2 (built_end frames)
          end
      end
  end.
End sender.

(** ** Lemmas: UTF-8 *)

Lemma utf8_width_pos a : (0 < utf8_width a)%nat.
Proof. unfold utf8_width. repeat case_match; lia. Qed.

Lemma take_drop_bytes n s : take_bytes n s +:+ drop_bytes n s = s.
Proof.
  revert s. induction n as [|n IH]; intros [|a s]; try done.
  cbn [take_bytes drop_bytes]. cbn. by f_equal.
Qed.

Lemma length_drop_bytes n s : (String.length (drop_bytes n s) <= String.length s - n)%nat.
Proof.
  revert s. induction n as [|n IH]; intros [|a s]; cbn; try lia.
  specialize (IH s). lia.
Qed.

Lemma take_bytes_append c s : take_bytes (String.length c) (c +:+ s) = c.
Proof. induction c as [|a c IH]; [by destruct s|]. cbn. by f_equal. Qed.

Lemma drop_bytes_append c s : drop_bytes (String.length c) (c +:+ s) = s.
Proof. induction c as [|a c IH]; [by destruct s|]. done. Qed.

Lemma length_drop_width a s n :
  (String.length (String a s) <= S n)%nat →
  (String.length (drop_bytes (utf8_width a) (String a s)) <= n)%nat.
Proof.
  intros Hn. pose proof (length_drop_bytes (utf8_width a) (String a s)).
  pose proof (utf8_width_pos a). cbn in *. lia.
Qed.

Lemma chars_fuel_enough n m s :
  (String.length s <= n)%nat → (String.length s <= m)%nat → chars_fuel n s = chars_fuel m s.
Proof.
  revert m s. induction n as [|n IH]; intros [|m] [|a s] Hn Hm; try done; [cbn in *; lia..|].
  cbn [chars_fuel]. f_equal. apply IH; by apply length_drop_width.
Qed.

Lemma concat_chars s : concat_str (chars s) = s.
Proof.
  unfold chars. generalize (le_n (String.length s)).
  generalize (String.length s) at 2 3 as n.
  intros n. revert s. induction n as [|n IH]; intros [|a s] Hn; try done; [cbn in *; lia|].
  cbn [chars_fuel concat_str]. rewrite IH by by apply length_drop_width.
  apply take_drop_bytes.
Qed.

Lemma chars_nonempty s : Forall (λ c, c ≠ "") (chars s).
Proof.
  unfold chars. generalize (String.length s) as n. intros n. revert s.
  induction n as [|n IH]; intros [|a s]; cbn [chars_fuel]; constructor; [|apply IH].
  destruct (utf8_width a) eqn:E; [|done]. pose proof (utf8_width_pos a). lia.
Qed.

Lemma valid_char_width c : valid_char c = true → ∃ a r, c = String a r ∧ utf8_width a = String.length c.
Proof.
  destruct c as [|a r]; [done|]. intros Hc. exists a, r. split; [done|].
  unfold utf8_width. destruct r as [|b [|d [|e []]]]; cbn in Hc |- *; b2p; try done;
    repeat (case_match; b2p); try done; lia.
Qed.

Lemma valid_char_len c : valid_char c = true → 0 < len_utf8 c ≤ 4.
Proof.
  destruct c as [|a [|b [|d [|e []]]]]; cbn; try done; unfold len_utf8, str_len; cbn; lia.
Qed.

Lemma chars_cons c s : valid_char c = true → chars (c +:+ s) = c :: chars s.
Proof.
  intros (a & r & -> & Hw)%valid_char_width. unfold chars.
  assert (∃ n, String.length (String a r +:+ s) = S n ∧ (String.length s <= n)%nat) as (n & Hn & Hs).
  { rewrite length_append. cbn. eexists. split; [done|lia]. }
  rewrite Hn. change (String a r +:+ s) with (String a (r +:+ s)). cbn [chars_fuel].
  change (String a (r +:+ s)) with (String a r +:+ s).
  rewrite Hw, take_bytes_append, drop_bytes_append. f_equal. by apply chars_fuel_enough.
Qed.

(** Characters that are put together are the characters of the result. *)
Lemma chars_concat g : Forall (λ c, valid_char c = true) g → chars (concat_str g) = g.
Proof.
  induction 1 as [|c g Hc _ IH]; [done|]. cbn [concat_str]. by rewrite chars_cons, IH.
Qed.

(** ** Lemmas: splitting *)

Lemma str_is_empty_spec s : str_is_empty s = true ↔ s = "".
Proof. apply String.eqb_eq. Qed.

Lemma str_len_pos s : s ≠ "" → 0 < str_len s.
Proof. destruct s; [done|]. unfold str_len. cbn. lia. Qed.

Lemma concat_str_pos g : g ≠ [] → Forall (λ c, c ≠ "") g → 0 < str_len (concat_str g).
Proof.
  destruct g as [|c g]; [done|]. intros _ [Hc _]%Forall_cons. cbn [concat_str].
  rewrite str_len_append. pose proof (str_len_pos c Hc). pose proof (str_len_nonneg (concat_str g)). lia.
Qed.

(** A piece of the output: a non-empty group of characters that fits. *)
Definition good_group (max_bytes : Z) (g : list string) : Prop :=
  g ≠ [] ∧ Forall (λ c, c ≠ "") g ∧ str_len (concat_str g) ≤ max_bytes.

(** The loop groups the characters it reads, in order. *)
Lemma split_loop_groups max chs : ∀ groups cur cs,
  Forall (good_group max) groups → Forall (λ c, c ≠ "") cur → str_len (concat_str cur) ≤ max →
  Forall (λ c, c ≠ "") chs →
  split_loop max chs (map concat_str groups) (concat_str cur) (str_len (concat_str cur)) = Ok cs →
  ∃ out, cs = map concat_str out ∧ concat out = concat groups ++ cur ++ chs ∧
         Forall (good_group max) out.
Proof.
  induction chs as [|ch chs IH]; intros groups cur cs Hg Hcur Hlen Hchs Hs.
  - cbn in Hs. injection Hs as <-. destruct cur as [|c cur].
    + exists groups. by rewrite !app_nil_r.
    + exists (groups ++ [c :: cur]). pose proof (concat_str_pos (c :: cur)) as Hpos.
      destruct (str_is_empty _) eqn:E.
      { apply str_is_empty_spec in E. rewrite E in Hpos. unfold str_len in Hpos. cbn in Hpos.
        specialize (Hpos ltac:(done) Hcur). lia. }
      rewrite map_app, concat_app. cbn. rewrite !app_nil_r. split_and!; [done..|].
      apply Forall_app. split; [done|]. apply Forall_singleton. by split.
  - cbn [split_loop] in Hs. apply Forall_cons in Hchs as [Hch Hchs].
    destruct (max <? len_utf8 ch) eqn:Ebig; [done|]. b2p. unfold len_utf8 in *.
    destruct ((0 <? str_len (concat_str cur)) && _) eqn:E; cbn in Hs.
    + b2p. assert (cur ≠ []) as Hne by (intros ->; cbn in *; unfold str_len in *; cbn in *; lia).
      destruct (IH (groups ++ [cur]) [ch] cs) as (out & -> & Hc & Ho); [| |..|].
      * apply Forall_app. split; [done|]. by apply Forall_singleton.
      * by apply Forall_singleton.
      * cbn. by rewrite append_nil_r.
      * done.
      * rewrite map_app. cbn. by rewrite append_nil_r.
      * exists out. split_and!; [done| |done]. rewrite Hc, concat_app. cbn.
        by rewrite app_nil_r, <- !app_assoc.
    + destruct (IH groups (cur ++ [ch]) cs) as (out & -> & Hc & Ho); [done| | |done| |].
      * apply Forall_app. split; [done|]. by apply Forall_singleton.
      * rewrite concat_str_snoc, str_len_append. apply andb_false_iff in E as [?|?]; b2p; [|lia].
        pose proof (str_len_nonneg (concat_str cur)). lia.
      * by rewrite concat_str_snoc, str_len_append.
      * exists out. split_and!; [done| |done]. by rewrite Hc, <- !app_assoc.
Qed.

Lemma split_groups value max cs :
  split_string_by_byte_size value max = Ok cs →
  ∃ out, cs = map concat_str out ∧ concat out = chars value ∧ Forall (good_group max) out.
Proof.
  unfold split_string_by_byte_size. destruct (max =? 0) eqn:E; [done|]. intros Hs.
  destruct (chars value) as [|c chs] eqn:Hc.
  { cbn in Hs. injection Hs as <-. by exists []. }
  assert (0 ≤ max) as Hmax.
  { cbn [split_loop] in Hs. destruct (max <? len_utf8 c) eqn:E2; [done|]. b2p.
    unfold len_utf8 in E2. pose proof (str_len_nonneg c). lia. }
  destruct (split_loop_groups max (c :: chs) [] [] cs) as (out & -> & Ho & ?); try done.
  - rewrite <- Hc. apply chars_nonempty.
  - by exists out.
Qed.

Lemma concat_map_concat_str (out : list (list string)) :
  concat_str (map concat_str out) = concat_str (concat out).
Proof. induction out as [|g out IH]; cbn; [done|]. by rewrite concat_str_app, IH. Qed.

(** Concatenating the fragments gives back the value. *)
Lemma split_concat value max cs :
  split_string_by_byte_size value max = Ok cs → concat_str cs = value.
Proof.
  intros (out & -> & Hc & _)%split_groups.
  by rewrite concat_map_concat_str, Hc, concat_chars.
Qed.

Lemma split_bounds value max cs :
  split_string_by_byte_size value max = Ok cs → Forall (λ c, 0 < str_len c ≤ max) cs.
Proof.
  intros (out & -> & _ & Ho)%split_groups. apply Forall_fmap. eapply Forall_impl; [done|].
  intros g (Hne & Hg & Hlen). split; [by apply concat_str_pos|done].
Qed.

Lemma split_valid value max cs :
  valid_utf8 value = true → split_string_by_byte_size value max = Ok cs →
  Forall (λ c, valid_utf8 c = true) cs.
Proof.
  intros Hv (out & -> & Hc & _)%split_groups. apply Forall_fmap.
  unfold valid_utf8 in Hv. apply Is_true_true in Hv. rewrite forallb_True in Hv.
  rewrite <- Hc in Hv. clear Hc. induction out as [|g out IH]; constructor.
  - cbn in Hv. apply Forall_app in Hv as [Hg _]. unfold compose, valid_utf8.
    assert (Forall (λ c, valid_char c = true) g) as Hg'.
    { eapply Forall_impl; [done|]. intros. by apply Is_true_true. }
    rewrite chars_concat by done. apply Is_true_true, forallb_True, Hg.
  - apply IH. cbn in Hv. by apply Forall_app in Hv as [_ ?].
Qed.

(** The splitter fails only on a character that does not fit. *)
Lemma split_loop_ok max chs : ∀ chunks cur n,
  Forall (λ c, len_utf8 c ≤ max) chs → is_ok (split_loop max chs chunks cur n) = true.
Proof.
  induction chs as [|c chs IH]; intros chunks cur n Hc; [done|].
  apply Forall_cons in Hc as [Hc Hchs]. cbn [split_loop].
  rewrite (proj2 (Z.ltb_ge _ _)) by done. destruct (_ && _); by apply IH.
Qed.

Lemma split_ok value max :
  valid_utf8 value = true → 4 ≤ max → is_ok (split_string_by_byte_size value max) = true.
Proof.
  intros Hv Hm. unfold split_string_by_byte_size. rewrite (proj2 (Z.eqb_neq _ _)) by lia.
  apply split_loop_ok. unfold valid_utf8 in Hv. apply Is_true_true in Hv.
  rewrite forallb_True in Hv. eapply Forall_impl; [done|]. intros c Hc%Is_true_true.
  pose proof (valid_char_len c Hc). lia.
Qed.

(** ** Lemmas: building *)

Lemma build_inv `{Sha256} serialized o b :
  build_oversized_frames serialized o = Ok b →
  ∃ cs, split_string_by_byte_size serialized (chunk_size_bytes o) = Ok cs ∧
    b = mkBuilt
      (into_progress_notification
         (Start Render (sha256_digest serialized) (str_len serialized) (Z.of_nat (length cs)))
         (progress_token o) START_PROGRESS (Some "starting oversized transfer"))
      (imap (chunk_notification (progress_token o) (chunk_base_progress o)) cs)
      (into_progress_notification End (progress_token o)
         (u64_add (chunk_base_progress o) (Z.of_nat (length cs)))
         (Some "oversized transfer complete")).
Proof.
  unfold build_oversized_frames. rewrite result_bind_Ok. intros (cs & Hs & [= <-]). eauto.
Qed.

(** ** Lemmas: sizing *)

Section sizing_lemmas.
Context {E : Type} (published_text : JsonRpcNotification → result string E) (max : Z).
Let fit := fits published_text max.
Let loop := resolve_loop published_text max.

Lemma mid_bounds low high :
  low ≤ high →
  let mid := low + (high - low) / 2 in
  low ≤ mid ≤ high ∧ 2 * (high - mid) ≤ high - low + 1 ∧ 2 * (mid - low) ≤ high - low.
Proof.
  intros Hl. cbn. pose proof (Z.mul_div_le (high - low) 2).
  pose proof (Z.mul_succ_div_gt (high - low) 2). lia.
Qed.

(** The search ends within the fuel and returns a candidate it has tested. *)
Lemma resolve_loop_spec fuel : ∀ low high best,
  high - low + 1 < 2 ^ Z.of_nat fuel → 1 ≤ low → 1 ≤ best < low ∨ best = 1 ∧ low = 1 →
  best = 1 ∨ fit best = true →
  ∃ r, loop fuel low high best = Some r ∧ (r = best ∨ low ≤ r ≤ high) ∧ (r = 1 ∨ fit r = true).
Proof.
  induction fuel as [|fuel IH]; intros low high best Hf Hl Hb Hfit; cbn [resolve_loop].
  - exists best. unfold loop. cbn. rewrite (proj2 (Z.ltb_lt _ _)); [by auto|]. cbn in Hf. lia.
  - unfold loop in *. cbn [resolve_loop]. destruct (high <? low) eqn:Elt; b2p; [by eauto|].
    destruct (mid_bounds low high Elt) as (Hm & Hr & Hl').
    rewrite Nat2Z.inj_succ, Z.pow_succ_r in Hf by lia.
    destruct (fits published_text max _) eqn:Ef.
    + edestruct (IH (low + (high - low) / 2 + 1) high) as (r & -> & Hr1 & Hr2); [lia..|by right|].
      exists r. split_and!; [done| |done]. lia.
    + edestruct (IH low (low + (high - low) / 2 - 1) best) as (r & -> & Hr1 & Hr2); [lia..|done|].
      exists r. split_and!; [done| |done]. lia.
Qed.

(** The search stops where the next size does not fit, or nothing fits. *)
Lemma resolve_loop_edge fuel top : ∀ low high best r,
  1 ≤ low ≤ high + 1 → high = top ∨ fit (high + 1) = false → fit best = true ∧ low = best + 1 ∨ best = 1 ∧ low = 1 →
  loop fuel low high best = Some r →
  fit r = true ∧ (r = top ∨ fit (r + 1) = false) ∨ r = 1 ∧ (top = 0 ∨ fit 1 = false).
Proof.
  induction fuel as [|fuel IH]; intros low high best r Hl Hh Hb Hr; unfold loop in *;
    cbn [resolve_loop] in Hr; destruct (high <? low) eqn:Elt; b2p; simplify_eq.
  1,2: assert (high = low - 1) as -> by lia; rewrite Z.sub_add in Hh.
  1,2: destruct Hb as [[Hf ->]|[-> ->]]; [left; rewrite Z.add_simpl_r in Hh; naive_solver|right; naive_solver].
  destruct (mid_bounds low high Elt) as (Hm & _). destruct (fits published_text max _) eqn:Ef.
  - eapply IH; [| |left; split; [exact Ef|reflexivity]|exact Hr]; [lia|done].
  - eapply IH; [|right|exact Hb|exact Hr]; [lia|]. rewrite Z.sub_add. exact Ef.
Qed.

Context (top : Z) (Hmono : ∀ a b, 1 ≤ a ≤ b → b ≤ top → fit b = true → fit a = true).

(** On a monotone size it is the largest candidate that fits. *)
Lemma resolve_loop_largest fuel : ∀ low high best r,
  1 ≤ low → high ≤ top → (∀ n, high < n ≤ top → fit n = false) →
  1 ≤ best → (∀ n, best < n < low → fit n = false) →
  loop fuel low high best = Some r → ∀ n, r < n ≤ top → fit n = false.
Proof.
  induction fuel as [|fuel IH]; intros low high best r Hl Hh Hno Hb1 Hb Hr; unfold loop in *;
    cbn [resolve_loop] in Hr; destruct (high <? low) eqn:Elt; b2p; simplify_eq.
  - intros n Hn. destruct (decide (n < low)); [apply Hb|apply Hno]; lia.
  - intros n Hn. destruct (decide (n < low)); [apply Hb|apply Hno]; lia.
  - destruct (mid_bounds low high Elt) as (Hm & _).
    destruct (fits published_text max _) eqn:Ef.
    + eapply (IH _ high); [..|exact Hr]; try done; try lia.
    + eapply (IH low); [..|exact Hr]; try done; try lia.
      intros n Hn. destruct (fit n) eqn:En; [|done].
      assert (fit (low + (high - low) / 2) = true) as Hf by (apply (Hmono _ n); [lia|lia|done]).
      unfold fit in Hf. congruence.
Qed.
End sizing_lemmas.

(** The resolved size is a tested size of the range, for any measurement. *)
Lemma resolve_spec {E} (text : JsonRpcNotification → result string E) desired max :
  ∃ r, resolve_safe_chunk_size text desired max = Some r ∧ 1 ≤ r ≤ Z.max desired 1 ∧
       (r = 1 ∨ fits text max r = true).
Proof.
  unfold resolve_safe_chunk_size.
  destruct (resolve_loop_spec text max (S (Z.to_nat (Z.log2 (Z.max desired 1)))) 1 (Z.max desired 1) 1)
    as (r & -> & Hr & Hfit); [| lia | by right | by left | ].
  - rewrite Nat2Z.inj_succ, Z2Nat.id by apply Z.log2_nonneg.
    pose proof (Z.log2_spec (Z.max desired 1)). lia.
  - exists r. split_and!; [done|lia|lia|done].
Qed.

(** It fits and the next one does not, or not even one byte fits; where smaller
    probes fit whenever larger ones do, it is the largest. *)
Lemma resolve_largest {E} (text : JsonRpcNotification → result string E) desired max :
  ∃ r, resolve_safe_chunk_size text desired max = Some r ∧ 1 ≤ r ≤ Z.max desired 1 ∧
    (fits text max r = true ∧ (r = Z.max desired 1 ∨ fits text max (r + 1) = false) ∨ r = 1 ∧ fits text max 1 = false) ∧
    ((∀ a b, 1 ≤ a ≤ b → b ≤ Z.max desired 1 → fits text max b = true → fits text max a = true) →
     ∀ n, r < n ≤ desired → fits text max n = false).
Proof.
  destruct (resolve_spec text desired max) as (r & Hr & Hrange & _). exists r.
  split; [done|]. split; [done|]. unfold resolve_safe_chunk_size in Hr. split.
  - destruct (resolve_loop_edge text max _ (Z.max desired 1) 1 (Z.max desired 1) 1 r ltac:(lia) (or_introl eq_refl)
      (or_intror (conj eq_refl eq_refl)) Hr) as [?|[? [?|?]]]; [by left|lia|by right].
  - intros Hmono n Hn.
    eapply resolve_loop_largest with (top := Z.max desired 1); [exact Hmono|done| | | | |exact Hr|]; lia.
Qed.

(** ** Lemmas: sending *)

Section sender_lemmas.
Context {S EventId E : Type} (of_oversized : OversizedTransferError → E)
        (publish : S → JsonRpcNotification → S * result EventId E).

(** [publish] with the frames it is given recorded. *)
Definition logged (sl : S * list JsonRpcNotification) (f : JsonRpcNotification)
  : (S * list JsonRpcNotification) * result EventId E :=
  let '(s', r) := publish (fst sl) f in ((s', snd sl ++ [f]), r).

Lemma publish_all_log frames : ∀ s log sl r,
  publish_all logged (s, log) frames = (sl, r) →
  ∃ sent rest, snd sl = log ++ sent ∧ frames = sent ++ rest ∧ (is_ok r = true → rest = []).
Proof.
  induction frames as [|f frames IH]; intros s log sl r Hp; cbn in Hp.
  { injection Hp as <- <-. exists [], []. by rewrite app_nil_r. }
  unfold logged in Hp at 1. cbn in Hp. destruct (publish s f) as [s1 [x|e]].
  - apply IH in Hp as (sent & rest & Hl & -> & Hr). exists (f :: sent), rest.
    rewrite Hl, <- app_assoc. by auto.
  - injection Hp as <- <-. by exists [f], frames.
Qed.

Lemma send_log s frames needs await sl r :
  send_oversized_transfer of_oversized logged (s, []) frames needs await = (sl, r) →
  (∃ rest, into_ordered frames = snd sl ++ rest ∧ (is_ok r = true → rest = [])) ∧
  (needs = true → await ≠ Some Accepted → snd sl = [built_start frames] ∧ is_ok r = false).
Proof.
  unfold send_oversized_transfer, into_ordered, logged at 1. cbn [fst snd].
  destruct (publish s _) as [s1 [x|e]]; cbn.
  2:{ intros [= <- <-]. cbn. split; [|done]. by eexists. }
  set (acc := if needs then _ else _). destruct acc as [[]|e] eqn:Eacc; subst acc.
  2:{ intros [= <- <-]. cbn. split; [by eexists|]. by destruct needs. }
  destruct (publish_all _ _ _) as [[s2 log] [[]|e]] eqn:Ep;
    apply publish_all_log in Ep as (sent & rest & Hl & Hc & Hr); cbn in Hl; subst log.
  - rewrite (Hr eq_refl), app_nil_r in Hc. subst sent. unfold logged. cbn.
    destruct (publish s2 _) as [s3 r3]. intros [= <- <-]. cbn. split.
    + exists []. by rewrite app_nil_r.
    + intros -> Ha. destruct await as [[]|]; done.
  - intros [= <- <-]. cbn. split.
    + exists (rest ++ [built_end frames]). rewrite Hc, <- app_assoc. by split.
    + intros -> Ha. destruct await as [[]|]; done.
Qed.
End sender_lemmas.

(** ** Properties *)

(** Splitting. On a valid UTF-8 text, splitting succeeds for every chunk
    size of at least four bytes; whenever it succeeds, the fragments concatenate
    to the text, each is non-empty and at most [max_bytes] long, and none breaks
    a multi-byte character (each is itself valid UTF-8). *)
Theorem split_string_by_byte_size_correct value max_bytes :
  valid_utf8 value = true →
  (4 ≤ max_bytes → is_ok (split_string_by_byte_size value max_bytes) = true) ∧
  ∀ cs, split_string_by_byte_size value max_bytes = Ok cs →
    concat_str cs = value ∧
    Forall (λ c, 0 < str_len c ≤ max_bytes ∧ valid_utf8 c = true) cs.
Proof.
  intros Hv. split; [by apply split_ok|]. intros cs Hs. split; [by eapply split_concat|].
  apply Forall_and. split; [by eapply split_bounds|by eapply split_valid].
Qed.

(** Two-byte characters ("é") and a three-byte one, split at four bytes. *)
Definition accented : string :=
  String (Ascii.ascii_of_nat 195) (String (Ascii.ascii_of_nat 169)
    (String (Ascii.ascii_of_nat 97) (String (Ascii.ascii_of_nat 226) (String (Ascii.ascii_of_nat 130)
      (String (Ascii.ascii_of_nat 172) EmptyString))))).

Lemma split_string_by_byte_size_correct_witness :
  valid_utf8 accented = true ∧
  split_string_by_byte_size accented 4 = Ok [take_bytes 3 accented; drop_bytes 3 accented] ∧
  (4 ≤ 4 → is_ok (split_string_by_byte_size accented 4) = true) ∧
  ∀ cs, split_string_by_byte_size accented 4 = Ok cs →
    concat_str cs = accented ∧
    Forall (λ c, 0 < str_len c ≤ 4 ∧ valid_utf8 c = true) cs.
Proof.
  split; [vm_compute; done|]. split; [vm_compute; done|].
  apply (split_string_by_byte_size_correct accented 4). vm_compute. done.
Defined.

(** Sending. The driver hands frames to [publish] in canonical order
    (start, chunks, end), each at most once, and all of them when it reports
    success; when a handshake is required and no accept arrives, it publishes
    the start frame only and fails. *)
Theorem send_oversized_transfer_order {S EventId E} (of_oversized : OversizedTransferError → E)
    (publish : S → JsonRpcNotification → S * result EventId E) s frames needs await sl r :
  send_oversized_transfer of_oversized (logged publish) (s, []) frames needs await = (sl, r) →
  (∃ rest, into_ordered frames = snd sl ++ rest ∧ (is_ok r = true → rest = [])) ∧
  (needs = true → await ≠ Some Accepted → snd sl = [built_start frames] ∧ is_ok r = false).
Proof. apply send_log. Qed.

(** A publisher that numbers its events and refuses the third. *)
Definition counting_publish (n : Z) (f : JsonRpcNotification) : Z * result Z OversizedTransferError :=
  (n + 1, if n =? 2 then Err (Policy "relay down") else Ok n).

Lemma send_oversized_transfer_order_witness :
  let frames := mkBuilt (mkNotification "2.0" "s" None)
                  [mkNotification "2.0" "c1" None; mkNotification "2.0" "c2" None]
                  (mkNotification "2.0" "e" None) in
  let run := send_oversized_transfer id (logged counting_publish) (0, []) frames true (Some Accepted) in
  (∃ rest, into_ordered frames = snd (fst run) ++ rest ∧ (is_ok (snd run) = true → rest = [])) ∧
  (true = true → Some Accepted ≠ Some Accepted →
   snd (fst run) = [built_start frames] ∧ is_ok (snd run) = false).
Proof.
  apply (send_oversized_transfer_order id counting_publish 0
           (mkBuilt (mkNotification "2.0" "s" None)
              [mkNotification "2.0" "c1" None; mkNotification "2.0" "c2" None]
              (mkNotification "2.0" "e" None)) true (Some Accepted)).
  vm_compute. done.
Defined.
