(* ===== verification/Instances.v ===== *)
(** * Concrete instances of the third-party interfaces

    A text format for JSON values that satisfies [SerdeJsonLaws] and a digest,
    with which the hypotheses of the theorems are shown to be satisfiable on
    concrete inputs. *)

From stdpp Require Import countable.
From Stdlib Require Import Ascii.
From S2P Require Import Prelude Json CoreTypes OversizedFrame OversizedCodec.

(** ** Values as trees of bits *)

Abbreviation leaf := (bool + (Z + Z + Z * Z) + string)%type.

Definition number_leaf (n : Number) : Z + Z + Z * Z :=
  match n with PosInt n => inl (inl n) | NegInt z => inl (inr z) | Float m e => inr (m, e) end.

Definition leaf_number (l : Z + Z + Z * Z) : Number :=
  match l with inl (inl n) => PosInt n | inl (inr z) => NegInt z | inr (m, e) => Float m e end.

Fixpoint value_tree (v : Value) : gen_tree leaf :=
  match v with
  | VNull => GenNode 0 []
  | VBool b => GenLeaf (inl (inl b))
  | VNumber n => GenLeaf (inl (inr (number_leaf n)))
  | VString s => GenLeaf (inr s)
  | VArray l => GenNode 1 (map value_tree l)
  | VObject l => GenNode 2 (map (λ kv, GenNode 3 [GenLeaf (inr kv.1); value_tree kv.2]) l)
  end.

Fixpoint tree_value (t : gen_tree leaf) : Value :=
  match t with
  | GenLeaf (inl (inl b)) => VBool b
  | GenLeaf (inl (inr n)) => VNumber (leaf_number n)
  | GenLeaf (inr s) => VString s
  | GenNode 1 l => VArray (map tree_value l)
  | GenNode 2 l =>
      VObject (map (λ t, match t with
                         | GenNode _ [GenLeaf (inr k); v] => (k, tree_value v)
                         | _ => ("", VNull)
                         end) l)
  | _ => VNull
  end.

Lemma tree_value_tree v : tree_value (value_tree v) = v.
Proof.
  induction v as [|b|n|s|l IH|l IH] using Value_ind'; cbn; try done.
  - by destruct n.
  - f_equal. induction IH as [|v l Hv _ IHl]; cbn; [done|]. by rewrite Hv, IHl.
  - f_equal. induction IH as [|[k v] l Hv _ IHl]; cbn in *; [done|]. by rewrite Hv, IHl.
Qed.

(** ** Bits as text *)

Fixpoint pos_text (p : positive) : string :=
  match p with
  | xH => EmptyString
  | xO p => String "0"%char (pos_text p)
  | xI p => String "1"%char (pos_text p)
  end.

Fixpoint text_pos (s : string) : positive :=
  match s with
  | EmptyString => xH
  | String c s => if Ascii.eqb c "0"%char then xO (text_pos s) else xI (text_pos s)
  end.

Lemma text_pos_text p : text_pos (pos_text p) = p.
Proof. induction p as [p IH|p IH|]; cbn; [by rewrite IH..|done]. Qed.

Definition bits_serde : SerdeJson := {|
  from_str s := t ← decode (text_pos s); Some (json_norm (tree_value t));
  to_string v := pos_text (encode (value_tree v));
  fmt_f64 m e := "float";
|}.

Lemma bits_serde_laws : @SerdeJsonLaws bits_serde.
Proof.
  split. intros v _ _. cbn. rewrite text_pos_text, decode_encode. cbn. by rewrite tree_value_tree.
Qed.

Lemma bits_to_string_inj v w : @to_string bits_serde v = @to_string bits_serde w → v = w.
Proof.
  cbn. intros E. apply (f_equal text_pos) in E. rewrite !text_pos_text in E.
  apply (inj encode), (f_equal tree_value) in E. by rewrite !tree_value_tree in E.
Qed.

(** A digest that is injective, as a collision-free hash would be. *)
Definition id_sha256 : Sha256 := λ s, s.

(** ** A small payload *)

Definition demo_message : JsonRpcMessage := Notification (mkNotification "2.0" "ping" None).
Definition demo_text : string := @to_string bits_serde (message_to_value demo_message).
