(* ===== verification/OversizedReceiver.v ===== *)
(** * CEP-22 oversized transfer: the reassembly engine

    Models [src/transport/oversized_transfer/receiver.rs]: the state of a
    transfer, the handlers of the five frames, their dispatch and the watchdog
    sweep.  [HashMap] and [BTreeMap] are [gmap]s (the code reads the [BTreeMap]
    of chunks by key only); an [Instant] is a number of nanoseconds. *)

From S2P Require Import Prelude Json CoreTypes OversizedFrame OversizedCodec.

(** [Duration::from_millis] *)
Definition from_millis (ms : Z) : Z := ms * 1000000.

(** ** One transfer *)

Record ActiveTransfer : Type := mkTransfer {
  at_digest : string;
  at_total_bytes : Z;
  at_total_chunks : Z;
  at_start_progress : Z;
  at_accept_progress : option Z;
  at_first_chunk_progress : option Z;
  at_next_expected_chunk_progress : option Z;
  at_highest_observed_progress : Z;
  at_chunks : gmap Z string;
  at_admitted_at : Z;
}.

Definition set_chunk_state (t : ActiveTransfer) (first next : option Z) : ActiveTransfer :=
  mkTransfer (at_digest t) (at_total_bytes t) (at_total_chunks t) (at_start_progress t)
    (at_accept_progress t) first next (at_highest_observed_progress t) (at_chunks t)
    (at_admitted_at t).

Definition set_accept (t : ActiveTransfer) (highest accept : Z) : ActiveTransfer :=
  mkTransfer (at_digest t) (at_total_bytes t) (at_total_chunks t) (at_start_progress t)
    (Some accept) (at_first_chunk_progress t) (at_next_expected_chunk_progress t) highest
    (at_chunks t) (at_admitted_at t).

Definition insert_chunk (t : ActiveTransfer) (progress : Z) (data : string) : ActiveTransfer :=
  mkTransfer (at_digest t) (at_total_bytes t) (at_total_chunks t) (at_start_progress t)
    (at_accept_progress t) (at_first_chunk_progress t) (at_next_expected_chunk_progress t)
    (Z.max (at_highest_observed_progress t) progress) (<[progress := data]> (at_chunks t))
    (at_admitted_at t).

Definition chunk_count (t : ActiveTransfer) : Z := Z.of_nat (size (at_chunks t)).
Definition has_chunk (t : ActiveTransfer) (p : Z) : bool := bool_decide (is_Some (at_chunks t !! p)).

Definition first_chunk_slot (t : ActiveTransfer) : Z :=
  if at_accept_progress t is Some _ then u64_add (at_start_progress t) 2
  else u64_add (at_start_progress t) 1.

Definition next_expected_chunk_progress (t : ActiveTransfer) : Z :=
  default (first_chunk_slot t) (at_next_expected_chunk_progress t).

(** The [while] loop of [refresh_chunk_progress_state]: it visits distinct keys
    of the map, so the number of chunks is enough fuel. *)
Fixpoint advance (fuel : nat) (chunks : gmap Z string) (next : Z) : Z :=
  match fuel with
  | O => next
  | S fuel' => if chunks !! next is Some _ then advance fuel' chunks (u64_add next 1) else next
  end.

Definition refresh_chunk_progress_state (t : ActiveTransfer) : ActiveTransfer :=
  if decide (at_chunks t = ∅) then set_chunk_state t None None
  else
    let first := first_chunk_slot t in
    let next := advance (size (at_chunks t)) (at_chunks t) first in
    set_chunk_state t (Some first) (Some next).

Definition buffered_out_of_order_count (t : ActiveTransfer) : Z :=
  match at_first_chunk_progress t, at_next_expected_chunk_progress t with
  | Some first, Some next => u64_sub (chunk_count t) (u64_sub next first)
  | _, _ => 0
  end.

(** The slots [first + i] for [i] in [0..total_chunks]. *)
Definition slots (t : ActiveTransfer) (first : Z) : list Z :=
  map (λ i, u64_add first i) (seqZ 0 (at_total_chunks t)).

Definition has_complete_chunk_range (t : ActiveTransfer) (first : Z) : bool :=
  forallb (has_chunk t) (slots t first).

Definition assembly_first_chunk_progress (t : ActiveTransfer) : option Z :=
  let direct := u64_add (at_start_progress t) 1 in
  let accept_gated := u64_add (at_start_progress t) 2 in
  if has_complete_chunk_range t direct then Some direct
  else if has_complete_chunk_range t accept_gated then Some accept_gated
  else None.

Definition assemble (t : ActiveTransfer) : option string :=
  first ← assembly_first_chunk_progress t;
  concat_str <$> mapM (λ p, at_chunks t !! p) (slots t first).

(** ** The receiver *)

Record OversizedTransferReceiver : Type := mkReceiver {
  r_policy : TransferPolicy;
  transfers : gmap string ActiveTransfer;
}.

Definition set_transfers (r : OversizedTransferReceiver) (m : gmap string ActiveTransfer)
  : OversizedTransferReceiver := mkReceiver (r_policy r) m.

Definition with_policy (p : TransferPolicy) : OversizedTransferReceiver := mkReceiver p ∅.
Definition receiver_new : OversizedTransferReceiver := with_policy TransferPolicy_default.
Definition active_transfer_count (r : OversizedTransferReceiver) : Z := Z.of_nat (size (transfers r)).
Definition is_tracking (r : OversizedTransferReceiver) (token : string) : bool :=
  bool_decide (is_Some (transfers r !! token)).

(** [remove_expired]: the receiver and the reaped tokens. *)
Definition is_expired (r : OversizedTransferReceiver) (now : Z) (t : ActiveTransfer) : bool :=
  from_millis (transfer_timeout_ms (r_policy r)) <? now - at_admitted_at t.

Definition remove_expired (now : Z) (r : OversizedTransferReceiver)
  : OversizedTransferReceiver * gset string :=
  if transfer_timeout_ms (r_policy r) =? 0 then (r, ∅)
  else
    (set_transfers r (filter (λ kv, is_expired r now kv.2 = false) (transfers r)),
     dom (filter (λ kv, is_expired r now kv.2 = true) (transfers r))).

Definition clear (r : OversizedTransferReceiver) : OversizedTransferReceiver := set_transfers r ∅.

Definition is_oversized_frame (n : JsonRpcNotification) : bool :=
  match (params ← notif_params n; get params "cvm") with
  | Some cvm => is_frame_value cvm
  | None => false
  end.

Abbreviation outcome := (result (option JsonRpcMessage) OversizedTransferError).

Definition handle_start (now : Z) (r : OversizedTransferReceiver) (token : string) (progress : Z)
    (digest : string) (total_bytes total_chunks : Z) : OversizedTransferReceiver * outcome :=
  let p := r_policy r in
  if is_tracking r token then
    (r, Err (Sequence ("Duplicate start frame for active transfer (token: " +:+ token +:+ ")")))
  else if max_transfer_bytes p <? total_bytes then
    (r, Err (Policy ("totalBytes " +:+ show_Z total_bytes +:+ " exceeds policy limit "
                     +:+ show_Z (max_transfer_bytes p) +:+ " (token: " +:+ token +:+ ")")))
  else if max_transfer_chunks p <? total_chunks then
    (r, Err (Policy ("totalChunks " +:+ show_Z total_chunks +:+ " exceeds policy limit "
                     +:+ show_Z (max_transfer_chunks p) +:+ " (token: " +:+ token +:+ ")")))
  else if max_concurrent_transfers p <=? active_transfer_count r then
    (r, Err (Policy ("Active transfers exceed policy limit "
                     +:+ show_Z (max_concurrent_transfers p) +:+ " (token: " +:+ token +:+ ")")))
  else if negb (starts_with digest DIGEST_PREFIX) then
    (r, Err (Reassembly ("Invalid digest format in start frame (token: " +:+ token +:+ ")")))
  else
    (set_transfers r (<[token := mkTransfer digest total_bytes total_chunks progress
                                   None None None progress ∅ now]> (transfers r)), Ok None).

Definition handle_accept (r : OversizedTransferReceiver) (token : string) (progress : Z)
  : OversizedTransferReceiver * outcome :=
  match transfers r !! token with
  | None => (r, Ok None)
  | Some t =>
      let removed := set_transfers r (delete token (transfers r)) in
      if progress <=? at_start_progress t then
        (removed, Err (Sequence ("Accept frame progress must be greater than start progress (token: "
                                 +:+ token +:+ ")")))
      else
        let t := set_accept t (Z.max (at_highest_observed_progress t) progress) progress in
        (set_transfers r (<[token := t]> (transfers r)), Ok None)
  end.

(** The checks of [handle_chunk] on the removed transfer, and the transfer to
    put back. *)
Definition accept_chunk (p : TransferPolicy) (token : string) (t : ActiveTransfer)
    (progress : Z) (data : string) : result ActiveTransfer OversizedTransferError :=
  let minimum_chunk_progress := u64_add (at_start_progress t) 1 in
  let maximum_chunk_progress := u64_add (u64_add (at_start_progress t) (at_total_chunks t)) 1 in
  if progress <? minimum_chunk_progress then
    Err (Sequence ("Chunk progress must be greater than start progress (token: " +:+ token +:+ ")"))
  else
    let next_expected := next_expected_chunk_progress t in
    let forward_gap := progress - next_expected in
    if max_out_of_order_window p <? forward_gap then
      Err (Policy ("Out-of-order gap " +:+ show_Z forward_gap +:+ " exceeds policy limit "
                   +:+ show_Z (max_out_of_order_window p) +:+ " (token: " +:+ token +:+ ")"))
    else if maximum_chunk_progress <? progress then
      Err (Sequence ("Chunk progress exceeds declared transfer bounds (token: " +:+ token +:+ ")"))
    else if (u64_add (at_start_progress t) 2 <? progress)
              && negb (has_chunk t (u64_add (at_start_progress t) 1))
              && negb (has_chunk t (u64_add (at_start_progress t) 2)) then
      Err (Sequence ("First chunk skips beyond the reserved accept slot (token: " +:+ token +:+ ")"))
    else
      match at_chunks t !! progress with
      | Some existing =>
          if negb (String.eqb existing data) then
            Err (Sequence ("Conflicting duplicate chunk detected (token: " +:+ token
                           +:+ ", progress: " +:+ show_Z progress +:+ ")"))
          else Ok t
      | None =>
          let t := refresh_chunk_progress_state (insert_chunk t progress data) in
          if (0 <? forward_gap) && (max_out_of_order_chunks p <? buffered_out_of_order_count t) then
            Err (Policy ("Buffered out-of-order chunks exceed policy limit "
                         +:+ show_Z (max_out_of_order_chunks p) +:+ " (token: " +:+ token +:+ ")"))
          else Ok t
      end.

Definition handle_chunk (r : OversizedTransferReceiver) (token : string) (progress : Z) (data : string)
  : OversizedTransferReceiver * outcome :=
  match transfers r !! token with
  | None => (r, Ok None)
  | Some t =>
      match accept_chunk (r_policy r) token t progress data with
      | Err e => (set_transfers r (delete token (transfers r)), Err e)
      | Ok t' => (set_transfers r (<[token := t']> (transfers r)), Ok None)
      end
  end.

Section receiver.
Context `{SerdeJson} `{Sha256}.

(** The validation of [handle_end] on the removed transfer. *)
Definition finish_transfer (p : TransferPolicy) (token : string) (t : ActiveTransfer) (progress : Z)
  : outcome :=
  if progress <=? at_highest_observed_progress t then
    Err (Sequence ("End frame progress must be greater than all prior transfer frames (token: "
                   +:+ token +:+ ")"))
  else if (0 <? at_total_chunks t) && bool_decide (at_chunks t = ∅) then
    Err (Reassembly ("Transfer ended before any chunks were received (token: " +:+ token +:+ ")"))
  else if negb (chunk_count t =? at_total_chunks t) then
    Err (Reassembly ("Expected " +:+ show_Z (at_total_chunks t) +:+ " chunks but received "
                     +:+ show_Z (chunk_count t) +:+ " (token: " +:+ token +:+ ")"))
  else
    match assemble t with
    | None => Err (Reassembly ("Transfer ended with unresolved chunk gaps (token: " +:+ token +:+ ")"))
    | Some assembled =>
        if negb (str_len assembled =? at_total_bytes t) then
          Err (Digest ("Byte length mismatch: expected " +:+ show_Z (at_total_bytes t) +:+ ", got "
                       +:+ show_Z (str_len assembled) +:+ " (token: " +:+ token +:+ ")"))
        else if negb (String.eqb (sha256_digest assembled) (at_digest t)) then
          Err (Digest ("SHA-256 digest mismatch (token: " +:+ token +:+ ")"))
        else
          match validate_and_parse_oversized assembled (max_transfer_bytes p) with
          | Some message => Ok (Some message)
          | None => Err (Reassembly ("Reassembled payload is not a valid JSON-RPC message (token: "
                                     +:+ token +:+ ")"))
          end
    end.

Definition handle_end (r : OversizedTransferReceiver) (token : string) (progress : Z)
  : OversizedTransferReceiver * outcome :=
  match transfers r !! token with
  | None => (r, Ok None)
  | Some t => (set_transfers r (delete token (transfers r)),
               finish_transfer (r_policy r) token t progress)
  end.

Definition handle_abort (r : OversizedTransferReceiver) (token : string) (reason : option string)
  : OversizedTransferReceiver * outcome :=
  (set_transfers r (delete token (transfers r)), Err (Abort token reason)).

Definition token_to_string (value : option Value) : string :=
  default "" (value ≫= progress_token_string).

Definition assert_valid_token (token : string) : result () OversizedTransferError :=
  if str_is_empty token
  then Err (Sequence "Oversized transfer frame is missing progressToken")
  else Ok ().

(** [n.as_u64()], else the double when it is a positive integer. *)
Definition progress_number (n : Number) : option Z :=
  match number_as_u64 n with
  | Some p => Some p
  | None =>
      match n with
      | Float m e => if f64_is_integral m e && (0 <? m) then Some (f64_to_u64 m e) else None
      | _ => None
      end
  end.

Definition parse_progress (value : option Value) (token : string) : result Z OversizedTransferError :=
  let progress := match value with Some (VNumber n) => progress_number n | _ => None end in
  match progress with
  | Some p => if 0 <? p then Ok p
              else Err (Sequence ("Invalid progress value (token: " +:+ token +:+ ")"))
  | None => Err (Sequence ("Invalid progress value (token: " +:+ token +:+ ")"))
  end.

(** The frame, token and progress of a notification; [None] when it carries
    no frame. *)
Definition decode_frame (n : JsonRpcNotification)
  : option (result (OversizedFrame * string * Z) OversizedTransferError) :=
  params ← notif_params n;
  cvm ← get params "cvm";
  frame ← from_cvm_value cvm;
  let token := token_to_string (get params "progressToken") in
  Some (let? _ := assert_valid_token token in
        let? progress := parse_progress (get params "progress") token in
        Ok (frame, token, progress)).

Definition dispatch (now : Z) (r : OversizedTransferReceiver) (frame : OversizedFrame)
    (token : string) (progress : Z) : OversizedTransferReceiver * outcome :=
  match frame with
  | Start _ digest total_bytes total_chunks =>
      handle_start now r token progress digest total_bytes total_chunks
  | Accept => handle_accept r token progress
  | Chunk data => handle_chunk r token progress data
  | End => handle_end r token progress
  | AbortFrame reason => handle_abort r token reason
  end.

Definition process_frame (now : Z) (r : OversizedTransferReceiver) (n : JsonRpcNotification)
  : OversizedTransferReceiver * outcome :=
  match decode_frame n with
  | None => (r, Ok None)
  | Some (Err e) => (r, Err e)
  | Some (Ok (frame, token, progress)) => dispatch now r frame token progress
  end.

(** Feeding a list of notifications, each with its clock reading; the receiver
    and the outcome of each. *)
Fixpoint process_frames (r : OversizedTransferReceiver) (ns : list (Z * JsonRpcNotification))
  : OversizedTransferReceiver * list outcome :=
  match ns with
  | [] => (r, [])
  | (now, n) :: ns' =>
      let '(r1, o) := process_frame now r n in
      let '(r2, os) := process_frames r1 ns' in
      (r2, o :: os)
  end.
End receiver.
