(* ===== verification/OversizedProofs.v ===== *)
(** * CEP-22 oversized transfer: correctness of the receiver

    The reassembly of what the codec built, in order and out of order; the
    integrity of every surfaced message; the bounds on the receiver's state; the
    isolation of transfers; the watchdog. *)

From S2P Require Import Prelude Json CoreTypes OversizedFrame OversizedCodec Instances OversizedReceiver.

(** ** The contiguous frontier *)

(** [advance] walks over a run of present slots. *)
Lemma advance_run (m : gmap Z string) n : ∀ fuel next,
  0 ≤ next → (n <= fuel)%nat → next + Z.of_nat n < u64_modulus →
  (∀ i, next ≤ i < next + Z.of_nat n → is_Some (m !! i)) →
  m !! (next + Z.of_nat n) = None →
  advance fuel m next = next + Z.of_nat n.
Proof.
  induction n as [|n IH]; intros fuel next H0 Hf Hu Hrun Hnone.
  - rewrite Z.add_0_r in *. destruct fuel; cbn; [done|]. by rewrite Hnone.
  - destruct fuel as [|fuel]; [lia|]. cbn. destruct (Hrun next) as [d ->]; [lia|].
    rewrite u64_add_small by lia. rewrite (IH fuel (next + 1)); try lia.
    + intros i Hi. apply Hrun. lia.
    + by replace (next + 1 + Z.of_nat n) with (next + Z.of_nat (S n)) by lia.
Qed.

Lemma size_run (m : gmap Z string) next n :
  (∀ i, next ≤ i < next + Z.of_nat n → is_Some (m !! i)) → (n <= size m)%nat.
Proof.
  intros Hrun. rewrite <- size_dom.
  assert (list_to_set (seqZ next (Z.of_nat n)) ⊆ dom m) as Hsub.
  { intros i Hi%elem_of_list_to_set. apply elem_of_seqZ in Hi. by apply elem_of_dom, Hrun. }
  apply subseteq_size in Hsub. rewrite size_list_to_set in Hsub by apply NoDup_seqZ.
  rewrite length_seqZ, Nat2Z.id in Hsub. done.
Qed.

(** Every map has a first free slot from [next] on, within its size. *)
Lemma first_gap (m : gmap Z string) next k :
  (∃ n, (n <= k)%nat ∧ (∀ i, next ≤ i < next + Z.of_nat n → is_Some (m !! i)) ∧
        m !! (next + Z.of_nat n) = None) ∨
  (∀ i, next ≤ i < next + Z.of_nat (S k) → is_Some (m !! i)).
Proof.
  induction k as [|k [(n & Hn & ?)|Hall]].
  - destruct (m !! next) as [d|] eqn:E.
    + right. intros i Hi. replace i with next by lia. eauto.
    + left. exists 0%nat. rewrite Z.add_0_r. split_and!; [lia| |done]. intros; lia.
  - left. exists n. split; [lia|done].
  - destruct (m !! (next + Z.of_nat (S k))) as [d|] eqn:E.
    + right. intros i Hi. destruct (decide (i = next + Z.of_nat (S k))) as [->|]; [eauto|].
      apply Hall. lia.
    + left. exists (S k). by split_and!.
Qed.

(** The loop of [refresh_chunk_progress_state] ends at the least missing slot. *)
Lemma advance_spec (m : gmap Z string) first :
  0 ≤ first → first + Z.of_nat (size m) < u64_modulus →
  let next := advance (size m) m first in
  first ≤ next ≤ first + Z.of_nat (size m) ∧ m !! next = None ∧
  ∀ i, first ≤ i < next → is_Some (m !! i).
Proof.
  intros H0 Hu. destruct (first_gap m first (size m)) as [(n & Hn & Hrun & Hnone)|Hall].
  - cbn. rewrite (advance_run m n) by (done || lia). split_and!; [lia|lia|done|done].
  - apply size_run in Hall. lia.
Qed.

Lemma size_map_seqZ (base : Z) (cs : list string) : size (map_seqZ base cs : gmap Z string) = length cs.
Proof.
  revert base. induction cs as [|c cs IH]; intros base; [by apply map_size_empty|].
  rewrite map_seqZ_cons, map_size_insert_None by apply map_seqZ_cons_disjoint. cbn. by rewrite IH.
Qed.

Lemma advance_map_seqZ base (cs : list string) :
  0 ≤ base → base + Z.of_nat (length cs) < u64_modulus →
  advance (length cs) (map_seqZ base cs) base = base + Z.of_nat (length cs).
Proof.
  intros. apply advance_run; [done..| |].
  - intros i Hi. apply lookup_map_seqZ_is_Some. lia.
  - apply lookup_map_seqZ_None. lia.
Qed.

(** ** Accepting a chunk *)

(** What a transfer was admitted with, which no later frame changes. *)
Definition same_start (t t' : ActiveTransfer) : Prop :=
  at_digest t' = at_digest t ∧ at_total_bytes t' = at_total_bytes t ∧
  at_total_chunks t' = at_total_chunks t ∧ at_start_progress t' = at_start_progress t ∧
  at_admitted_at t' = at_admitted_at t.

#[export] Instance same_start_preorder : PreOrder same_start.
Proof. split; unfold same_start; [by intros|]. intros ? ? ? ? ?. naive_solver congruence. Qed.

Definition chunk_min (t : ActiveTransfer) : Z := u64_add (at_start_progress t) 1.
Definition chunk_max (t : ActiveTransfer) : Z :=
  u64_add (u64_add (at_start_progress t) (at_total_chunks t)) 1.

Lemma refresh_fields t :
  same_start t (refresh_chunk_progress_state t) ∧
  at_chunks (refresh_chunk_progress_state t) = at_chunks t ∧
  at_accept_progress (refresh_chunk_progress_state t) = at_accept_progress t ∧
  at_highest_observed_progress (refresh_chunk_progress_state t) = at_highest_observed_progress t.
Proof. unfold refresh_chunk_progress_state. by case_decide. Qed.

(** An accepted chunk is stored under its progress, within the declared bounds;
    the rest of the transfer is kept. *)
Lemma accept_chunk_inv p tok t pr d t' :
  accept_chunk p tok t pr d = Ok t' →
  same_start t t' ∧ at_accept_progress t' = at_accept_progress t ∧
  at_chunks t' = <[pr := d]> (at_chunks t) ∧
  (at_highest_observed_progress t' ≤ Z.max (at_highest_observed_progress t) pr) ∧
  chunk_min t ≤ pr ≤ chunk_max t ∧
  (at_chunks t !! pr = None ∨ at_chunks t !! pr = Some d).
Proof.
  unfold accept_chunk, chunk_min, chunk_max. intros Hc.
  repeat (case_match; try done); simplify_eq; b2p.
  - split_and!; [done|done| |lia..|].
    + symmetry. apply insert_id. by subst.
    + right. by subst.
  - destruct (refresh_fields (insert_chunk t pr d)) as (? & -> & -> & ->).
    split_and!; try done; [by left..].
Qed.

(** ** Decoding what was built *)

Section proofs.
Context `{SerdeJson} `{Sha256}.

Lemma decode_built f t p m :
  frame_ok f = true → t ≠ "" → 0 < p < u64_modulus →
  decode_frame (into_progress_notification f t p m) = Some (Ok (f, t, p)).
Proof.
  intros Hf Ht Hp. destruct (notification_params f t p m) as (params & E & Hcvm & Htok & Hprog).
  unfold decode_frame. rewrite E. cbn [mbind option_bind get]. rewrite Hcvm. cbn [mbind option_bind].
  rewrite from_to_cvm_value by done. cbn [mbind option_bind]. rewrite Htok, Hprog. cbn.
  unfold assert_valid_token. destruct (str_is_empty t) eqn:Et; [by apply str_is_empty_spec in Et|].
  cbn. unfold parse_progress, progress_number, number_of_u64. cbn [number_as_u64].
  rewrite (proj2 (in_u64_spec p)) by lia. by rewrite (proj2 (Z.ltb_lt _ _)) by lia.
Qed.

(** ** One step of the receiver *)

(** How a frame may change the entry of its own token. *)
Inductive entry_step (p : TransferPolicy) (now : Z) (f : OversizedFrame) (pr : Z) (count : Z)
  : option ActiveTransfer → option ActiveTransfer → Prop :=
| entry_kept e : entry_step p now f pr count e e
| entry_dropped e : entry_step p now f pr count e None
| entry_started digest b c :
    f = Start Render digest b c → b ≤ max_transfer_bytes p → c ≤ max_transfer_chunks p →
    count < max_concurrent_transfers p →
    entry_step p now f pr count None (Some (mkTransfer digest b c pr None None None pr ∅ now))
| entry_accepted t h :
    f = Accept → entry_step p now f pr count (Some t) (Some (set_accept t h pr))
| entry_chunk t t' d :
    f = Chunk d → same_start t t' → at_chunks t' = <[pr := d]> (at_chunks t) →
    chunk_min t ≤ pr ≤ chunk_max t → entry_step p now f pr count (Some t) (Some t').
Hint Constructors entry_step : cvm.

Lemma dispatch_step now r f tok pr r' o :
  dispatch now r f tok pr = (r', o) →
  r_policy r' = r_policy r ∧
  (∀ k, k ≠ tok → transfers r' !! k = transfers r !! k) ∧
  entry_step (r_policy r) now f pr (active_transfer_count r) (transfers r !! tok) (transfers r' !! tok).
Proof.
  destruct f as [[] digest b c| |d| |reason]; cbn [dispatch].
  - unfold handle_start, is_tracking. intros Hd.
    repeat (case_match; [simplify_eq; by auto with cvm|]); simplify_eq; b2p. cbn.
    split_and!; [done|by intros; rewrite lookup_insert_ne|].
    rewrite lookup_insert_eq. destruct (transfers r !! tok) eqn:E; [by exfalso; eauto|].
    by eapply entry_started.
  - unfold handle_accept. intros Hd. destruct (transfers r !! tok) as [t|] eqn:E.
    2:{ simplify_eq. rewrite E. by auto with cvm. }
    case_match; simplify_eq; cbn.
    + split_and!; [done|by intros; rewrite lookup_delete_ne|]. rewrite lookup_delete_eq. constructor.
    + split_and!; [done|by intros; rewrite lookup_insert_ne|]. rewrite lookup_insert_eq. by constructor.
  - unfold handle_chunk. intros Hd. destruct (transfers r !! tok) as [t|] eqn:E.
    2:{ simplify_eq. rewrite E. by auto with cvm. }
    destruct (accept_chunk _ _ _ _ _) as [t'|e] eqn:Ea; simplify_eq; cbn.
    + apply accept_chunk_inv in Ea as (? & ? & ? & ? & ? & ?).
      split_and!; [done|by intros; rewrite lookup_insert_ne|]. rewrite lookup_insert_eq.
      by eapply entry_chunk.
    + split_and!; [done|by intros; rewrite lookup_delete_ne|]. rewrite lookup_delete_eq. constructor.
  - unfold handle_end. intros Hd. destruct (transfers r !! tok) as [t|] eqn:E; simplify_eq; cbn.
    + split_and!; [done|by intros; rewrite lookup_delete_ne|]. rewrite lookup_delete_eq. constructor.
    + rewrite E. by auto with cvm.
  - unfold handle_abort. intros [= <- <-]. cbn.
    split_and!; [done|by intros; rewrite lookup_delete_ne|]. rewrite lookup_delete_eq. constructor.
Qed.

(** ** Invariants of every run *)

(** A transfer comes from a start frame among the processed notifications. *)
Definition started_in (log : list (Z * JsonRpcNotification)) (tok : string) (t : ActiveTransfer) : Prop :=
  ∃ n mode, (at_admitted_at t, n) ∈ log ∧
    decode_frame n = Some (Ok (Start mode (at_digest t) (at_total_bytes t) (at_total_chunks t),
                               tok, at_start_progress t)).

Record transfer_inv (p : TransferPolicy) (t : ActiveTransfer) : Prop := {
  ti_bytes : at_total_bytes t ≤ max_transfer_bytes p;
  ti_chunks : 0 ≤ at_total_chunks t ≤ max_transfer_chunks p;
  ti_total : at_total_chunks t < u64_modulus;
  ti_slots : ∀ k, is_Some (at_chunks t !! k) → chunk_min t ≤ k ≤ chunk_max t;
}.

Record receiver_inv (p : TransferPolicy) (log : list (Z * JsonRpcNotification))
    (r : OversizedTransferReceiver) : Prop := {
  ri_policy : r_policy r = p;
  ri_count : active_transfer_count r ≤ Z.max 0 (max_concurrent_transfers p);
  ri_started : ∀ tok t, transfers r !! tok = Some t → started_in log tok t;
  ri_transfer : ∀ tok t, transfers r !! tok = Some t → transfer_inv p t;
}.

Lemma receiver_inv_init p : receiver_inv p [] (with_policy p).
Proof.
  split; cbn; [done| |by intros; simplify_map_eq..].
  unfold active_transfer_count. cbn. rewrite map_size_empty. lia.
Qed.

(** Keys outside the token are untouched, so the count changes by its entry. *)
Lemma size_entry (m m' : gmap string ActiveTransfer) tok :
  (∀ k, k ≠ tok → m' !! k = m !! k) →
  m' = match m' !! tok with Some t => <[tok := t]> m | None => delete tok m end.
Proof.
  intros Hne. apply map_eq. intros k. destruct (decide (k = tok)) as [->|Hk].
  - destruct (m' !! tok); by simplify_map_eq.
  - rewrite Hne by done. destruct (m' !! tok); by simplify_map_eq.
Qed.

Lemma entry_step_count p now f pr (m m' : gmap string ActiveTransfer) tok :
  (∀ k, k ≠ tok → m' !! k = m !! k) →
  entry_step p now f pr (Z.of_nat (size m)) (m !! tok) (m' !! tok) →
  (size m' <= size m)%nat ∨ Z.of_nat (size m') ≤ max_concurrent_transfers p.
Proof.
  intros Hne Hs. rewrite (size_entry m m' tok Hne).
  inversion Hs as [e E1 E2|e E1 E2|? ? ? ? ? ? ? E1 E2|? ? ? E1 E2|? ? ? ? ? ? ? E1 E2];
    rewrite <- ?E2.
  - left. destruct (m !! tok) eqn:E; [by rewrite map_size_insert_Some|].
    rewrite map_size_delete, E. cbn. lia.
  - left. rewrite map_size_delete. destruct (m !! tok); cbn; lia.
  - right. rewrite map_size_insert_None by done. lia.
  - left. by rewrite map_size_insert_Some.
  - left. by rewrite map_size_insert_Some.
Qed.

Lemma decode_frame_ok n f tok pr : decode_frame n = Some (Ok (f, tok, pr)) → frame_ok f = true.
Proof.
  unfold decode_frame. intros (params & _ & (cvm & _ & (f' & Hf & [= Hk])%bind_Some)%bind_Some)%bind_Some.
  apply result_bind_Ok in Hk as ([] & _ & (q & _ & [= <- <- <-])%result_bind_Ok).
  by eapply from_cvm_value_ok.
Qed.

(** One notification keeps the invariant. *)
Lemma process_frame_inv p log now r n r' o :
  receiver_inv p log r → process_frame now r n = (r', o) → receiver_inv p (log ++ [(now, n)]) r'.
Proof.
  intros [<- Hcount Hst Htr] Hp.
  assert (∀ tok t, started_in log tok t → started_in (log ++ [(now, n)]) tok t) as Hmono.
  { intros tok t (m & mode & Hin & Hdec). exists m, mode. split; [|done]. set_solver. }
  unfold process_frame in Hp. destruct (decode_frame n) as [[[[f tok] pr]|e]|] eqn:Ed;
    [|injection Hp as <- <-; split; eauto..].
  pose proof (decode_frame_ok _ _ _ _ Ed) as Hok.
  apply dispatch_step in Hp as (Hpol & Hne & Hs). rewrite <- Hpol in *.
  assert (∀ t', transfers r' !! tok = Some t' →
            started_in (log ++ [(now, n)]) tok t' ∧ transfer_inv (r_policy r') t') as Htok.
  { intros t' Ht'. rewrite Ht' in Hs. destruct (transfers r !! tok) as [t|] eqn:E1;
      inversion Hs as [| |? ? ? -> Hb Hc|? h ->|? ? d -> Hsame Hch Hpr]; simplify_eq.
    - eauto.
    - specialize (Hst _ _ E1). destruct (Htr _ _ E1). split; [by apply Hmono in Hst|]. by split.
    - specialize (Hst _ _ E1). destruct (Htr _ _ E1) as [? ? ? Hsl].
      destruct Hsame as (D1 & D2 & D3 & D4 & D5). split.
      + apply Hmono in Hst. destruct Hst as (m & mode & Hin & Hdec). exists m, mode.
        by rewrite D1, D2, D3, D4, D5.
      + split; rewrite ?D2, ?D3; try done. intros k Hk. unfold chunk_min, chunk_max.
        rewrite D3, D4. rewrite Hch, lookup_insert in Hk. case_decide; [by subst|by apply Hsl].
    - cbn in Hok. b2p. rewrite !in_u64_spec in *. split.
      + exists n, Render. split; [set_solver|done].
      + split; cbn; try lia. intros k Hk. by rewrite lookup_empty in Hk; destruct Hk. }
  split.
  - done.
  - unfold active_transfer_count in *. destruct (entry_step_count _ _ _ _ _ _ _ Hne Hs); lia.
  - intros k t Hk. destruct (decide (k = tok)) as [->|]; [by apply Htok|].
    rewrite Hne in Hk by done. eauto.
  - intros k t Hk. destruct (decide (k = tok)) as [->|]; [by apply Htok|].
    rewrite Hne in Hk by done. eauto.
Qed.

(** The slots of a transfer are one more than its declared chunks. *)
Lemma chunk_bounds_width t :
  0 ≤ at_total_chunks t < u64_modulus → chunk_max t - chunk_min t ≤ at_total_chunks t.
Proof.
  intros Ht. unfold chunk_max, chunk_min, u64_add.
  rewrite Zplus_mod_idemp_l.
  replace (at_start_progress t + at_total_chunks t + 1)
    with ((at_start_progress t + 1) + at_total_chunks t) by lia.
  rewrite <- (Zplus_mod_idemp_l (at_start_progress t + 1)).
  set (a := (at_start_progress t + 1) mod u64_modulus).
  assert (0 ≤ a < u64_modulus) by apply Z.mod_pos_bound, u64_modulus_pos.
  pose proof (Z.mod_le (a + at_total_chunks t) u64_modulus). unfold u64_modulus in *. lia.
Qed.

Lemma transfer_inv_count p t : transfer_inv p t → chunk_count t ≤ at_total_chunks t + 1.
Proof.
  intros [_ Hc Ht Hs]. pose proof (chunk_bounds_width t ltac:(lia)) as Hw.
  unfold chunk_count. rewrite <- size_dom.
  assert (dom (at_chunks t) ⊆ list_to_set (seqZ (chunk_min t) (at_total_chunks t + 1))) as Hsub.
  { intros k Hk%elem_of_dom%Hs. apply elem_of_list_to_set, elem_of_seqZ. lia. }
  apply subseteq_size in Hsub. rewrite size_list_to_set in Hsub by apply NoDup_seqZ.
  rewrite length_seqZ in Hsub. lia.
Qed.

Lemma process_frames_inv p ns : ∀ log r r' os,
  receiver_inv p log r → process_frames r ns = (r', os) → receiver_inv p (log ++ ns) r'.
Proof.
  induction ns as [|[now n] ns IH]; intros log r r' os Hinv Hp; cbn in Hp.
  - injection Hp as <- <-. by rewrite app_nil_r.
  - destruct (process_frame now r n) as [r1 o] eqn:E1.
    destruct (process_frames r1 ns) as [r2 os'] eqn:E2. injection Hp as <- <-.
    rewrite cons_middle, app_assoc. eapply IH; [|done]. by eapply process_frame_inv.
Qed.

Lemma process_frames_app ns1 : ∀ r ns2,
  process_frames r (ns1 ++ ns2) =
  let '(r1, os1) := process_frames r ns1 in
  let '(r2, os2) := process_frames r1 ns2 in (r2, os1 ++ os2).
Proof.
  induction ns1 as [|[now n] ns1 IH]; intros r ns2; cbn.
  - by destruct (process_frames r ns2).
  - destruct (process_frame now r n) as [r1 o]. rewrite IH.
    destruct (process_frames r1 ns1) as [r2 os1]. by destruct (process_frames r2 ns2).
Qed.

(** ** What an end frame surfaces *)

Lemma finish_transfer_inv p tok t pr m :
  finish_transfer p tok t pr = Ok (Some m) →
  ∃ payload, assemble t = Some payload ∧ str_len payload = at_total_bytes t ∧
    sha256_digest payload = at_digest t ∧
    validate_and_parse_oversized payload (max_transfer_bytes p) = Some m.
Proof.
  unfold finish_transfer. intros Hf. repeat (case_match; try done); simplify_eq; b2p.
  eexists. by split_and!.
Qed.

(** Only an end frame surfaces a message, and it ends its transfer. *)
Lemma surfaced_inv now r n r' m :
  process_frame now r n = (r', Ok (Some m)) →
  ∃ tok pr t, decode_frame n = Some (Ok (End, tok, pr)) ∧ transfers r !! tok = Some t ∧
    finish_transfer (r_policy r) tok t pr = Ok (Some m) ∧
    r' = set_transfers r (delete tok (transfers r)).
Proof.
  unfold process_frame. destruct (decode_frame n) as [[[[f tok] pr]|e]|]; [|done..].
  destruct f as [[]| | | |]; cbn [dispatch]; unfold handle_start, handle_accept, handle_chunk, handle_end;
    intros Hd; repeat (case_match; try done); simplify_eq.
  eexists tok, pr, _. by split_and!.
Qed.

Lemma receiver_eta (r : OversizedTransferReceiver) : mkReceiver (r_policy r) (transfers r) = r.
Proof. by destruct r. Qed.

(** ** Round trip *)

Section roundtrip.
Context (serialized : string) (o : OversizedSenderOptions) (b : BuiltOversizedFrames)
        (r : OversizedTransferReceiver) (cs : list string) (t0 t1 : Z).
Let tok := progress_token o.
Let n := Z.of_nat (length cs).
Let base := chunk_base_progress o.
Let p := r_policy r.
Context (Hcs : split_string_by_byte_size serialized (chunk_size_bytes o) = Ok cs).
Context (Hb : build_oversized_frames serialized o = Ok b).
Context (Htok : tok ≠ "").
Context (Hfresh : transfers r !! tok = None).
Context (Hbytes : str_len serialized ≤ max_transfer_bytes p).
Context (Hchunks : n ≤ max_transfer_chunks p).
Context (Hroom : active_transfer_count r < max_concurrent_transfers p).
Context (Hwindow : 0 ≤ max_out_of_order_window p).
Context (Hu64 : str_len serialized + 4 < u64_modulus).

Lemma split_length_le : 0 ≤ n ≤ str_len serialized.
Proof.
  split; [unfold n; lia|].
  pose proof (split_bounds _ _ _ Hcs) as Hpos. rewrite <- (split_concat _ _ _ Hcs). unfold n.
  clear -Hpos. induction Hpos as [|c cs [Hc _] _ IH]; [by vm_compute|].
  cbn [concat_str length]. rewrite str_len_append. lia.
Qed.

Lemma base_cases : base = if needs_accept_handshake o then 3 else 2.
Proof. subst base. unfold chunk_base_progress. by destruct (needs_accept_handshake o). Qed.

Lemma built_eq :
  b = mkBuilt
    (into_progress_notification (Start Render (sha256_digest serialized) (str_len serialized) n)
       tok START_PROGRESS (Some "starting oversized transfer"))
    (imap (chunk_notification tok base) cs)
    (into_progress_notification End tok (base + n) (Some "oversized transfer complete")).
Proof.
  destruct (build_inv _ _ _ Hb) as (cs' & Hcs' & ->). assert (cs' = cs) as -> by congruence.
  do 2 f_equal. pose proof split_length_le. pose proof base_cases.
  apply u64_add_small; destruct (needs_accept_handshake o); lia.
Qed.

(** The accept frame the receiving transport feeds to its own receiver. *)
Definition handshake_frames : list (Z * JsonRpcNotification) :=
  if needs_accept_handshake o
  then [(t1, into_progress_notification Accept tok ACCEPT_PROGRESS None)] else [].

(** The transfer while chunks come in. *)
Record receiving (t : ActiveTransfer) : Prop := {
  rc_digest : at_digest t = sha256_digest serialized;
  rc_bytes : at_total_bytes t = str_len serialized;
  rc_chunks : at_total_chunks t = n;
  rc_start : at_start_progress t = 1;
  rc_accept : is_Some (at_accept_progress t) ↔ needs_accept_handshake o = true;
  rc_highest : at_highest_observed_progress t < base + n;
  rc_sub : at_chunks t ⊆ map_seqZ base cs;
}.

Definition tracking (r' : OversizedTransferReceiver) (t : ActiveTransfer) : Prop :=
  r_policy r' = p ∧ transfers r' = <[tok := t]> (transfers r).

(** After the start frame (and the accept): an empty transfer. *)
Lemma open_transfer :
  ∃ r1 t, process_frames r ((t0, built_start b) :: handshake_frames) =
          (r1, replicate (S (length handshake_frames)) (Ok None)) ∧
    tracking r1 t ∧ receiving t ∧ at_chunks t = ∅ ∧ at_next_expected_chunk_progress t = None.
Proof.
  pose proof split_length_le as Hn. rewrite built_eq. cbn [built_start process_frames].
  unfold process_frame at 1. rewrite decode_built; [|cbn|done|done].
  2:{ rewrite !(proj2 (in_u64_spec _)); [done|lia|]. pose proof (str_len_nonneg serialized). lia. }
  cbn [dispatch]. unfold handle_start, is_tracking. rewrite Hfresh. change (r_policy r) with p.
  rewrite bool_decide_eq_false_2 by (by intros []).
  rewrite !(proj2 (Z.ltb_ge _ _)) by done. rewrite (proj2 (Z.leb_gt _ _)) by done.
  unfold sha256_digest at 1, starts_with. rewrite prefix_append. cbn [negb].
  set (t := mkTransfer _ _ _ _ _ _ _ _ _ _).
  pose proof base_cases as Hbase. unfold handshake_frames.
  destruct (needs_accept_handshake o) eqn:Hh; cbn [process_frames].
  - unfold process_frame. rewrite decode_built by done. cbn [dispatch handle_accept].
    unfold handle_accept. cbn [transfers set_transfers]. rewrite lookup_insert_eq. cbn.
    rewrite insert_insert_eq. eexists _, _. split_and!; [done|by split| |done|done].
    split; cbn; unfold START_PROGRESS, ACCEPT_PROGRESS; try apply map_empty_subseteq; try lia; done.
  - eexists _, t. split_and!; [done|by split| |done|done].
    split; cbn; unfold START_PROGRESS; try apply map_empty_subseteq; try lia; try done.
    rewrite Hh. split; [by intros []|done].
Qed.

Lemma chunk_progress_ok i : (i < length cs)%nat → 0 < base + Z.of_nat i < u64_modulus.
Proof.
  intros Hi. pose proof split_length_le. pose proof base_cases.
  destruct (needs_accept_handshake o); lia.
Qed.

Lemma decode_chunk i d :
  (i < length cs)%nat →
  decode_frame (chunk_notification tok base i d) = Some (Ok (Chunk d, tok, base + Z.of_nat i)).
Proof.
  intros Hi. pose proof (chunk_progress_ok i Hi). pose proof base_cases.
  unfold chunk_notification. rewrite u64_add_small; [by apply decode_built|..];
    destruct (needs_accept_handshake o); lia.
Qed.

Lemma process_chunk now r1 t i d :
  tracking r1 t → cs !! i = Some d →
  process_frame now r1 (chunk_notification tok base i d) =
  match accept_chunk p tok t (base + Z.of_nat i) d with
  | Err e => (set_transfers r1 (delete tok (transfers r1)), Err e)
  | Ok t' => (set_transfers r1 (<[tok := t']> (transfers r1)), Ok None)
  end.
Proof.
  intros [Hp Ht] Hi. unfold process_frame. rewrite decode_chunk by by eapply lookup_lt_Some.
  cbn [dispatch]. unfold handle_chunk. by rewrite Ht, lookup_insert_eq, Hp.
Qed.

Lemma tracking_update r1 t t' :
  tracking r1 t → tracking (set_transfers r1 (<[tok := t']> (transfers r1))) t'.
Proof. intros [Hp Ht]. split; [done|]. cbn. by rewrite Ht, insert_insert_eq. Qed.

(** An accepted chunk of the payload keeps the transfer on course. *)
Lemma receiving_chunk t t' i d :
  receiving t → cs !! i = Some d → accept_chunk p tok t (base + Z.of_nat i) d = Ok t' →
  receiving t' ∧ at_chunks t' = <[base + Z.of_nat i := d]> (at_chunks t) ∧
  at_chunks t ⊆ at_chunks t'.
Proof.
  intros [] Hi Ha. apply accept_chunk_inv in Ha as ((D1 & D2 & D3 & D4 & D5) & Ha & Hc & Hh & _ & Hk).
  split; [|split; [done|]].
  2:{ rewrite Hc. destruct Hk as [Hk|Hk]; [by apply insert_subseteq|by rewrite insert_id]. }
  pose proof (lookup_lt_Some _ _ _ Hi).
  split; rewrite ?D1, ?D2, ?D3, ?D4, ?Ha, ?Hc; try done; [lia|].
  apply insert_subseteq_l; [|done]. by apply lookup_map_seqZ_Some_inv.
Qed.

(** Chunks of the payload, in any order and repeated or not. *)
Lemma deliver_chunks ds : ∀ r1 t r2 os,
  tracking r1 t → receiving t → (∀ x, x ∈ ds → x.2 ∈ built_chunks b) →
  process_frames r1 ds = (r2, os) → Forall (λ o, is_ok o = true) os →
  ∃ t', tracking r2 t' ∧ receiving t' ∧ at_chunks t ⊆ at_chunks t' ∧
    ∀ i d, cs !! i = Some d → chunk_notification tok base i d ∈ ds.*2 →
      at_chunks t' !! (base + Z.of_nat i) = Some d.
Proof.
  induction ds as [|[now x] ds IH]; intros r1 t r2 os Htr Hrc Hin Hp Hok; cbn in Hp.
  { injection Hp as <- <-. exists t. split_and!; [done..|]. intros i d _ Hx. by apply not_elem_of_nil in Hx. }
  destruct (process_frame now r1 x) as [r1' out] eqn:E1.
  destruct (process_frames r1' ds) as [r3 os'] eqn:E2. injection Hp as <- <-.
  apply Forall_cons in Hok as [Hout Hok].
  assert (x ∈ built_chunks b) as Hx by by apply (Hin (now, x)), list_elem_of_here.
  rewrite built_eq in Hx. cbn in Hx. apply elem_of_lookup_imap in Hx as (i & d & -> & Hi).
  rewrite (process_chunk now r1 t i d) in E1 by done.
  destruct (accept_chunk _ _ _ _ _) as [t'|e] eqn:Ea; injection E1 as <- <-; [|done].
  destruct (receiving_chunk t t' i d) as (Hrc' & Hc & Hsub'); [done..|].
  destruct (IH _ t' _ _ (tracking_update _ _ _ Htr) Hrc' (λ x Hx, Hin x (list_elem_of_further _ _ _ Hx)) E2 Hok)
    as (t'' & Htr'' & Hrc'' & Hsub & Hall).
  exists t''. split_and!; [done..|by etrans|].
  intros j e Hj [Heq|?]%elem_of_cons; [|by apply Hall].
  assert (j < length cs)%nat as Hjl by by eapply lookup_lt_Some.
  assert (i < length cs)%nat as Hil by by eapply lookup_lt_Some.
  cbn [snd] in Heq. apply (f_equal decode_frame) in Heq. rewrite !decode_chunk in Heq by done.
  injection Heq as -> Heq. replace j with i by lia.
  eapply lookup_weaken; [|done]. rewrite Hc. apply lookup_insert_eq.
Qed.

Lemma assemble_full t :
  receiving t → at_chunks t = map_seqZ base cs → assemble t = Some serialized.
Proof.
  intros [] Hc. pose proof split_length_le as Hn. pose proof base_cases as Hbase.
  assert (∀ first, 0 ≤ first ≤ 3 → slots t first = seqZ first n) as Hslots.
  { intros first Hf. unfold slots. rewrite rc_chunks0.
    transitivity (Z.add first <$> seqZ 0 n); [|by rewrite fmap_add_seqZ, Z.add_0_r].
    apply list_fmap_ext.
    intros i x Hx. apply lookup_seqZ in Hx as [-> ?]. apply u64_add_small; lia. }
  assert (has_complete_chunk_range t base = true) as Hcomp.
  { unfold has_complete_chunk_range. rewrite Hslots by (destruct (needs_accept_handshake o); lia).
    apply Is_true_true, forallb_True, Forall_seqZ. intros k Hk.
    apply Is_true_true, bool_decide_eq_true. rewrite Hc. apply lookup_map_seqZ_is_Some. lia. }
  assert (∃ first, assembly_first_chunk_progress t = Some first ∧
                   (first = base ∨ cs = [] ∧ first = 2)) as (first & Hfirst & Hcases).
  { unfold assembly_first_chunk_progress. rewrite rc_start0.
    change (u64_add 1 1) with 2. change (u64_add 1 2) with 3. cbv zeta.
    destruct (needs_accept_handshake o); rewrite Hbase in Hcomp.
    - destruct (has_complete_chunk_range t 2) eqn:E2; [|rewrite Hcomp; eauto].
      exists 2. split; [done|]. destruct cs as [|c cs']; [by auto|]. exfalso.
      unfold has_complete_chunk_range in E2. rewrite Hslots in E2 by lia.
      apply Is_true_true, forallb_True in E2. rewrite Forall_seqZ in E2.
      specialize (E2 2 ltac:(subst n; cbn; lia)). apply Is_true_true, bool_decide_eq_true in E2.
      rewrite Hc in E2. apply lookup_map_seqZ_is_Some in E2. lia.
    - rewrite Hcomp. eauto. }
  unfold assemble. rewrite Hfirst. cbn.
  rewrite <- (split_concat _ _ _ Hcs).
  destruct Hcases as [->|[Hnil ->]].
  - rewrite Hslots by (destruct (needs_accept_handshake o); lia).
    erewrite mapM_Some_2; [done|]. apply Forall2_same_length_lookup.
    rewrite length_seqZ. split; [lia|]. intros i k d [-> Hi]%lookup_seqZ Hd.
    rewrite Hc. by apply lookup_map_seqZ_Some_inv.
  - rewrite Hslots by lia. rewrite seqZ_nil by (subst n; rewrite Hnil; done). by rewrite Hnil.
Qed.

(** The end frame of a transfer whose chunks all arrived. *)
Lemma finish_full t :
  receiving t → at_chunks t = map_seqZ base cs →
  finish_transfer p tok t (base + n) =
  match validate_and_parse_oversized serialized (max_transfer_bytes p) with
  | Some m => Ok (Some m)
  | None => Err (Reassembly ("Reassembled payload is not a valid JSON-RPC message (token: "
                             +:+ tok +:+ ")"))
  end.
Proof.
  intros Hrc Hc. pose proof (assemble_full t Hrc Hc) as Ha. destruct Hrc.
  unfold finish_transfer, chunk_count. rewrite (proj2 (Z.leb_gt _ _)) by done.
  rewrite Ha, Hc, size_map_seqZ, rc_chunks0, rc_bytes0, rc_digest0, !Z.eqb_refl, String.eqb_refl.
  cbn. destruct ((0 <? n) && _) eqn:E; [|done].
  apply andb_true_iff in E as [E1%Z.ltb_lt E2%bool_decide_eq_true].
  pose proof (size_map_seqZ base cs) as Hs. rewrite E2, map_size_empty in Hs. lia.
Qed.

Lemma process_end now r1 t :
  tracking r1 t →
  process_frame now r1 (built_end b) =
  (set_transfers r1 (delete tok (transfers r1)), finish_transfer p tok t (base + n)).
Proof.
  intros [Hp Ht]. pose proof split_length_le. pose proof base_cases.
  rewrite built_eq. cbn [built_end]. unfold process_frame. rewrite decode_built; try done.
  - cbn [dispatch]. unfold handle_end. by rewrite Ht, lookup_insert_eq, Hp.
  - destruct (needs_accept_handshake o); lia.
Qed.

Lemma complete_delivery t (ds : list (Z * JsonRpcNotification)) :
  receiving t →
  (∀ i d, cs !! i = Some d → chunk_notification tok base i d ∈ ds.*2 →
     at_chunks t !! (base + Z.of_nat i) = Some d) →
  (∀ x, x ∈ built_chunks b → x ∈ ds.*2) → at_chunks t = map_seqZ base cs.
Proof.
  intros [] Hall Hds. apply (anti_symm (⊆)); [done|]. apply map_subseteq_spec.
  intros k d Hk. apply lookup_map_seqZ_Some in Hk as [Hle Hd].
  replace k with (base + Z.of_nat (Z.to_nat (k - base))) by lia. apply Hall; [done|].
  apply Hds. rewrite built_eq. cbn. apply elem_of_lookup_imap. eauto.
Qed.

Lemma any_order (ds : list (Z * JsonRpcNotification)) t9 r2 os :
  (∀ x, x ∈ ds → x.2 ∈ built_chunks b) → (∀ x, x ∈ built_chunks b → x ∈ ds.*2) →
  process_frames r (((t0, built_start b) :: handshake_frames) ++ ds) = (r2, os) →
  Forall (λ o, is_ok o = true) os →
  process_frame t9 r2 (built_end b) =
  (r, match validate_and_parse_oversized serialized (max_transfer_bytes p) with
      | Some m => Ok (Some m)
      | None => Err (Reassembly ("Reassembled payload is not a valid JSON-RPC message (token: "
                                 +:+ tok +:+ ")"))
      end).
Proof.
  intros Hin Hds Hp Hok. rewrite process_frames_app in Hp.
  destruct open_transfer as (r1 & t & E1 & Htr & Hrc & _). rewrite E1 in Hp.
  destruct (process_frames r1 ds) as [r3 os3] eqn:E3. injection Hp as <- <-.
  apply Forall_cons in Hok as [_ Hok]. apply Forall_app in Hok as [_ Hok].
  destruct (deliver_chunks ds r1 t r3 os3) as (t' & Htr' & Hrc' & _ & Hall); [done..|].
  rewrite (process_end t9 r3 t') by done.
  rewrite finish_full by eauto using complete_delivery. f_equal.
  destruct Htr' as [Hp Ht]. unfold set_transfers. rewrite Ht, Hp, delete_insert_id by done.
  apply receiver_eta.
Qed.

(** *** In order, nothing fails *)

(** The transfer when the first [k] chunks are in, and no other. *)
Definition prefix_received (t : ActiveTransfer) (k : nat) : Prop :=
  receiving t ∧ at_chunks t = map_seqZ base (take k cs) ∧
  next_expected_chunk_progress t = base + Z.of_nat k.

Lemma first_slot t : receiving t → first_chunk_slot t = base.
Proof.
  intros []. unfold first_chunk_slot. rewrite rc_start0, base_cases.
  destruct (at_accept_progress t), (needs_accept_handshake o); try done.
  - by pose proof (proj1 rc_accept0 (mk_is_Some _ _ eq_refl)).
  - by destruct (proj2 rc_accept0 eq_refl).
Qed.

Lemma next_chunk t k d :
  prefix_received t k → cs !! k = Some d →
  ∃ t', accept_chunk p tok t (base + Z.of_nat k) d = Ok t' ∧ prefix_received t' (S k).
Proof.
  intros (Hrc & Hc & Hnext) Hd. pose proof split_length_le as Hn. pose proof base_cases as Hbase.
  pose proof (lookup_lt_Some _ _ _ Hd) as Hk.
  assert (2 ≤ base ≤ 3) as Hb23 by (destruct (needs_accept_handshake o); lia).
  assert (map_seqZ base (take (S k) cs) = <[base + Z.of_nat k := d]> (at_chunks t)) as Hins.
  { rewrite Hc, (take_S_r _ _ _ Hd), map_seqZ_app, map_seqZ_singleton, length_take.
    rewrite Nat.min_l by lia. rewrite map_union_comm.
    - by rewrite <- insert_union_singleton_l.
    - apply map_disjoint_singleton_r, lookup_map_seqZ_None. rewrite length_take. lia. }
  assert (at_chunks t !! (base + Z.of_nat k) = None) as Hnone.
  { rewrite Hc. apply lookup_map_seqZ_None. rewrite length_take. lia. }
  assert (∃ t', accept_chunk p tok t (base + Z.of_nat k) d = Ok t' ∧
            t' = refresh_chunk_progress_state (insert_chunk t (base + Z.of_nat k) d)) as (t' & Ha & Ht').
  { eexists. split; [|done]. unfold accept_chunk. rewrite Hnext, Hnone, Z.sub_diag.
    rewrite (rc_start _ Hrc), (rc_chunks _ Hrc).
    rewrite (u64_add_small 1 n), !u64_add_small by lia.
    rewrite !(proj2 (Z.ltb_ge _ _)) by lia. cbn [andb Z.ltb Z.compare].
    destruct (1 + 2 <? base + Z.of_nat k) eqn:E; b2p; [|done].
    assert (has_chunk t base = true) as Hfirst.
    { apply bool_decide_eq_true. rewrite Hc. apply lookup_map_seqZ_is_Some. rewrite length_take. lia. }
    change (1 + 1) with 2. change (1 + 2) with 3.
    destruct (needs_accept_handshake o); rewrite Hbase in Hfirst; rewrite Hfirst; cbn;
      by rewrite ?andb_false_r. }
  exists t'. split; [done|]. destruct (receiving_chunk t t' k d Hrc Hd Ha) as (Hrc' & Hc' & _).
  split_and!; [done|by rewrite Hc'|]. rewrite Ht'. unfold refresh_chunk_progress_state.
  rewrite decide_False by (cbn; apply insert_non_empty). unfold next_expected_chunk_progress. cbn.
  assert (first_chunk_slot (insert_chunk t (base + Z.of_nat k) d) = base) as ->
    by apply (first_slot t Hrc).
  rewrite <- Hins, size_map_seqZ.
  rewrite advance_map_seqZ; rewrite ?length_take; lia.
Qed.

Lemma deliver_in_order times : ∀ k r1 t,
  tracking r1 t → prefix_received t k → (k + length times = length cs)%nat →
  ∃ r2, process_frames r1 (zip times (imap (λ i, chunk_notification tok base (k + i)) (drop k cs)))
        = (r2, replicate (length times) (Ok None)).
Proof.
  induction times as [|now times IH]; intros k r1 t Htr Hpre Hlen; [by eexists|].
  destruct (lookup_lt_is_Some_2 cs k) as [d Hd]; [cbn in Hlen; lia|].
  rewrite (drop_S cs d k) by done. cbn [imap zip zip_with process_frames].
  rewrite Nat.add_0_r, (process_chunk now r1 t k d) by done.
  destruct (next_chunk t k d Hpre Hd) as (t' & -> & Hpre').
  destruct (IH (S k) (set_transfers r1 (<[tok := t']> (transfers r1))) t') as [r2 Hr2].
  { by eapply tracking_update. } { done. } { cbn in Hlen. lia. }
  exists r2. cbn [length replicate].
  assert (imap ((λ i, chunk_notification tok base (k + i)) ∘ S) (drop (S k) cs) =
          imap (λ i, chunk_notification tok base (S k + i)) (drop (S k) cs)) as ->.
  { apply imap_ext. intros. unfold compose. by rewrite Nat.add_succ_r. }
  by rewrite Hr2.
Qed.

Lemma in_order times t9 :
  length times = length cs →
  process_frames r (((t0, built_start b) :: handshake_frames) ++ zip times (built_chunks b)
                    ++ [(t9, built_end b)]) =
  (r, replicate (S (length handshake_frames) + length times) (Ok None) ++
      [match validate_and_parse_oversized serialized (max_transfer_bytes p) with
       | Some m => Ok (Some m)
       | None => Err (Reassembly ("Reassembled payload is not a valid JSON-RPC message (token: "
                                  +:+ tok +:+ ")"))
       end]).
Proof.
  intros Hlen. destruct open_transfer as (r1 & t & E1 & Htr & Hrc & Hc & Hnx).
  destruct (deliver_in_order times 0 r1 t) as [r2 E2].
  { done. }
  { split_and!; [done|by rewrite Hc|]. unfold next_expected_chunk_progress.
    rewrite Hnx. cbn. rewrite (first_slot t Hrc). lia. }
  { lia. }
  rewrite drop_0 in E2. change (imap (λ i, chunk_notification tok base (0 + i)) cs)
    with (imap (chunk_notification tok base) cs) in E2.
  assert (built_chunks b = imap (chunk_notification tok base) cs) as Hbc by by rewrite built_eq.
  assert (Hall : process_frames r (((t0, built_start b) :: handshake_frames) ++ zip times (built_chunks b))
          = (r2, replicate (S (length handshake_frames) + length times) (Ok None))).
  { by rewrite process_frames_app, E1, Hbc, E2, replicate_add. }
  rewrite app_assoc, process_frames_app, Hall. cbn [process_frames].
  erewrite (any_order (zip times (built_chunks b)) t9 r2); [done|..|exact Hall|].
  - intros [] Hx. by apply elem_of_zip_r in Hx.
  - intros x Hx. by rewrite snd_zip by (rewrite Hbc, length_imap; lia).
  - by apply Forall_replicate.
Qed.
End roundtrip.
End proofs.

(** ** Properties *)

Section properties.
Context `{SerdeJson} `{Sha256}.

(** (C11) Round trip. A message that is serialized, split by
    [build_oversized_frames] and fed frame by frame, in order, to a receiver
    whose policy admits it (with the accept frame the receiving transport
    records when a handshake was asked for) is surfaced, equal to the original,
    by the last frame and by no earlier one; the receiver is left as it was. *)
Theorem oversized_roundtrip `{!SerdeJsonLaws} m o b r t0 t1 times t9 :
  let serialized := to_string (message_to_value m) in
  let p := r_policy r in
  message_ok m = true →
  (json_depth (message_to_value m) <= RECURSION_LIMIT)%nat →
  build_oversized_frames serialized o = Ok b →
  progress_token o ≠ "" →
  transfers r !! progress_token o = None →
  str_len serialized ≤ max_transfer_bytes p →
  Z.of_nat (length (built_chunks b)) ≤ max_transfer_chunks p →
  active_transfer_count r < max_concurrent_transfers p →
  0 ≤ max_out_of_order_window p →
  str_len serialized + 4 < u64_modulus →
  length times = length (built_chunks b) →
  process_frames r (((t0, built_start b) :: handshake_frames o t1) ++
                    zip times (built_chunks b) ++ [(t9, built_end b)]) =
  (r, replicate (S (length (handshake_frames o t1)) + length times) (Ok None) ++ [Ok (Some m)]).
Proof.
  intros serialized p Hm Hd Hb Htok Hfresh Hbytes Hchunks Hroom Hwin Hu64 Htimes.
  destruct (build_inv _ _ _ Hb) as (cs & Hcs & Hbuilt).
  assert (length (built_chunks b) = length cs) as Hlen by (rewrite Hbuilt; cbn; by rewrite length_imap).
  rewrite (in_order serialized o b r cs t0 t1); try done; [|by rewrite <- Hlen..].
  unfold validate_and_parse_oversized. fold p.
  rewrite (proj2 (Z.ltb_ge _ _)) by done. unfold serialized. by rewrite parse_message_text by done.
Qed.

(** Order independence. Whatever order the chunk frames of a payload
    arrive in, and however often each is repeated, as long as each arrives and
    none is refused the end frame validates the original text and leaves the
    receiver as it was before the transfer. *)
Theorem oversized_any_order serialized o b r t0 t1 ds t9 r2 os :
  let p := r_policy r in
  build_oversized_frames serialized o = Ok b →
  progress_token o ≠ "" →
  transfers r !! progress_token o = None →
  str_len serialized ≤ max_transfer_bytes p →
  Z.of_nat (length (built_chunks b)) ≤ max_transfer_chunks p →
  active_transfer_count r < max_concurrent_transfers p →
  str_len serialized + 4 < u64_modulus →
  (∀ x : Z * JsonRpcNotification, x ∈ ds → x.2 ∈ built_chunks b) →
  (∀ x, x ∈ built_chunks b → x ∈ ds.*2) →
  process_frames r (((t0, built_start b) :: handshake_frames o t1) ++ ds) = (r2, os) →
  Forall (λ o, is_ok o = true) os →
  fst (process_frame t9 r2 (built_end b)) = r ∧
  result_ok (snd (process_frame t9 r2 (built_end b))) =
    Some <$> validate_and_parse_oversized serialized (max_transfer_bytes p).
Proof.
  intros p Hb Htok Hfresh Hbytes Hchunks Hroom Hu64 Hin Hcov Hp Hok.
  destruct (build_inv _ _ _ Hb) as (cs & Hcs & Hbuilt).
  assert (length (built_chunks b) = length cs) as Hlen by (rewrite Hbuilt; cbn; by rewrite length_imap).
  rewrite (any_order serialized o b r cs t0 t1) with (ds := ds) (os := os); try done; [|by rewrite <- Hlen].
  split; [done|]. by destruct (validate_and_parse_oversized _ _).
Qed.

(** (C15) Integrity. Whatever notifications a receiver was fed, a message it
    surfaces was parsed from a text whose byte length and SHA-256 digest are
    those an earlier start frame of the same transfer declared, and which is
    within [max_transfer_bytes]; the transfer is gone afterwards. *)
Theorem surfaced_message_verified p ns r os now n r' m :
  process_frames (with_policy p) ns = (r, os) →
  process_frame now r n = (r', Ok (Some m)) →
  ∃ tok pr payload t0 n0 mode c sp,
    decode_frame n = Some (Ok (End, tok, pr)) ∧
    (t0, n0) ∈ ns ∧
    decode_frame n0 = Some (Ok (Start mode (sha256_digest payload) (str_len payload) c, tok, sp)) ∧
    str_len payload ≤ max_transfer_bytes p ∧
    (value ← from_str payload; validate_message value) = Some m ∧
    transfers r' !! tok = None.
Proof.
  intros Hrun Hp. apply surfaced_inv in Hp as (tok & pr & t & Hdec & Ht & Hfin & ->).
  destruct (process_frames_inv p ns [] _ _ _ (receiver_inv_init p) Hrun) as [Hpol _ Hst Htr].
  destruct (Hst _ _ Ht) as (n0 & mode & Hin & Hdec0). destruct (Htr _ _ Ht) as [Hb _ _ _].
  rewrite Hpol in Hfin.
  apply finish_transfer_inv in Hfin as (payload & _ & Hlen & Hdig & Hparse).
  exists tok, pr, payload, (at_admitted_at t), n0, mode, (at_total_chunks t), (at_start_progress t).
  rewrite Hlen, Hdig. split_and!; try done.
  - unfold validate_and_parse_oversized in Hparse. by case_match.
  - apply lookup_delete_eq.
Qed.

(** (C20) Bounded state. Whatever notifications it is fed, a receiver tracks at
    most [max_concurrent_transfers] transfers, each admitted within the byte and
    chunk limits of the policy and holding at most one chunk more than it
    declared (the reserved accept slot). *)
Theorem receiver_state_bounded p ns r os :
  process_frames (with_policy p) ns = (r, os) →
  active_transfer_count r ≤ Z.max 0 (max_concurrent_transfers p) ∧
  ∀ tok t, transfers r !! tok = Some t →
    at_total_bytes t ≤ max_transfer_bytes p ∧
    at_total_chunks t ≤ max_transfer_chunks p ∧
    chunk_count t ≤ at_total_chunks t + 1.
Proof.
  intros Hrun. destruct (process_frames_inv p ns [] _ _ _ (receiver_inv_init p) Hrun) as [_ Hc _ Htr].
  split; [done|]. intros tok t Ht. pose proof (Htr _ _ Ht) as Hinv.
  pose proof (transfer_inv_count _ _ Hinv). destruct Hinv. split_and!; lia.
Qed.

(** Isolation and clean-up. A frame changes the state of its own token
    only; a refused accept, chunk, end or abort frame, and a surfaced message,
    leave that token untracked; a refused start frame changes nothing. *)
Theorem frame_isolation now r n f tok pr r' o :
  decode_frame n = Some (Ok (f, tok, pr)) →
  process_frame now r n = (r', o) →
  (∀ k, k ≠ tok → transfers r' !! k = transfers r !! k) ∧
  (is_ok o = false → match f with Start _ _ _ _ => r' = r | _ => transfers r' !! tok = None end) ∧
  (∀ m, o = Ok (Some m) → transfers r' !! tok = None).
Proof.
  intros Hdec Hp. split_and!.
  - unfold process_frame in Hp. rewrite Hdec in Hp. by apply dispatch_step in Hp as (_ & Hne & _).
  - unfold process_frame in Hp. rewrite Hdec in Hp. intros Ho.
    destruct f; cbn [dispatch] in Hp; unfold handle_start, handle_accept, handle_chunk, handle_end,
      handle_abort in Hp; repeat (case_match; try done); simplify_eq; try done; cbn;
      by rewrite ?lookup_delete_eq.
  - intros m ->. apply surfaced_inv in Hp as (tok' & pr' & t & Hdec' & _ & _ & ->).
    rewrite Hdec in Hdec'. simplify_eq. cbn. apply lookup_delete_eq.
Qed.

(** Watchdog. Sweeping removes exactly the transfers older than
    [transfer_timeout_ms] and reports their tokens; a timeout of zero sweeps
    nothing; and after any run the age of a transfer counts from the
    notification that started it, whatever chunks came since. *)
Theorem remove_expired_hard_deadline p ns r os now tok t :
  process_frames (with_policy p) ns = (r, os) →
  transfers r !! tok = Some t →
  (∃ n mode, (at_admitted_at t, n) ∈ ns ∧
     decode_frame n = Some (Ok (Start mode (at_digest t) (at_total_bytes t) (at_total_chunks t),
                                tok, at_start_progress t))) ∧
  let expired := (negb (transfer_timeout_ms p =? 0)) &&
                 (from_millis (transfer_timeout_ms p) <? now - at_admitted_at t) in
  transfers (fst (remove_expired now r)) !! tok = (if expired then None else Some t) ∧
  (tok ∈ snd (remove_expired now r) ↔ expired = true).
Proof.
  intros Hrun Ht.
  destruct (process_frames_inv p ns [] _ _ _ (receiver_inv_init p) Hrun) as [Hpol _ Hst _].
  split; [by destruct (Hst _ _ Ht) as (n & mode & ? & ?); eauto|]. cbn.
  unfold remove_expired, is_expired. rewrite Hpol.
  destruct (transfer_timeout_ms p =? 0) eqn:E0; cbn [negb andb fst snd].
  - split; [done|]. set_solver.
  - cbn [transfers set_transfers]. rewrite elem_of_dom, !map_lookup_filter, Ht. cbn.
    destruct (_ <? _) eqn:E; cbn; (split; [done|]); split; try done; by intros [].
Qed.
End properties.

(** ** Witnesses *)

(** The demo payload in three chunks, with the accept handshake. *)
Definition demo_options : OversizedSenderOptions := mkSenderOptions "tok" 150 true.
Definition demo_built : BuiltOversizedFrames :=
  match @build_oversized_frames id_sha256 demo_text demo_options with
  | Ok b => b
  | Err _ => mkBuilt (mkNotification "" "" None) [] (mkNotification "" "" None)
  end.

Lemma oversized_roundtrip_witness :
  @process_frames bits_serde id_sha256 receiver_new
    (((0, built_start demo_built) :: handshake_frames demo_options 1) ++
     zip [2; 3; 3] (built_chunks demo_built) ++ [(4, built_end demo_built)]) =
  (receiver_new, replicate 5 (Ok None) ++ [Ok (Some demo_message)]).
Proof.
  apply (@oversized_roundtrip bits_serde id_sha256 bits_serde_laws demo_message demo_options demo_built
           receiver_new 0 1 [2; 3; 3] 4); try (vm_compute; done).
  vm_compute. repeat constructor.
Defined.

(** The last two chunks swapped, and the last one repeated. *)
Definition demo_reordered : list (Z * JsonRpcNotification) :=
  match built_chunks demo_built with
  | [c1; c2; c3] => [(2, c1); (3, c3); (4, c2); (4, c3)]
  | _ => []
  end.

Lemma oversized_any_order_witness :
  let r2 := fst (@process_frames bits_serde id_sha256 receiver_new
                   (((0, built_start demo_built) :: handshake_frames demo_options 1) ++ demo_reordered)) in
  fst (@process_frame bits_serde id_sha256 5 r2 (built_end demo_built)) = receiver_new ∧
  result_ok (snd (@process_frame bits_serde id_sha256 5 r2 (built_end demo_built))) =
    Some <$> @validate_and_parse_oversized bits_serde demo_text DEFAULT_MAX_TRANSFER_BYTES.
Proof.
  apply (@oversized_any_order bits_serde id_sha256 demo_text demo_options demo_built receiver_new 0 1
           demo_reordered 5
           (fst (@process_frames bits_serde id_sha256 receiver_new
                   (((0, built_start demo_built) :: handshake_frames demo_options 1) ++ demo_reordered)))
           (snd (@process_frames bits_serde id_sha256 receiver_new
                   (((0, built_start demo_built) :: handshake_frames demo_options 1) ++ demo_reordered))));
    [| | | | | | | apply Forall_forall, (bool_decide_eq_true_1 _)
     | apply Forall_forall, (bool_decide_eq_true_1 _) | | apply (bool_decide_eq_true_1 _)];
    vm_compute; done.
Defined.

(** The frames of the demo transfer, with their clock readings. *)
Definition demo_run : list (Z * JsonRpcNotification) :=
  ((0, built_start demo_built) :: handshake_frames demo_options 1) ++
  zip [2; 3; 3] (built_chunks demo_built).

Definition demo_receiver : OversizedTransferReceiver :=
  fst (@process_frames bits_serde id_sha256 (with_policy TransferPolicy_default) demo_run).

Lemma surfaced_message_verified_witness :
  ∃ tok pr payload t0 n0 mode c sp,
    @decode_frame bits_serde (built_end demo_built) = Some (Ok (End, tok, pr)) ∧
    (t0, n0) ∈ demo_run ∧
    @decode_frame bits_serde n0 =
      Some (Ok (Start mode (@sha256_digest id_sha256 payload) (str_len payload) c, tok, sp)) ∧
    str_len payload ≤ max_transfer_bytes TransferPolicy_default ∧
    (value ← @from_str bits_serde payload; validate_message value) = Some demo_message ∧
    transfers (fst (@process_frame bits_serde id_sha256 4 demo_receiver (built_end demo_built))) !! tok = None.
Proof.
  apply (@surfaced_message_verified bits_serde id_sha256 TransferPolicy_default demo_run demo_receiver
           (snd (@process_frames bits_serde id_sha256 (with_policy TransferPolicy_default) demo_run))
           4 (built_end demo_built)); vm_compute; done.
Defined.

Lemma receiver_state_bounded_witness :
  active_transfer_count demo_receiver ≤ 64 ∧
  ∀ tok t, transfers demo_receiver !! tok = Some t →
    at_total_bytes t ≤ max_transfer_bytes TransferPolicy_default ∧
    at_total_chunks t ≤ max_transfer_chunks TransferPolicy_default ∧
    chunk_count t ≤ at_total_chunks t + 1.
Proof.
  apply (@receiver_state_bounded bits_serde id_sha256 TransferPolicy_default demo_run demo_receiver
           (snd (@process_frames bits_serde id_sha256 (with_policy TransferPolicy_default) demo_run))).
  vm_compute. done.
Defined.

(** An end frame of another peer's token, refused for its progress. *)
Definition demo_bad_end : JsonRpcNotification := into_progress_notification End "tok" 2 None.

Lemma frame_isolation_witness :
  let step := @process_frame bits_serde id_sha256 4 demo_receiver demo_bad_end in
  (∀ k, k ≠ "tok" → transfers (fst step) !! k = transfers demo_receiver !! k) ∧
  (is_ok (snd step) = false → transfers (fst step) !! "tok" = None) ∧
  (∀ m, snd step = Ok (Some m) → transfers (fst step) !! "tok" = None).
Proof.
  apply (@frame_isolation bits_serde id_sha256 4 demo_receiver demo_bad_end End "tok" 2);
    [vm_compute; done | apply surjective_pairing].
Defined.

Definition demo_transfer : ActiveTransfer :=
  default (mkTransfer "" 0 0 0 None None None 0 ∅ 0) (transfers demo_receiver !! "tok").

Lemma remove_expired_hard_deadline_witness :
  transfers (fst (remove_expired (from_millis 300001) demo_receiver)) !! "tok" = None ∧
  ("tok" ∈ snd (remove_expired (from_millis 300001) demo_receiver) ↔ true = true).
Proof.
  refine (proj2 (@remove_expired_hard_deadline bits_serde id_sha256 TransferPolicy_default demo_run
                   demo_receiver
                   (snd (@process_frames bits_serde id_sha256 (with_policy TransferPolicy_default) demo_run))
                   (from_millis 300001) "tok" demo_transfer _ _)); vm_compute; done.
Defined.

(** ** Hostile frames *)

(** Nothing bounds the data of buffered chunks before the end frame: a transfer
    that declared one byte, under a policy of one byte, holds nine. *)
Theorem buffered_bytes_exceed_declared :
  let p := mkPolicy 1 2 1 21 42 300000 in
  let start := into_progress_notification (Start Render "sha256:" 1 2) "t" 1 None in
  let chunk := into_progress_notification (Chunk "123456789") "t" 2 None in
  let r := fst (@process_frames bits_serde id_sha256 (with_policy p) [(0, start); (1, chunk)]) in
  snd (@process_frames bits_serde id_sha256 (with_policy p) [(0, start); (1, chunk)]) = [Ok None; Ok None] ∧
  ∃ t, transfers r !! "t" = Some t ∧ at_total_bytes t = 1 ∧
       (str_len <$> at_chunks t !! 2) = Some 9.
Proof.
  split; [vm_compute; done|]. eexists. split; [vm_compute; reflexivity|]. split; vm_compute; done.
Qed.

(** A start frame at the largest progress is admitted, and the first chunk slot
    computed from it leaves the [u64] range. *)
Theorem start_progress_overflow :
  let start := into_progress_notification (Start Render "sha256:" 1 1) "t" u64_max None in
  let r := fst (@process_frame bits_serde id_sha256 0 receiver_new start) in
  snd (@process_frame bits_serde id_sha256 0 receiver_new start) = Ok None ∧
  ∃ t, transfers r !! "t" = Some t ∧ in_u64 (at_start_progress t + 1) = false ∧ chunk_min t = 0.
Proof.
  split; [vm_compute; done|]. eexists. split; [vm_compute; reflexivity|]. split; vm_compute; done.
Qed.
