(* ===== verification/Lru.v ===== *)
(** * The LRU cache interface

    The crate [lru] is third-party code.  [Lru] lists the operations of
    [LruCache<String, V>] the SDK calls, [LruLaws] their documented behaviour in
    terms of the iteration order (most recently used first), and [list_lru] is a
    concrete cache that satisfies the laws. *)

From S2P Require Import Prelude.

(** ** Association lists *)

Section alist.
Context {V : Type}.
Implicit Types (k : string) (v : V) (l : list (string * V)).

Fixpoint al_get k l : option V :=
  match l with
  | [] => None
  | (k', v) :: l' => if String.eqb k k' then Some v else al_get k l'
  end.

Fixpoint al_del k l : list (string * V) :=
  match l with
  | [] => []
  | (k', v) :: l' => if String.eqb k k' then al_del k l' else (k', v) :: al_del k l'
  end.

(** What [push] does to the entries of a cache of capacity [cap]: an existing
    key is updated and promoted; a new key may evict the last entry. *)
Definition al_push (cap : Z) k v l : list (string * V) * option (string * V) :=
  match al_get k l with
  | Some old => ((k, v) :: al_del k l, Some (k, old))
  | None =>
      if Z.of_nat (length l) <? cap then ((k, v) :: l, None)
      else ((k, v) :: removelast l, last l)
  end.

Lemma al_get_del k k' l : al_get k (al_del k' l) = if String.eqb k k' then None else al_get k l.
Proof.
  induction l as [|[k0 v0] l IH]; cbn; [by destruct (String.eqb k k')|].
  destruct (String.eqb_spec k' k0) as [->|]; cbn; rewrite IH.
  - by destruct (String.eqb_spec k k0).
  - destruct (String.eqb_spec k k0) as [->|]; [|done].
    destruct (String.eqb_spec k0 k'); congruence.
Qed.

Lemma al_get_elem k v l : al_get k l = Some v → (k, v) ∈ l.
Proof.
  induction l as [|[k0 v0] l IH]; cbn; [done|].
  destruct (String.eqb_spec k k0) as [->|]; [intros [= ->]|]; set_solver.
Qed.

Lemma al_get_None k l : al_get k l = None ↔ k ∉ l.*1.
Proof.
  induction l as [|[k0 v0] l IH]; cbn; [set_solver|].
  destruct (String.eqb_spec k k0) as [->|]; [set_solver|]. rewrite IH. set_solver.
Qed.

Lemma al_elem_get k v l : NoDup l.*1 → (k, v) ∈ l → al_get k l = Some v.
Proof.
  induction l as [|[k0 v0] l IH]; cbn; [set_solver|]. intros [Hn Hd]%NoDup_cons Hin.
  apply elem_of_cons in Hin as [[= -> ->]|Hin]; [by rewrite String.eqb_refl|].
  destruct (String.eqb_spec k k0) as [->|]; [|by apply IH].
  exfalso. apply Hn. apply list_elem_of_fmap. by exists (k0, v).
Qed.

Lemma al_del_sublist k l : al_del k l `sublist_of` l.
Proof.
  induction l as [|[k0 v0] l IH]; cbn; [done|].
  destruct (String.eqb k k0); by constructor.
Qed.

Lemma al_del_keys k l : k ∉ (al_del k l).*1.
Proof. apply al_get_None. by rewrite al_get_del, String.eqb_refl. Qed.

Lemma al_del_id k l : al_get k l = None → al_del k l = l.
Proof.
  induction l as [|[k0 v0] l IH]; cbn; [done|]. destruct (String.eqb k k0); [done|].
  intros. by rewrite IH.
Qed.

Lemma length_al_del k v l :
  NoDup l.*1 → al_get k l = Some v → S (length (al_del k l)) = length l.
Proof.
  induction l as [|[k0 v0] l IH]; cbn; [done|]. intros [Hn Hd]%NoDup_cons.
  destruct (String.eqb_spec k k0) as [->|]; cbn.
  - intros _. by rewrite al_del_id by by apply al_get_None.
  - intros. by rewrite IH.
Qed.

Lemma NoDup_al_del k l : NoDup l.*1 → NoDup (al_del k l).*1.
Proof. intros Hd. eapply sublist_NoDup; [exact Hd|]. apply fmap_sublist, al_del_sublist. Qed.

Lemma removelast_sublist l : removelast l `sublist_of` l.
Proof.
  destruct l as [|x l] using rev_ind; [done|]. rewrite removelast_last. by apply sublist_inserts_r.
Qed.

(** A full list is its front and its last entry. *)
Lemma removelast_last_split l : l ≠ [] → ∃ x, last l = Some x ∧ l = removelast l ++ [x].
Proof.
  destruct l as [|x l] using rev_ind; [done|]. intros _. exists x.
  by rewrite last_snoc, removelast_last.
Qed.

Lemma al_get_app k l1 l2 :
  al_get k (l1 ++ l2) = match al_get k l1 with Some v => Some v | None => al_get k l2 end.
Proof. induction l1 as [|[k1 v1] l1 IH]; cbn; [done|]. by destruct (String.eqb k k1). Qed.

Lemma NoDup_al_push cap k v l : NoDup l.*1 → NoDup (al_push cap k v l).1.*1.
Proof.
  intros Hd. unfold al_push. destruct (al_get k l) as [old|] eqn:E; cbn.
  - constructor; [apply al_del_keys|by apply NoDup_al_del].
  - apply al_get_None in E. destruct (_ <? _); cbn; constructor; try done.
    + intros Hin. apply E. by eapply sublist_subseteq, Hin; apply fmap_sublist, removelast_sublist.
    + eapply sublist_NoDup; [exact Hd|]. apply fmap_sublist, removelast_sublist.
Qed.

Lemma length_al_push cap k v l :
  1 ≤ cap → NoDup l.*1 → Z.of_nat (length l) ≤ cap → Z.of_nat (length (al_push cap k v l).1) ≤ cap.
Proof.
  intros Hc Hd Hl. unfold al_push. destruct (al_get k l) as [old|] eqn:E; cbn.
  - by rewrite (length_al_del k old).
  - destruct (_ <? _) eqn:Elt; b2p; cbn; [lia|].
    destruct (removelast_last_split l) as (x & _ & Hx); [by intros ->; cbn in *; lia|].
    rewrite Hx, length_app in Hl. cbn in Hl. lia.
Qed.
End alist.

(** ** The interface *)

Class Lru (L : Type → Type) := {
  lru_new {V} : Z → L V;
  lru_push {V} : string → V → L V → L V * option (string * V);
  lru_put {V} : string → V → L V → L V;
  lru_pop {V} : string → L V → L V * option V;
  lru_get {V} : string → L V → L V * option V;
  lru_get_mut {V} : string → (V → V) → L V → L V * bool;
  lru_peek {V} : string → L V → option V;
  lru_iter {V} : L V → list (string * V);
  lru_iter_mut {V} : (string → V → V) → L V → L V;
  lru_cap {V} : L V → Z;
  lru_clear {V} : L V → L V;
}.

Definition lru_len `{Lru L} {V} (c : L V) : Z := Z.of_nat (length (lru_iter c)).
Definition lru_contains `{Lru L} {V} (k : string) (c : L V) : bool :=
  if lru_peek k c is Some _ then true else false.
(** [peek_mut]: an update in place that does not promote the key. *)
Definition lru_peek_mut `{Lru L} {V} (k : string) (f : V → V) (c : L V) : L V :=
  lru_iter_mut (λ k' v, if String.eqb k' k then f v else v) c.

(** [NonZeroUsize::new(n).unwrap_or(1)], the capacity the stores are built with. *)
Definition nonzero_or_one (n : Z) : Z := if n =? 0 then 1 else n.

Class LruLaws L `{!Lru L} := {
  lru_nodup {V} (c : L V) : NoDup (lru_iter c).*1;
  lru_cap_pos {V} (c : L V) : 1 ≤ lru_cap c;
  lru_len_cap {V} (c : L V) : Z.of_nat (length (lru_iter c)) ≤ lru_cap c;
  lru_new_iter {V} n : lru_iter (lru_new n : L V) = [];
  lru_new_cap {V} n : 1 ≤ n → lru_cap (lru_new n : L V) = n;
  lru_push_iter {V} k v (c : L V) :
    lru_iter (lru_push k v c).1 = (al_push (lru_cap c) k v (lru_iter c)).1;
  lru_push_evicted {V} k v (c : L V) :
    (lru_push k v c).2 = (al_push (lru_cap c) k v (lru_iter c)).2;
  lru_push_cap {V} k v (c : L V) : lru_cap (lru_push k v c).1 = lru_cap c;
  lru_put_push {V} k v (c : L V) : lru_iter (lru_put k v c) = lru_iter (lru_push k v c).1;
  lru_put_cap {V} k v (c : L V) : lru_cap (lru_put k v c) = lru_cap c;
  lru_pop_iter {V} k (c : L V) : lru_iter (lru_pop k c).1 = al_del k (lru_iter c);
  lru_pop_value {V} k (c : L V) : (lru_pop k c).2 = al_get k (lru_iter c);
  lru_pop_cap {V} k (c : L V) : lru_cap (lru_pop k c).1 = lru_cap c;
  lru_get_iter {V} k (c : L V) :
    lru_iter (lru_get k c).1 =
    match al_get k (lru_iter c) with
    | Some v => (k, v) :: al_del k (lru_iter c)
    | None => lru_iter c
    end;
  lru_get_value {V} k (c : L V) : (lru_get k c).2 = al_get k (lru_iter c);
  lru_get_cap {V} k (c : L V) : lru_cap (lru_get k c).1 = lru_cap c;
  lru_get_mut_iter {V} k f (c : L V) :
    lru_iter (lru_get_mut k f c).1 =
    match al_get k (lru_iter c) with
    | Some v => (k, f v) :: al_del k (lru_iter c)
    | None => lru_iter c
    end;
  lru_get_mut_found {V} k f (c : L V) :
    (lru_get_mut k f c).2 = if al_get k (lru_iter c) is Some _ then true else false;
  lru_get_mut_cap {V} k f (c : L V) : lru_cap (lru_get_mut k f c).1 = lru_cap c;
  lru_peek_value {V} k (c : L V) : lru_peek k c = al_get k (lru_iter c);
  lru_iter_mut_iter {V} f (c : L V) :
    lru_iter (lru_iter_mut f c) = map (λ kv, (kv.1, f kv.1 kv.2)) (lru_iter c);
  lru_iter_mut_cap {V} f (c : L V) : lru_cap (lru_iter_mut f c) = lru_cap c;
  lru_clear_iter {V} (c : L V) : lru_iter (lru_clear c) = [];
  lru_clear_cap {V} (c : L V) : lru_cap (lru_clear c) = lru_cap c;
}.

(** Lookup in a cache after each operation, the view the stores reason with. *)
Definition entry `{Lru L} {V} (c : L V) (k : string) : option V := al_get k (lru_iter c).

Section laws.
Context `{LruLaws L} {V : Type}.
Implicit Types (c : L V) (k : string) (v : V).

Lemma entry_new n k : entry (lru_new n : L V) k = None.
Proof. unfold entry. by rewrite lru_new_iter. Qed.

Lemma entry_pop k c k' : entry (lru_pop k c).1 k' = if String.eqb k' k then None else entry c k'.
Proof. unfold entry. by rewrite lru_pop_iter, al_get_del. Qed.

Lemma entry_get k c k' : entry (lru_get k c).1 k' = entry c k'.
Proof.
  unfold entry. rewrite lru_get_iter. destruct (al_get k (lru_iter c)) eqn:E; [|done].
  cbn. rewrite al_get_del. by destruct (String.eqb_spec k' k) as [->|].
Qed.

Lemma entry_get_mut k f c k' :
  entry (lru_get_mut k f c).1 k' = if String.eqb k' k then f <$> entry c k else entry c k'.
Proof.
  unfold entry. rewrite lru_get_mut_iter. destruct (al_get k (lru_iter c)) eqn:E; cbn.
  - rewrite al_get_del. by destruct (String.eqb_spec k' k) as [->|].
  - by destruct (String.eqb_spec k' k) as [->|].
Qed.

Lemma al_get_map (f : string → V → V) k l :
  al_get k (map (λ kv, (kv.1, f kv.1 kv.2)) l) = f k <$> al_get k l.
Proof.
  induction l as [|[k0 v0] l IH]; cbn; [done|]. by destruct (String.eqb_spec k k0) as [->|].
Qed.

Lemma entry_iter_mut f c k : entry (lru_iter_mut f c) k = f k <$> entry c k.
Proof. unfold entry. by rewrite lru_iter_mut_iter, al_get_map. Qed.

Lemma entry_peek_mut k f c k' :
  entry (lru_peek_mut k f c) k' = if String.eqb k' k then f <$> entry c k else entry c k'.
Proof.
  unfold lru_peek_mut. rewrite entry_iter_mut. destruct (String.eqb_spec k' k) as [->|]; [done|].
  by destruct (entry c k').
Qed.

Lemma entry_clear c k : entry (lru_clear c) k = None.
Proof. unfold entry. by rewrite lru_clear_iter. Qed.

Lemma entry_push_eq k v c : entry (lru_push k v c).1 k = Some v.
Proof.
  unfold entry. rewrite lru_push_iter. unfold al_push.
  destruct (al_get k (lru_iter c)); [|case_match]; cbn; by rewrite String.eqb_refl.
Qed.

(** Pushing [k] leaves another key alone unless that key is the evicted one. *)
Lemma entry_push_ne k v c k' :
  k' ≠ k →
  entry (lru_push k v c).1 k' =
  match (lru_push k v c).2 with
  | Some (ek, _) => if String.eqb k' ek then None else entry c k'
  | None => entry c k'
  end.
Proof.
  intros Hne. unfold entry. rewrite lru_push_iter, lru_push_evicted. unfold al_push.
  pose proof (proj2 (String.eqb_neq k' k) Hne) as Hne'.
  destruct (al_get k (lru_iter c)) eqn:E.
  { cbn. by rewrite !Hne', al_get_del, Hne'. }
  destruct (_ <? _) eqn:Elt; cbn; rewrite Hne'; [done|]. apply Z.ltb_ge in Elt.
  destruct (removelast_last_split (lru_iter c)) as ([ek ev] & -> & Hx).
  { intros Hnil. rewrite Hnil in Elt. pose proof (lru_cap_pos c). cbn in Elt. lia. }
  pose proof (lru_nodup c) as Hd. rewrite Hx, fmap_app in Hd. apply NoDup_app in Hd as (_ & Hd & _).
  assert (al_get k' (lru_iter c) = al_get k' (removelast (lru_iter c) ++ [(ek, ev)])) as -> by by rewrite <- Hx.
  rewrite al_get_app. cbn. destruct (String.eqb_spec k' ek) as [->|].
  - apply al_get_None. intros Hin. apply (Hd _ Hin). set_solver.
  - by destruct (al_get k' (removelast (lru_iter c))).
Qed.

(** The evicted entry was in the cache, and is not the pushed key unless the
    push was an update. *)
Lemma push_evicted_entry k v c ek ev :
  (lru_push k v c).2 = Some (ek, ev) → entry c ek = Some ev ∧ (ek = k ↔ is_Some (entry c k)).
Proof.
  unfold entry. rewrite lru_push_evicted. unfold al_push.
  destruct (al_get k (lru_iter c)) eqn:E; cbn.
  { intros [= <- <-]. rewrite E. split; [done|]. split; eauto. }
  destruct (_ <? _) eqn:Elt; [done|]. b2p. cbn. intros Hl.
  assert ((ek, ev) ∈ lru_iter c) as Hin by by apply last_Some_elem_of in Hl.
  apply (al_elem_get _ _ _ (lru_nodup c)) in Hin. split; [done|].
  split; [intros ->; congruence|by intros []].
Qed.

Lemma push_no_evict k v c :
  lru_len c < lru_cap c → entry c k = None → (lru_push k v c).2 = None.
Proof.
  unfold entry, lru_len. intros Hl Hk. rewrite lru_push_evicted. unfold al_push.
  rewrite Hk. by rewrite (proj2 (Z.ltb_lt _ _)).
Qed.

Lemma lru_len_le c : lru_len c ≤ lru_cap c.
Proof. apply lru_len_cap. Qed.

Lemma lru_len_push k v c : lru_len (lru_push k v c).1 ≤ lru_len c + 1.
Proof.
  unfold lru_len. rewrite lru_push_iter. unfold al_push.
  destruct (al_get k (lru_iter c)) eqn:E; cbn.
  - rewrite (length_al_del k v0) by (done || apply lru_nodup). lia.
  - destruct (_ <? _); cbn; [lia|].
    pose proof (sublist_length _ _ (removelast_sublist (lru_iter c))). lia.
Qed.

Lemma entry_put_eq k v c : entry (lru_put k v c) k = Some v.
Proof. unfold entry. rewrite lru_put_push. apply entry_push_eq. Qed.

(** A put can only remove another key, by eviction. *)
Lemma entry_put_ne k v c k' x :
  k' ≠ k → entry (lru_put k v c) k' = Some x → entry c k' = Some x.
Proof.
  intros Hne. unfold entry at 1. rewrite lru_put_push. fold (entry (lru_push k v c).1 k').
  rewrite entry_push_ne by done. repeat case_match; done.
Qed.

Lemma entry_put_None k v c k' :
  k' ≠ k → entry c k' = None → entry (lru_put k v c) k' = None.
Proof.
  intros Hne Hn. destruct (entry (lru_put k v c) k') eqn:E; [|done].
  apply entry_put_ne in E; congruence.
Qed.

Lemma entry_put_ne_room k v c k' :
  k' ≠ k → lru_len c < lru_cap c → entry (lru_put k v c) k' = entry c k'.
Proof.
  intros Hne Hl. unfold entry at 1. rewrite lru_put_push. fold (entry (lru_push k v c).1 k').
  rewrite entry_push_ne by done. destruct (entry c k) eqn:E.
  - destruct (lru_push k v c).2 as [[ek ev]|] eqn:Ee; [|done].
    apply push_evicted_entry in Ee as [_ Ee]. assert (ek = k) as -> by (apply Ee; eauto).
    by rewrite (proj2 (String.eqb_neq k' k)).
  - by rewrite push_no_evict.
Qed.

Lemma lru_len_put k v c : lru_len (lru_put k v c) ≤ lru_len c + 1.
Proof. unfold lru_len at 1. rewrite lru_put_push. apply lru_len_push. Qed.

Lemma lru_len_pop k c : lru_len (lru_pop k c).1 ≤ lru_len c.
Proof.
  unfold lru_len. rewrite lru_pop_iter.
  pose proof (sublist_length _ _ (al_del_sublist k (lru_iter c))). lia.
Qed.

Lemma lru_len_get k c : lru_len (lru_get k c).1 = lru_len c.
Proof.
  unfold lru_len. rewrite lru_get_iter. destruct (al_get k (lru_iter c)) eqn:E; [|done].
  cbn. rewrite (length_al_del k v); [done|apply lru_nodup|done].
Qed.

Lemma lru_pop_eta k c : lru_pop k c = ((lru_pop k c).1, entry c k).
Proof. unfold entry. rewrite <- lru_pop_value. by destruct (lru_pop k c). Qed.

Lemma lru_get_eta k c : lru_get k c = ((lru_get k c).1, entry c k).
Proof. unfold entry. rewrite <- lru_get_value. by destruct (lru_get k c). Qed.

(** Removing the entries whose value satisfies [p], as the sweeps do: collect the
    keys, then pop each. *)
Lemma filter_keys p c k :
  k ∈ (List.filter (λ kv, p kv.2) (lru_iter c)).*1 ↔ ∃ v, entry c k = Some v ∧ p v = true.
Proof.
  rewrite list_elem_of_fmap. split.
  - intros ([k' v] & -> & Hin). apply list_elem_of_In, filter_In in Hin as [Hin Hp].
    exists v. split; [|done]. apply al_elem_get; [apply lru_nodup|by apply list_elem_of_In].
  - intros (v & Hv & Hp). exists (k, v). split; [done|].
    apply list_elem_of_In, filter_In. split; [|done]. by apply list_elem_of_In, al_get_elem.
Qed.

Lemma filter_keys_nodup p c : NoDup (List.filter (λ kv, p kv.2) (lru_iter c)).*1.
Proof. eapply sublist_NoDup; [apply (lru_nodup c)|]. apply fmap_sublist, filter_sublist'. Qed.

Lemma pop_all_entry l c k :
  entry (foldl (λ c key, (lru_pop key c).1) c l) k = if decide (k ∈ l) then None else entry c k.
Proof.
  revert c. induction l as [|k0 l IH]; intros c; cbn; [done|].
  rewrite IH, entry_pop. destruct (String.eqb_spec k k0) as [->|]; repeat case_decide; set_solver.
Qed.

Lemma pop_all_len l c :
  NoDup l → (∀ k, k ∈ l → is_Some (entry c k)) →
  lru_len (foldl (λ c key, (lru_pop key c).1) c l) = lru_len c - Z.of_nat (length l).
Proof.
  revert c. induction l as [|k0 l IH]; intros c Hnd Hin; cbn; [lia|].
  apply NoDup_cons in Hnd as [Hn Hnd]. rewrite IH; [|done|].
  - destruct (Hin k0) as [v Hv]; [set_solver|]. unfold lru_len. rewrite lru_pop_iter.
    pose proof (length_al_del k0 v (lru_iter c) (lru_nodup c) Hv). lia.
  - intros k Hk. rewrite entry_pop. destruct (String.eqb_spec k k0) as [->|]; [done|]. set_solver.
Qed.

Lemma pop_filter_entry p c k :
  entry (foldl (λ c key, (lru_pop key c).1) c (List.filter (λ kv, p kv.2) (lru_iter c)).*1) k =
  v ← entry c k; if p v then None else Some v.
Proof.
  rewrite pop_all_entry. pose proof (filter_keys p c k) as Hk.
  destruct (entry c k) as [v|]; cbn; [|by case_decide].
  destruct (p v) eqn:Ep; case_decide as Hd; try done; rewrite Hk in Hd; exfalso.
  - apply Hd. eauto.
  - destruct Hd as (? & [= <-] & ?). congruence.
Qed.

Lemma pop_filter_len p c :
  lru_len (foldl (λ c key, (lru_pop key c).1) c (List.filter (λ kv, p kv.2) (lru_iter c)).*1) =
  lru_len c - Z.of_nat (length (List.filter (λ kv, p kv.2) (lru_iter c))).
Proof.
  rewrite pop_all_len; [by rewrite length_fmap|apply filter_keys_nodup|].
  intros k (v & -> & _)%filter_keys. eauto.
Qed.

Lemma lru_contains_entry k c : lru_contains k c = true ↔ is_Some (entry c k).
Proof.
  unfold lru_contains, entry. rewrite lru_peek_value.
  destruct (al_get _ _); split; try done; by intros [].
Qed.

(** A property of every value of a cache. *)
Definition all_entries (P : V → Prop) c : Prop := ∀ k v, entry c k = Some v → P v.

Section all_entries.
Context (P : V → Prop).

Lemma all_entries_new n : all_entries P (lru_new n).
Proof. intros k v. by rewrite entry_new. Qed.
Lemma all_entries_clear c : all_entries P (lru_clear c).
Proof. intros k v. by rewrite entry_clear. Qed.
Lemma all_entries_push k v c : P v → all_entries P c → all_entries P (lru_push k v c).1.
Proof.
  intros Hv Hc k' v'. destruct (decide (k' = k)) as [->|]; [by rewrite entry_push_eq; intros [= <-]|].
  rewrite entry_push_ne by done. intros. repeat case_match; [done|eauto..].
Qed.
Lemma all_entries_put k v c : P v → all_entries P c → all_entries P (lru_put k v c).
Proof.
  intros Hv Hc k' v'. destruct (decide (k' = k)) as [->|]; [by rewrite entry_put_eq; intros [= <-]|].
  intros Hk%entry_put_ne; [|done]. eauto.
Qed.
Lemma all_entries_pop k c : all_entries P c → all_entries P (lru_pop k c).1.
Proof. intros Hc k' v'. rewrite entry_pop. case_match; [done|eauto]. Qed.
Lemma all_entries_popped k v c : all_entries P c → (lru_pop k c).2 = Some v → P v.
Proof. intros Hc. rewrite lru_pop_value. apply Hc. Qed.
Lemma all_entries_pops ks c : all_entries P c → all_entries P (foldl (λ c key, (lru_pop key c).1) c ks).
Proof. intros Hc k v. rewrite pop_all_entry. case_decide; [done|eauto]. Qed.
Lemma all_entries_get_mut k f c :
  (∀ v, P v → P (f v)) → all_entries P c → all_entries P (lru_get_mut k f c).1.
Proof.
  intros Hf Hc k' v'. rewrite entry_get_mut. case_match; [|eauto].
  destruct (entry c k) eqn:E; cbn; [|done]. intros [= <-]. eauto.
Qed.
Lemma all_entries_iter_mut f c :
  (∀ k v, P v → P (f k v)) → all_entries P c → all_entries P (lru_iter_mut f c).
Proof.
  intros Hf Hc k' v'. rewrite entry_iter_mut. destruct (entry c k') eqn:E; cbn; [|done].
  intros [= <-]. eauto.
Qed.
Lemma all_entries_peek k v c : all_entries P c → lru_peek k c = Some v → P v.
Proof. intros Hc. rewrite lru_peek_value. apply Hc. Qed.
End all_entries.
End laws.

Create HintDb entries.
#[export] Hint Resolve all_entries_new all_entries_clear all_entries_push all_entries_put all_entries_pop
  all_entries_pops all_entries_get_mut : entries.

Create Rewrite HintDb lru.
#[export] Hint Rewrite @entry_new @entry_pop @entry_get @entry_get_mut @entry_iter_mut @entry_peek_mut @entry_clear
  @entry_push_eq @entry_put_eq using (typeclasses eauto) : lru.

(** ** A concrete cache *)

(** The entries, most recent first, with a capacity of at least one. *)
Record list_cache (V : Type) : Type := mkCache {
  lc_cap : Z;
  lc_entries : list (string * V);
  lc_ok : (1 <=? lc_cap) && bool_decide (NoDup lc_entries.*1) &&
          (Z.of_nat (length lc_entries) <=? lc_cap) = true;
}.
Arguments mkCache {V}.
Arguments lc_cap {V}.
Arguments lc_entries {V}.
Arguments lc_ok {V}.

Lemma lc_ok_spec {V} cap (l : list (string * V)) :
  (1 <=? cap) && bool_decide (NoDup l.*1) && (Z.of_nat (length l) <=? cap) = true ↔
  1 ≤ cap ∧ NoDup l.*1 ∧ Z.of_nat (length l) ≤ cap.
Proof. rewrite !andb_true_iff, bool_decide_eq_true, !Z.leb_le. tauto. Qed.

(** The cache with new entries, when they are allowed. *)
Definition lc_set {V} (c : list_cache V) (l : list (string * V)) : list_cache V :=
  match bool_dec ((1 <=? lc_cap c) && bool_decide (NoDup l.*1) && (Z.of_nat (length l) <=? lc_cap c)) true with
  | left H => mkCache (lc_cap c) l H
  | right _ => c
  end.

Lemma lc_set_entries {V} (c : list_cache V) l :
  NoDup l.*1 → Z.of_nat (length l) ≤ lc_cap c →
  lc_entries (lc_set c l) = l ∧ lc_cap (lc_set c l) = lc_cap c.
Proof.
  intros Hd Hl. unfold lc_set. destruct (bool_dec _ _) as [H|H]; [done|]. exfalso. apply H.
  apply lc_ok_spec. pose proof (proj1 (lc_ok_spec _ _) (lc_ok c)). tauto.
Qed.

Lemma lc_set_cap {V} (c : list_cache V) l : lc_cap (lc_set c l) = lc_cap c.
Proof. unfold lc_set. by destruct (bool_dec _ _). Qed.

Lemma lc_new_ok {V} n :
  (1 <=? Z.max 1 n) && bool_decide (NoDup ([] : list (string * V)).*1) &&
  (Z.of_nat (length ([] : list (string * V))) <=? Z.max 1 n) = true.
Proof. apply lc_ok_spec. split_and!; [lia|constructor|cbn; lia]. Qed.

Definition lc_new {V} (n : Z) : list_cache V := mkCache (Z.max 1 n) [] (lc_new_ok n).

Definition lc_get_with {V} (k : string) (f : V → V) (c : list_cache V) : list_cache V :=
  match al_get k (lc_entries c) with
  | Some v => lc_set c ((k, f v) :: al_del k (lc_entries c))
  | None => c
  end.

Definition lc_push {V} (k : string) (v : V) (c : list_cache V) : list_cache V * option (string * V) :=
  let '(l, e) := al_push (lc_cap c) k v (lc_entries c) in (lc_set c l, e).
Definition lc_put {V} (k : string) (v : V) (c : list_cache V) : list_cache V := (lc_push k v c).1.
Definition lc_pop {V} (k : string) (c : list_cache V) : list_cache V * option V :=
  (lc_set c (al_del k (lc_entries c)), al_get k (lc_entries c)).
Definition lc_get {V} (k : string) (c : list_cache V) : list_cache V * option V :=
  (lc_get_with k id c, al_get k (lc_entries c)).
Definition lc_get_mut {V} (k : string) (f : V → V) (c : list_cache V) : list_cache V * bool :=
  (lc_get_with k f c, if al_get k (lc_entries c) is Some _ then true else false).
Definition lc_peek {V} (k : string) (c : list_cache V) : option V := al_get k (lc_entries c).
Definition lc_iter_mut {V} (f : string → V → V) (c : list_cache V) : list_cache V :=
  lc_set c (map (λ kv, (kv.1, f kv.1 kv.2)) (lc_entries c)).
Definition lc_clear {V} (c : list_cache V) : list_cache V := lc_set c [].

#[export] Instance list_lru : Lru list_cache := {|
  lru_new := @lc_new; lru_push := @lc_push; lru_put := @lc_put; lru_pop := @lc_pop;
  lru_get := @lc_get; lru_get_mut := @lc_get_mut; lru_peek := @lc_peek;
  lru_iter := @lc_entries; lru_iter_mut := @lc_iter_mut; lru_cap := @lc_cap; lru_clear := @lc_clear;
|}.

Lemma lc_facts {V} (c : list_cache V) :
  1 ≤ lc_cap c ∧ NoDup (lc_entries c).*1 ∧ Z.of_nat (length (lc_entries c)) ≤ lc_cap c.
Proof. apply lc_ok_spec, lc_ok. Qed.

Lemma lc_push_entries {V} k v (c : list_cache V) :
  lc_entries (lc_set c (al_push (lc_cap c) k v (lc_entries c)).1) =
  (al_push (lc_cap c) k v (lc_entries c)).1.
Proof.
  destruct (lc_facts c) as (? & ? & ?).
  apply lc_set_entries; [by apply NoDup_al_push|by apply length_al_push].
Qed.

Lemma lc_get_with_entries {V} k f (c : list_cache V) :
  lc_entries (lc_get_with k f c) =
  match al_get k (lc_entries c) with
  | Some v => (k, f v) :: al_del k (lc_entries c)
  | None => lc_entries c
  end.
Proof.
  destruct (lc_facts c) as (? & Hd & ?). unfold lc_get_with.
  destruct (al_get k (lc_entries c)) eqn:E; [|done]. apply lc_set_entries; cbn.
  - constructor; [apply al_del_keys|by apply NoDup_al_del].
  - by rewrite (length_al_del k v).
Qed.

Lemma lc_del_entries {V} k (c : list_cache V) :
  lc_entries (lc_set c (al_del k (lc_entries c))) = al_del k (lc_entries c).
Proof.
  destruct (lc_facts c) as (? & Hd & ?). apply lc_set_entries; [by apply NoDup_al_del|].
  pose proof (sublist_length _ _ (al_del_sublist k (lc_entries c))). lia.
Qed.

Lemma lc_iter_mut_entries {V} (f : string → V → V) (c : list_cache V) :
  lc_entries (lc_iter_mut f c) = map (λ kv, (kv.1, f kv.1 kv.2)) (lc_entries c).
Proof.
  destruct (lc_facts c) as (? & Hd & ?). apply lc_set_entries.
  - rewrite <- list_fmap_compose. exact Hd.
  - by rewrite length_map.
Qed.

#[export] Instance list_lru_laws : LruLaws list_cache.
Proof.
  split; intros V; cbn; unfold lc_put, lc_push, lc_pop, lc_get, lc_get_mut, lc_peek, lc_clear; intros;
    try (destruct (al_push _ _ _ _) as [l e] eqn:E; cbn).
  all: cbn; rewrite ?lc_set_cap, ?lc_del_entries, ?lc_get_with_entries, ?lc_iter_mut_entries; try done.
  all: try (by destruct (lc_facts c) as (? & ? & ?)).
  - lia.
  - pose proof (lc_push_entries k v c) as Hp. by rewrite E in Hp.
  - unfold lc_get_with. destruct (al_get _ _); [apply lc_set_cap|done].
  - unfold lc_get_with. destruct (al_get _ _); [apply lc_set_cap|done].
  - apply lc_set_cap.
  - apply lc_set_entries; [constructor|]. destruct (lc_facts c) as (? & ? & ?). cbn. lia.
Qed.
