(* ===== verification/Authorization.v ===== *)
(** * CEP-8 explicit gating: canonical identities and the authorization store

    Models [src/payments/canonical.rs] and [src/payments/authorization_store.rs].
    The JCS printer ([json_canon]) is third-party code, the class [JsonCanon];
    the two LRU maps of the store are caches of the interface [Lru].  Every
    method of the store is one critical section, so a concurrent execution is a
    sequence of operations, each with the reading of the clock it took. *)

From S2P Require Import Prelude Json CoreTypes OversizedCodec Instances OversizedReceiver Lru.

(** ** Canonical invocation identity ([canonical.rs]) *)

(** [json_canon::to_string], [None] on an error. *)
Class JsonCanon := json_canon : Value → option string.

Record CanonicalInvocationIdentity : Type := mkIdentity {
  client_pubkey : string;
  invocation_hash : string;
}.

#[export] Instance CanonicalInvocationIdentity_eq_dec : EqDecision CanonicalInvocationIdentity.
Proof. solve_decision. Defined.

(** The constructor [PaymentError::Canonicalize]. *)
Inductive CanonicalizeError : Type := Canonicalize (method : string).

Definition MAX_SAFE_INTEGER : Z := 9007199254740991.

Definition unsafe_number (n : Number) : bool :=
  match number_as_i64 n with
  | Some i => negb ((- MAX_SAFE_INTEGER <=? i) && (i <=? MAX_SAFE_INTEGER))
  | None =>
      match number_as_u64 n with
      | Some u => MAX_SAFE_INTEGER <? u
      | None => false
      end
  end.

Fixpoint contains_unsafe_json_integer (value : Value) : bool :=
  match value with
  | VNumber n => unsafe_number n
  | VArray items => existsb contains_unsafe_json_integer items
  | VObject l => existsb (λ kv, contains_unsafe_json_integer kv.2) l
  | _ => false
  end.

(** The semantic params of [canonical_payload_string]: the top-level [_meta]
    of an object removed. *)
Definition semantic_params (p : Value) : Value :=
  match p with
  | VObject l =>
      if obj_get "_meta" l is Some _ then VObject (obj_remove "_meta" l) else p
  | _ => p
  end.

Definition canonical_payload (method : string) (params : option Value) : Value :=
  let payload := obj_insert "method" (VString method) [] in
  VObject (match semantic_params <$> params with
           | Some sp => obj_insert "params" sp payload
           | None => payload
           end).

Section canonical.
Context `{JsonCanon} `{Sha256}.

Definition canonical_payload_string (method : string) (params : option Value)
  : result string CanonicalizeError :=
  let payload := canonical_payload method params in
  if contains_unsafe_json_integer payload then Err (Canonicalize method)
  else match json_canon payload with Some s => Ok s | None => Err (Canonicalize method) end.

Definition compute_canonical_invocation_hash (method : string) (params : option Value)
  : result string CanonicalizeError :=
  let? canonical := canonical_payload_string method params in Ok (sha256_hex canonical).

Definition compute_canonical_invocation_identity (client_pubkey method : string)
    (params : option Value) : result CanonicalInvocationIdentity CanonicalizeError :=
  let? hash := compute_canonical_invocation_hash method params in
  Ok (mkIdentity client_pubkey hash).
End canonical.

(** ** The authorization store ([authorization_store.rs]) *)

Definition AUTH_STORE_MAX_ENTRIES : Z := 5000.

Inductive ClaimOrPending : Type :=
| Claimed
| PendingSet
| AlreadyPending (remaining_ms : Z).

(** [saturating_duration_since(now).as_millis()] *)
Definition remaining_millis (expires_at now : Z) : Z := Z.max 0 (expires_at - now) / 1000000.

(** The composite key, ["{client_pubkey}:{invocation_hash}"]. *)
Definition key (id : CanonicalInvocationIdentity) : string :=
  client_pubkey id +:+ ":" +:+ invocation_hash id.

Section store.
Context `{Lru L}.

(** [Inner]: key to expiry, for grants and for payments in flight. *)
Record AuthStore : Type := mkAuthStore {
  authorizations : L Z;
  pending : L Z;
}.

Definition with_max_entries (max_entries : Z) : AuthStore :=
  let cap := nonzero_or_one max_entries in mkAuthStore (lru_new cap) (lru_new cap).

Definition AuthStore_new : AuthStore := with_max_entries AUTH_STORE_MAX_ENTRIES.

Definition grant (now : Z) (s : AuthStore) (id : CanonicalInvocationIdentity) (ttl_ms : Z) : AuthStore :=
  let expires_at := now + from_millis ttl_ms in
  mkAuthStore (lru_put (key id) expires_at (authorizations s)) (lru_pop (key id) (pending s)).1.

Definition claim (now : Z) (s : AuthStore) (id : CanonicalInvocationIdentity) : AuthStore * bool :=
  let '(auths, found) := lru_pop (key id) (authorizations s) in
  (mkAuthStore auths (pending s),
   match found with None => false | Some expires_at => now <=? expires_at end).

Definition try_set_pending (now : Z) (s : AuthStore) (id : CanonicalInvocationIdentity) (ttl_ms : Z)
  : AuthStore * bool :=
  let expires_at := now + from_millis ttl_ms in
  let '(pend, found) := lru_get (key id) (pending s) in
  let active := match found with Some existing => now <=? existing | None => false end in
  if active then (mkAuthStore (authorizations s) pend, false)
  else (mkAuthStore (authorizations s) (lru_put (key id) expires_at pend), true).

Definition update_pending_ttl (now : Z) (s : AuthStore) (id : CanonicalInvocationIdentity) (ttl_ms : Z)
  : AuthStore :=
  let expires_at := now + from_millis ttl_ms in
  let '(pend, found) := lru_get (key id) (pending s) in
  let active := match found with Some existing => now <=? existing | None => false end in
  mkAuthStore (authorizations s) (if active then lru_put (key id) expires_at pend else pend).

Definition get_pending_remaining_ms (now : Z) (s : AuthStore) (id : CanonicalInvocationIdentity)
  : AuthStore * Z :=
  let '(pend, found) := lru_get (key id) (pending s) in
  (mkAuthStore (authorizations s) pend,
   match found with Some expires_at => remaining_millis expires_at now | None => 0 end).

Definition clear_pending (s : AuthStore) (id : CanonicalInvocationIdentity) : AuthStore :=
  mkAuthStore (authorizations s) (lru_pop (key id) (pending s)).1.

Definition claim_or_set_pending (now : Z) (s : AuthStore) (id : CanonicalInvocationIdentity)
    (ttl_ms : Z) : AuthStore * ClaimOrPending :=
  let expires_at := now + from_millis ttl_ms in
  let '(auths, grant_found) := lru_pop (key id) (authorizations s) in
  let live := match grant_found with Some grant_expires => now <=? grant_expires | None => false end in
  if live then (mkAuthStore auths (pending s), Claimed)
  else
    let '(pend, found) := lru_get (key id) (pending s) in
    match found with
    | Some existing =>
        if now <=? existing
        then (mkAuthStore auths pend, AlreadyPending (remaining_millis existing now))
        else (mkAuthStore auths (lru_put (key id) expires_at pend), PendingSet)
    | None => (mkAuthStore auths (lru_put (key id) expires_at pend), PendingSet)
    end.

(** *** Executions: the operations in the order of their critical sections *)

Inductive auth_op : Type :=
| OpGrant (id : CanonicalInvocationIdentity) (ttl_ms : Z)
| OpClaim (id : CanonicalInvocationIdentity)
| OpTrySetPending (id : CanonicalInvocationIdentity) (ttl_ms : Z)
| OpUpdatePendingTtl (id : CanonicalInvocationIdentity) (ttl_ms : Z)
| OpPendingRemaining (id : CanonicalInvocationIdentity)
| OpClearPending (id : CanonicalInvocationIdentity)
| OpClaimOrSetPending (id : CanonicalInvocationIdentity) (ttl_ms : Z).

Definition op_id (op : auth_op) : CanonicalInvocationIdentity :=
  match op with
  | OpGrant id _ | OpClaim id | OpTrySetPending id _ | OpUpdatePendingTtl id _
  | OpPendingRemaining id | OpClearPending id | OpClaimOrSetPending id _ => id
  end.

(** The store after an operation, and whether it consumed a grant. *)
Definition auth_step (now : Z) (s : AuthStore) (op : auth_op) : AuthStore * bool :=
  match op with
  | OpGrant id ttl => (grant now s id ttl, false)
  | OpClaim id => claim now s id
  | OpTrySetPending id ttl => ((try_set_pending now s id ttl).1, false)
  | OpUpdatePendingTtl id ttl => (update_pending_ttl now s id ttl, false)
  | OpPendingRemaining id => ((get_pending_remaining_ms now s id).1, false)
  | OpClearPending id => (clear_pending s id, false)
  | OpClaimOrSetPending id ttl =>
      let '(s', r) := claim_or_set_pending now s id ttl in
      (s', match r with Claimed => true | _ => false end)
  end.

(** The store after an execution, and the identities whose grant each operation
    consumed. *)
Fixpoint auth_run (s : AuthStore) (ops : list (Z * auth_op))
  : AuthStore * list CanonicalInvocationIdentity :=
  match ops with
  | [] => (s, [])
  | (now, op) :: ops' =>
      let '(s1, consumed) := auth_step now s op in
      let '(s2, ids) := auth_run s1 ops' in
      (s2, if consumed then op_id op :: ids else ids)
  end.

(** The grants of an identity in an execution, and its consumed grants. *)
Definition is_grant_of (id : CanonicalInvocationIdentity) (x : Z * auth_op) : bool :=
  match x.2 with OpGrant id' _ => bool_decide (id' = id) | _ => false end.
Definition grants_of (id : CanonicalInvocationIdentity) (ops : list (Z * auth_op)) : nat :=
  length (List.filter (is_grant_of id) ops).
Definition claims_of (id : CanonicalInvocationIdentity) (ids : list CanonicalInvocationIdentity) : nat :=
  length (List.filter (λ id', bool_decide (id' = id)) ids).

(** An operation that neither grants, clears nor re-times the pending payment
    of [id], and that touches [id] only while the payment is live. *)
Definition leaves_pending (id : CanonicalInvocationIdentity) (expires_at : Z) (x : Z * auth_op) : bool :=
  match x.2 with
  | OpGrant id' _ | OpUpdatePendingTtl id' _ | OpClearPending id' => negb (bool_decide (id' = id))
  | OpClaim _ | OpPendingRemaining _ => true
  | OpTrySetPending id' _ | OpClaimOrSetPending id' _ =>
      negb (bool_decide (id' = id)) || (x.1 <=? expires_at)
  end.
End store.
Arguments AuthStore L : clear implicits.

(** ** Lemmas on the store *)

Lemma key_inj id id' :
  str_len (client_pubkey id) = str_len (client_pubkey id') → key id = key id' → id = id'.
Proof.
  destruct id as [p h], id' as [p' h']. unfold key. cbn [client_pubkey invocation_hash].
  intros Hl [-> Hh]%append_inj; [|done]. by apply (append_inj ":" ":") in Hh as [_ ->].
Qed.

Lemma key_eqb id id' :
  str_len (client_pubkey id) = str_len (client_pubkey id') →
  String.eqb (key id) (key id') = bool_decide (id = id').
Proof.
  intros Hl. destruct (String.eqb_spec (key id) (key id')) as [E|E].
  - by rewrite bool_decide_eq_true_2 by by apply key_inj.
  - rewrite bool_decide_eq_false_2; [done|]. by intros ->.
Qed.

Section store_lemmas.
Context `{LruLaws L}.
Implicit Types (s : AuthStore L) (id : CanonicalInvocationIdentity).

(** Lookups and results of the operations, with the caches' laws applied. *)
Ltac store_simpl :=
  unfold grant, claim, try_set_pending, update_pending_ttl, get_pending_remaining_ms,
    clear_pending, claim_or_set_pending;
  repeat match goal with
  | |- context [match lru_pop ?k ?c with _ => _ end] => rewrite (lru_pop_eta k c); cbn
  | |- context [match lru_get ?k ?c with _ => _ end] => rewrite (lru_get_eta k c); cbn
  end.

(** Whether a grant of [id] is stored. *)
Definition granted s id : nat := if entry (authorizations s) (key id) is Some _ then 1%nat else 0%nat.

Lemma granted_put s id id' expires_at pend :
  str_len (client_pubkey id') = str_len (client_pubkey id) →
  (granted (mkAuthStore (lru_put (key id') expires_at (authorizations s)) pend) id <=
   (if bool_decide (id' = id) then 1 else 0) + granted s id)%nat.
Proof.
  intros Hl. unfold granted; cbn. case_bool_decide as Hid.
  - case_match; lia.
  - destruct (entry (lru_put _ _ _) _) eqn:E; [|lia].
    apply entry_put_ne in E as ->; [lia|]. intros Hk. apply Hid. by apply key_inj.
Qed.

(** What the unconditional [pop] of [claim] does to the grants. *)
Lemma granted_pop s id id' pend live :
  str_len (client_pubkey id') = str_len (client_pubkey id) →
  (live = true → is_Some (entry (authorizations s) (key id'))) →
  ((if live && bool_decide (id' = id) then 1 else 0) +
   granted (mkAuthStore (lru_pop (key id') (authorizations s)).1 pend) id <= granted s id)%nat.
Proof.
  intros Hl Hlive. unfold granted; cbn. rewrite entry_pop, key_eqb by done.
  destruct (decide (id = id')) as [->|Hne].
  - rewrite !bool_decide_eq_true_2 by done. destruct live; cbn; [|lia].
    destruct (Hlive eq_refl) as [e ->]. lia.
  - rewrite !bool_decide_eq_false_2, andb_false_r by congruence. lia.
Qed.

(** One operation consumes a stored grant of [id] or stores at most the one it
    grants. *)
Lemma auth_step_balance now s op id :
  str_len (client_pubkey (op_id op)) = str_len (client_pubkey id) →
  ((if (auth_step now s op).2 && bool_decide (op_id op = id) then 1 else 0) +
   granted (auth_step now s op).1 id <=
   (if is_grant_of id (now, op) then 1 else 0) + granted s id)%nat.
Proof.
  intros Hl. destruct op as [id' ttl|id'|id' ttl|id' ttl|id'|id'|id' ttl]; cbn in Hl |- *.
  - by apply granted_put.
  - store_simpl. apply granted_pop; [done|]. by case_match.
  - store_simpl. by case_match.
  - store_simpl. done.
  - store_simpl. done.
  - store_simpl. done.
  - store_simpl. destruct (match entry (authorizations s) (key id') with Some _ => _ | _ => _ end) eqn:Ee.
    + apply (granted_pop _ _ _ _ true); [done|]. by case_match.
    + destruct (entry (pending s) (key id')) as [e|]; [destruct (now <=? e)|];
        by apply (granted_pop s id id' _ false).
Qed.

Lemma auth_run_balance ops s id :
  Forall (λ x, str_len (client_pubkey (op_id x.2)) = str_len (client_pubkey id)) ops →
  (claims_of id (auth_run s ops).2 + granted (auth_run s ops).1 id <=
   grants_of id ops + granted s id)%nat.
Proof.
  intros Hops. revert s. induction Hops as [|[now op] ops Hop _ IH]; intros s; cbn; [done|].
  pose proof (auth_step_balance now s op id Hop) as Hstep.
  destruct (auth_step now s op) as [s1 consumed]; cbn in Hstep. specialize (IH s1).
  destruct (auth_run s1 ops) as [s2 ids]; cbn in *. unfold grants_of, claims_of in *.
  cbn [List.filter]. destruct consumed; cbn in *;
    repeat (case_match; cbn in *); lia.
Qed.

(** *** Pending payments *)

(** Lookups, lengths and capacities after the cache operations of one step. *)
Ltac auth_entries :=
  cbn [authorizations pending fst snd];
  rewrite ?entry_put_ne_room, ?entry_get, ?entry_pop, ?lru_len_get, ?lru_put_cap, ?lru_pop_cap,
    ?lru_get_cap by (done || rewrite lru_len_get, lru_get_cap; done);
  try (done || lia || by case_match || by apply entry_put_None);
  try (etrans; [apply lru_len_put|]; rewrite ?lru_len_get; lia);
  try (etrans; [apply lru_len_pop|]; lia).

Lemma auth_step_pending now s op id expires_at :
  str_len (client_pubkey (op_id op)) = str_len (client_pubkey id) →
  leaves_pending id expires_at (now, op) = true →
  lru_len (pending s) < lru_cap (pending s) →
  entry (pending s) (key id) = Some expires_at → entry (authorizations s) (key id) = None →
  let s' := (auth_step now s op).1 in
  entry (pending s') (key id) = Some expires_at ∧ entry (authorizations s') (key id) = None ∧
  lru_len (pending s') ≤ lru_len (pending s) + 1 ∧ lru_cap (pending s') = lru_cap (pending s) ∧
  (op_id op = id → (auth_step now s op).2 = false).
Proof.
  intros Hl Hlv Hroom Hp Ha.
  destruct op as [id' ttl|id'|id' ttl|id' ttl|id'|id'|id' ttl]; cbn in Hl, Hlv |- *; store_simpl.
  all: pose proof (key_eqb id id' (eq_sym Hl)) as Hk.
  all: destruct (decide (id' = id)) as [->|Hne];
    [rewrite ?(bool_decide_eq_true_2 (id = id)) in * by done|
     rewrite ?(bool_decide_eq_false_2 (id' = id)), ?(bool_decide_eq_false_2 (id = id')) in * by congruence].
  all: cbn in Hlv; try discriminate.
  all: rewrite ?Hp, ?Ha; cbn; rewrite ?Hlv; cbn.
  all: repeat case_match; simplify_eq/=; b2p; split_and?; auth_entries.
  all: by rewrite (proj2 (String.eqb_neq _ _) Hk).
Qed.
Lemma auth_run_pending ops s id expires_at :
  Forall (λ x, str_len (client_pubkey (op_id x.2)) = str_len (client_pubkey id)) ops →
  Forall (λ x, leaves_pending id expires_at x = true) ops →
  lru_len (pending s) + Z.of_nat (length ops) ≤ lru_cap (pending s) →
  entry (pending s) (key id) = Some expires_at → entry (authorizations s) (key id) = None →
  let '(s', ids) := auth_run s ops in
  entry (pending s') (key id) = Some expires_at ∧ entry (authorizations s') (key id) = None ∧
  claims_of id ids = 0%nat.
Proof.
  intros Hl Hlv. revert s. induction ops as [|[now op] ops IH]; intros s Hroom Hp Ha; [done|].
  apply Forall_cons in Hl as [Hl1 Hl], Hlv as [Hlv1 Hlv]. cbn in Hroom |- *.
  destruct (auth_step_pending now s op id expires_at) as (Hp' & Ha' & Hlen & Hcap & Hc);
    [done..|lia|done|done|].
  destruct (auth_step now s op) as [s1 consumed]; cbn in *.
  specialize (IH Hl Hlv s1). destruct (auth_run s1 ops) as [s2 ids].
  destruct IH as (? & ? & Hn); [lia|done|done|]. split_and!; [done|done|].
  destruct consumed; [|done]. unfold claims_of in *. cbn. case_bool_decide; [|done].
  by specialize (Hc ltac:(done)).
Qed.

Lemma claim_or_set_pending_set now s id ttl s' :
  claim_or_set_pending now s id ttl = (s', PendingSet) →
  entry (pending s') (key id) = Some (now + from_millis ttl) ∧
  entry (authorizations s') (key id) = None.
Proof.
  store_simpl. intros E. break E; split; by rewrite ?entry_put_eq, ?entry_pop, ?String.eqb_refl.
Qed.

Lemma claim_or_set_pending_already now s id ttl expires_at :
  entry (pending s) (key id) = Some expires_at → entry (authorizations s) (key id) = None →
  now ≤ expires_at →
  (claim_or_set_pending now s id ttl).2 = AlreadyPending (remaining_millis expires_at now).
Proof.
  intros Hp Ha Hle. store_simpl. rewrite Ha, Hp. apply Z.leb_le in Hle. by rewrite Hle.
Qed.

(** *** Properties *)

(** (C14) No double spend: in any execution of the store, from empty, with any
    interleaving, expiry and eviction, the grants consumed for an identity are at
    most the grants recorded for it.  Client keys have one fixed width, as
    hexadecimal public keys have, so that the composite keys are unambiguous. *)
Theorem grants_consumed_once max_entries ops id :
  Forall (λ x, str_len (client_pubkey (op_id x.2)) = str_len (client_pubkey id)) ops →
  (claims_of id (auth_run (with_max_entries max_entries : AuthStore L) ops).2 <= grants_of id ops)%nat.
Proof.
  intros Hops. pose proof (auth_run_balance ops (with_max_entries max_entries) id Hops) as Hb.
  unfold granted at 2 in Hb. cbn in Hb. rewrite entry_new in Hb. lia.
Qed.

(** At most one payment in flight: once an invocation has been set pending,
    every later request for it before the expiry is parked with the remaining
    time, and no grant of it is consumed, whatever other requests (duplicates of
    it included) interleave, as long as nothing grants, clears or re-times it and
    the entries in between fit the store. *)
Theorem pending_excludes_duplicates t0 (s : AuthStore L) id ttl s0 ops t ttl' :
  claim_or_set_pending t0 s id ttl = (s0, PendingSet) →
  Forall (λ x, str_len (client_pubkey (op_id x.2)) = str_len (client_pubkey id)) ops →
  Forall (λ x, leaves_pending id (t0 + from_millis ttl) x = true) ops →
  lru_len (pending s0) + Z.of_nat (length ops) ≤ lru_cap (pending s0) →
  t ≤ t0 + from_millis ttl →
  let '(s1, ids) := auth_run s0 ops in
  claims_of id ids = 0%nat ∧
  (claim_or_set_pending t s1 id ttl').2 =
    AlreadyPending (remaining_millis (t0 + from_millis ttl) t).
Proof.
  intros Hset Hl Hlv Hroom Ht. apply claim_or_set_pending_set in Hset as [Hp Ha].
  pose proof (auth_run_pending ops s0 id _ Hl Hlv Hroom Hp Ha) as Hrun.
  destruct (auth_run s0 ops) as [s1 ids]. destruct Hrun as (Hp1 & Ha1 & Hc).
  split; [done|]. by apply claim_or_set_pending_already.
Qed.

(** The single critical section [claim_or_set_pending] refines the sequence
    [claim], then [try_set_pending], taken at one instant: the same outcome and
    the same entries, the remaining time of a parked request being that of
    [get_pending_remaining_ms]. *)
Theorem claim_or_set_pending_refines now (s : AuthStore L) id ttl :
  let '(s', r) := claim_or_set_pending now s id ttl in
  let '(s1, claimed) := claim now s id in
  let '(s2, set) := try_set_pending now s1 id ttl in
  r = (if claimed then Claimed else if set then PendingSet
       else AlreadyPending (get_pending_remaining_ms now s1 id).2) ∧
  s' = (if claimed then s1 else s2).
Proof.
  store_simpl. destruct (entry (authorizations s) (key id)) as [g|]; [destruct (now <=? g)|];
    destruct (entry (pending s) (key id)) as [e|]; try destruct (now <=? e); done.
Qed.

(** A grant authorizes exactly one execution: after [grant], a claim before
    the expiry succeeds and drops the grant, so the next claim fails whenever it
    comes; a claim after the expiry fails; granting ends the pending state. *)
Theorem grant_then_claim t0 (s : AuthStore L) id ttl t t' :
  let s1 := grant t0 s id ttl in
  let '(s2, first) := claim t s1 id in
  first = (t <=? t0 + from_millis ttl) ∧
  (claim t' s2 id).2 = false ∧
  (get_pending_remaining_ms t s1 id).2 = 0 ∧
  (claim_or_set_pending t s1 id ttl).2 =
    (if first then Claimed else PendingSet).
Proof.
  store_simpl. rewrite !entry_put_eq, !entry_pop, String.eqb_refl. cbn.
  destruct (t <=? t0 + from_millis ttl); split_and!; try done.
Qed.
End store_lemmas.

(** ** Canonical identities *)

(** The number [m * 2^e] with an odd [m], or zero: numbers that denote the same
    rational are represented alike, [1] and [1.0] in particular. *)
Fixpoint strip_twos (p : positive) (e : Z) : positive * Z :=
  match p with xO q => strip_twos q (e + 1) | _ => (p, e) end.
Definition number_value (n : Number) : Number :=
  let '(m, e) := match n with PosInt n | NegInt n => (n, 0) | Float m e => (m, e) end in
  match m with
  | Z0 => Float 0 0
  | Zpos p => let '(q, f) := strip_twos p e in Float (Zpos q) f
  | Zneg p => let '(q, f) := strip_twos p e in Float (Zneg q) f
  end.
Fixpoint json_numbers (v : Value) : Value :=
  match v with
  | VNumber n => VNumber (number_value n)
  | VArray l => VArray (map json_numbers l)
  | VObject l => VObject (map (λ kv, (kv.1, json_numbers kv.2)) l)
  | _ => v
  end.

(** The value of JSON text: objects without the order of their keys, numbers
    without their representation. *)
Definition json_meaning (v : Value) : Value := json_norm (json_numbers v).

(** No object repeats a key, which a [serde_json] map cannot. *)
Fixpoint unique_keys (v : Value) : bool :=
  match v with
  | VArray l => forallb unique_keys l
  | VObject l => nodup_keys l && forallb (λ kv, unique_keys kv.2) l
  | _ => true
  end.

Lemma strip_twos_value p e : let '(q, f) := strip_twos p e in e ≤ f ∧ Zpos p = Zpos q * 2 ^ (f - e).
Proof.
  revert e. induction p as [p IH|p IH|]; intros e; cbn [strip_twos]; try (rewrite Z.sub_diag; lia).
  specialize (IH (e + 1)). destruct (strip_twos p (e + 1)) as [q f]. destruct IH as [Hf Hp]. split; [lia|].
  rewrite Pos2Z.inj_xO, Hp. replace (f - e) with (f - (e + 1) + 1) by lia. rewrite Z.pow_add_r by lia. lia.
Qed.
Lemma strip_twos_odd p e : Z.odd (Zpos (strip_twos p e).1) = true.
Proof. revert e. induction p as [p IH|p IH|]; intros e; [done| |done]. apply IH. Qed.

Example number_value_examples :
  number_value (Float 1 0) = number_value (PosInt 1) ∧ number_value (Float 8 (-3)) = number_value (PosInt 1) ∧
  number_value (Float (-6) (-1)) = number_value (NegInt (-3)) ∧ number_value (Float 1 (-1)) ≠ number_value (PosInt 1).
Proof. by vm_compute. Qed.

(** RFC 8785 fixes one text per JSON value, numbers being the doubles they denote
    (printed with the ECMAScript algorithm): values whose integers are exact doubles
    and whose texts agree mean the same. *)
Class JsonCanonLaws `{JsonCanon} :=
  json_canon_inj v w s :
    unique_keys v = true → unique_keys w = true →
    contains_unsafe_json_integer v = false → contains_unsafe_json_integer w = false →
    json_canon v = Some s → json_canon w = Some s → json_meaning v = json_meaning w.

Lemma semantic_params_object l : semantic_params (VObject l) = VObject (obj_remove "_meta" l).
Proof.
  cbn. destruct (obj_get "_meta" l) eqn:E; [done|]. by rewrite obj_remove_absent.
Qed.

Lemma unique_keys_remove k l : unique_keys (VObject l) = true → unique_keys (VObject (obj_remove k l)) = true.
Proof.
  cbn. induction l as [|[k0 v0] l IH]; [done|]. cbn. rewrite !andb_true_iff.
  intros [[H0 Hl] [Hv Ha]]. destruct (String.eqb_spec k k0) as [->|Hne]; cbn.
  - by rewrite Hl, Ha.
  - rewrite obj_get_remove_ne by done. rewrite H0, Hv. cbn. apply andb_true_iff, IH. by rewrite Hl.
Qed.

Definition params_unique (params : option Value) : bool :=
  if params is Some p then unique_keys p else true.

Lemma canonical_payload_unique method params :
  params_unique params = true → unique_keys (canonical_payload method params) = true.
Proof.
  destruct params as [p|]; [|done]. intros Hp.
  assert (unique_keys (semantic_params p) = true) as Hs.
  { destruct p; try done. rewrite semantic_params_object. by apply unique_keys_remove. }
  change (unique_keys (VObject [("method", VString method); ("params", semantic_params p)]) = true).
  cbn -[semantic_params]. by rewrite Hs.
Qed.

(** Two requests mean the same parameters, [_meta] aside. *)
Definition same_params (p1 p2 : option Value) : Prop :=
  json_meaning <$> (semantic_params <$> p1) = json_meaning <$> (semantic_params <$> p2).

(** The payload determines the method and the semantic parameters. *)
Lemma canonical_payload_inj m1 p1 m2 p2 :
  json_meaning (canonical_payload m1 p1) = json_meaning (canonical_payload m2 p2) →
  m1 = m2 ∧ same_params p1 p2.
Proof.
  unfold same_params. intros E.
  assert (∀ m p, get (json_meaning (canonical_payload m p)) "method" = Some (VString m) ∧
    get (json_meaning (canonical_payload m p)) "params" = json_meaning <$> (semantic_params <$> p)) as Hget.
  { intros m p. unfold canonical_payload, json_meaning. cbn [json_numbers]. rewrite !get_json_norm by by destruct p.
    by destruct p. }
  destruct (Hget m1 p1) as [H1 H2], (Hget m2 p2) as [H3 H4]. rewrite E in H1, H2. split; congruence.
Qed.

Section canonical_lemmas.
Context `{JsonCanon} `{!JsonCanonLaws} `{Sha256}.

Lemma canonical_payload_string_inj m1 p1 m2 p2 s :
  params_unique p1 = true → params_unique p2 = true →
  canonical_payload_string m1 p1 = Ok s → canonical_payload_string m2 p2 = Ok s → m1 = m2 ∧ same_params p1 p2.
Proof.
  unfold canonical_payload_string. intros X1 X2 E1 E2. break E1. break E2.
  eapply canonical_payload_inj, json_canon_inj; eauto using canonical_payload_unique.
Qed.

(** (C28) An identity pins down the invocation: two requests with the same
    canonical identity come from the same client, and, unless their two canonical
    texts are a SHA-256 collision, call the same method with parameters that mean the
    same outside [_meta]: equal up to the order of object keys and the representation
    of numbers (1.0 and 1 are one number). *)
Theorem canonical_identity_faithful c1 m1 p1 c2 m2 p2 id :
  params_unique p1 = true → params_unique p2 = true →
  compute_canonical_invocation_identity c1 m1 p1 = Ok id →
  compute_canonical_invocation_identity c2 m2 p2 = Ok id →
  c1 = c2 ∧
  ((m1 = m2 ∧ same_params p1 p2) ∨
   ∃ t1 t2, canonical_payload_string m1 p1 = Ok t1 ∧ canonical_payload_string m2 p2 = Ok t2 ∧
     t1 ≠ t2 ∧ sha256_hex t1 = sha256_hex t2).
Proof.
  unfold compute_canonical_invocation_identity, compute_canonical_invocation_hash. intros X1 X2.
  rewrite !result_bind_Ok. intros (h1 & (t1 & Ht1 & [= <-])%result_bind_Ok & [= <-]).
  intros (h2 & (t2 & Ht2 & [= <-])%result_bind_Ok & [= -> Hh]). split; [done|].
  destruct (decide (t1 = t2)) as [->|Hne]; [left|right; by eauto 10].
  by eapply canonical_payload_string_inj.
Qed.

(** A retry matches its payment: the identity does not depend on the
    top-level [_meta] object of the parameters (present, absent or different), and
    a request whose remaining parameters hold an integer outside the JSON safe
    range has no identity at all. *)
Theorem canonical_identity_ignores_meta client method l1 l2 :
  obj_remove "_meta" l1 = obj_remove "_meta" l2 →
  compute_canonical_invocation_identity client method (Some (VObject l1)) =
  compute_canonical_invocation_identity client method (Some (VObject l2)) ∧
  (contains_unsafe_json_integer (VObject (obj_remove "_meta" l1)) = true →
   compute_canonical_invocation_identity client method (Some (VObject l1)) = Err (Canonicalize method)).
Proof.
  intros E. unfold compute_canonical_invocation_identity, compute_canonical_invocation_hash,
    canonical_payload_string, canonical_payload. cbn [fmap option_fmap option_map].
  rewrite !semantic_params_object, E. split; [done|]. intros Hu.
  match goal with |- context [contains_unsafe_json_integer ?p] =>
    change (contains_unsafe_json_integer p) with
      (contains_unsafe_json_integer (VObject (obj_remove "_meta" l2)) || false) end.
  by rewrite Hu.
Qed.
End canonical_lemmas.

(** ** Witnesses *)

Definition demo_identity : CanonicalInvocationIdentity := mkIdentity "alice" "h1".
Definition demo_other : CanonicalInvocationIdentity := mkIdentity "carol" "h2".
Definition demo_store : AuthStore list_cache := with_max_entries 10.
Definition demo_ops : list (Z * auth_op) :=
  [(5, OpClaimOrSetPending demo_other 7); (6, OpClaimOrSetPending demo_identity 9); (7, OpClaim demo_identity)].
Definition demo_meta : list (string * Value) :=
  obj_of_list [("_meta", VObject [("progressToken", VString "t")]); ("name", VString "add")].

Lemma grants_consumed_once_witness :
  let ops := (1, OpGrant demo_identity 100) :: demo_ops ++ demo_ops in
  (claims_of demo_identity (auth_run demo_store ops).2 = 1)%nat ∧
  (claims_of demo_identity (auth_run demo_store ops).2 <= grants_of demo_identity ops)%nat.
Proof.
  split; [by vm_compute|]. apply (grants_consumed_once 10); repeat constructor.
Defined.

Lemma pending_excludes_duplicates_witness :
  let c := claim_or_set_pending 0 demo_store demo_identity 60000 in
  c.2 = PendingSet ∧
  (claim_or_set_pending 1000000 (auth_run c.1 demo_ops).1 demo_identity 1).2 = AlreadyPending 59999.
Proof.
  assert ((claim_or_set_pending 0 demo_store demo_identity 60000).2 = PendingSet) as Hset by by vm_compute.
  split; [done|].
  pose proof (pending_excludes_duplicates 0 demo_store demo_identity 60000
    (claim_or_set_pending 0 demo_store demo_identity 60000).1 demo_ops 1000000 1
    ltac:(rewrite <- Hset; apply surjective_pairing) ltac:(repeat constructor) ltac:(repeat constructor)
    ltac:(by vm_compute) ltac:(by vm_compute)) as Hw.
  destruct (auth_run _ demo_ops). by destruct Hw.
Defined.

Lemma claim_or_set_pending_refines_witness :
  (claim_or_set_pending 3 demo_store demo_identity 5).2 = PendingSet ∧
  (claim_or_set_pending 3 demo_store demo_identity 5).1 =
  (try_set_pending 3 (claim 3 demo_store demo_identity).1 demo_identity 5).1.
Proof.
  split; [by vm_compute|].
  pose proof (claim_or_set_pending_refines 3 demo_store demo_identity 5) as Hw.
  assert ((claim 3 demo_store demo_identity).2 = false) as Hc by by vm_compute.
  destruct (claim_or_set_pending 3 demo_store demo_identity 5), (claim 3 demo_store demo_identity) as [s1 b].
  cbv beta iota zeta in Hw. cbn [fst snd] in *. subst b.
  destruct (try_set_pending 3 s1 demo_identity 5). by destruct Hw as [_ ->].
Defined.

Lemma grant_then_claim_witness :
  let s1 := grant 0 demo_store demo_identity 5 in
  (claim 5000000 s1 demo_identity).2 = true ∧
  (claim 5000000 (claim 5000000 s1 demo_identity).1 demo_identity).2 = false.
Proof.
  split; [by vm_compute|].
  pose proof (grant_then_claim 0 demo_store demo_identity 5 5000000 5000000) as Hw. cbv zeta in Hw |- *.
  destruct (claim 5000000 (grant 0 demo_store demo_identity 5) demo_identity) as [s2 b].
  destruct Hw as (_ & Hw & _). exact Hw.
Defined.

(** A canonical printer: the text of the normalised value. *)
Definition bits_canon : JsonCanon := λ v, Some (@to_string bits_serde (json_meaning v)).

Lemma bits_canon_laws : @JsonCanonLaws bits_canon.
Proof.
  intros v w s _ _ _ _ [= <-] [= E]. by apply bits_to_string_inj in E.
Qed.

(** The parameters of two requests that differ in [_meta], in the order of the keys
    and in how a number is written. *)
Definition demo_params : list (string * Value) := ("n", VNumber (Float 2 (-1))) :: demo_meta.
Definition demo_same : list (string * Value) := [("name", VString "add"); ("n", VNumber (PosInt 1))].

Lemma canonical_identity_faithful_witness :
  is_ok (@compute_canonical_invocation_identity bits_canon id_sha256 "alice" "tools/call"
    (Some (VObject demo_params))) = true ∧
  same_params (Some (VObject demo_params)) (Some (VObject demo_same)).
Proof.
  destruct (@compute_canonical_invocation_identity bits_canon id_sha256 "alice" "tools/call"
    (Some (VObject demo_params))) as [i|e] eqn:E; [|by vm_compute in E].
  split; [done|].
  destruct (@canonical_identity_faithful bits_canon bits_canon_laws id_sha256 "alice" "tools/call"
    (Some (VObject demo_params)) "alice" "tools/call" (Some (VObject demo_same)) i
    eq_refl eq_refl E) as [_ [[_ Hp]|(t1 & t2 & _ & _ & Hne & Hh)]].
  - rewrite <- E. by vm_compute.
  - exact Hp.
  - destruct (Hne Hh).
Defined.

Lemma canonical_identity_ignores_meta_witness :
  @compute_canonical_invocation_identity bits_canon id_sha256 "alice" "tools/call" (Some (VObject demo_meta)) =
  @compute_canonical_invocation_identity bits_canon id_sha256 "alice" "tools/call"
    (Some (VObject [("name", VString "add")])).
Proof.
  apply (canonical_identity_ignores_meta "alice" "tools/call" demo_meta [("name", VString "add")]).
  by vm_compute.
Defined.
