(* ===== verification/RouteStore.v ===== *)
(** * Correlation stores

    [src/transport/server/correlation_store.rs] maps the event id of an in-flight
    request to its route, with two secondary indexes (progress token to event,
    client to events) kept beside the LRU cache of routes;
    [src/transport/client/correlation_store.rs] maps the event id of a sent
    request to the pending request.  Each method holds the lock for its whole
    body, so it is one function of the state. *)

From S2P Require Import Prelude Json CoreTypes Lru.

(** ** Server: [ServerEventRouteStore] *)

Record RouteEntry : Type := mkRoute {
  route_client_pubkey : string;
  original_request_id : Value;
  route_progress_token : option string;
  wrap_kind : option Z;
  route_registered_at : Z;
}.

Section routes.
Context `{Lru L}.

(** [Inner]. *)
Record RouteStore : Type := mkRouteStore {
  routes : L RouteEntry;
  progress_token_to_event : gmap string string;
  client_event_ids : gmap string (gset string);
}.

Definition Inner_new (max_routes : Z) : RouteStore :=
  mkRouteStore (lru_new (nonzero_or_one max_routes)) ∅ ∅.
Definition RouteStore_new : RouteStore := Inner_new DEFAULT_LRU_SIZE.
Definition with_max_routes (max_routes : Z) : RouteStore := Inner_new max_routes.

Definition remove_token (token : option string) (m : gmap string string) : gmap string string :=
  match token with Some t => delete t m | None => m end.

Definition cleanup_indexes (event_id : string) (route : RouteEntry) (s : RouteStore) : RouteStore :=
  mkRouteStore (routes s)
    (remove_token (route_progress_token route) (progress_token_to_event s))
    (match client_event_ids s !! route_client_pubkey route with
     | Some ids =>
         let ids' := ids ∖ {[event_id]} in
         if bool_decide (ids' = ∅) then delete (route_client_pubkey route) (client_event_ids s)
         else <[route_client_pubkey route := ids']> (client_event_ids s)
     | None => client_event_ids s
     end).

Definition with_routes (s : RouteStore) (rs : L RouteEntry) : RouteStore :=
  mkRouteStore rs (progress_token_to_event s) (client_event_ids s).

Definition remove_route (event_id : string) (s : RouteStore) : RouteStore * option RouteEntry :=
  let '(rs, found) := lru_pop event_id (routes s) in
  match found with
  | None => (with_routes s rs, None)
  | Some route => (cleanup_indexes event_id route (with_routes s rs), Some route)
  end.

Definition register (now : Z) (event_id client_pubkey : string) (original_request_id : Value)
    (progress_token : option string) (s : RouteStore) : RouteStore :=
  let ids := default ∅ (client_event_ids s !! client_pubkey) in
  let clients := <[client_pubkey := {[event_id]} ∪ ids]> (client_event_ids s) in
  let tokens := match progress_token with
                | Some token => <[token := event_id]> (progress_token_to_event s)
                | None => progress_token_to_event s
                end in
  let '(rs, evicted) :=
    lru_push event_id (mkRoute client_pubkey original_request_id progress_token None now) (routes s) in
  let s' := mkRouteStore rs tokens clients in
  match evicted with
  | Some (evicted_key, evicted_route) =>
      if String.eqb evicted_key event_id then s' else cleanup_indexes evicted_key evicted_route s'
  | None => s'
  end.

Definition get_route (event_id : string) (s : RouteStore) : option RouteEntry :=
  lru_peek event_id (routes s).
Definition get_client (event_id : string) (s : RouteStore) : option string :=
  route_client_pubkey <$> lru_peek event_id (routes s).
Definition pop_route (event_id : string) (s : RouteStore) : RouteStore * option RouteEntry :=
  remove_route event_id s.

(** The body of the loop of [remove_for_client]. *)
Definition drop_client_route (s : RouteStore) (event_id : string) : RouteStore :=
  let '(rs, found) := lru_pop event_id (routes s) in
  match found with
  | Some route =>
      mkRouteStore rs (remove_token (route_progress_token route) (progress_token_to_event s))
        (client_event_ids s)
  | None => with_routes s rs
  end.

Definition remove_for_client (client_pubkey : string) (s : RouteStore) : RouteStore * Z :=
  match client_event_ids s !! client_pubkey with
  | None => (s, 0)
  | Some event_ids =>
      let s0 := mkRouteStore (routes s) (progress_token_to_event s)
                  (delete client_pubkey (client_event_ids s)) in
      (foldl drop_client_route s0 (elements event_ids), Z.of_nat (size event_ids))
  end.

Definition has_event_route (event_id : string) (s : RouteStore) : bool :=
  lru_contains event_id (routes s).
Definition has_active_routes_for_client (client_pubkey : string) (s : RouteStore) : bool :=
  match client_event_ids s !! client_pubkey with
  | Some ids => negb (bool_decide (ids = ∅))
  | None => false
  end.
Definition get_event_id_by_progress_token (token : string) (s : RouteStore) : option string :=
  progress_token_to_event s !! token.
Definition has_progress_token (token : string) (s : RouteStore) : bool :=
  bool_decide (is_Some (progress_token_to_event s !! token)).
Definition event_route_count (s : RouteStore) : Z := lru_len (routes s).
Definition progress_token_count (s : RouteStore) : Z := Z.of_nat (size (progress_token_to_event s)).

Definition route_stale (now timeout : Z) (r : RouteEntry) : bool :=
  timeout <=? Z.max 0 (now - route_registered_at r).

Definition sweep_stale_routes (now timeout : Z) (s : RouteStore) : RouteStore * list string :=
  let expired_keys := (List.filter (λ kr, route_stale now timeout kr.2) (lru_iter (routes s))).*1 in
  (foldl (λ s key, (remove_route key s).1) s expired_keys, expired_keys).

Definition clear_routes (s : RouteStore) : RouteStore :=
  mkRouteStore (lru_clear (routes s)) ∅ ∅.

(** *** Executions *)

Inductive route_op : Type :=
| RRegister (now : Z) (event_id client_pubkey : string) (original_request_id : Value)
    (progress_token : option string)
| RPop (event_id : string)
| RRemoveForClient (client_pubkey : string)
| RSweep (now timeout : Z)
| RClear.

Definition route_step (s : RouteStore) (op : route_op) : RouteStore :=
  match op with
  | RRegister now e c id t => register now e c id t s
  | RPop e => (pop_route e s).1
  | RRemoveForClient c => (remove_for_client c s).1
  | RSweep now timeout => (sweep_stale_routes now timeout s).1
  | RClear => clear_routes s
  end.

Definition route_run (s : RouteStore) (ops : list route_op) : RouteStore := foldl route_step s ops.

(** An event id is the hash of a signed event, so it fixes the author and the
    content of the request: registrations of one id agree on client and token. *)
Definition hashed (owner : string → string * option string) (op : route_op) : Prop :=
  match op with RRegister _ e c _ t => owner e = (c, t) | _ => True end.

End routes.
Arguments RouteStore L : clear implicits.

(** ** Client: [ClientCorrelationStore] *)

Record PendingRequest : Type := mkPending {
  original_id : Value;
  is_initialize : bool;
  pending_registered_at : Z;
  pending_progress_token : option Value;
}.

Module ClientStore.
Section client.
Context `{Lru L}.
Implicit Types s : L PendingRequest.

Definition with_max_pending (max_pending : Z) : L PendingRequest := lru_new (nonzero_or_one max_pending).
Definition new : L PendingRequest := with_max_pending DEFAULT_LRU_SIZE.
Definition register (now : Z) (event_id : string) (original_id : Value) (is_initialize : bool)
    (progress_token : option Value) s : L PendingRequest :=
  (lru_push event_id (mkPending original_id is_initialize now progress_token) s).1.
Definition is_initialize_request (event_id : string) s : bool :=
  match lru_peek event_id s with Some r => is_initialize r | None => false end.
Definition contains (event_id : string) s : bool := lru_contains event_id s.
Definition remove (event_id : string) s : L PendingRequest * option PendingRequest := lru_pop event_id s.
Definition peek (event_id : string) s : option PendingRequest := lru_peek event_id s.
Definition get_original_id (event_id : string) s : option Value := original_id <$> lru_peek event_id s.
Definition touch_entry (now : Z) (r : PendingRequest) : PendingRequest :=
  mkPending (original_id r) (is_initialize r) now (pending_progress_token r).
Definition touch (now : Z) (event_id : string) s : L PendingRequest * bool :=
  lru_get_mut event_id (touch_entry now) s.
Definition count s : Z := lru_len s.
Definition expired (now timeout : Z) (r : PendingRequest) : bool :=
  timeout <=? Z.max 0 (now - pending_registered_at r).
Definition sweep_expired (now timeout : Z) s : L PendingRequest * Z :=
  let expired_keys := (List.filter (λ kr, expired now timeout kr.2) (lru_iter s)).*1 in
  (foldl (λ c key, (lru_pop key c).1) s expired_keys, Z.of_nat (length expired_keys)).
Definition clear s : L PendingRequest := lru_clear s.
End client.
End ClientStore.

(** ** Consistency of the indexes *)

(** The routes as a partial function, with one point updated. *)
Definition upd {V} (f : string → option V) (k : string) (o : option V) : string → option V :=
  λ k', if String.eqb k' k then o else f k'.

(** The indexes [tokens] and [clients] agree with the routes [f]. *)
Record indexes_ok (f : string → option RouteEntry) (tokens : gmap string string)
    (clients : gmap string (gset string)) : Prop := {
  io_clients c e : e ∈ default ∅ (clients !! c) ↔ ∃ r, f e = Some r ∧ route_client_pubkey r = c;
  io_nonempty c : clients !! c ≠ Some ∅;
  io_tokens t e : tokens !! t = Some e → ∃ r, f e = Some r ∧ route_progress_token r = Some t;
}.

Lemma indexes_ok_ext f g tokens clients :
  (∀ e, f e = g e) → indexes_ok f tokens clients → indexes_ok g tokens clients.
Proof.
  intros Hfg [H1 H2 H3]. split; [|done|].
  - intros c e. rewrite <- Hfg. apply H1.
  - intros t e. rewrite <- Hfg. apply H3.
Qed.

Lemma upd_eq {V} (f : string → option V) k o : upd f k o k = o.
Proof. unfold upd. by rewrite String.eqb_refl. Qed.

Lemma upd_ne {V} (f : string → option V) k o k' : k' ≠ k → upd f k o k' = f k'.
Proof. intros Hne. unfold upd. by rewrite (proj2 (String.eqb_neq _ _)). Qed.

Lemma indexes_ok_insert f tokens clients e r :
  (∀ r0, f e = Some r0 → route_client_pubkey r0 = route_client_pubkey r ∧
                          route_progress_token r0 = route_progress_token r) →
  indexes_ok f tokens clients →
  indexes_ok (upd f e (Some r))
    (match route_progress_token r with Some t => <[t := e]> tokens | None => tokens end)
    (<[route_client_pubkey r := {[e]} ∪ default ∅ (clients !! route_client_pubkey r)]> clients).
Proof.
  intros Hsame [Hc Hn Ht]. split.
  - intros c e'. destruct (decide (c = route_client_pubkey r)) as [->|Hne].
    + rewrite lookup_insert_eq. cbn. rewrite elem_of_union, elem_of_singleton, Hc.
      destruct (decide (e' = e)) as [->|He]; [rewrite upd_eq|rewrite upd_ne by done]; naive_solver.
    + rewrite lookup_insert_ne by done. rewrite Hc.
      destruct (decide (e' = e)) as [->|He]; [rewrite upd_eq|by rewrite upd_ne].
      split; intros (r0 & Hr0 & <-); [|congruence]. by destruct (Hsame r0 Hr0) as [? _].
  - intros c. destruct (decide (c = route_client_pubkey r)) as [->|Hne].
    + rewrite lookup_insert_eq. intros [= ?]. set_solver.
    + by rewrite lookup_insert_ne.
  - intros t e'. destruct (decide (e' = e)) as [->|He].
    + rewrite upd_eq. intros Hte. exists r. split; [done|].
      assert (tokens !! t = Some e → route_progress_token r = Some t) as Hold.
      { intros (r0 & Hr0 & <-)%Ht. by destruct (Hsame r0 Hr0) as [_ ->]. }
      destruct (route_progress_token r) as [t'|]; [|by apply Hold].
      apply lookup_insert_Some in Hte as [[-> _]|[_ ?]]; [done|by apply Hold].
    + rewrite upd_ne by done. intros Hte. apply Ht. destruct (route_progress_token r); [|done].
      by apply lookup_insert_Some in Hte as [[_ ?]|[_ ?]].
Qed.

Lemma indexes_ok_remove `{Lru L} f (s : RouteStore L) e r :
  f e = Some r →
  indexes_ok f (progress_token_to_event s) (client_event_ids s) →
  indexes_ok (upd f e None) (progress_token_to_event (cleanup_indexes e r s))
    (client_event_ids (cleanup_indexes e r s)).
Proof.
  intros He [Hc Hn Ht].
  assert (e ∈ default ∅ (client_event_ids s !! route_client_pubkey r)) as Hin by (apply Hc; eauto).
  destruct (client_event_ids s !! route_client_pubkey r) as [ids|] eqn:Eids; [|set_solver].
  assert (∀ c e', e' ∈ default ∅ (client_event_ids (cleanup_indexes e r s) !! c) ↔
    e' ∈ default ∅ (client_event_ids s !! c) ∧ e' ≠ e) as Hids.
  { intros c e'. cbn. rewrite Eids. destruct (decide (c = route_client_pubkey r)) as [->|Hne].
    - rewrite Eids. case_bool_decide; rewrite ?lookup_delete_eq, ?lookup_insert_eq; cbn; set_solver.
    - assert (e' ∈ default ∅ (client_event_ids s !! c) → e' ≠ e) as Hne'.
      { rewrite Hc. intros (r' & Hr' & <-) ->. congruence. }
      case_bool_decide; rewrite ?lookup_delete_ne, ?lookup_insert_ne by done; naive_solver. }
  split.
  - intros c e'. rewrite Hids, Hc. destruct (decide (e' = e)) as [->|]; [rewrite upd_eq|rewrite upd_ne by done];
      naive_solver.
  - intros c. cbn. rewrite Eids. destruct (decide (c = route_client_pubkey r)) as [->|Hne];
      case_bool_decide; rewrite ?lookup_delete_eq, ?lookup_insert_eq, ?lookup_delete_ne, ?lookup_insert_ne by done;
      congruence.
  - intros t e' Hte. cbn in Hte. destruct (decide (e' = e)) as [->|].
    + exfalso. destruct (route_progress_token r) as [t'|] eqn:Et; cbn in Hte.
      * apply lookup_delete_Some in Hte as [? Hte]. destruct (Ht _ _ Hte) as (? & ? & ?). congruence.
      * destruct (Ht _ _ Hte) as (? & ? & ?). congruence.
    + rewrite upd_ne by done. apply Ht. destruct (route_progress_token r); [|done]. cbn in Hte.
      by apply lookup_delete_Some in Hte as [_ ?].
Qed.

Section route_lemmas.
Context `{LruLaws L}.
Implicit Types (s : RouteStore L) (e c : string).

(** The invariant of the store: the indexes agree with the cache of routes, and
    every route is the one its event determines. *)
Record routes_ok (owner : string → string * option string) s : Prop := {
  ro_owner e r : entry (routes s) e = Some r → owner e = (route_client_pubkey r, route_progress_token r);
  ro_indexes : indexes_ok (entry (routes s)) (progress_token_to_event s) (client_event_ids s);
}.

Lemma cleanup_routes e r s : routes (cleanup_indexes e r s) = routes s.
Proof. done. Qed.

Lemma remove_route_entry e s e' :
  entry (routes (remove_route e s).1) e' = upd (entry (routes s)) e None e'.
Proof.
  unfold remove_route. rewrite (lru_pop_eta e (routes s)).
  destruct (entry (routes s) e); cbn; by rewrite entry_pop.
Qed.

Lemma remove_route_result e s : (remove_route e s).2 = entry (routes s) e.
Proof. unfold remove_route. rewrite (lru_pop_eta e (routes s)). by destruct (entry (routes s) e). Qed.

Lemma remove_route_ok owner e s : routes_ok owner s → routes_ok owner (remove_route e s).1.
Proof.
  intros [Ho Hi]. split.
  - intros e' r. rewrite remove_route_entry. unfold upd. case_match; [done|]. apply Ho.
  - eapply indexes_ok_ext; [intros; symmetry; apply remove_route_entry|].
    unfold remove_route. rewrite (lru_pop_eta e (routes s)).
    destruct (entry (routes s) e) as [r|] eqn:Ee; cbn.
    + by apply (indexes_ok_remove _ (with_routes s (lru_pop e (routes s)).1)).
    + eapply indexes_ok_ext; [|exact Hi]. intros e'. unfold upd. case_match; [|done]. b2p. by subst.
Qed.

Lemma register_entry now e c id t s e' :
  entry (routes (register now e c id t s)) e' =
  entry (lru_push e (mkRoute c id t None now) (routes s)).1 e'.
Proof.
  unfold register. destruct (lru_push _ _ _) as [rs [[ek er]|]] eqn:E; cbn; [case_match|]; done.
Qed.

Lemma register_ok owner now e c id t s :
  owner e = (c, t) → routes_ok owner s → routes_ok owner (register now e c id t s).
Proof.
  intros Hown [Ho Hi]. set (r := mkRoute c id t None now). split.
  - intros e' r'. rewrite register_entry. destruct (decide (e' = e)) as [->|Hne].
    + rewrite entry_push_eq. by intros [= <-].
    + rewrite entry_push_ne by done. intros Hr. apply Ho. by repeat case_match.
  - eapply indexes_ok_ext; [intros; symmetry; apply register_entry|].
    assert (indexes_ok (upd (entry (routes s)) e (Some r))
      (match t with Some t => <[t := e]> (progress_token_to_event s) | None => progress_token_to_event s end)
      (<[c := {[e]} ∪ default ∅ (client_event_ids s !! c)]> (client_event_ids s))) as Hins.
    { apply (indexes_ok_insert _ _ _ e r); [|done]. intros r0 Hr0. apply Ho in Hr0. rewrite Hown in Hr0. by injection Hr0 as <- <-. }
    assert (∀ e', e' ≠ e → entry (lru_push e r (routes s)).1 e' =
       match (lru_push e r (routes s)).2 with
       | Some (ek, _) => if String.eqb e' ek then None else entry (routes s) e'
       | None => entry (routes s) e' end) as Hpush by (intros; by apply entry_push_ne).
    unfold register. fold r. destruct (lru_push e r (routes s)) as [rs ev] eqn:Ep.
    pose proof (entry_push_eq e r (routes s)) as Heq. rewrite Ep in Heq. cbn in Heq, Hpush.
    destruct ev as [[ek er]|].
    + pose proof (push_evicted_entry e r (routes s) ek er) as Hev. rewrite Ep in Hev.
      destruct (Hev eq_refl) as [Hek Hiff]. destruct (String.eqb_spec ek e) as [->|Hne].
      * eapply indexes_ok_ext; [|exact Hins]. intros e'. unfold upd.
        destruct (String.eqb_spec e' e) as [->|]; [done|]. rewrite Hpush by done.
        by rewrite (proj2 (String.eqb_neq _ _)).
      * eapply indexes_ok_ext; [|apply (indexes_ok_remove (upd (entry (routes s)) e (Some r)))];
          [|by rewrite upd_ne|exact Hins].
        intros e'. unfold upd. destruct (String.eqb_spec e' e) as [->|]; [|by rewrite Hpush].
        destruct (String.eqb_spec e ek); [by subst|done].
    + eapply indexes_ok_ext; [|exact Hins]. intros e'. unfold upd.
      destruct (String.eqb_spec e' e) as [->|]; [done|]. by rewrite Hpush.
Qed.
Lemma drop_client_route_spec s e :
  (∀ e', entry (routes (drop_client_route s e)) e' = upd (entry (routes s)) e None e') ∧
  client_event_ids (drop_client_route s e) = client_event_ids s ∧
  progress_token_to_event (drop_client_route s e) =
    remove_token (entry (routes s) e ≫= route_progress_token) (progress_token_to_event s).
Proof.
  unfold drop_client_route. rewrite (lru_pop_eta e (routes s)).
  destruct (entry (routes s) e) eqn:Ee; cbn; (split; [intros; by rewrite entry_pop|done]).
Qed.

Lemma remove_token_Some o (m : gmap string string) t e :
  remove_token o m !! t = Some e ↔ o ≠ Some t ∧ m !! t = Some e.
Proof.
  destruct o; cbn; [rewrite lookup_delete_Some|]; naive_solver.
Qed.

(** The loop of [remove_for_client]. *)
Lemma drop_client_routes_spec l s :
  NoDup l →
  let s' := foldl drop_client_route s l in
  (∀ e, entry (routes s') e = if decide (e ∈ l) then None else entry (routes s) e) ∧
  client_event_ids s' = client_event_ids s ∧
  (∀ t e, progress_token_to_event s' !! t = Some e ↔
     progress_token_to_event s !! t = Some e ∧
     ∀ e' r, e' ∈ l → entry (routes s) e' = Some r → route_progress_token r ≠ Some t).
Proof.
  revert s. induction l as [|e0 l IH]; intros s; cbn.
  { intros _. split_and!; [done|done|]. set_solver. }
  intros [Hnin Hnd]%NoDup_cons. destruct (drop_client_route_spec s e0) as (Hr & Hc & Ht).
  destruct (IH (drop_client_route s e0) Hnd) as (IHr & IHc & IHt). split_and!.
  - intros e. rewrite IHr, Hr. destruct (decide (e = e0)) as [->|].
    + rewrite upd_eq. repeat case_decide; set_solver.
    + rewrite upd_ne by done. repeat case_decide; set_solver.
  - by rewrite IHc.
  - intros t e. rewrite IHt, Ht, remove_token_Some. split.
    + intros [[Hne Hte] Hall]. split; [done|]. intros e' r Hin He'.
      apply elem_of_cons in Hin as [->|Hin]; [by rewrite He' in Hne|].
      apply (Hall e' r Hin). rewrite Hr. rewrite upd_ne; [done|by intros ->].
    + intros [Hte Hall]. split; [split; [|done]|].
      * destruct (entry (routes s) e0) as [r|] eqn:Er; cbn; [|done]. apply (Hall e0 r); set_solver.
      * intros e' r Hin. rewrite Hr. unfold upd. case_match; [done|]. apply Hall. set_solver.
Qed.

Lemma client_ids_spec owner c s ids e :
  routes_ok owner s → client_event_ids s !! c = Some ids →
  e ∈ ids ↔ ∃ r, entry (routes s) e = Some r ∧ route_client_pubkey r = c.
Proof.
  intros [_ [Hc _ _]] Hids. specialize (Hc c e). by rewrite Hids in Hc.
Qed.

(** The routes left by [remove_for_client]: those of other clients. *)
Lemma remove_for_client_entry owner c s e :
  routes_ok owner s →
  entry (routes (remove_for_client c s).1) e =
  r ← entry (routes s) e; if String.eqb (route_client_pubkey r) c then None else Some r.
Proof.
  intros Hok. unfold remove_for_client. destruct (client_event_ids s !! c) as [ids|] eqn:Eids; cbn.
  - pose proof (drop_client_routes_spec (elements ids) (mkRouteStore (routes s)
      (progress_token_to_event s) (delete c (client_event_ids s))) (NoDup_elements _)) as (He & _ & _).
    rewrite He. clear He. cbn. pose proof (client_ids_spec owner c s ids e Hok Eids) as Hin.
    destruct (entry (routes s) e) as [r|]; cbn; [|by case_decide].
    destruct (String.eqb_spec (route_client_pubkey r) c); case_decide as Hd; try done;
      rewrite elem_of_elements, Hin in Hd; naive_solver.
  - destruct Hok as [_ [Hc _ _]]. destruct (entry (routes s) e) as [r|] eqn:Ee; cbn; [|done].
    destruct (String.eqb_spec (route_client_pubkey r) c) as [<-|]; [|done].
    exfalso. assert (e ∈ default ∅ (client_event_ids s !! route_client_pubkey r)) by (apply Hc; eauto).
    rewrite Eids in *. set_solver.
Qed.

Lemma remove_for_client_clients c s :
  client_event_ids (remove_for_client c s).1 = delete c (client_event_ids s).
Proof.
  unfold remove_for_client. destruct (client_event_ids s !! c) as [ids|] eqn:Eids; cbn.
  - by destruct (drop_client_routes_spec (elements ids) (mkRouteStore (routes s)
      (progress_token_to_event s) (delete c (client_event_ids s))) (NoDup_elements _)) as (_ & -> & _).
  - by rewrite delete_id.
Qed.

Lemma remove_for_client_ok owner c s :
  routes_ok owner s → routes_ok owner (remove_for_client c s).1.
Proof.
  intros Hok. split.
  - intros e r. rewrite (remove_for_client_entry owner) by done.
    destruct (entry (routes s) e) as [r0|] eqn:Ee; cbn; [|done]. case_match; [done|].
    intros [= <-]. by apply (ro_owner _ _ Hok).
  - eapply indexes_ok_ext; [intros; symmetry; by eapply remove_for_client_entry|].
    pose proof (ro_indexes _ _ Hok) as [Hc Hn Ht]. split.
    + intros c' e. rewrite remove_for_client_clients. destruct (decide (c' = c)) as [->|Hne].
      * rewrite lookup_delete_eq. cbn. split; [set_solver|]. intros (r & Hr & <-).
        destruct (entry (routes s) e); cbn in Hr; [|done]. case_match; simplify_eq. b2p. done.
      * rewrite lookup_delete_ne by done. rewrite Hc. destruct (entry (routes s) e); cbn; [|naive_solver].
        destruct (String.eqb_spec (route_client_pubkey r) c); naive_solver.
    + intros c'. rewrite remove_for_client_clients, lookup_delete. case_decide; [done|]. apply Hn.
    + intros t e Hte. unfold remove_for_client in Hte.
      destruct (client_event_ids s !! c) as [ids|] eqn:Eids; cbn in Hte.
      * apply drop_client_routes_spec in Hte as [Hte Hall]; [|apply NoDup_elements].
        cbn in Hte, Hall. destruct (Ht _ _ Hte) as (r & Hr & Hrt). rewrite Hr. cbn.
        destruct (String.eqb_spec (route_client_pubkey r) c) as [<-|]; [|eauto].
        exfalso. apply (Hall e r); [|done|done]. apply elem_of_elements.
        eapply client_ids_spec; eauto.
      * destruct (Ht _ _ Hte) as (r & Hr & Hrt). rewrite Hr. cbn.
        destruct (String.eqb_spec (route_client_pubkey r) c) as [<-|]; [|eauto].
        assert (e ∈ default ∅ (client_event_ids s !! route_client_pubkey r)) by (apply Hc; eauto).
        rewrite Eids in *. set_solver.
Qed.

(** The loop of [sweep_stale_routes]. *)
Lemma remove_routes_entry l s e :
  entry (routes (foldl (λ s key, (remove_route key s).1) s l)) e =
  if decide (e ∈ l) then None else entry (routes s) e.
Proof.
  revert s. induction l as [|e0 l IH]; intros s; cbn; [done|].
  rewrite IH, remove_route_entry. destruct (decide (e = e0)) as [->|].
  - rewrite upd_eq. repeat case_decide; set_solver.
  - rewrite upd_ne by done. repeat case_decide; set_solver.
Qed.

Lemma remove_routes_ok owner l s :
  routes_ok owner s → routes_ok owner (foldl (λ s key, (remove_route key s).1) s l).
Proof. revert s. induction l as [|e l IH]; intros s Hok; cbn; [done|]. by apply IH, remove_route_ok. Qed.

Lemma stale_keys now timeout s e :
  e ∈ (sweep_stale_routes now timeout s).2 ↔
  ∃ r, entry (routes s) e = Some r ∧ route_stale now timeout r = true.
Proof.
  apply filter_keys.
Qed.

Lemma route_step_ok owner s op : hashed owner op → routes_ok owner s → routes_ok owner (route_step s op).
Proof.
  intros Hop Hok. destruct op; cbn.
  - by apply register_ok.
  - by apply remove_route_ok.
  - by apply remove_for_client_ok.
  - by apply remove_routes_ok.
  - split; cbn; [intros e r; by rewrite entry_clear|]. split; cbn; try done.
    + intros c e. rewrite lookup_empty. cbn. split; [set_solver|]. intros (r & Hr & _).
      by rewrite entry_clear in Hr.
Qed.

Lemma Inner_new_ok owner n : routes_ok owner (Inner_new n : RouteStore L).
Proof.
  split; cbn; [intros e r; by rewrite entry_new|]. split; cbn; try done.
  intros c e. rewrite lookup_empty. cbn. split; [set_solver|]. intros (r & Hr & _).
  by rewrite entry_new in Hr.
Qed.

Lemma route_run_ok owner s ops :
  Forall (hashed owner) ops → routes_ok owner s → routes_ok owner (route_run s ops).
Proof.
  intros Hops. revert s. induction Hops as [|op ops Hop _ IH]; intros s Hok; cbn; [done|].
  by apply IH, route_step_ok.
Qed.
(** *** Sizes *)

(** A step keeps the capacity and adds at most one route. *)
Lemma remove_route_size e s :
  lru_cap (routes (remove_route e s).1) = lru_cap (routes s) ∧
  lru_len (routes (remove_route e s).1) ≤ lru_len (routes s).
Proof.
  unfold remove_route. rewrite (lru_pop_eta e (routes s)).
  destruct (entry (routes s) e); cbn; rewrite lru_pop_cap; auto using lru_len_pop.
Qed.

Lemma drop_client_route_size s e :
  lru_cap (routes (drop_client_route s e)) = lru_cap (routes s) ∧
  lru_len (routes (drop_client_route s e)) ≤ lru_len (routes s).
Proof.
  unfold drop_client_route. rewrite (lru_pop_eta e (routes s)).
  destruct (entry (routes s) e); cbn; rewrite lru_pop_cap; auto using lru_len_pop.
Qed.

Lemma foldl_size (f : RouteStore L → string → RouteStore L) l s :
  (∀ s e, lru_cap (routes (f s e)) = lru_cap (routes s) ∧ lru_len (routes (f s e)) ≤ lru_len (routes s)) →
  lru_cap (routes (foldl f s l)) = lru_cap (routes s) ∧ lru_len (routes (foldl f s l)) ≤ lru_len (routes s).
Proof.
  intros Hf. revert s. induction l as [|e l IH]; intros s; cbn; [done|].
  destruct (Hf s e), (IH (f s e)). split; [congruence|lia].
Qed.

Lemma route_step_size s op :
  lru_cap (routes (route_step s op)) = lru_cap (routes s) ∧
  lru_len (routes (route_step s op)) ≤ lru_len (routes s) + 1.
Proof.
  assert (∀ a b c d : Z, a = b ∧ c ≤ d → a = b ∧ c ≤ d + 1) as Hw by lia.
  destruct op as [now e c id t|e|c|now timeout|]; cbn.
  - assert (routes (register now e c id t s) = (lru_push e (mkRoute c id t None now) (routes s)).1) as ->.
    { unfold register. destruct (lru_push _ _ _) as [rs [[ek er]|]]; cbn; [case_match|]; done. }
    rewrite lru_push_cap. auto using lru_len_push.
  - apply Hw, remove_route_size.
  - apply Hw. unfold remove_for_client. destruct (client_event_ids s !! c); cbn; [|done].
    apply (foldl_size drop_client_route _ (mkRouteStore _ _ _)). intros. apply drop_client_route_size.
  - apply Hw, foldl_size. intros. apply remove_route_size.
  - split; [apply lru_clear_cap|]. unfold lru_len. rewrite lru_clear_iter. cbn. lia.
Qed.

Lemma route_run_cap s ops : lru_cap (routes (route_run s ops)) = lru_cap (routes s).
Proof.
  revert s. induction ops as [|op ops IH]; intros s; cbn; [done|].
  fold (route_run (route_step s op) ops). rewrite IH. apply route_step_size.
Qed.

(** Distinct tokens are indexed under distinct live events. *)
Lemma progress_tokens_bounded owner s :
  routes_ok owner s → progress_token_count s ≤ event_route_count s.
Proof.
  intros [_ [_ _ Ht]]. unfold progress_token_count, event_route_count, lru_len.
  assert (NoDup (map_to_list (progress_token_to_event s)).*2) as Hnd.
  { apply NoDup_fmap_2_strong; [|apply NoDup_map_to_list].
    intros [t1 e1] [t2 e2] H1%elem_of_map_to_list H2%elem_of_map_to_list. cbn. intros <-.
    destruct (Ht _ _ H1) as (r1 & ? & ?), (Ht _ _ H2) as (r2 & ? & ?). congruence. }
  rewrite <- length_map_to_list, <- (length_fmap snd), <- (length_fmap fst (lru_iter _)).
  apply inj_le, submseteq_length, NoDup_submseteq; [done|].
  intros e ([t e'] & -> & Hte%elem_of_map_to_list)%list_elem_of_fmap.
  destruct (Ht _ _ Hte) as (r & Hr & _). apply list_elem_of_fmap. exists (e', r).
  split; [done|]. by apply al_get_elem.
Qed.

(** *** Routes that survive *)

(** Operations that neither remove, sweep nor replace the route of [e],
    registered at [t0] for the client [c]. *)
Definition keeps_route (e c : string) (t0 : Z) (op : route_op) : bool :=
  match op with
  | RRegister _ e' _ _ _ | RPop e' => negb (String.eqb e' e)
  | RRemoveForClient c' => negb (String.eqb c' c)
  | RSweep now timeout => Z.max 0 (now - t0) <? timeout
  | RClear => false
  end.

Lemma route_step_keeps owner s op e r :
  routes_ok owner s → keeps_route e (route_client_pubkey r) (route_registered_at r) op = true →
  lru_len (routes s) < lru_cap (routes s) → entry (routes s) e = Some r →
  entry (routes (route_step s op)) e = Some r.
Proof.
  intros Hok Hk Hroom He. destruct op as [now e' c id t|e'|c|now timeout|]; cbn in Hk |- *; b2p.
  - rewrite register_entry. rewrite <- (entry_put_ne_room e' (mkRoute c id t None now)) in He by done.
    unfold entry in *. by rewrite <- lru_put_push.
  - rewrite remove_route_entry. by rewrite upd_ne.
  - rewrite (remove_for_client_entry owner) by done. rewrite He. cbn.
    by rewrite (proj2 (String.eqb_neq _ _)).
  - fold (sweep_stale_routes now timeout s). rewrite remove_routes_entry, He. case_decide as Hd; [|done].
    apply (stale_keys now timeout) in Hd as (r' & Hr' & Hst). unfold route_stale in Hst.
    simplify_eq. b2p. lia.
  - done.
Qed.

Lemma route_run_keeps owner ops s e r :
  routes_ok owner s → Forall (hashed owner) ops →
  Forall (λ op, keeps_route e (route_client_pubkey r) (route_registered_at r) op = true) ops →
  lru_len (routes s) + Z.of_nat (length ops) ≤ lru_cap (routes s) →
  entry (routes s) e = Some r → entry (routes (route_run s ops)) e = Some r.
Proof.
  intros Hok Hh Hk. revert s Hok. induction ops as [|op ops IH]; intros s Hok Hroom He; cbn; [done|].
  apply Forall_cons in Hh as [? ?], Hk as [? ?]. cbn in Hroom.
  destruct (route_step_size s op) as [Hcap Hlen].
  apply IH; [done|done|by apply route_step_ok|lia|]. eapply route_step_keeps; eauto; lia.
Qed.

(** *** Properties *)

(** (C19) The secondary indexes are exact for the routes the cache holds: after any
    execution, evictions included, a client has active routes exactly when one of
    its requests is still routed, a progress token leads to a live route that
    carries this token, and routes and tokens stay within the capacity. *)
Theorem route_indexes_consistent owner max_routes ops :
  Forall (hashed owner) ops → 0 ≤ max_routes →
  let s := route_run (with_max_routes max_routes : RouteStore L) ops in
  (∀ c, has_active_routes_for_client c s = true ↔
        ∃ e r, get_route e s = Some r ∧ route_client_pubkey r = c) ∧
  (∀ t e, get_event_id_by_progress_token t s = Some e →
        ∃ r, get_route e s = Some r ∧ route_progress_token r = Some t) ∧
  event_route_count s ≤ Z.max 1 max_routes ∧
  progress_token_count s ≤ event_route_count s.
Proof.
  intros Hops Hmax s.
  assert (routes_ok owner s) as Hok by by apply route_run_ok, Inner_new_ok.
  pose proof (ro_indexes _ _ Hok) as [Hc Hn Ht]. split_and!.
  - intros c. unfold has_active_routes_for_client, get_route. specialize (Hc c). specialize (Hn c).
    setoid_rewrite lru_peek_value. fold (entry (routes s)). destruct (client_event_ids s !! c) as [ids|]; cbn in Hc.
    + rewrite negb_true_iff, bool_decide_eq_false. setoid_rewrite <- Hc. split; [|set_solver].
      intros Hne. by apply set_choose_L.
    + setoid_rewrite <- Hc. set_solver.
  - intros t e Hte. unfold get_route. rewrite lru_peek_value. by apply Ht.
  - unfold event_route_count. etrans; [apply lru_len_le|]. unfold s. rewrite route_run_cap. cbn.
    unfold nonzero_or_one. case_match; b2p; rewrite lru_new_cap by lia; lia.
  - by eapply progress_tokens_bounded.
Qed.

(** A response finds its request: while a request is in flight and nothing
    removes its client, sweeps it as stale or exceeds the capacity, popping its
    event id returns the registered client and the original request id, and a
    second pop returns nothing. *)
Theorem registered_route_pops_once owner now e c id t (s : RouteStore L) ops :
  routes_ok owner s → owner e = (c, t) → Forall (hashed owner) ops →
  Forall (λ op, keeps_route e c now op = true) ops →
  lru_len (routes s) + 1 + Z.of_nat (length ops) ≤ lru_cap (routes s) →
  let s1 := route_run (register now e c id t s) ops in
  (pop_route e s1).2 = Some (mkRoute c id t None now) ∧
  (pop_route e (pop_route e s1).1).2 = None ∧
  get_client e s1 = Some c.
Proof.
  intros Hok Hown Hh Hk Hroom s1.
  assert (entry (routes s1) e = Some (mkRoute c id t None now)) as He.
  { destruct (route_step_size s (RRegister now e c id t)) as [Hcap Hlen]; cbn in Hcap, Hlen.
    apply (route_run_keeps owner); [by apply register_ok|done|done|lia|].
    by rewrite register_entry, entry_push_eq. }
  unfold pop_route, get_client. rewrite !remove_route_result, remove_route_entry, upd_eq, lru_peek_value.
  fold (entry (routes s1) e). by rewrite He.
Qed.

(** Removing a client removes exactly its routes, reports their number, and
    leaves the activity of every other client as it was. *)
Theorem remove_for_client_exact owner c (s : RouteStore L) :
  routes_ok owner s →
  let '(s', n) := remove_for_client c s in
  n = Z.of_nat (length (List.filter (λ kr, String.eqb (route_client_pubkey kr.2) c) (lru_iter (routes s)))) ∧
  (∀ e, get_route e s' = r ← get_route e s; if String.eqb (route_client_pubkey r) c then None else Some r) ∧
  (∀ c', has_active_routes_for_client c' s' =
         negb (String.eqb c' c) && has_active_routes_for_client c' s).
Proof.
  intros Hok. pose proof (remove_for_client_entry owner c s) as He.
  pose proof (remove_for_client_clients c s) as Hcl. pose proof (client_ids_spec owner c s) as Hids.
  pose proof (ro_indexes _ _ Hok) as [Hc _ _]. specialize (Hc c).
  assert ((remove_for_client c s).2 = Z.of_nat (length (List.filter
    (λ kr, String.eqb (route_client_pubkey kr.2) c) (lru_iter (routes s))))) as Hn.
  { rewrite <- (length_fmap fst).
    assert (size (default ∅ (client_event_ids s !! c)) = length
      (List.filter (λ kr, String.eqb (route_client_pubkey kr.2) c) (lru_iter (routes s))).*1) as <-.
    { rewrite <- (size_list_to_set (C := gset string)).
      - f_equal. apply set_eq. intros e. rewrite Hc, elem_of_list_to_set.
        rewrite (filter_keys (λ r, String.eqb (route_client_pubkey r) c)).        setoid_rewrite String.eqb_eq. done.
      - apply (filter_keys_nodup (λ r, String.eqb (route_client_pubkey r) c)). }
    unfold remove_for_client. by destruct (client_event_ids s !! c). }
  destruct (remove_for_client c s) as [s' n]. cbn in *. split_and!; [done| |].
  - intros e. unfold get_route. rewrite !lru_peek_value. by apply He.
  - intros c'. unfold has_active_routes_for_client. rewrite Hcl.
    destruct (String.eqb_spec c' c) as [->|]; [by rewrite lookup_delete_eq|by rewrite lookup_delete_ne].
Qed.

(** The sweep removes exactly the routes whose age has reached the timeout
    and returns their event ids. *)
Theorem sweep_stale_routes_exact now timeout (s : RouteStore L) :
  let '(s', keys) := sweep_stale_routes now timeout s in
  (∀ e, e ∈ keys ↔ ∃ r, get_route e s = Some r ∧ timeout ≤ Z.max 0 (now - route_registered_at r)) ∧
  (∀ e, get_route e s' = r ← get_route e s;
        if timeout <=? Z.max 0 (now - route_registered_at r) then None else Some r).
Proof.
  pose proof (stale_keys now timeout s) as Hk. unfold sweep_stale_routes in *. cbn in Hk. unfold get_route.
  split; intros e; rewrite ?lru_peek_value; fold (entry (routes s) e).
  - rewrite Hk. unfold route_stale. by setoid_rewrite Z.leb_le.
  - match goal with |- context [al_get e (lru_iter (routes ?s'))] => fold (entry (routes s') e) end.
    rewrite remove_routes_entry. specialize (Hk e). unfold route_stale in *.
    destruct (entry (routes s) e) as [r|]; cbn; [|by case_decide].
    destruct (timeout <=? Z.max 0 (now - route_registered_at r)) eqn:E; case_decide as Hd;
      try done; rewrite Hk in Hd; exfalso.
    + apply Hd. eauto.
    + destruct Hd as (r' & [= <-] & Hst). congruence.
Qed.
End route_lemmas.

(** ** The client store *)

Section client_lemmas.
Context `{LruLaws L}.
Implicit Types s : L PendingRequest.

(** A pending request is swept exactly when its age since registration or
    since the last [touch] has reached the timeout; touching it changes nothing
    but that instant, so the original id and progress token survive an oversized
    transfer however long, as long as its frames keep coming. *)
Theorem touch_postpones_sweep now timeout t e s :
  let '(s1, existed) := ClientStore.touch t e s in
  let '(s2, n) := ClientStore.sweep_expired now timeout s1 in
  existed = ClientStore.contains e s ∧
  (∀ r, ClientStore.peek e s = Some r →
     ClientStore.peek e s2 =
     if timeout <=? Z.max 0 (now - t) then None
     else Some (mkPending (original_id r) (is_initialize r) t (pending_progress_token r))) ∧
  (∀ e', e' ≠ e → ClientStore.peek e' s2 = r ← ClientStore.peek e' s;
     if timeout <=? Z.max 0 (now - pending_registered_at r) then None else Some r) ∧
  n = Z.of_nat (length (lru_iter s1)) - Z.of_nat (length (lru_iter s2)).
Proof.
  unfold ClientStore.touch, ClientStore.peek, ClientStore.contains, lru_contains.
  pose proof (entry_get_mut e (ClientStore.touch_entry t) s) as He.
  pose proof (lru_get_mut_found e (ClientStore.touch_entry t) s) as Hf.
  destruct (lru_get_mut e (ClientStore.touch_entry t) s) as [s1 existed]. cbn in He, Hf.
  pose proof (pop_filter_entry (ClientStore.expired now timeout) s1) as Hs2.
  cbn. split_and!.
  - by rewrite lru_peek_value.
  - intros r. rewrite !lru_peek_value. intros Hr. fold (entry s e) in Hr.
    etrans; [apply Hs2|]. rewrite He, String.eqb_refl, Hr. done.
  - intros e' Hne. rewrite !lru_peek_value. etrans; [apply Hs2|].
    rewrite He, (proj2 (String.eqb_neq _ _) Hne). done.
  - rewrite length_fmap. pose proof (pop_filter_len (ClientStore.expired now timeout) s1) as Hl.
    unfold lru_len in Hl. lia.
Qed.
End client_lemmas.

(** ** Witnesses *)

Definition demo_owner (e : string) : string * option string :=
  if String.eqb e "e1" then ("alice", Some "t1") else if String.eqb e "e2" then ("bob", None)
  else ("alice", None).
Definition demo_routes : list route_op :=
  [RRegister 0 "e1" "alice" (VString "1") (Some "t1"); RRegister 5 "e2" "bob" (VString "2") None;
   RRegister 9 "e3" "alice" (VString "3") None].
Definition demo_route_store : RouteStore list_cache := route_run (with_max_routes 2) demo_routes.

Lemma demo_routes_ok : routes_ok demo_owner demo_route_store.
Proof. apply route_run_ok; [repeat constructor|apply Inner_new_ok]. Qed.

Lemma route_indexes_consistent_witness :
  has_active_routes_for_client "alice" demo_route_store = true ∧
  get_event_id_by_progress_token "t1" demo_route_store = None ∧
  event_route_count demo_route_store ≤ Z.max 1 2.
Proof.
  split; [by vm_compute|]. split; [by vm_compute|].
  apply (route_indexes_consistent demo_owner 2 demo_routes); [repeat constructor|lia].
Defined.

Lemma registered_route_pops_once_witness :
  let ops := [RPop "e2"; RRegister 9 "e3" "alice" (VString "3") None] in
  (pop_route "e1" (route_run (register 0 "e1" "alice" (VString "1") (Some "t1")
     (with_max_routes 10 : RouteStore list_cache)) ops)).2 =
  Some (mkRoute "alice" (VString "1") (Some "t1") None 0).
Proof.
  refine (proj1 (registered_route_pops_once demo_owner 0 "e1" "alice" (VString "1") (Some "t1")
    (with_max_routes 10) _ (Inner_new_ok _ _) eq_refl _ _ _)); [repeat constructor..|by vm_compute].
Defined.

Lemma remove_for_client_exact_witness :
  (remove_for_client "alice" demo_route_store).2 = 1 ∧
  has_active_routes_for_client "bob" (remove_for_client "alice" demo_route_store).1 = true.
Proof.
  split; [by vm_compute|].
  pose proof (remove_for_client_exact demo_owner "alice" demo_route_store demo_routes_ok) as Hw.
  destruct (remove_for_client "alice" demo_route_store) as [s' n].
  destruct Hw as (_ & _ & Hw). cbn [fst]. rewrite Hw. by vm_compute.
Defined.

Lemma sweep_stale_routes_exact_witness :
  (sweep_stale_routes 10 5 demo_route_store).2 = ["e2"] ∧
  get_route "e3" (sweep_stale_routes 10 5 demo_route_store).1 =
  Some (mkRoute "alice" (VString "3") None None 9).
Proof.
  split; [by vm_compute|].
  pose proof (sweep_stale_routes_exact 10 5 demo_route_store) as Hw.
  destruct (sweep_stale_routes 10 5 demo_route_store) as [s' k]. destruct Hw as [_ Hw].
  cbn [fst]. rewrite Hw. by vm_compute.
Defined.

Definition demo_pending : list_cache PendingRequest :=
  ClientStore.register 0 "e1" (VString "1") false (Some (VString "t"))
    (ClientStore.register 0 "e2" (VString "2") true None (ClientStore.with_max_pending 5)).

Lemma touch_postpones_sweep_witness :
  let s2 := (ClientStore.sweep_expired 12 10 (ClientStore.touch 8 "e1" demo_pending).1).1 in
  ClientStore.peek "e1" s2 = Some (mkPending (VString "1") false 8 (Some (VString "t"))) ∧
  ClientStore.peek "e2" s2 = None.
Proof.
  pose proof (touch_postpones_sweep 12 10 8 "e1" demo_pending) as Hw. cbv zeta.
  destruct (ClientStore.touch 8 "e1" demo_pending) as [s1 b]. cbn [fst].
  destruct (ClientStore.sweep_expired 12 10 s1) as [s2 n]. destruct Hw as (_ & H1 & H2 & _).
  cbn [fst]. split; [by rewrite (H1 (mkPending (VString "1") false 0 (Some (VString "t")))); vm_compute|].
  rewrite H2 by done. by vm_compute.
Defined.

(** Two requests in flight with the same progress token share one mapping:
    it leads to the later request, and finishing the earlier one removes it, after
    which the later request is still routed but its token leads nowhere. *)
Theorem shared_token_mapping_lost :
  let s := route_run (with_max_routes 10 : RouteStore list_cache)
    [RRegister 0 "e1" "alice" (VString "1") (Some "tok"); RRegister 1 "e2" "bob" (VString "2") (Some "tok")] in
  get_event_id_by_progress_token "tok" s = Some "e2" ∧
  get_route "e2" (pop_route "e1" s).1 = Some (mkRoute "bob" (VString "2") (Some "tok") None 1) ∧
  get_event_id_by_progress_token "tok" (pop_route "e1" s).1 = None.
Proof. by vm_compute. Qed.
