(* ===== verification/SessionStore.v ===== *)
(** * Server sessions

    [src/transport/server/session_store.rs]: client sessions keyed by public key
    in an LRU cache.  Creating a session can evict another one; the route store is
    consulted for the evicted client, whose session is created anew while it has
    requests in flight.  [on_evicted] is modelled by the list of keys the callback
    was called with. *)

From S2P Require Import Prelude Json CoreTypes Lru RouteStore.

Definition DEFAULT_MAX_SESSIONS : Z := 1000.

Record SessionSnapshot : Type := mkSnapshot {
  snap_is_initialized : bool;
  snap_is_encrypted : bool;
  snap_has_sent_common_tags : bool;
  snap_supports_ephemeral_gift_wrap : bool;
  snap_supports_encryption : bool;
  snap_supports_ephemeral_encryption : bool;
  snap_supports_oversized_transfer : bool;
  snap_supports_open_stream : bool;
  snap_requested_payment_interaction : option PaymentInteractionMode;
  snap_effective_payment_interaction : option PaymentInteractionMode;
  snap_has_disclosed_payment_interaction : bool;
}.

Definition snapshot_of (s : ClientSession) : SessionSnapshot := {|
  snap_is_initialized := is_initialized s;
  snap_is_encrypted := is_encrypted s;
  snap_has_sent_common_tags := has_sent_common_tags s;
  snap_supports_ephemeral_gift_wrap := supports_ephemeral_gift_wrap s;
  snap_supports_encryption := supports_encryption s;
  snap_supports_ephemeral_encryption := supports_ephemeral_encryption s;
  snap_supports_oversized_transfer := supports_oversized_transfer s;
  snap_supports_open_stream := supports_open_stream s;
  snap_requested_payment_interaction := requested_payment_interaction s;
  snap_effective_payment_interaction := effective_payment_interaction s;
  snap_has_disclosed_payment_interaction := has_disclosed_payment_interaction s;
|}.

(** Field updates of a session. *)
Definition set_is_encrypted (b : bool) (s : ClientSession) : ClientSession :=
  mkClientSession (is_initialized s) b (has_sent_common_tags s) (supports_ephemeral_gift_wrap s)
    (supports_encryption s) (supports_ephemeral_encryption s) (supports_oversized_transfer s)
    (supports_open_stream s) (requested_payment_interaction s) (effective_payment_interaction s)
    (has_disclosed_payment_interaction s) (last_activity s) (pending_requests s) (event_to_progress_token s).
Definition set_is_initialized (b : bool) (s : ClientSession) : ClientSession :=
  mkClientSession b (is_encrypted s) (has_sent_common_tags s) (supports_ephemeral_gift_wrap s)
    (supports_encryption s) (supports_ephemeral_encryption s) (supports_oversized_transfer s)
    (supports_open_stream s) (requested_payment_interaction s) (effective_payment_interaction s)
    (has_disclosed_payment_interaction s) (last_activity s) (pending_requests s) (event_to_progress_token s).
Definition set_has_sent_common_tags (b : bool) (s : ClientSession) : ClientSession :=
  mkClientSession (is_initialized s) (is_encrypted s) b (supports_ephemeral_gift_wrap s)
    (supports_encryption s) (supports_ephemeral_encryption s) (supports_oversized_transfer s)
    (supports_open_stream s) (requested_payment_interaction s) (effective_payment_interaction s)
    (has_disclosed_payment_interaction s) (last_activity s) (pending_requests s) (event_to_progress_token s).

Section sessions.
Context `{Lru L}.
Implicit Types sessions : L ClientSession.

Definition with_capacity (max_sessions : Z) : L ClientSession := lru_new (nonzero_or_one max_sessions).
Definition SessionStore_new : L ClientSession := with_capacity DEFAULT_MAX_SESSIONS.

(** The sessions after an eviction was handled, and the calls of the callback. *)
Definition handle_eviction (now : Z) (inserted_key : string) (evicted : option (string * ClientSession))
    sessions (on_evicted : bool) (event_routes : RouteStore L) : L ClientSession * list string :=
  match evicted with
  | Some (evicted_key, evicted_session) =>
      if String.eqb evicted_key inserted_key then (sessions, [])
      else if has_active_routes_for_client evicted_key event_routes
      then ((lru_push evicted_key (ClientSession_new now (is_encrypted evicted_session)) sessions).1, [])
      else (sessions, if on_evicted then [evicted_key] else [])
  | None => (sessions, [])
  end.

(** The sessions, whether a session was created, and the calls of the callback. *)
Definition get_or_create_session (now : Z) (on_evicted : bool) sessions (client_pubkey : string)
    (is_encrypted : bool) (event_routes : RouteStore L) : L ClientSession * bool * list string :=
  let '(sessions1, found) := lru_get_mut client_pubkey (set_is_encrypted is_encrypted) sessions in
  if found then (sessions1, false, [])
  else
    let '(sessions2, evicted) :=
      lru_push client_pubkey (ClientSession_new now is_encrypted) sessions1 in
    let '(sessions3, calls) :=
      handle_eviction now client_pubkey evicted sessions2 on_evicted event_routes in
    (sessions3, true, calls).

Definition get_session sessions (client_pubkey : string) : option SessionSnapshot :=
  snapshot_of <$> lru_peek client_pubkey sessions.
Definition mark_initialized sessions (client_pubkey : string) : L ClientSession * bool :=
  lru_get_mut client_pubkey (set_is_initialized true) sessions.
Definition mark_common_tags_sent sessions (client_pubkey : string) : L ClientSession * bool :=
  lru_get_mut client_pubkey (set_has_sent_common_tags true) sessions.
Definition remove_session sessions (client_pubkey : string) : L ClientSession * bool :=
  let '(sessions', found) := lru_pop client_pubkey sessions in
  (sessions', if found is Some _ then true else false).
Definition clear_sessions sessions : L ClientSession := lru_clear sessions.
Definition session_count sessions : Z := lru_len sessions.
Definition get_all_sessions sessions : list (string * SessionSnapshot) :=
  map (λ ks, (ks.1, snapshot_of ks.2)) (lru_iter sessions).
End sessions.

Section session_lemmas.
Context `{LruLaws L}.
Implicit Types sessions : L ClientSession.

(** A push does not evict the most recent of two or more entries. *)
Lemma push_keeps_head {V} (c : L V) k v k0 v0 x l :
  lru_iter c = (k0, v0) :: x :: l → k ≠ k0 → entry (lru_push k v c).1 k0 = Some v0.
Proof.
  intros Hc Hne. unfold entry. rewrite lru_push_iter. unfold al_push.
  destruct (al_get k (lru_iter c)) eqn:E; cbn.
  - rewrite (proj2 (String.eqb_neq k0 k)) by done. rewrite al_get_del, Hc.
    rewrite (proj2 (String.eqb_neq k0 k)) by done. cbn. by rewrite String.eqb_refl.
  - case_match; cbn; rewrite (proj2 (String.eqb_neq k0 k)) by done; rewrite Hc; cbn;
      by rewrite String.eqb_refl.
Qed.

(** A push that evicts another key leaves a full cache, the pushed entry first. *)
Lemma push_evicts_head {V} (c : L V) k v ek ev :
  (lru_push k v c).2 = Some (ek, ev) → ek ≠ k → 2 ≤ lru_cap c →
  ∃ x l, lru_iter (lru_push k v c).1 = (k, v) :: x :: l.
Proof.
  intros Hev Hne Hcap. rewrite lru_push_iter. rewrite lru_push_evicted in Hev. unfold al_push in *.
  destruct (al_get k (lru_iter c)) eqn:E; cbn in *; [congruence|].
  destruct (_ <? _) eqn:El; cbn in *; [done|]. b2p.
  destruct (removelast (lru_iter c)) as [|x l] eqn:Er; [|eauto].
  destruct (removelast_last_split (lru_iter c)) as (y & _ & Hy); [by intros Hn; rewrite Hn in El; cbn in El; lia|].
  rewrite Er in Hy. rewrite Hy in El. cbn in El. lia.
Qed.

(** Creating a session pushes a key the cache does not hold: nothing is evicted
    below the capacity, the least recently used entry at the capacity. *)
Lemma create_evict {V} (c : L V) k v c' evicted :
  entry c k = None → lru_push k v c = (c', evicted) →
  entry c' k = Some v ∧ lru_cap c' = lru_cap c ∧
  evicted = (if lru_len c <? lru_cap c then None else last (lru_iter c)) ∧
  (∀ ek ev, evicted = Some (ek, ev) → ek ≠ k ∧ entry c' ek = None).
Proof.
  intros Hk Hp. pose proof (entry_push_eq k v c) as H1. pose proof (lru_push_cap k v c) as H2.
  pose proof (lru_push_evicted k v c) as H3. pose proof (entry_push_ne k v c) as H4.
  pose proof (push_evicted_entry k v c) as H5. rewrite Hp in *. cbn in *.
  split_and!; [done|done| |].
  - rewrite H3. unfold al_push. unfold entry in Hk. rewrite Hk. unfold lru_len. by destruct (_ <? _).
  - intros ek ev ->. destruct (H5 ek ev eq_refl) as [_ Hiff].
    assert (ek ≠ k) as Hne. { intros Heq. apply Hiff in Heq. rewrite Hk in Heq. by destruct Heq. }
    split; [done|]. rewrite H4 by done. by rewrite String.eqb_refl.
Qed.

(** Handling the eviction of another key keeps the pushed session. *)
Lemma handle_eviction_spec now client evicted s2 on_evicted (event_routes : RouteStore L) new :
  entry s2 client = Some new → 
  (∀ ek es, evicted = Some (ek, es) →
     ek ≠ client ∧ ∃ x l, lru_iter s2 = (client, new) :: x :: l) →
  let '(s3, calls) := handle_eviction now client evicted s2 on_evicted event_routes in
  entry s3 client = Some new ∧ lru_cap s3 = lru_cap s2 ∧
  ∀ k session, evicted = Some (k, session) →
    if has_active_routes_for_client k event_routes
    then entry s3 k = Some (ClientSession_new now (is_encrypted session)) ∧ calls = []
    else s3 = s2 ∧ calls = if on_evicted then [k] else [].
Proof.
  intros Hnew Hev. destruct evicted as [[ek es]|]; cbn; [|done].
  destruct (Hev ek es eq_refl) as (Hne & x & l & Hl). rewrite (proj2 (String.eqb_neq _ _) Hne).
  destruct (has_active_routes_for_client ek event_routes) eqn:Ea.
  - split_and!; [by eapply push_keeps_head|apply lru_push_cap|].
    intros k session [= <- <-]. rewrite Ea, entry_push_eq. done.
  - split_and!; [done|done|]. intros k session [= <- <-]. by rewrite Ea.
Qed.

(** With room for at least two sessions, [get_or_create_session] always
    leaves the caller's client with a session carrying the encryption flag of the
    message: an existing one otherwise unchanged, a new one uninitialized.  A
    client evicted to make room keeps a (fresh) session while it has requests in
    flight, and is reported to the eviction callback otherwise; the number of
    sessions stays within the capacity. *)
Theorem get_or_create_session_spec now on_evicted sessions client is_enc (event_routes : RouteStore L) :
  2 ≤ lru_cap sessions →
  let '(sessions', created, calls) :=
    get_or_create_session now on_evicted sessions client is_enc event_routes in
  created = negb (lru_contains client sessions) ∧
  entry sessions' client =
    Some (default (ClientSession_new now is_enc) (set_is_encrypted is_enc <$> entry sessions client)) ∧
  lru_len sessions' ≤ lru_cap sessions ∧
  (created = false → ∀ k, k ≠ client → entry sessions' k = entry sessions k) ∧
  (created = true → ∀ k session, lru_len sessions = lru_cap sessions →
     last (lru_iter sessions) = Some (k, session) →
     if has_active_routes_for_client k event_routes
     then entry sessions' k = Some (ClientSession_new now (is_encrypted session)) ∧ calls = []
     else entry sessions' k = None ∧ calls = if on_evicted then [k] else []).
Proof.
  intros Hcap. unfold get_or_create_session.
  pose proof (lru_get_mut_found client (set_is_encrypted is_enc) sessions) as Hf.
  pose proof (entry_get_mut client (set_is_encrypted is_enc) sessions) as He.
  pose proof (lru_get_mut_iter client (set_is_encrypted is_enc) sessions) as Hi.
  pose proof (lru_get_mut_cap client (set_is_encrypted is_enc) sessions) as Hc1.
  destruct (lru_get_mut client (set_is_encrypted is_enc) sessions) as [s1 found]. cbn in Hf, He, Hi, Hc1.
  unfold lru_contains. rewrite lru_peek_value. fold (entry sessions client).
  fold (entry sessions client) in Hf, Hi.
  destruct (entry sessions client) as [s0|] eqn:Es; subst found.
  - split_and!; [done| | |intros _ k Hk|done].
    + rewrite He, String.eqb_refl. done.
    + rewrite <- Hc1. apply lru_len_le.
    + by rewrite He, (proj2 (String.eqb_neq _ _) Hk).
  - assert (∀ k, entry s1 k = entry sessions k) as He1.
    { intros k. unfold entry. by rewrite Hi. }
    set (new := ClientSession_new now is_enc).
    destruct (lru_push client new s1) as [s2 evicted] eqn:Ep.
    destruct (create_evict s1 client new s2 evicted) as (Hnew & Hcap2 & Hev & Hevne);
      [by rewrite He1|done|].
    unfold lru_len in Hev. rewrite Hi, Hc1 in Hev. fold (lru_len sessions) in Hev.
    opose proof* (handle_eviction_spec now client evicted s2 on_evicted event_routes new) as Hh; [done| |].
    { intros ek es ->. destruct (Hevne ek es eq_refl) as [Hne _]. split; [done|].
      pose proof (push_evicts_head s1 client new ek es) as Hh. rewrite Ep in Hh. apply Hh; [done|done|lia]. }
    destruct (handle_eviction _ _ _ _ _ _) as [s3 calls]. destruct Hh as (Hh1 & Hh2 & Hh3).
    pose proof (lru_len_le s3).
    split_and!; [done|done|lia|done|].
    intros _ k session Hlen Hlast. rewrite Hlen, Z.ltb_irrefl, Hlast in Hev. subst evicted.
    specialize (Hh3 k session eq_refl). destruct (has_active_routes_for_client k event_routes); [done|].
    split; [|by destruct Hh3]. destruct Hh3 as [-> _]. by apply (Hevne k session).
Qed.
End session_lemmas.

(** ** Witnesses and the eviction veto *)

Definition demo_session_routes : RouteStore list_cache :=
  register 0 "e1" "alice" (VString "1") None (register 0 "e2" "bob" (VString "2") None (with_max_routes 10)).
(** The sessions after the messages of the given clients, without callback. *)
Definition demo_sessions (cap : Z) (clients : list string) : list_cache ClientSession :=
  foldl (λ s c, (get_or_create_session 0 false s c true (with_max_routes 10)).1.1) (with_capacity cap) clients.

Lemma get_or_create_session_spec_witness :
  let s := demo_sessions 2 ["carol"; "dave"] in
  let r := get_or_create_session 7 true s "alice" false demo_session_routes in
  r.1.2 = true ∧ r.2 = ["carol"] ∧ entry r.1.1 "alice" = Some (ClientSession_new 7 false).
Proof.
  cbv zeta. split; [by vm_compute|]. split; [by vm_compute|].
  pose proof (get_or_create_session_spec 7 true (demo_sessions 2 ["carol"; "dave"]) "alice" false
    demo_session_routes ltac:(apply Z.leb_le; by vm_compute)) as Hw.
  destruct (get_or_create_session 7 true (demo_sessions 2 ["carol"; "dave"]) "alice" false demo_session_routes)
    as [[s' created] calls].
  destruct Hw as (_ & Hw & _). cbn [fst]. rewrite Hw. by vm_compute.
Defined.

(** A vetoed eviction drops another session unannounced: re-creating the
    session of an evicted client with requests in flight evicts the next least
    recently used one, here [bob], which has requests in flight too, without a
    callback; and with capacity one the session reported as created is gone. *)
Theorem vetoed_eviction_drops_session :
  let r := get_or_create_session 7 true (demo_sessions 2 ["alice"; "bob"]) "carol" false demo_session_routes in
  has_active_routes_for_client "bob" demo_session_routes = true ∧
  lru_contains "bob" (demo_sessions 2 ["alice"; "bob"]) = true ∧
  lru_contains "bob" r.1.1 = false ∧ r.2 = [] ∧
  let r1 := get_or_create_session 7 true (demo_sessions 1 ["alice"]) "carol" false demo_session_routes in
  r1.1.2 = true ∧ lru_contains "carol" r1.1.1 = false.
Proof. by vm_compute. Qed.
