(* ===== verification/OpenStreamFrame.v ===== *)
(** * CEP-41 open streams: constants, errors, frames and configuration

    Models [src/transport/open_stream/constants.rs], [errors.rs], [frame.rs] and
    the configuration of [mod.rs].  The constructors of frames and errors shadow
    those of CEP-22 of the same names. *)

From S2P Require Import Prelude Json CoreTypes OversizedFrame.

(** ** Constants *)

Definition OPEN_STREAM_TYPE : string := "open-stream".
Definition DEFAULT_MAX_CONCURRENT_OPEN_STREAMS : Z := 64.
Definition DEFAULT_MAX_BUFFERED_CHUNKS_PER_STREAM : Z := 64.
Definition DEFAULT_MAX_BUFFERED_BYTES_PER_STREAM : Z := 512 * 1024.
Definition DEFAULT_OPEN_STREAM_IDLE_TIMEOUT_MS : Z := 30000.
Definition DEFAULT_OPEN_STREAM_PROBE_TIMEOUT_MS : Z := 20000.
Definition DEFAULT_OPEN_STREAM_CLOSE_GRACE_PERIOD_MS : Z := 5000.
Definition MAX_OPEN_STREAM_PING_NONCE_BYTES : Z := 64.

(** ** Errors *)

Inductive OpenStreamError : Type :=
| Abort (token : string) (reason : option string)
| Policy (msg : string)
| Sequence (msg : string).

#[export] Instance OpenStreamError_eq_dec : EqDecision OpenStreamError.
Proof. solve_decision. Defined.

Definition is_abort (e : OpenStreamError) : bool :=
  match e with Abort _ _ => true | _ => false end.

(** [Display for OpenStreamError]. *)
Definition error_to_string (e : OpenStreamError) : string :=
  match e with
  | Abort token reason =>
      "Open stream aborted (token: " +:+ token +:+ ")" +:+
      match reason with Some r => ": " +:+ r | None => "" end
  | Policy msg => "Open stream policy violation: " +:+ msg
  | Sequence msg => "Open stream sequence error: " +:+ msg
  end.

(** ** Frames *)

Inductive OpenStreamFrame : Type :=
| Start (content_type : option string)
| Accept
| Chunk (chunk_index : Z) (data : string)
| Ping (nonce : string)
| Pong (nonce : string)
| Close (last_chunk_index : option Z)
| AbortFrame (reason : option string).

#[export] Instance OpenStreamFrame_eq_dec : EqDecision OpenStreamFrame.
Proof. solve_decision. Defined.

Definition frame_type (f : OpenStreamFrame) : string :=
  match f with
  | Start _ => "start"
  | Accept => "accept"
  | Chunk _ _ => "chunk"
  | Ping _ => "ping"
  | Pong _ => "pong"
  | Close _ => "close"
  | AbortFrame _ => "abort"
  end.

(** The fields of the derived [Serialize] (absent options are skipped). *)
Definition frame_fields (f : OpenStreamFrame) : list (string * Value) :=
  match f with
  | Start (Some ct) => [("contentType", VString ct)]
  | Chunk i data => [("chunkIndex", number_of_u64 i); ("data", VString data)]
  | Ping nonce | Pong nonce => [("nonce", VString nonce)]
  | Close (Some last) => [("lastChunkIndex", number_of_u64 last)]
  | AbortFrame (Some reason) => [("reason", VString reason)]
  | _ => []
  end.

Definition to_cvm_value (f : OpenStreamFrame) : Value :=
  VObject (obj_insert "type" (VString OPEN_STREAM_TYPE)
             (obj_of_list (("frameType", VString (frame_type f)) :: frame_fields f))).

(** An optional field: absent or null is [None], another type is an error. *)
Definition opt_field {A} (conv : Value → option A) (k : string) (l : list (string * Value))
  : option (option A) :=
  match obj_get k l with
  | None | Some VNull => Some None
  | Some v => Some <$> conv v
  end.

(** The derived [Deserialize]; unknown fields are ignored. *)
Definition frame_from_value (v : Value) : option OpenStreamFrame :=
  match v with
  | VObject l =>
      tag ← obj_get "frameType" l ≫= as_str;
      if String.eqb tag "start" then Start <$> opt_field as_str "contentType" l
      else if String.eqb tag "accept" then Some Accept
      else if String.eqb tag "chunk" then
        i ← obj_get "chunkIndex" l ≫= as_u64;
        data ← obj_get "data" l ≫= as_str;
        Some (Chunk i data)
      else if String.eqb tag "ping" then Ping <$> (obj_get "nonce" l ≫= as_str)
      else if String.eqb tag "pong" then Pong <$> (obj_get "nonce" l ≫= as_str)
      else if String.eqb tag "close" then Close <$> opt_field as_u64 "lastChunkIndex" l
      else if String.eqb tag "abort" then AbortFrame <$> opt_field as_str "reason" l
      else None
  | _ => None
  end.

Definition from_cvm_value (value : Value) : option OpenStreamFrame :=
  if decide (get value "type" ≫= as_str = Some OPEN_STREAM_TYPE)
  then frame_from_value value
  else None.

Definition is_frame_value (value : Value) : bool :=
  bool_decide (get value "type" ≫= as_str = Some OPEN_STREAM_TYPE)
  && bool_decide (is_Some (get value "frameType" ≫= as_str)).

Definition into_progress_notification (f : OpenStreamFrame) (progress_token : string)
    (progress : Z) (message : option string) : JsonRpcNotification :=
  let params := obj_insert "progressToken" (VString progress_token) [] in
  let params := obj_insert "progress" (number_of_u64 progress) params in
  let params := match message with
                | Some m => obj_insert "message" (VString m) params
                | None => params
                end in
  let params := obj_insert "cvm" (to_cvm_value f) params in
  mkNotification "2.0" NOTIFICATIONS_PROGRESS_METHOD (Some (VObject params)).

Definition open_stream_frame_from_notification (n : JsonRpcNotification) : option OpenStreamFrame :=
  params ← notif_params n; cvm ← get params "cvm"; from_cvm_value cvm.

(** ** Configuration *)

Record OpenStreamConfig : Type := mkStreamConfig {
  sc_enabled : bool;
  sc_max_concurrent_streams : Z;
  sc_max_buffered_chunks_per_stream : Z;
  sc_max_buffered_bytes_per_stream : Z;
  sc_idle_timeout_ms : Z;
  sc_probe_timeout_ms : Z;
  sc_close_grace_period_ms : Z;
  sc_max_total_timeout_ms : option Z;
}.

Definition OpenStreamConfig_default : OpenStreamConfig := {|
  sc_enabled := false;
  sc_max_concurrent_streams := DEFAULT_MAX_CONCURRENT_OPEN_STREAMS;
  sc_max_buffered_chunks_per_stream := DEFAULT_MAX_BUFFERED_CHUNKS_PER_STREAM;
  sc_max_buffered_bytes_per_stream := DEFAULT_MAX_BUFFERED_BYTES_PER_STREAM;
  sc_idle_timeout_ms := DEFAULT_OPEN_STREAM_IDLE_TIMEOUT_MS;
  sc_probe_timeout_ms := DEFAULT_OPEN_STREAM_PROBE_TIMEOUT_MS;
  sc_close_grace_period_ms := DEFAULT_OPEN_STREAM_CLOSE_GRACE_PERIOD_MS;
  sc_max_total_timeout_ms := None;
|}.

Record OpenStreamRegistryPolicy : Type := mkRegistryPolicy {
  max_concurrent_streams : Z;
  max_buffered_chunks_per_stream : Z;
  max_buffered_bytes_per_stream : Z;
  idle_timeout_ms : Z;
  probe_timeout_ms : Z;
  close_grace_period_ms : Z;
}.

Definition OpenStreamRegistryPolicy_default : OpenStreamRegistryPolicy := {|
  max_concurrent_streams := DEFAULT_MAX_CONCURRENT_OPEN_STREAMS;
  max_buffered_chunks_per_stream := DEFAULT_MAX_BUFFERED_CHUNKS_PER_STREAM;
  max_buffered_bytes_per_stream := DEFAULT_MAX_BUFFERED_BYTES_PER_STREAM;
  idle_timeout_ms := DEFAULT_OPEN_STREAM_IDLE_TIMEOUT_MS;
  probe_timeout_ms := DEFAULT_OPEN_STREAM_PROBE_TIMEOUT_MS;
  close_grace_period_ms := DEFAULT_OPEN_STREAM_CLOSE_GRACE_PERIOD_MS;
|}.

(** [impl From<&OpenStreamConfig> for OpenStreamRegistryPolicy] *)
Definition registry_policy_of_config (c : OpenStreamConfig) : OpenStreamRegistryPolicy := {|
  max_concurrent_streams := sc_max_concurrent_streams c;
  max_buffered_chunks_per_stream := sc_max_buffered_chunks_per_stream c;
  max_buffered_bytes_per_stream := sc_max_buffered_bytes_per_stream c;
  idle_timeout_ms := sc_idle_timeout_ms c;
  probe_timeout_ms := sc_probe_timeout_ms c;
  close_grace_period_ms := sc_close_grace_period_ms c;
|}.

(** ** Frames survive the [cvm] object *)

(** The indexes of a frame are [u64] values. *)
Definition frame_ok (f : OpenStreamFrame) : bool :=
  match f with
  | Chunk i _ => in_u64 i
  | Close (Some last) => in_u64 last
  | _ => true
  end.

Lemma stream_from_to_cvm_value f : frame_ok f = true → from_cvm_value (to_cvm_value f) = Some f.
Proof.
  intros Hok.
  assert (nodup_keys (("frameType", VString (frame_type f)) :: frame_fields f) = true) as Hnd
    by by destruct f as [[]| | | | |[]|[]].
  assert (get (to_cvm_value f) "type" = Some (VString OPEN_STREAM_TYPE)) as Ht
    by (cbn [get to_cvm_value]; unfold to_cvm_value; cbn [get]; by rewrite obj_get_insert).
  unfold from_cvm_value. rewrite Ht. cbn [mbind option_bind as_str]. rewrite decide_True by done.
  unfold frame_from_value, to_cvm_value, opt_field.
  assert (∀ k, String.eqb k "type" = false →
    obj_get k (obj_insert "type" (VString OPEN_STREAM_TYPE)
      (obj_of_list (("frameType", VString (frame_type f)) :: frame_fields f))) =
    obj_get k (("frameType", VString (frame_type f)) :: frame_fields f)) as Hget.
  { intros k Hk. by rewrite obj_get_insert, Hk, obj_get_of_list. }
  rewrite !Hget by done. destruct f as [[]| | | | |[]|[]]; try done; cbn in *; by rewrite Hok.
Qed.

Lemma stream_notification_params f t p m :
  ∃ params, notif_params (into_progress_notification f t p m) = Some (VObject params) ∧
    obj_get "cvm" params = Some (to_cvm_value f) ∧
    obj_get "progressToken" params = Some (VString t) ∧
    obj_get "progress" params = Some (number_of_u64 p).
Proof. eexists. split; [done|]. destruct m; by rewrite !obj_get_insert. Qed.
