(* ===== verification/OpenStreamSession.v ===== *)
(** * CEP-41 open streams: the reader session

    Models [src/transport/open_stream/session.rs].  The methods run under the
    session's mutex and never suspend, so each is a function of the state; an
    error leaves the state as the code leaves it.  The waker of the parked stream
    consumer is a flag and the wakers of the [closed()] futures a count: waking
    clears them. *)

From Stdlib Require Import Sorted.
From S2P Require Import Prelude Json CoreTypes OversizedFrame OversizedReceiver OpenStreamFrame.

(** ** State *)

Inductive FrameOutcome : Type :=
| OutcomeNone
| SendPong (nonce : string)
| Closed
| Aborted (reason : option string).

Inductive KeepaliveAction : Type :=
| ActionNone
| SendPing (nonce : string)
| ActionAbort (reason : string).

Record OpenStreamSessionOptions : Type := mkSessionOptions {
  opt_progress_token : string;
  opt_max_buffered_chunks : Z;
  opt_max_buffered_bytes : Z;
  opt_idle_timeout_ms : Z;
  opt_probe_timeout_ms : Z;
  opt_close_grace_period_ms : Z;
}.

Record SessionState : Type := mkSession {
  progress_token : string;
  max_buffered_chunks : Z;
  max_buffered_bytes : Z;
  idle_timeout : Z;
  probe_timeout : Z;
  close_grace_period : Z;
  queue : list string;
  buffered : gmap Z string;
  buffered_bytes : Z;
  queued_bytes : Z;
  next_expected_chunk : Z;
  last_progress : Z;
  started : bool;
  active : bool;
  closed_remotely : bool;
  expected_last_chunk_index : option Z;
  terminal : option OpenStreamError;
  waker : bool;
  closed_wakers : nat;
  session_last_activity : Z;
  pending_probe_nonce : option string;
  control_nonce : Z;
  probe_deadline : option Z;
  close_grace_deadline : option Z;
  outbound_progress : Z;
}.

Module Session.

(** The parts of the state the methods replace together. *)
Definition set_data (s : SessionState) (q : list string) (b : gmap Z string) (bb qb next : Z) (w : bool)
  : SessionState :=
  mkSession (progress_token s) (max_buffered_chunks s) (max_buffered_bytes s) (idle_timeout s)
    (probe_timeout s) (close_grace_period s) q b bb qb next (last_progress s) (started s) (active s)
    (closed_remotely s) (expected_last_chunk_index s) (terminal s) w (closed_wakers s)
    (session_last_activity s) (pending_probe_nonce s) (control_nonce s) (probe_deadline s)
    (close_grace_deadline s) (outbound_progress s).

Definition set_life (s : SessionState) (progress : Z) (strt act clsd : bool) (expected : option Z)
    (term : option OpenStreamError) (w : bool) (cw : nat) (activity : Z) : SessionState :=
  mkSession (progress_token s) (max_buffered_chunks s) (max_buffered_bytes s) (idle_timeout s)
    (probe_timeout s) (close_grace_period s) (queue s) (buffered s) (buffered_bytes s) (queued_bytes s)
    (next_expected_chunk s) progress strt act clsd expected term w cw activity
    (pending_probe_nonce s) (control_nonce s) (probe_deadline s) (close_grace_deadline s)
    (outbound_progress s).

Definition set_keepalive (s : SessionState) (nonce : option string) (control : Z)
    (probe grace : option Z) (outbound : Z) : SessionState :=
  mkSession (progress_token s) (max_buffered_chunks s) (max_buffered_bytes s) (idle_timeout s)
    (probe_timeout s) (close_grace_period s) (queue s) (buffered s) (buffered_bytes s) (queued_bytes s)
    (next_expected_chunk s) (last_progress s) (started s) (active s) (closed_remotely s)
    (expected_last_chunk_index s) (terminal s) (waker s) (closed_wakers s) (session_last_activity s)
    nonce control probe grace outbound.

(** [OpenStreamSession::new]; [now] is the reading of the clock. *)
Definition new (now : Z) (o : OpenStreamSessionOptions) : SessionState := {|
  progress_token := opt_progress_token o;
  max_buffered_chunks := opt_max_buffered_chunks o;
  max_buffered_bytes := opt_max_buffered_bytes o;
  idle_timeout := from_millis (opt_idle_timeout_ms o);
  probe_timeout := from_millis (opt_probe_timeout_ms o);
  close_grace_period := from_millis (opt_close_grace_period_ms o);
  queue := [];
  buffered := ∅;
  buffered_bytes := 0;
  queued_bytes := 0;
  next_expected_chunk := 0;
  last_progress := -1;
  started := false;
  active := true;
  closed_remotely := false;
  expected_last_chunk_index := None;
  terminal := None;
  waker := false;
  closed_wakers := 0;
  session_last_activity := now;
  pending_probe_nonce := None;
  control_nonce := 0;
  probe_deadline := None;
  close_grace_deadline := None;
  outbound_progress := 0;
|}.

(** ** The state machine *)

Definition assert_active (s : SessionState) : result () OpenStreamError :=
  if active s then Ok ()
  else Err (Sequence ("Received frame for inactive stream " +:+ progress_token s)).

Definition assert_started (s : SessionState) : result () OpenStreamError :=
  if started s then Ok ()
  else Err (Sequence ("Received non-start frame before start for " +:+ progress_token s)).

(** The test of [assert_progress], which then records the progress. *)
Definition assert_progress (progress : Z) (s : SessionState) : result () OpenStreamError :=
  if progress <=? last_progress s
  then Err (Sequence ("Non-increasing progress for stream " +:+ progress_token s))
  else Ok ().

Definition wake_stream (s : SessionState) : SessionState :=
  set_data s (queue s) (buffered s) (buffered_bytes s) (queued_bytes s) (next_expected_chunk s) false.

Definition emit (data : string) (s : SessionState) : SessionState :=
  wake_stream (set_data s (queue s ++ [data]) (buffered s) (buffered_bytes s)
                 (u64_add (queued_bytes s) (str_len data)) (next_expected_chunk s) (waker s)).

Definition finalize (error : option OpenStreamError) (s : SessionState) : SessionState :=
  if active s then
    let s1 := set_life s (last_progress s) (started s) false (closed_remotely s)
                (expected_last_chunk_index s) error (waker s) 0 (session_last_activity s) in
    wake_stream (set_keepalive s1 None (control_nonce s1) None None (outbound_progress s1))
  else s.

Definition buffer_chunk (chunk_index : Z) (data : string) (s : SessionState)
  : result SessionState OpenStreamError :=
  if chunk_index <? next_expected_chunk s
  then Err (Sequence ("Stale chunkIndex " +:+ show_Z chunk_index +:+ " for " +:+ progress_token s))
  else if bool_decide (is_Some (buffered s !! chunk_index))
  then Err (Sequence ("Duplicate chunkIndex " +:+ show_Z chunk_index +:+ " for " +:+ progress_token s))
  else
    let chunk_bytes := str_len data in
    if max_buffered_chunks s <=? Z.of_nat (size (buffered s)) + Z.of_nat (length (queue s))
    then Err (Sequence ("Buffered chunk limit exceeded for stream " +:+ progress_token s))
    else if max_buffered_bytes s <? u64_add (u64_add (buffered_bytes s) (queued_bytes s)) chunk_bytes
    then Err (Sequence ("Buffered byte limit exceeded for stream " +:+ progress_token s))
    else Ok (set_data s (queue s) (<[chunk_index := data]> (buffered s))
               (u64_add (buffered_bytes s) chunk_bytes) (queued_bytes s) (next_expected_chunk s) (waker s)).

(** The loop of [flush_contiguous_chunks]; every turn removes a buffered chunk. *)
Definition flush_one (data : string) (s : SessionState) : SessionState :=
  let s1 := set_data s (queue s) (delete (next_expected_chunk s) (buffered s))
              (Z.max 0 (buffered_bytes s - str_len data)) (queued_bytes s)
              (next_expected_chunk s) (waker s) in
  let s2 := emit data s1 in
  set_data s2 (queue s2) (buffered s2) (buffered_bytes s2) (queued_bytes s2)
    (u64_add (next_expected_chunk s2) 1) (waker s2).

Fixpoint flush_loop (fuel : nat) (s : SessionState) : SessionState :=
  match fuel with
  | O => s
  | S fuel' =>
      match buffered s !! next_expected_chunk s with
      | Some data => flush_loop fuel' (flush_one data s)
      | None => s
      end
  end.

Definition maybe_finish_gracefully (s : SessionState) : SessionState * result bool OpenStreamError :=
  if negb (closed_remotely s) || negb (bool_decide (buffered s = ∅)) then (s, Ok false)
  else
    match expected_last_chunk_index s with
    | Some expected =>
        if next_expected_chunk s =? u64_add expected 1 then (finalize None s, Ok true)
        else (s, Err (Sequence ("Incomplete stream for " +:+ progress_token s +:+
                                ": expected chunks through " +:+ show_Z expected)))
    | None => (finalize None s, Ok true)
    end.

Definition flush_contiguous_chunks (s : SessionState) : SessionState * result bool OpenStreamError :=
  let s1 := flush_loop (size (buffered s)) s in
  if closed_remotely s1 then maybe_finish_gracefully s1 else (s1, Ok false).

Definition handle_pong (nonce : string) (s : SessionState) : SessionState :=
  if bool_decide (pending_probe_nonce s = Some nonce)
  then set_keepalive s None (control_nonce s) None (close_grace_deadline s) (outbound_progress s)
  else s.

(** What each accepted frame does, after the checks on activity and progress. *)
Definition handle_frame (now : Z) (frame : OpenStreamFrame) (s : SessionState)
  : SessionState * result FrameOutcome OpenStreamError :=
  let finish '((s', r) : SessionState * result bool OpenStreamError) (k : bool → SessionState → SessionState) :=
    match r with
    | Err e => (s', Err e)
    | Ok finished => (k finished s', Ok (if finished then Closed else OutcomeNone))
    end in
  match frame with
  | Start _ =>
      if started s then (s, Err (Sequence ("Duplicate start frame for stream " +:+ progress_token s)))
      else (set_life s (last_progress s) true (active s) (closed_remotely s) (expected_last_chunk_index s)
              (terminal s) (waker s) (closed_wakers s) (session_last_activity s), Ok OutcomeNone)
  | Accept => (s, Ok OutcomeNone)
  | Ping nonce =>
      match assert_started s with
      | Err e => (s, Err e)
      | Ok _ =>
          if MAX_OPEN_STREAM_PING_NONCE_BYTES <? str_len nonce
          then (s, Err (Sequence ("ping nonce exceeds " +:+ show_Z MAX_OPEN_STREAM_PING_NONCE_BYTES +:+
                                  "-byte cap (got " +:+ show_Z (str_len nonce) +:+ " bytes)")))
          else (s, Ok (SendPong nonce))
      end
  | Pong nonce =>
      match assert_started s with
      | Err e => (s, Err e)
      | Ok _ => (handle_pong nonce s, Ok OutcomeNone)
      end
  | Chunk chunk_index data =>
      match assert_started s with
      | Err e => (s, Err e)
      | Ok _ =>
          match buffer_chunk chunk_index data s with
          | Err e => (s, Err e)
          | Ok s1 => finish (flush_contiguous_chunks s1) (λ _ s', s')
          end
      end
  | Close last_chunk_index =>
      match assert_started s with
      | Err e => (s, Err e)
      | Ok _ =>
          let s1 := set_life s (last_progress s) (started s) (active s) true last_chunk_index (terminal s)
                      (waker s) (closed_wakers s) (session_last_activity s) in
          finish (flush_contiguous_chunks s1)
            (λ finished s', if finished then s'
                            else set_keepalive s' (pending_probe_nonce s') (control_nonce s')
                                   (probe_deadline s') (Some (now + close_grace_period s'))
                                   (outbound_progress s'))
      end
  | AbortFrame reason =>
      (finalize (Some (Abort (progress_token s) reason)) s, Ok (Aborted reason))
  end.

Definition process_frame (now progress : Z) (frame : OpenStreamFrame) (s : SessionState)
  : SessionState * result FrameOutcome OpenStreamError :=
  match assert_active s with
  | Err e => (s, Err e)
  | Ok _ =>
      match assert_progress progress s with
      | Err e => (s, Err e)
      | Ok _ =>
          handle_frame now frame
            (set_life s progress (started s) (active s) (closed_remotely s) (expected_last_chunk_index s)
               (terminal s) (waker s) (closed_wakers s) now)
      end
  end.

(** [next_control_nonce]: the state with the counter bumped, and the nonce. *)
Definition next_control_nonce (s : SessionState) : Z * string :=
  let n := u64_add (control_nonce s) 1 in (n, progress_token s +:+ ":" +:+ show_Z n).

(** The probe, close-grace and idle conditions of [tick]. *)
Definition probe_expired (now : Z) (s : SessionState) : bool :=
  match probe_deadline s, pending_probe_nonce s with
  | Some deadline, Some _ => deadline <=? now
  | _, _ => false
  end.
Definition grace_expired (now : Z) (s : SessionState) : bool :=
  match close_grace_deadline s with
  | Some deadline => closed_remotely s && negb (bool_decide (buffered s = ∅)) && (deadline <=? now)
  | None => false
  end.
Definition idle_expired (now : Z) (s : SessionState) : bool :=
  started s && negb (closed_remotely s) && bool_decide (pending_probe_nonce s = None)
  && (idle_timeout s <=? Z.max 0 (now - session_last_activity s)).

Definition tick (now : Z) (s : SessionState) : SessionState * KeepaliveAction :=
  if negb (active s) then (s, ActionNone)
  else if probe_expired now s then
    (finalize (Some (Abort (progress_token s) (Some "Probe timeout"))) s, ActionAbort "Probe timeout")
  else if grace_expired now s then
    (finalize (Some (Abort (progress_token s) (Some "Close grace period expired"))) s,
     ActionAbort "Close grace period expired")
  else if idle_expired now s then
    let '(n, nonce) := next_control_nonce s in
    (set_keepalive s (Some nonce) n (Some (now + probe_timeout s)) (close_grace_deadline s)
       (outbound_progress s), SendPing nonce)
  else (s, ActionNone).

Definition fail (error : OpenStreamError) (s : SessionState) : SessionState := finalize (Some error) s.
Definition dispose (s : SessionState) : SessionState := finalize None s.

(** [abort]: the state and the notification handed to the publisher, if any. *)
Definition abort (publisher : bool) (reason : option string) (s : SessionState)
  : SessionState * option JsonRpcNotification :=
  if negb (active s) then (s, None)
  else
    let s1 := finalize (Some (Abort (progress_token s) reason)) s in
    if publisher then
      let n := u64_add (outbound_progress s1) 1 in
      (set_keepalive s1 (pending_probe_nonce s1) (control_nonce s1) (probe_deadline s1)
         (close_grace_deadline s1) n,
       Some (into_progress_notification (AbortFrame reason) (progress_token s) n None))
    else (s1, None).

(** [Stream::poll_next]: [None] is [Poll::Pending]. *)
Definition poll_next (s : SessionState)
  : SessionState * option (option (result string OpenStreamError)) :=
  match queue s with
  | item :: q =>
      (set_data s q (buffered s) (buffered_bytes s) (Z.max 0 (queued_bytes s - str_len item))
         (next_expected_chunk s) (waker s), Some (Some (Ok item)))
  | [] =>
      if negb (active s) then
        (set_life s (last_progress s) (started s) (active s) (closed_remotely s)
           (expected_last_chunk_index s) None (waker s) (closed_wakers s) (session_last_activity s),
         Some (Err <$> terminal s))
      else (set_data s (queue s) (buffered s) (buffered_bytes s) (queued_bytes s)
              (next_expected_chunk s) true, None)
  end.

(** [Closed::poll]. *)
Definition poll_closed (s : SessionState) : SessionState * bool :=
  if negb (active s) then (s, true)
  else (set_life s (last_progress s) (started s) (active s) (closed_remotely s)
          (expected_last_chunk_index s) (terminal s) (waker s) (S (closed_wakers s))
          (session_last_activity s), false).

End Session.

(** ** Executions of a session *)

(** What happens to a session: frames from the registry, keepalive ticks, polls
    of the consumer and of its [closed()] futures, and local termination. *)
Inductive session_event : Type :=
| EvFrame (now progress : Z) (frame : OpenStreamFrame)
| EvTick (now : Z)
| EvPoll
| EvPollClosed
| EvFail (error : OpenStreamError)
| EvDispose
| EvAbort (publisher : bool) (reason : option string).

(** The state after an event and the payload it delivers to the consumer. *)
Definition session_step (s : SessionState) (ev : session_event) : SessionState * list string :=
  match ev with
  | EvFrame now progress frame => ((Session.process_frame now progress frame s).1, [])
  | EvTick now => ((Session.tick now s).1, [])
  | EvPoll =>
      let '(s', r) := Session.poll_next s in
      (s', match r with Some (Some (Ok item)) => [item] | _ => [] end)
  | EvPollClosed => ((Session.poll_closed s).1, [])
  | EvFail error => (Session.fail error s, [])
  | EvDispose => (Session.dispose s, [])
  | EvAbort publisher reason => ((Session.abort publisher reason s).1, [])
  end.

Fixpoint session_run (s : SessionState) (evs : list session_event) : SessionState * list string :=
  match evs with
  | [] => (s, [])
  | ev :: evs' =>
      let '(s1, d1) := session_step s ev in
      let '(s2, d2) := session_run s1 evs' in (s2, d1 ++ d2)
  end.

(** Payloads are strings Rust can allocate. *)
Definition event_ok (ev : session_event) : bool :=
  match ev with
  | EvFrame _ _ (Chunk i data) => in_u64 i && (str_len data <=? i64_max)
  | EvFrame _ _ (Close (Some last)) => in_u64 last
  | _ => true
  end.

(** [data] was sent as the chunk of index [i]. *)
Definition sent_chunk (evs : list session_event) (i : Z) (data : string) : Prop :=
  ∃ now progress, EvFrame now progress (Chunk i data) ∈ evs.

(** ** The invariant *)

Fixpoint queue_bytes (q : list string) : Z :=
  match q with [] => 0 | d :: q' => str_len d + queue_bytes q' end.
Definition map_bytes (m : gmap Z string) : Z := map_fold (λ _ d n, str_len d + n) 0 m.

Lemma queue_bytes_app q1 q2 : queue_bytes (q1 ++ q2) = queue_bytes q1 + queue_bytes q2.
Proof. induction q1 as [|d q1 IH]; cbn; [done|]. lia. Qed.

Lemma queue_bytes_nonneg q : 0 ≤ queue_bytes q.
Proof. induction q as [|d q IH]; cbn; [done|]. pose proof (str_len_nonneg d). lia. Qed.

Lemma map_bytes_insert m i d : m !! i = None → map_bytes (<[i:=d]> m) = str_len d + map_bytes m.
Proof. intros Hi. unfold map_bytes. rewrite map_fold_insert_L; [done| |done]. intros. lia. Qed.

Lemma map_bytes_delete m i d : m !! i = Some d → map_bytes (delete i m) = map_bytes m - str_len d.
Proof.
  intros Hi. unfold map_bytes. rewrite (map_fold_delete_L _ _ i d m); [lia| |done]. intros. lia.
Qed.

Lemma map_bytes_nonneg m : 0 ≤ map_bytes m.
Proof.
  unfold map_bytes. apply (map_fold_weak_ind (λ n _, 0 ≤ n)); [lia|].
  intros i d m' n _ Hn. pose proof (str_len_nonneg d). lia.
Qed.

(** The data plane of a session whose consumer got [dl]: with what is queued it
    is the output so far, chunk [i] of it is a chunk [P] allows, what is buffered
    comes after it, and the byte counters are exact. *)
Record data_ok (P : Z → string → Prop) (n : Z) (dl : list string) (s : SessionState) : Prop := {
  do_next : next_expected_chunk s = Z.of_nat (length (dl ++ queue s));
  do_count : Z.of_nat (length (dl ++ queue s)) + Z.of_nat (size (buffered s)) ≤ n;
  do_out i d : (dl ++ queue s) !! i = Some d → P (Z.of_nat i) d;
  do_buffered i d : buffered s !! i = Some d → P i d ∧ next_expected_chunk s ≤ i;
  do_buffered_bytes : buffered_bytes s = map_bytes (buffered s);
  do_queued_bytes : queued_bytes s = queue_bytes (queue s);
  do_chunk_limit : Z.of_nat (size (buffered s)) + Z.of_nat (length (queue s)) ≤ Z.max 0 (max_buffered_chunks s);
  do_byte_limit : map_bytes (buffered s) + queue_bytes (queue s) ≤ max_buffered_bytes s;
  do_max_bytes : 0 ≤ max_buffered_bytes s ≤ i64_max;
}.

(** Two states with the same data plane. *)
Definition same_data (s s' : SessionState) : Prop :=
  (queue s', buffered s', buffered_bytes s', queued_bytes s', next_expected_chunk s',
   max_buffered_chunks s', max_buffered_bytes s') =
  (queue s, buffered s, buffered_bytes s, queued_bytes s, next_expected_chunk s,
   max_buffered_chunks s, max_buffered_bytes s).

Lemma data_ok_same P n dl s s' : same_data s s' → data_ok P n dl s → data_ok P n dl s'.
Proof.
  unfold same_data. intros E [????? ????]. simplify_eq.
  split; repeat match goal with H : _ s' = _ |- _ => rewrite H in * end; done.
Qed.

Lemma data_ok_mono P Q n m dl s :
  (∀ i d, P i d → Q i d) → n ≤ m → data_ok P n dl s → data_ok Q m dl s.
Proof.
  intros HPQ Hnm [????? ????]. split; try done; [lia|eauto|naive_solver].
Qed.

Lemma flush_loop_ok P n fuel s dl :
  data_ok P n dl s → n < u64_modulus → data_ok P n dl (Session.flush_loop fuel s).
Proof.
  intros Hok Hn. revert s Hok. induction fuel as [|fuel IH]; intros s Hok; cbn [Session.flush_loop]; [done|].
  destruct (buffered s !! next_expected_chunk s) as [d|] eqn:Ed; [|done].
  destruct Hok as [Hnext Hcount Hout Hbuf Hbb Hqb Hcl Hbl Hmb].
  pose proof (map_size_delete_Some _ _ (mk_is_Some _ _ Ed)) as Hsz.
  pose proof (map_bytes_delete _ _ _ Ed) as Hbd.
  pose proof (map_bytes_nonneg (delete (next_expected_chunk s) (buffered s))).
  pose proof (queue_bytes_nonneg (queue s)). pose proof (str_len_nonneg d).
  assert (size (buffered s) ≠ 0%nat) as Hsz0 by (intros Hz; apply map_size_empty_inv in Hz; by rewrite Hz in Ed).
  apply IH. split; cbn.
  - rewrite app_assoc, length_app, Hnext. cbn. rewrite u64_add_small; lia.
  - rewrite app_assoc, length_app, Hsz. cbn. lia.
  - intros i d'. rewrite app_assoc, lookup_app_Some. intros [?|[Hlen Hi]]; [by apply Hout|].
    destruct (i - length (dl ++ queue s))%nat eqn:Ei; cbn in Hi; [|done]. simplify_eq.
    replace (Z.of_nat i) with (next_expected_chunk s) by lia. by apply Hbuf.
  - intros i d' Hi. apply lookup_delete_Some in Hi as [Hne Hi]. apply Hbuf in Hi as [? ?].
    split; [done|]. rewrite u64_add_small; lia.
  - lia.
  - rewrite Hqb, queue_bytes_app. cbn. rewrite u64_add_small; unfold u64_modulus, i64_max in *; lia.
  - rewrite Hsz, length_app. cbn. lia.
  - rewrite Hbd, queue_bytes_app. cbn. lia.
  - done.
Qed.

(** After the loop with enough fuel the next chunk is missing. *)
Lemma flush_loop_done fuel s :
  (size (buffered s) <= fuel)%nat →
  buffered (Session.flush_loop fuel s) !! next_expected_chunk (Session.flush_loop fuel s) = None.
Proof.
  revert s. induction fuel as [|fuel IH]; intros s Hf; cbn [Session.flush_loop].
  { assert (buffered s = ∅) as -> by (apply map_size_empty_inv; lia). apply lookup_empty. }
  destruct (buffered s !! next_expected_chunk s) as [d|] eqn:Ed; [|done].
  apply IH. cbn. pose proof (map_size_delete_Some _ _ (mk_is_Some _ _ Ed)).
  assert (size (buffered s) ≠ 0%nat) by (intros Hz; apply map_size_empty_inv in Hz; by rewrite Hz in Ed). lia.
Qed.

(** ** Each method keeps the data plane consistent *)

Lemma finalize_same e s : same_data s (Session.finalize e s).
Proof. unfold Session.finalize. by destruct (active s). Qed.

Lemma maybe_finish_same s : same_data s (Session.maybe_finish_gracefully s).1.
Proof. unfold Session.maybe_finish_gracefully. repeat case_match; cbn; try done; apply finalize_same. Qed.

Lemma same_data_trans s1 s2 s3 : same_data s1 s2 → same_data s2 s3 → same_data s1 s3.
Proof. unfold same_data. congruence. Qed.

Lemma flush_ok P n s dl :
  data_ok P n dl s → n < u64_modulus → data_ok P n dl (Session.flush_contiguous_chunks s).1.
Proof.
  intros Hok Hn. unfold Session.flush_contiguous_chunks.
  pose proof (flush_loop_ok P n (size (buffered s)) s dl Hok Hn).
  case_match; [|done]. by eapply data_ok_same; [apply maybe_finish_same|].
Qed.

Lemma buffer_chunk_ok (P : Z → string → Prop) n i d s s' dl :
  Session.buffer_chunk i d s = Ok s' → P i d → str_len d ≤ i64_max →
  data_ok P n dl s → data_ok P (n + 1) dl s'.
Proof.
  intros E HP Hd [Hnext Hcount Hout Hbuf Hbb Hqb Hcl Hbl Hmb]. unfold Session.buffer_chunk in E.
  break E. b2p.
  assert (buffered s !! i = None) as Hi by (by apply eq_None_not_Some).
  pose proof (map_bytes_nonneg (buffered s)). pose proof (queue_bytes_nonneg (queue s)).
  pose proof (str_len_nonneg d). unfold i64_max in *.
  assert (u64_add (u64_add (buffered_bytes s) (queued_bytes s)) (str_len d) =
    map_bytes (buffered s) + queue_bytes (queue s) + str_len d) as Hsum.
  { rewrite Hbb, Hqb. rewrite (u64_add_small (map_bytes _)) by (unfold u64_modulus; lia).
    apply u64_add_small; unfold u64_modulus; lia. }
  rewrite Hsum in *. split; cbn; try done.
  - rewrite map_size_insert_None by done. lia.
  - intros j d' Hj. apply lookup_insert_Some in Hj as [[<- <-]|[_ Hj]]; [split; [done|lia]|by apply Hbuf].
  - rewrite map_bytes_insert by done. rewrite Hbb. rewrite u64_add_small; unfold u64_modulus; lia.
  - rewrite map_size_insert_None by done. lia.
  - rewrite map_bytes_insert by done. lia.
Qed.

Lemma set_life_same s a b c d e f w cw act : same_data s (Session.set_life s a b c d e f w cw act).
Proof. done. Qed.
Lemma set_keepalive_same s a b c d e : same_data s (Session.set_keepalive s a b c d e).
Proof. done. Qed.

(** The chunk a frame carries. *)
Definition frame_chunk (f : OpenStreamFrame) (i : Z) (d : string) : Prop := f = Chunk i d.

Lemma handle_frame_ok (P : Z → string → Prop) n now f s dl :
  (∀ i d, frame_chunk f i d → P i d ∧ str_len d ≤ i64_max) → n + 1 < u64_modulus →
  data_ok P n dl s → data_ok P (n + 1) dl (Session.handle_frame now f s).1.
Proof.
  intros HP Hn Hok. assert (data_ok P (n + 1) dl s) as Hok1 by (eapply data_ok_mono; [done| |done]; lia).
  destruct f as [ct| |i d|nonce|nonce|last|reason];
    [| | | | | |eapply data_ok_same; [apply finalize_same|exact Hok1]]; cbn; unfold Session.assert_started;
    try (destruct (started s); cbn); try done; try (by eapply data_ok_same; [|exact Hok1]).
  - destruct (Session.buffer_chunk i d s) as [s1|e] eqn:Eb; [|done].
    destruct (HP i d eq_refl) as [HPd Hd].
    pose proof (flush_ok P (n + 1) s1 dl (buffer_chunk_ok _ _ _ _ _ _ _ Eb HPd Hd Hok) Hn).
    destruct (Session.flush_contiguous_chunks s1) as [s2 [b|e]]; done.
  - destruct (_ <? _); exact Hok1.
  - unfold Session.handle_pong. case_match; [|done]. by eapply data_ok_same; [|done].
  - match goal with |- context [Session.flush_contiguous_chunks ?x] =>
      pose proof (flush_ok P (n + 1) x dl (data_ok_same _ _ _ s x (set_life_same _ _ _ _ _ _ _ _ _ _) Hok1) Hn) as Hf;
      destruct (Session.flush_contiguous_chunks x) as [s2 [b|e]] end; cbn in *; [|done].
    destruct b; [done|]. by eapply data_ok_same; [|exact Hf].
Qed.

(** One event of an execution. *)
Lemma session_step_ok (P : Z → string → Prop) n s dl ev :
  (∀ now p i d, ev = EvFrame now p (Chunk i d) → P i d) → event_ok ev = true → n + 1 < u64_modulus →
  data_ok P n dl s →
  data_ok P (n + 1) (dl ++ (session_step s ev).2) (session_step s ev).1.
Proof.
  intros HP Hev Hn Hok. assert (data_ok P (n + 1) dl s) as Hok1 by (eapply data_ok_mono; [done| |done]; lia).
  destruct ev as [now p f|now| | |e| |pub r]; cbn -[Session.handle_frame]; rewrite ?app_nil_r.
  - unfold Session.process_frame, Session.assert_active, Session.assert_progress.
    destruct (active s) eqn:Ea; [|exact Hok1]. cbn -[Session.handle_frame].
    destruct (p <=? last_progress s); [exact Hok1|]. cbn -[Session.handle_frame].
    apply handle_frame_ok; [|done|by eapply data_ok_same; [|exact Hok]].
    intros i d Hf. unfold frame_chunk in Hf. subst f. split; [exact (HP now p i d eq_refl)|]. cbn in Hev. b2p. done.
  - eapply data_ok_same; [|exact Hok1]. unfold Session.tick.
    destruct (negb (active s)); [done|]. destruct (Session.probe_expired now s); [apply finalize_same|].
    destruct (Session.grace_expired now s); [apply finalize_same|]. by destruct (Session.idle_expired now s).
  - unfold Session.poll_next. destruct (queue s) as [|item q] eqn:Eq.
    + destruct (active s); cbn; rewrite ?app_nil_r; [by eapply data_ok_same; [|exact Hok1]; rewrite <- Eq|].
      destruct (terminal s); cbn; rewrite app_nil_r; by eapply data_ok_same; [|exact Hok1].
    + cbn. destruct Hok1 as [Hnext Hcount Hout Hbuf Hbb Hqb Hcl Hbl Hmb]. rewrite Eq in *. cbn in *.
      pose proof (queue_bytes_nonneg q). pose proof (str_len_nonneg item).
      split; cbn; rewrite <- ?app_assoc; cbn; try done; lia.
  - eapply data_ok_same; [|exact Hok1]. unfold Session.poll_closed. by destruct (negb (active s)).
  - by eapply data_ok_same; [apply finalize_same|].
  - by eapply data_ok_same; [apply finalize_same|].
  - eapply data_ok_same; [|exact Hok1]. unfold Session.abort. destruct (negb (active s)); [done|].
    eapply same_data_trans; [apply (finalize_same (Some (Abort (progress_token s) r)))|]. by destruct pub.
Qed.

Lemma session_run_ok (P : Z → string → Prop) evs s n dl :
  (∀ i d, sent_chunk evs i d → P i d) → Forall (λ ev, event_ok ev = true) evs →
  n + Z.of_nat (length evs) < u64_modulus → data_ok P n dl s →
  data_ok P (n + Z.of_nat (length evs)) (dl ++ (session_run s evs).2) (session_run s evs).1.
Proof.
  revert s n dl. induction evs as [|ev evs IH]; intros s n dl HP Hev Hn Hok; cbn.
  { by rewrite app_nil_r, Z.add_0_r. }
  apply Forall_cons in Hev as [Hev Hevs]. cbn [length] in Hn.
  assert (data_ok P (n + 1) (dl ++ (session_step s ev).2) (session_step s ev).1) as Hstep.
  { apply session_step_ok; [|done|lia|done]. intros now p i d ->. apply HP. exists now, p. set_solver. }
  destruct (session_step s ev) as [s1 d1]. cbn in Hstep.
  specialize (IH s1 (n + 1) (dl ++ d1)). destruct (session_run s1 evs) as [s2 d2]. cbn in IH |- *.
  rewrite app_assoc. replace (n + Z.of_nat (S (length evs))) with (n + 1 + Z.of_nat (length evs)) by lia.
  apply IH; [|done|lia|done]. intros i d (now & p & Hin). apply HP. exists now, p. set_solver.
Qed.

Definition options_ok (o : OpenStreamSessionOptions) : bool :=
  (0 <=? opt_max_buffered_bytes o) && (opt_max_buffered_bytes o <=? i64_max).

Lemma new_data_ok P now o : options_ok o = true → data_ok P 0 [] (Session.new now o).
Proof.
  intros Ho. unfold options_ok in Ho. b2p.
  split; cbn; try done; rewrite ?map_size_empty; unfold map_bytes; rewrite ?map_fold_empty; cbn; try lia; done.
Qed.

(** ** Terminated streams and wake-ups *)

Lemma finalize_inactive e s : active s = false → Session.finalize e s = s.
Proof. unfold Session.finalize. by intros ->. Qed.

(** A parked consumer has nothing to read, and parked tasks wait on a live
    stream. *)
Definition wake_ok (s : SessionState) : Prop :=
  (waker s = true → queue s = [] ∧ active s = true) ∧ (closed_wakers s ≠ 0%nat → active s = true).

Lemma finalize_wake e s : wake_ok s → wake_ok (Session.finalize e s).
Proof. unfold wake_ok, Session.finalize. destruct (active s) eqn:E; cbn; [done|]. by rewrite E. Qed.

Lemma flush_loop_wake fuel s : wake_ok s → wake_ok (Session.flush_loop fuel s).
Proof.
  revert s. induction fuel as [|fuel IH]; intros s Hw; cbn; [done|].
  case_match; [|done]. apply IH. destruct Hw as [_ Hw]. by split.
Qed.

Lemma flush_wake s : wake_ok s → wake_ok (Session.flush_contiguous_chunks s).1.
Proof.
  intros Hw. unfold Session.flush_contiguous_chunks. apply (flush_loop_wake (size (buffered s))) in Hw.
  case_match; [|done]. unfold Session.maybe_finish_gracefully.
  case_match; [done|]. case_match; [case_match; [|done]|]; by apply finalize_wake.
Qed.

Lemma handle_frame_wake now f s : wake_ok s → wake_ok (Session.handle_frame now f s).1.
Proof.
  intros Hw. destruct f as [ct| |i d|nonce|nonce|last|reason];
    [| | | | | |by apply finalize_wake]; cbn; unfold Session.assert_started;
    try (destruct (started s); cbn); try exact Hw.
  - destruct (Session.buffer_chunk i d s) as [s1|e] eqn:Eb; [|done].
    assert (wake_ok s1) as Hw1 by (unfold Session.buffer_chunk in Eb; by break Eb).
    apply flush_wake in Hw1. by destruct (Session.flush_contiguous_chunks s1) as [s2 [b|e]].
  - destruct (_ <? _); exact Hw.
  - unfold Session.handle_pong. by case_match.
  - match goal with |- context [Session.flush_contiguous_chunks ?x] =>
      assert (wake_ok x) as Hw1 by done; apply flush_wake in Hw1;
      destruct (Session.flush_contiguous_chunks x) as [s2 [b|e]] end; cbn in *; [|done].
    by destruct b.
Qed.

Lemma session_step_wake s ev : wake_ok s → wake_ok (session_step s ev).1.
Proof.
  intros Hw. destruct ev as [now p f|now| | |e| |pub r]; cbn -[Session.handle_frame].
  - unfold Session.process_frame, Session.assert_active, Session.assert_progress.
    destruct (active s) eqn:Ea; [|exact Hw]. cbn -[Session.handle_frame].
    destruct (p <=? last_progress s); [exact Hw|]. apply handle_frame_wake.
    unfold wake_ok in *. cbn. by rewrite Ea in *.
  - unfold Session.tick. destruct (negb (active s)); [done|].
    destruct (Session.probe_expired now s); [by apply finalize_wake|].
    destruct (Session.grace_expired now s); [by apply finalize_wake|]. by destruct (Session.idle_expired now s).
  - unfold Session.poll_next, wake_ok in *. destruct Hw as [Hw1 Hw2]. destruct (queue s) as [|item q] eqn:Eq.
    + destruct (active s) eqn:Ea; cbn; rewrite ?Ea, ?Eq; naive_solver.
    + cbn. split; [|done]. intros Hwk. by destruct (Hw1 Hwk).
  - unfold Session.poll_closed. destruct (active s) eqn:Ea; [|done]. unfold wake_ok in *. cbn.
    rewrite Ea in *. naive_solver.
  - by apply finalize_wake.
  - by apply finalize_wake.
  - unfold Session.abort. destruct (negb (active s)); [done|].
    apply (finalize_wake (Some (Abort (progress_token s) r))) in Hw. by destruct pub.
Qed.

Lemma session_run_inv (I : SessionState → Prop) evs s :
  (∀ s ev, I s → I (session_step s ev).1) → I s → I (session_run s evs).1.
Proof.
  intros Hstep. revert s. induction evs as [|ev evs IH]; intros s Hs; cbn; [done|].
  specialize (Hstep s ev Hs). destruct (session_step s ev) as [s1 d1].
  specialize (IH s1 Hstep). by destruct (session_run s1 evs).
Qed.

(** *** Properties *)

(** (C16) Ordered delivery: whatever frames, ticks, polls and cancellations a
    stream sees, the payload delivered to its consumer and still queued for it is,
    item by item, the data sent with chunk index 0, 1, 2 and so on, without gaps,
    repetitions or reordering. *)
Theorem stream_delivers_in_order now o evs :
  options_ok o = true → Forall (λ ev, event_ok ev = true) evs →
  Z.of_nat (length evs) < u64_modulus →
  let '(s, dl) := session_run (Session.new now o) evs in
  ∀ i d, (dl ++ queue s) !! i = Some d → sent_chunk evs (Z.of_nat i) d.
Proof.
  intros Ho Hev Hn.
  pose proof (session_run_ok (sent_chunk evs) evs (Session.new now o) 0 [] (λ _ _ H, H) Hev Hn
    (new_data_ok _ now o Ho)) as Hok.
  destruct (session_run (Session.new now o) evs) as [s dl]. apply (do_out _ _ _ _ Hok).
Qed.

(** (C21) Bounded memory and no lost wake-up: under any input the chunks held
    (buffered out of order and queued) and their bytes stay within the limits of
    the options, the two byte counters are exact, and a parked consumer has
    nothing to read on a stream that is still live. *)
Theorem stream_memory_bounded now o evs :
  options_ok o = true → Forall (λ ev, event_ok ev = true) evs →
  Z.of_nat (length evs) < u64_modulus →
  let s := (session_run (Session.new now o) evs).1 in
  Z.of_nat (size (buffered s)) + Z.of_nat (length (queue s)) ≤ Z.max 0 (max_buffered_chunks s) ∧
  buffered_bytes s = map_bytes (buffered s) ∧ queued_bytes s = queue_bytes (queue s) ∧
  buffered_bytes s + queued_bytes s ≤ max_buffered_bytes s ∧
  (waker s = true → queue s = [] ∧ active s = true) ∧ (closed_wakers s ≠ 0%nat → active s = true).
Proof.
  intros Ho Hev Hn s.
  destruct (session_run_ok (sent_chunk evs) evs (Session.new now o) 0 [] (λ _ _ H, H) Hev Hn
    (new_data_ok _ now o Ho)) as [_ _ _ _ Hbb Hqb Hcl Hbl _]. fold s in Hbb, Hqb, Hcl, Hbl.
  split_and!; [done|done|done|by rewrite Hbb, Hqb|..];
    apply (session_run_inv wake_ok evs (Session.new now o)); (apply session_step_wake || done).
Qed.

(** ** Completeness *)

(** The control fields the data plane does not touch. *)
Definition same_control (s s' : SessionState) : Prop :=
  (progress_token s', last_progress s', started s', active s', closed_remotely s',
   expected_last_chunk_index s', terminal s', max_buffered_chunks s', max_buffered_bytes s') =
  (progress_token s, last_progress s, started s, active s, closed_remotely s,
   expected_last_chunk_index s, terminal s, max_buffered_chunks s, max_buffered_bytes s).

(** The loop moves chunks from the buffer to the queue and loses none. *)
Lemma flush_loop_conserves P n fuel s dl :
  data_ok P n dl s → n < u64_modulus →
  let s' := Session.flush_loop fuel s in
  same_control s s' ∧
  (size (buffered s') + length (queue s') = size (buffered s) + length (queue s))%nat ∧
  map_bytes (buffered s') + queue_bytes (queue s') = map_bytes (buffered s) + queue_bytes (queue s) ∧
  (∀ i, i < next_expected_chunk s ∨ is_Some (buffered s !! i) →
        i < next_expected_chunk s' ∨ is_Some (buffered s' !! i)).
Proof.
  intros Hok Hn. revert s Hok. induction fuel as [|fuel IH]; intros s Hok; cbn [Session.flush_loop]; [done|].
  destruct (buffered s !! next_expected_chunk s) as [d|] eqn:Ed; [|done].
  pose proof (flush_loop_ok P n 1 s dl Hok Hn) as Hok1. cbn [Session.flush_loop] in Hok1. rewrite Ed in Hok1.
  apply IH in Hok1 as (Hc & Hs & Hb & Hcov). cbv zeta.
  set (s' := Session.flush_loop fuel (Session.flush_one d s)) in *. cbn in Hs, Hb, Hcov.
  pose proof (map_size_delete_Some _ _ (mk_is_Some _ _ Ed)) as Hsz.
  assert (size (buffered s) ≠ 0%nat) by (intros Hz; apply map_size_empty_inv in Hz; by rewrite Hz in Ed).
  split_and!; [exact Hc| | |].
  - rewrite Hs, Hsz, length_app. cbn. lia.
  - rewrite Hb, (map_bytes_delete _ _ _ Ed), queue_bytes_app. cbn. lia.
  - intros i Hi. apply Hcov. destruct Hok as [Hnext Hcount _ _ _ _ _ _ _].
    rewrite u64_add_small by lia. destruct (decide (i = next_expected_chunk s)) as [->|Hne]; [left; lia|].
    destruct Hi as [Hi|Hi]; [left; lia|right]. by rewrite lookup_delete_ne.
Qed.

(** The state of a stream that has accepted exactly the chunks [acc]. *)
Record accepted (acc : list (Z * string)) (s : SessionState) : Prop := {
  ac_data : data_ok (λ i d, (i, d) ∈ acc) (Z.of_nat (length acc)) [] s;
  ac_cover i d : (i, d) ∈ acc → i < next_expected_chunk s ∨ is_Some (buffered s !! i);
  ac_mex : buffered s !! next_expected_chunk s = None;
  ac_size : (size (buffered s) + length (queue s) = length acc)%nat;
  ac_bytes : map_bytes (buffered s) + queue_bytes (queue s) = queue_bytes acc.*2;
  ac_live : started s = true ∧ active s = true ∧ closed_remotely s = false;
}.

Lemma accept_chunk_frame now p i d acc s :
  accepted acc s → i ∉ acc.*1 → 0 ≤ i → last_progress s < p →
  Z.of_nat (length acc) + 1 < u64_modulus →
  Z.of_nat (length acc) < max_buffered_chunks s → str_len d ≤ i64_max →
  queue_bytes acc.*2 + str_len d ≤ max_buffered_bytes s →
  let '(s', r) := Session.process_frame now p (Chunk i d) s in
  r = Ok OutcomeNone ∧ accepted (acc ++ [(i, d)]) s' ∧ last_progress s' = p ∧
  progress_token s' = progress_token s ∧
  max_buffered_chunks s' = max_buffered_chunks s ∧ max_buffered_bytes s' = max_buffered_bytes s.
Proof.
  intros [Hdata Hcov Hmex Hsize Hbytes (Hst & Ha & Hcl)] Hnin Hi Hp Hn Hroom Hd Hb.
  unfold Session.process_frame, Session.assert_active, Session.assert_progress. rewrite Ha.
  cbn -[Session.handle_frame]. rewrite (proj2 (Z.leb_gt _ _) Hp). cbn.
  unfold Session.assert_started. cbn. rewrite Hst.
  set (s0 := Session.set_life s p _ _ _ _ _ _ _ _).
  pose proof (data_ok_same _ _ _ s s0 eq_refl Hdata) as Hdata0.
  destruct Hdata as [Hnext Hcount Hout Hbuf Hbb Hqb Hchl Hbl Hmb].
  assert (next_expected_chunk s ≤ i) as Hge.
  { destruct (Z.lt_ge_cases i (next_expected_chunk s)) as [Hlt|]; [|lia]. exfalso. apply Hnin.
    destruct (lookup_lt_is_Some_2 (queue s) (Z.to_nat i)) as [d' Hd'].
    { rewrite Hnext in Hlt. cbn in Hlt. lia. }
    apply (Hout (Z.to_nat i) d') in Hd'. rewrite Z2Nat.id in Hd' by lia.
    apply list_elem_of_fmap. by exists (i, d'). }
  assert (buffered s !! i = None) as Hbi.
  { destruct (buffered s !! i) as [d'|] eqn:E; [|done]. exfalso. apply Hnin.
    apply Hbuf in E as [Hin _]. apply list_elem_of_fmap. by exists (i, d'). }
  assert (∃ s1, Session.buffer_chunk i d s0 = Ok s1 ∧ same_control s0 s1 ∧ queue s1 = queue s ∧
    buffered s1 = <[i:=d]> (buffered s) ∧ next_expected_chunk s1 = next_expected_chunk s) as (s1 & Eb & Hc1 & Hq1 & Hb1 & Hn1).
  { unfold Session.buffer_chunk. cbn. rewrite (proj2 (Z.ltb_ge _ _)) by lia.
    rewrite bool_decide_eq_false_2 by (by rewrite Hbi; intros [? [=]]).
    rewrite (proj2 (Z.leb_gt _ _)) by lia. rewrite (proj2 (Z.ltb_ge _ _)); [by eexists|].
    pose proof (map_bytes_nonneg (buffered s)). pose proof (queue_bytes_nonneg (queue s)).
    pose proof (str_len_nonneg d). unfold i64_max in *.
    rewrite Hbb, Hqb. rewrite (u64_add_small (map_bytes _)) by (unfold u64_modulus; lia).
    rewrite u64_add_small by (unfold u64_modulus; lia). lia. }
  rewrite Eb.
  assert (data_ok (λ i0 d0, (i0, d0) ∈ acc ++ [(i, d)]) (Z.of_nat (length acc) + 1) [] s1) as Hd1.
  { eapply buffer_chunk_ok; [exact Eb|set_solver|done|]. eapply data_ok_mono; [|reflexivity|exact Hdata0]. set_solver. }
  unfold Session.flush_contiguous_chunks.
  pose proof (flush_loop_ok _ _ (size (buffered s1)) s1 [] Hd1 Hn) as Hd2.
  pose proof (flush_loop_conserves _ _ (size (buffered s1)) s1 [] Hd1 Hn) as (Hc2 & Hsz2 & Hb2 & Hcov2).
  pose proof (flush_loop_done (size (buffered s1)) s1 ltac:(done)) as Hmex2.
  set (s2 := Session.flush_loop (size (buffered s1)) s1) in *.
  unfold same_control in Hc1, Hc2. cbn in Hc1. simplify_eq.
  replace (closed_remotely s2) with false by congruence. cbn.
  split_and!; [done| |congruence..].
  split.
  - rewrite length_app. cbn. by replace (Z.of_nat (length acc + 1)) with (Z.of_nat (length acc) + 1) by lia.
  - intros i' d' Hin. apply Hcov2. rewrite Hb1, Hn1. apply elem_of_app in Hin as [Hin|Hin].
    + destruct (Hcov i' d' Hin) as [?|Hs]; [by left|right]. apply lookup_insert_is_Some'. by right.
    + right. apply lookup_insert_is_Some'. left. set_solver.
  - done.
  - rewrite Hsz2, Hb1, Hq1, map_size_insert_None, length_app by done. cbn. lia.
  - rewrite Hb2, Hb1, Hq1, map_bytes_insert, fmap_app, queue_bytes_app by done. cbn. lia.
  - split_and!; congruence.
Qed.

(** The frames fed to a session in order, with their outcomes. *)
Fixpoint feed_frames (s : SessionState) (fs : list (Z * Z * OpenStreamFrame))
  : SessionState * list (result FrameOutcome OpenStreamError) :=
  match fs with
  | [] => (s, [])
  | (now, p, f) :: fs' =>
      let '(s1, r) := Session.process_frame now p f s in
      let '(s2, rs) := feed_frames s1 fs' in (s2, r :: rs)
  end.

(** Chunk frames [(now, progress, (index, data))]. *)
Definition chunk_frames (cs : list (Z * Z * (Z * string))) : list (Z * Z * OpenStreamFrame) :=
  map (λ c, (c.1, Chunk c.2.1 c.2.2)) cs.

Lemma feed_chunks cs acc s :
  accepted acc s → NoDup (acc ++ cs.*2).*1 → Forall (λ c, 0 ≤ c.2.1) cs →
  StronglySorted Z.lt (last_progress s :: cs.*1.*2) →
  Z.of_nat (length (acc ++ cs.*2)) < u64_modulus →
  Z.of_nat (length (acc ++ cs.*2)) ≤ max_buffered_chunks s →
  queue_bytes (acc ++ cs.*2).*2 ≤ max_buffered_bytes s → max_buffered_bytes s ≤ i64_max →
  let '(s', rs) := feed_frames s (chunk_frames cs) in
  Forall (λ r, r = Ok OutcomeNone) rs ∧ accepted (acc ++ cs.*2) s' ∧
  last_progress s' ∈ last_progress s :: cs.*1.*2 ∧ progress_token s' = progress_token s.
Proof.
  revert acc s. induction cs as [|[[now p] [i d]] cs IH]; intros acc s Hacc Hnd Hpos Hsort Hn Hroom Hb Hmax; cbn.
  { rewrite app_nil_r. split_and!; [done|done|set_solver|done]. }
  apply Forall_cons in Hpos as [Hi Hpos]. cbn in Hi, Hsort. apply StronglySorted_inv in Hsort as [Hsort Hlt].
  apply Forall_cons in Hlt as [Hp Hlt].
  assert (acc ++ ((now, p, (i, d)) :: cs).*2 = (acc ++ [(i, d)]) ++ cs.*2) as Happ by (cbn; by rewrite <- app_assoc).
  rewrite Happ in *. rewrite !fmap_app in Hnd. rewrite !fmap_app in Hb. rewrite !length_app in Hn, Hroom. cbn in Hn, Hroom.
  rewrite !queue_bytes_app in Hb. cbn in Hb. pose proof (queue_bytes_nonneg cs.*2.*2).
  pose proof (queue_bytes_nonneg acc.*2).
  apply NoDup_app in Hnd as (Hnd1 & Hnd2 & Hnd3). apply NoDup_app in Hnd1 as (Hnd1 & Hni & _).
  pose proof (accept_chunk_frame now p i d acc s Hacc) as Hstep.
  destruct (Session.process_frame now p (Chunk i d) s) as [s1 r].
  destruct Hstep as (-> & Hacc1 & Hlp & Htk & Hmc & Hmb); [set_solver|done|done|lia..|].
  specialize (IH (acc ++ [(i, d)]) s1 Hacc1). fold (chunk_frames cs).
  destruct (feed_frames s1 (chunk_frames cs)) as [s2 rs].
  destruct IH as (Hrs & Hacc2 & Hle & Htk2).
  - rewrite !fmap_app. apply NoDup_app. split_and!; [|done|done]. apply NoDup_app. split_and!; [done|done|].
    apply NoDup_singleton.
  - done.
  - rewrite Hlp. done.
  - rewrite !length_app. cbn. lia.
  - rewrite Hmc, !length_app. cbn. lia.
  - rewrite Hmb, !fmap_app, !queue_bytes_app. cbn. lia.
  - by rewrite Hmb.
  - rewrite <- app_assoc in Hacc2. split_and!; [by constructor|done| |congruence].
    rewrite Hlp in Hle. set_solver.
Qed.

(** Accepting the chunks [0 .. n-1] in any order emits them all in order. *)
Lemma accepted_all acc s n :
  accepted acc s → acc.*1 ≡ₚ seqZ 0 n → 0 ≤ n →
  next_expected_chunk s = n ∧ buffered s = ∅ ∧ length (queue s) = Z.to_nat n ∧
  ∀ i d, (i, d) ∈ acc → queue s !! Z.to_nat i = Some d.
Proof.
  intros [Hdata Hcov Hmex Hsize Hbytes _] Hperm Hn.
  destruct Hdata as [Hnext Hcount Hout Hbuf _ _ _ _ _]. cbn in Hnext.
  assert (length acc = Z.to_nat n) as Hlen.
  { rewrite <- (length_fmap fst), Hperm. apply length_seqZ. }
  assert (∀ i, 0 ≤ i < n → ∃ d, (i, d) ∈ acc) as Hall.
  { intros i Hi. assert (i ∈ acc.*1) as Hin by (rewrite Hperm; apply elem_of_seqZ; lia).
    apply list_elem_of_fmap in Hin as ([i' d] & -> & Hin). eauto. }
  assert (n ≤ next_expected_chunk s) as Hge.
  { destruct (Z.lt_ge_cases (next_expected_chunk s) n) as [Hlt|]; [|lia].
    destruct (Hall (next_expected_chunk s)) as [d Hd]; [lia|].
    apply Hcov in Hd as [?|[x Hx]]; [lia|congruence]. }
  assert (size (buffered s) = 0%nat) as Hz by lia. apply map_size_empty_inv in Hz.
  split_and!; [lia|done|lia|]. intros i d Hin.
  assert (0 ≤ i < n) as Hi.
  { assert (i ∈ seqZ 0 n) as Hs by (rewrite <- Hperm; apply list_elem_of_fmap; by exists (i, d)).
    apply elem_of_seqZ in Hs. lia. }
  destruct (lookup_lt_is_Some_2 (queue s) (Z.to_nat i)) as [d' Hd']; [lia|]. rewrite Hd'. f_equal.
  apply (Hout (Z.to_nat i) d') in Hd'. rewrite Z2Nat.id in Hd' by lia.
  assert (NoDup acc.*1) as Hnd by (rewrite Hperm; apply NoDup_seqZ).
  apply list_elem_of_lookup in Hin as [a Ha], Hd' as [b Hb].
  assert (a = b) as <-; [|congruence]. eapply NoDup_lookup; [exact Hnd|rewrite list_lookup_fmap, Ha; done|].
  by rewrite list_lookup_fmap, Hb.
Qed.

(** A session that has seen its [start] frame only. *)
Lemma started_accepted now o t0 p0 ct :
  options_ok o = true → -1 < p0 →
  let '(s, r) := Session.process_frame t0 p0 (Start ct) (Session.new now o) in
  r = Ok OutcomeNone ∧ accepted [] s ∧ last_progress s = p0 ∧
  max_buffered_chunks s = opt_max_buffered_chunks o ∧ max_buffered_bytes s = opt_max_buffered_bytes o.
Proof.
  intros Ho Hp. unfold Session.process_frame, Session.assert_active, Session.assert_progress.
  cbn -[Session.handle_frame]. rewrite (proj2 (Z.leb_gt _ _)) by done. cbn. split_and!; try done.
  split; try done.
  - eapply data_ok_same; [|by apply (new_data_ok _ now o)]. done.
  - by intros i d Hin%elem_of_nil.
Qed.

(** A stream without gaps ends gracefully at its [close]. *)
Lemma close_contiguous now p s n :
  started s = true → active s = true → buffered s = ∅ → next_expected_chunk s = n →
  0 ≤ n < u64_modulus → last_progress s < p →
  let '(s', r) := Session.process_frame now p (Close (if n =? 0 then None else Some (n - 1))) s in
  r = Ok Closed ∧ active s' = false ∧ terminal s' = None ∧ queue s' = queue s.
Proof.
  intros Hst Ha Hbuf Hnext Hn Hp.
  unfold Session.process_frame, Session.assert_active, Session.assert_progress. rewrite Ha.
  cbn -[Session.handle_frame]. rewrite (proj2 (Z.leb_gt _ _)) by done. cbn.
  unfold Session.assert_started. cbn. rewrite Hst. unfold Session.flush_contiguous_chunks. cbn.
  rewrite Hbuf, map_size_empty. cbn. unfold Session.maybe_finish_gracefully. cbn.
  rewrite Hbuf, bool_decide_eq_true_2 by done. cbn. unfold Session.finalize. cbn.
  destruct (Z.eqb_spec n 0) as [->|Hn0]; cbn; [done|].
  rewrite Hnext, u64_add_small, (proj2 (Z.eqb_eq _ _)) by lia. done.
Qed.

(** The stream of a complete set of chunks ends gracefully at its [close]. *)
Lemma close_complete now p acc s n :
  accepted acc s → acc.*1 ≡ₚ seqZ 0 n → 0 ≤ n < u64_modulus → last_progress s < p →
  let '(s', r) := Session.process_frame now p (Close (if n =? 0 then None else Some (n - 1))) s in
  r = Ok Closed ∧ active s' = false ∧ terminal s' = None ∧ queue s' = queue s.
Proof.
  intros Hacc Hperm Hn Hp. destruct (accepted_all acc s n Hacc Hperm) as (Hnext & Hbuf & _ & _); [lia|].
  destruct Hacc as [_ _ _ _ _ (Hst & Ha & Hcl)]. by apply close_contiguous.
Qed.

(** Complete reassembly: after [start], the chunk frames with indexes 0 to
    n-1, in any order but with increasing progress and within the limits, are all
    accepted, the queue then holds the n payloads in index order, and a [close]
    that declares the last index ends the stream gracefully. *)
Theorem stream_any_order_complete now o t0 p0 ct cs n t p :
  options_ok o = true → -1 < p0 → 0 ≤ n < u64_modulus → cs.*2.*1 ≡ₚ seqZ 0 n →
  StronglySorted Z.lt (p0 :: cs.*1.*2) → Forall (λ p', p' < p) (p0 :: cs.*1.*2) →
  n ≤ opt_max_buffered_chunks o → queue_bytes cs.*2.*2 ≤ opt_max_buffered_bytes o →
  let s1 := (Session.process_frame t0 p0 (Start ct) (Session.new now o)).1 in
  let '(s2, rs) := feed_frames s1 (chunk_frames cs) in
  let '(s3, r) := Session.process_frame t p (Close (if n =? 0 then None else Some (n - 1))) s2 in
  Forall (λ r, r = Ok OutcomeNone) rs ∧ length (queue s2) = Z.to_nat n ∧
  (∀ i d, (i, d) ∈ cs.*2 → queue s2 !! Z.to_nat i = Some d) ∧
  r = Ok Closed ∧ active s3 = false ∧ terminal s3 = None ∧ queue s3 = queue s2.
Proof.
  intros Ho Hp0 Hn Hperm Hsort Hlt Hroom Hb.
  pose proof (started_accepted now o t0 p0 ct Ho Hp0) as Hst.
  destruct (Session.process_frame t0 p0 (Start ct) (Session.new now o)) as [s1 r1]. cbn [fst].
  destruct Hst as (_ & Hacc & Hlp & Hmc & Hmb). unfold options_ok in Ho. b2p.
  assert (length cs.*2 = Z.to_nat n) as Hlen.
  { rewrite <- (length_fmap fst), Hperm. apply length_seqZ. }
  opose proof* (feed_chunks cs [] s1 Hacc) as Hfeed.
  - cbn. rewrite Hperm. apply NoDup_seqZ.
  - apply Forall_forall. intros c Hc. assert (c.2.1 ∈ seqZ 0 n) as Hi%elem_of_seqZ; [|lia].
    rewrite <- Hperm. by apply list_elem_of_fmap_2, list_elem_of_fmap_2.
  - by rewrite Hlp.
  - cbn. lia.
  - cbn. lia.
  - cbn. lia.
  - lia.
  - destruct (feed_frames s1 (chunk_frames cs)) as [s2 rs]. destruct Hfeed as (Hrs & Hacc2 & Hle & _).
    cbn in Hacc2. pose proof (close_complete t p cs.*2 s2 n Hacc2 Hperm Hn) as Hclose.
    destruct (Session.process_frame t p _ s2) as [s3 r].
    destruct (accepted_all cs.*2 s2 n Hacc2 Hperm) as (_ & _ & Hq & Hall); [lia|].
    destruct Hclose as (Hr & Ha & Ht & Hqq); [|by split_and!].
    rewrite Hlp in Hle. rewrite Forall_forall in Hlt. by apply Hlt.
Qed.

(** ** Terminal states *)

Lemma maybe_finish_true s s' :
  Session.maybe_finish_gracefully s = (s', Ok true) → active s = true →
  active s' = false ∧ buffered s' = ∅ ∧ queue s' = queue s ∧
  ∀ last, expected_last_chunk_index s' = Some last → next_expected_chunk s' = u64_add last 1.
Proof.
  unfold Session.maybe_finish_gracefully, Session.finalize. intros E Ha. rewrite Ha in E.
  destruct (negb (closed_remotely s) || _) eqn:Eb; [done|]. b2p.
  destruct (expected_last_chunk_index s) as [e|] eqn:Ee.
  - destruct (_ =? _) eqn:En; [|done]. b2p. injection E as <-. cbn. split_and!; [done..|].
    by intros last [= <-].
  - injection E as <-. cbn. split_and!; done.
Qed.

Lemma flush_loop_active fuel s : active (Session.flush_loop fuel s) = active s.
Proof. revert s. induction fuel as [|fuel IH]; intros s; cbn; [done|]. case_match; [by rewrite IH|done]. Qed.

Lemma process_frame_closed now p f s s' :
  Session.process_frame now p f s = (s', Ok Closed) →
  active s' = false ∧ buffered s' = ∅ ∧
  ∀ last, expected_last_chunk_index s' = Some last → next_expected_chunk s' = u64_add last 1.
Proof.
  assert (∀ x y, active x = true → Session.flush_contiguous_chunks x = (y, Ok true) →
    active y = false ∧ buffered y = ∅ ∧
    ∀ last, expected_last_chunk_index y = Some last → next_expected_chunk y = u64_add last 1) as Hflush.
  { intros x y Hx. unfold Session.flush_contiguous_chunks. case_match; [|done]. intros Hy.
    apply maybe_finish_true in Hy as (? & ? & _ & ?); [done|]. by rewrite flush_loop_active. }
  unfold Session.process_frame, Session.assert_active, Session.assert_progress.
  destruct (active s) eqn:Ea; [|done]. destruct (_ <=? _); [done|]. cbn -[Session.handle_frame].
  destruct f as [ct| |i d|nonce|nonce|last|reason]; cbn; unfold Session.assert_started; cbn;
    try (destruct (started s); cbn); try done.
  - destruct (Session.buffer_chunk i d _) as [s1|e] eqn:Eb; [|done].
    assert (active s1 = true) as Ha1 by (unfold Session.buffer_chunk in Eb; by break Eb).
    destruct (Session.flush_contiguous_chunks s1) as [s2 [[]|e]] eqn:Ef; [|done..].
    intros [= <-]. by apply (Hflush s1).
  - by destruct (_ <? _).
  - match goal with |- context [Session.flush_contiguous_chunks ?x] =>
      destruct (Session.flush_contiguous_chunks x) as [s2 [[]|e]] eqn:Ef; [|done..];
      intros [= <-]; by apply (Hflush x) end.
Qed.

(** A graceful end is a complete stream: whenever a frame ends a stream with
    the outcome [Closed], after any execution, nothing is left in the reorder
    buffer and the payload delivered or queued has exactly the declared
    [lastChunkIndex] + 1 items. *)
Theorem graceful_close_is_complete now o evs t p f s' last :
  options_ok o = true → Forall (λ ev, event_ok ev = true) (evs ++ [EvFrame t p f]) →
  Z.of_nat (length evs) + 1 < u64_modulus →
  let '(s, dl) := session_run (Session.new now o) evs in
  Session.process_frame t p f s = (s', Ok Closed) →
  expected_last_chunk_index s' = Some last → last < u64_max → 0 ≤ last →
  active s' = false ∧ buffered s' = ∅ ∧ Z.of_nat (length (dl ++ queue s')) = last + 1.
Proof.
  intros Ho Hev Hn. apply Forall_app in Hev as [Hev Hf].
  pose proof (session_run_ok (λ _ _, True) evs (Session.new now o) 0 [] ltac:(done) Hev ltac:(lia)
    (new_data_ok _ now o Ho)) as Hok.
  destruct (session_run (Session.new now o) evs) as [s dl]. cbn in Hok. intros Hp Hl Hlt Hpos.
  pose proof (session_step_ok (λ _ _, True) _ s dl (EvFrame t p f) ltac:(done)
    ltac:(by apply Forall_cons in Hf as [? _]) Hn Hok) as Hok'.
  cbn [session_step fst snd] in Hok'. rewrite Hp, app_nil_r in Hok'. cbn in Hok'.
  apply process_frame_closed in Hp as (Ha & Hb & Hexp). split_and!; [done|done|].
  rewrite <- (do_next _ _ _ _ Hok'), (Hexp last Hl).
  apply u64_add_small; unfold u64_max in *; lia.
Qed.

(** The results of [k] polls in a row. *)
Fixpoint polls (k : nat) (s : SessionState) : list (option (option (result string OpenStreamError))) :=
  match k with
  | O => []
  | S k' => let '(s', r) := Session.poll_next s in r :: polls k' s'
  end.

Lemma polls_end k s :
  queue s = [] → active s = false → terminal s = None → polls k s = replicate k (Some None).
Proof.
  revert s. induction k as [|k IH]; intros s H1 H2 H3; cbn; [done|].
  unfold Session.poll_next. rewrite H1, H2, H3. cbn. f_equal. by apply IH.
Qed.

Lemma polls_drain k s :
  active s = false →
  polls (length (queue s) + 1 + k) s =
    map (λ d, Some (Some (Ok d))) (queue s) ++ Some (Err <$> terminal s) :: replicate k (Some None).
Proof.
  remember (queue s) as q eqn:Hq. revert s Hq. induction q as [|d q IH]; intros s Hq Ha; cbn.
  - unfold Session.poll_next at 1. rewrite <- Hq, Ha. cbn. f_equal. by apply polls_end.
  - unfold Session.poll_next at 1. rewrite <- Hq. cbn. f_equal.
    match goal with |- polls _ ?x = _ => exact (IH x eq_refl Ha) end.
Qed.

(** *** A stream read while it arrives *)

(** [k] polls in a row: the state they leave and their results. *)
Fixpoint poll_times (k : nat) (s : SessionState)
  : SessionState * list (option (option (result string OpenStreamError))) :=
  match k with
  | O => (s, [])
  | S k' =>
      let '(s1, r) := Session.poll_next s in
      let '(s2, rs) := poll_times k' s1 in (s2, r :: rs)
  end.

(** The payloads among the results. *)
Definition payloads (q : list string) : list (option (result string OpenStreamError)) := map (λ d, Some (Ok d)) q.

(** A stream whose chunks arrived in order up to [n], the last frame with progress
    [p]: nothing is buffered out of order and the byte counters are exact. *)
Record in_sync (p n : Z) (s : SessionState) : Prop := {
  is_buffered : buffered s = ∅;
  is_bytes : buffered_bytes s = 0 ∧ queued_bytes s = queue_bytes (queue s);
  is_next : next_expected_chunk s = n;
  is_progress_at : last_progress s = p;
  is_live : started s = true ∧ active s = true ∧ closed_remotely s = false;
}.

Lemma in_sync_chunk now p p' n d s :
  in_sync p n s → p < p' → 0 ≤ n → n + 1 < u64_modulus → max_buffered_bytes s ≤ i64_max →
  Z.of_nat (length (queue s)) < max_buffered_chunks s → queue_bytes (queue s ++ [d]) ≤ max_buffered_bytes s →
  ∃ s', Session.process_frame now p' (Chunk n d) s = (s', Ok OutcomeNone) ∧ in_sync p' (n + 1) s' ∧
    queue s' = queue s ++ [d] ∧ max_buffered_chunks s' = max_buffered_chunks s ∧
    max_buffered_bytes s' = max_buffered_bytes s.
Proof.
  intros [Hbuf [Hbb Hqb] Hnext Hlp (Hst & Ha & Hcl)] Hp Hn Hn' Hmax Hroom Hb. rewrite queue_bytes_app in Hb. cbn in Hb.
  pose proof (queue_bytes_nonneg (queue s)). pose proof (str_len_nonneg d). unfold i64_max in *.
  assert (queue_bytes (queue s) + str_len d < u64_modulus) as Hsmall by (unfold u64_modulus; lia).
  unfold Session.process_frame, Session.assert_active, Session.assert_progress. rewrite Ha.
  cbn -[Session.handle_frame]. rewrite Hlp, (proj2 (Z.leb_gt _ _)) by done. cbn.
  unfold Session.assert_started. cbn. rewrite Hst. unfold Session.buffer_chunk. cbn.
  rewrite Hnext, Hbuf, Hbb, Hqb, Z.ltb_irrefl, lookup_empty, map_size_empty. cbn.
  rewrite (proj2 (Z.leb_gt _ _)) by lia.
  rewrite !u64_add_small by (rewrite ?u64_add_small; lia). cbn. rewrite (proj2 (Z.ltb_ge _ _)) by lia.
  unfold Session.flush_contiguous_chunks. cbn. rewrite insert_empty, map_size_singleton. cbn.
  rewrite lookup_singleton_eq. cbn. rewrite Hcl. eexists. split; [reflexivity|].
  cbn. split_and!; try done. split; cbn.
  - by rewrite delete_singleton_eq.
  - rewrite queue_bytes_app, u64_add_small by lia. cbn. split; lia.
  - apply u64_add_small; lia.
  - done.
  - done.
Qed.

Lemma in_sync_polls k p n s :
  in_sync p n s →
  let '(s', got) := poll_times k s in
  in_sync p n s' ∧ queue s' = drop k (queue s) ∧ omap id got = payloads (take k (queue s)) ∧
  max_buffered_chunks s' = max_buffered_chunks s ∧ max_buffered_bytes s' = max_buffered_bytes s.
Proof.
  revert s. induction k as [|k IH]; intros s Hs; cbn; [done|].
  assert (∃ s1 r, Session.poll_next s = (s1, r) ∧ in_sync p n s1 ∧ queue s1 = drop 1 (queue s) ∧
    r = (λ d, Some (Ok d)) <$> head (queue s) ∧
    max_buffered_chunks s1 = max_buffered_chunks s ∧ max_buffered_bytes s1 = max_buffered_bytes s)
    as (s1 & r & -> & Hs1 & Hq & -> & Hmc & Hmb).
  { destruct Hs as [Hbuf [Hbb Hqb] Hnext Hlp (Hst & Ha & Hcl)]. unfold Session.poll_next.
    destruct (queue s) as [|d q] eqn:Eq.
    - rewrite Ha. cbn. do 2 eexists. split; [reflexivity|]. cbn. split_and!; [split; cbn; rewrite ?Eq; done|done..].
    - do 2 eexists. split; [reflexivity|]. cbn. split_and!; try done. split; cbn; try done.
      rewrite Hqb. cbn. pose proof (queue_bytes_nonneg q). split; [done|]. lia. }
  specialize (IH s1 Hs1). destruct (poll_times k s1) as [s2 got]. destruct IH as (H1 & H2 & H3 & H4 & H5).
  split_and!; [done| | |congruence..].
  - rewrite H2, Hq, drop_drop. done.
  - destruct (queue s) as [|d q]; cbn in *; rewrite H3, Hq; [by rewrite take_nil|done].
Qed.

(** The polls of a stream that has ended. *)
Lemma ended_polls k s :
  active s = false → terminal s = None →
  let '(s', got) := poll_times k s in
  active s' = false ∧ terminal s' = None ∧ queue s' = drop k (queue s) ∧
  omap id got = payloads (take k (queue s)) ++ replicate (k - length (queue s)) None.
Proof.
  revert s. induction k as [|k IH]; intros s Ha Ht; cbn; [done|].
  unfold Session.poll_next. destruct (queue s) as [|d q] eqn:Eq.
  - rewrite Ha. cbn. rewrite Ht. match goal with |- context [poll_times k ?x] => specialize (IH x); destruct (poll_times k x) as [s2 got] end.
    destruct IH as (H1 & H2 & H3 & H4); [done|done|]. cbn in H3, H4. rewrite Eq in *. split_and!; [done|done| |].
    + by rewrite H3, drop_nil.
    + cbn. rewrite H4, take_nil. cbn. by rewrite Nat.sub_0_r.
  - match goal with |- context [poll_times k ?x] => specialize (IH x); destruct (poll_times k x) as [s2 got] end.
    destruct IH as (H1 & H2 & H3 & H4); [done|done|]. cbn in H3, H4. split_and!; [done|done|done|].
    cbn. by rewrite H4.
Qed.

(** A terminated stream drains and then reports once: it refuses every frame
    without changing, no tick touches it, and its consumer gets the queued
    payload, then the terminal error exactly once if there is one, and the end of
    the stream from then on. *)
Theorem terminated_stream_drains s now p f k :
  active s = false →
  Session.process_frame now p f s =
    (s, Err (Sequence ("Received frame for inactive stream " +:+ progress_token s))) ∧
  Session.tick now s = (s, ActionNone) ∧
  polls (length (queue s) + 1 + k) s =
    map (λ d, Some (Some (Ok d))) (queue s) ++ Some (Err <$> terminal s) :: replicate k (Some None).
Proof.
  intros Ha. split_and!; [| |by apply polls_drain].
  - unfold Session.process_frame, Session.assert_active. by rewrite Ha.
  - unfold Session.tick. by rewrite Ha.
Qed.

(** ** Keepalive *)

(** A silent peer is detected: when a started stream has been idle for its
    timeout, a tick sends a ping; from then on ticks do nothing before the probe
    deadline and abort the stream at it, unless a [pong] with the very nonce of
    the ping arrived, which disarms the probe (another nonce does not). *)
Theorem silent_peer_aborted s t0 t p nonce' :
  active s = true → started s = true → closed_remotely s = false →
  pending_probe_nonce s = None → close_grace_deadline s = None →
  idle_timeout s ≤ t0 - session_last_activity s → 0 ≤ idle_timeout s → 
  last_progress s < p →
  let '(s1, a) := Session.tick t0 s in
  let nonce := progress_token s +:+ ":" +:+ show_Z (u64_add (control_nonce s) 1) in
  a = SendPing nonce ∧
  (t < t0 + probe_timeout s → Session.tick t s1 = (s1, ActionNone)) ∧
  (t0 + probe_timeout s ≤ t →
     (Session.tick t s1).2 = ActionAbort "Probe timeout" ∧ active (Session.tick t s1).1 = false ∧
     terminal (Session.tick t s1).1 = Some (Abort (progress_token s) (Some "Probe timeout"))) ∧
  let s2 := (Session.process_frame t p (Pong nonce') s1).1 in
  session_last_activity s2 = t ∧
  (pending_probe_nonce s2, probe_deadline s2) =
    (if bool_decide (nonce' = nonce) then (None, None) else (Some nonce, Some (t0 + probe_timeout s))).
Proof.
  intros Ha Hst Hcl Hpn Hg Hidle Hpos Hp.
  assert (Session.idle_expired t0 s = true) as Hie.
  { unfold Session.idle_expired. rewrite Hst, Hcl, Hpn, bool_decide_eq_true_2 by done. cbn.
    apply Z.leb_le. lia. }
  unfold Session.tick at 1. rewrite Ha. cbn -[Session.idle_expired].
  assert (Session.probe_expired t0 s = false) as ->.
  { unfold Session.probe_expired. rewrite Hpn. by destruct (probe_deadline s). }
  assert (Session.grace_expired t0 s = false) as -> by (unfold Session.grace_expired; by rewrite Hg).
  rewrite Hie. cbn -[Session.tick Session.process_frame]. split_and!; [done|..].
  - intros Ht. unfold Session.tick. cbn. rewrite ?Ha. cbn. unfold Session.probe_expired. cbn.
    rewrite (proj2 (Z.leb_gt _ _)) by done. unfold Session.grace_expired. cbn. rewrite ?Hg.
    unfold Session.idle_expired. cbn. by rewrite andb_false_r.
  - intros Ht. unfold Session.tick. cbn. rewrite ?Ha. cbn. unfold Session.probe_expired. cbn.
    rewrite (proj2 (Z.leb_le _ _)) by done. cbn. unfold Session.finalize. cbn. by rewrite ?Ha.
  - unfold Session.process_frame, Session.assert_active, Session.assert_progress. cbn -[Session.handle_frame].
    rewrite ?Ha. cbn -[Session.handle_frame]. rewrite (proj2 (Z.leb_gt _ _)) by done. cbn.
    unfold Session.assert_started. cbn. rewrite ?Hst. unfold Session.handle_pong. cbn.
    by case_bool_decide.
  - unfold Session.process_frame, Session.assert_active, Session.assert_progress. cbn -[Session.handle_frame].
    rewrite ?Ha. cbn -[Session.handle_frame]. rewrite (proj2 (Z.leb_gt _ _)) by done. cbn.
    unfold Session.assert_started. cbn. rewrite ?Hst. unfold Session.handle_pong. cbn.
    case_bool_decide as H1; case_bool_decide as H2; cbn; try done; exfalso; naive_solver.
Qed.

(** ** Witnesses *)

Definition demo_stream_options : OpenStreamSessionOptions := mkSessionOptions "tok" 8 1024 30000 20000 5000.
Definition demo_events : list session_event :=
  [EvFrame 0 1 (Start None); EvFrame 1 2 (Chunk 1 "b"); EvPoll; EvFrame 2 3 (Chunk 0 "a"); EvPoll;
   EvFrame 3 3 (Chunk 2 "x"); EvFrame 4 5 (Chunk 2 "c"); EvTick 9].

Lemma stream_delivers_in_order_witness :
  (session_run (Session.new 0 demo_stream_options) demo_events).2 = ["a"] ∧
  sent_chunk demo_events 2 "c".
Proof.
  split; [by vm_compute|].
  pose proof (stream_delivers_in_order 0 demo_stream_options demo_events eq_refl ltac:(repeat constructor)
    ltac:(by vm_compute)) as Hw.
  destruct (session_run (Session.new 0 demo_stream_options) demo_events) as [s dl] eqn:E.
  apply (Hw 2%nat "c"). vm_compute in E. by injection E as <- <-.
Defined.

Lemma stream_memory_bounded_witness :
  let s := (session_run (Session.new 0 demo_stream_options) demo_events).1 in
  queue s = ["b"; "c"] ∧ buffered_bytes s + queued_bytes s ≤ 1024.
Proof.
  split; [by vm_compute|].
  apply (stream_memory_bounded 0 demo_stream_options demo_events); [done|repeat constructor|by vm_compute].
Defined.

Lemma stream_any_order_complete_witness :
  let s1 := (Session.process_frame 0 1 (Start None) (Session.new 0 demo_stream_options)).1 in
  let s2 := (feed_frames s1 (chunk_frames [(1, 2, (1, "b")); (2, 5, (0, "a"))])).1 in
  queue s2 = ["a"; "b"] ∧ (Session.process_frame 3 6 (Close (Some 1)) s2).2 = Ok Closed.
Proof.
  split; [by vm_compute|].
  pose proof (stream_any_order_complete 0 demo_stream_options 0 1 None
    [(1, 2, (1, "b")); (2, 5, (0, "a"))] 2 3 6 eq_refl ltac:(lia) ltac:(by vm_compute)
    ltac:(apply Permutation_swap) ltac:(repeat constructor) ltac:(repeat constructor)
    ltac:(by vm_compute) ltac:(by vm_compute)) as Hw. cbv zeta in Hw |- *.
  destruct (feed_frames _ _) as [s2 rs]. cbn [fst].
  change (if 2 =? 0 then None else Some (2 - 1)) with (Some 1) in Hw.
  destruct (Session.process_frame 3 6 (Close (Some 1)) s2) as [s3 r]. by destruct Hw as (_ & _ & _ & -> & _).
Defined.

Lemma graceful_close_is_complete_witness :
  let r := session_run (Session.new 0 demo_stream_options) demo_events in
  let s' := (Session.process_frame 9 9 (Close (Some 2)) r.1).1 in
  expected_last_chunk_index s' = Some 2 ∧ Z.of_nat (length (r.2 ++ queue s')) = 2 + 1.
Proof.
  cbv zeta. split; [by vm_compute|].
  pose proof (graceful_close_is_complete 0 demo_stream_options demo_events 9 9 (Close (Some 2))
    (Session.process_frame 9 9 (Close (Some 2)) (session_run (Session.new 0 demo_stream_options) demo_events).1).1 2
    eq_refl ltac:(repeat constructor) ltac:(by vm_compute)) as Hw.
  destruct (session_run (Session.new 0 demo_stream_options) demo_events) as [s dl] eqn:E.
  vm_compute in E. injection E as <- <-.
  apply Hw; by vm_compute.
Defined.

Definition demo_aborted : SessionState :=
  (session_run (Session.new 0 demo_stream_options) (demo_events ++ [EvAbort true (Some "bye")])).1.

Lemma terminated_stream_drains_witness :
  polls 5 demo_aborted =
  [Some (Some (Ok "b")); Some (Some (Ok "c")); Some (Some (Err (Abort "tok" (Some "bye")))); Some None; Some None].
Proof.
  exact (proj2 (proj2 (terminated_stream_drains demo_aborted 0 0 Accept 2 eq_refl))).
Defined.

Definition demo_idle : SessionState := (session_run (Session.new 0 demo_stream_options) demo_events).1.

Lemma silent_peer_aborted_witness :
  (Session.tick 30000000004 demo_idle).2 = SendPing "tok:1" ∧
  (Session.tick 50000000004 (Session.tick 30000000004 demo_idle).1).2 = ActionAbort "Probe timeout".
Proof.
  split; [by vm_compute|].
  pose proof (silent_peer_aborted demo_idle 30000000004 50000000004 9 "tok:1" eq_refl eq_refl eq_refl eq_refl
    eq_refl ltac:(by vm_compute) ltac:(by vm_compute) ltac:(by vm_compute)) as Hw.
  destruct (Session.tick 30000000004 demo_idle) as [s1 a]. cbn [fst].
  destruct Hw as (_ & _ & Hw & _). apply Hw. by vm_compute.
Defined.

(** A [close] that declares the last index [u64::MAX] on an empty stream ends
    it gracefully: the successor of the index wraps to the next expected chunk,
    zero, so the stream counts as complete although every chunk is missing. *)
Theorem close_u64_max_accepted :
  let s1 := (Session.process_frame 0 1 (Start None) (Session.new 0 demo_stream_options)).1 in
  let '(s2, r) := Session.process_frame 1 2 (Close (Some u64_max)) s1 in
  r = Ok Closed ∧ active s2 = false ∧ queue s2 = [] ∧ next_expected_chunk s2 = 0.
Proof. by vm_compute. Qed.
