(* ===== verification/OpenStreamRegistry.v ===== *)
(** * CEP-41 open streams: the registry and the receiver

    Models [src/transport/open_stream/registry.rs] and [receiver.rs].  A session
    is shared between the registry and the handles given to consumers ([Arc]), so
    sessions live in a heap and the registry maps tokens to references: a session
    that leaves the registry is still drained through its handle.  Hooks are the
    list of the calls made to them. *)

From S2P Require Import Prelude Json CoreTypes OversizedFrame Instances OversizedReceiver OpenStreamFrame OpenStreamSession.

(** ** State *)

Record RegistryEntry : Type := mkEntry {
  session_ref : nat;
  has_on_close : bool;
  has_on_abort : bool;
}.

(** The registry, with the heap of all sessions it has created and the next free
    reference. *)
Record OpenStreamRegistry : Type := mkRegistry {
  registry_policy : OpenStreamRegistryPolicy;
  registry_sessions : gmap string RegistryEntry;
  heap : gmap nat SessionState;
  next_ref : nat;
}.

Inductive hook_call : Type :=
| CallOnClose (token : string)
| CallOnAbort (token : string) (reason : option string).

Module Registry.

Definition with_policy (policy : OpenStreamRegistryPolicy) : OpenStreamRegistry := mkRegistry policy ∅ ∅ 0.
Definition new : OpenStreamRegistry := with_policy OpenStreamRegistryPolicy_default.
Definition size (r : OpenStreamRegistry) : Z := Z.of_nat (base.size (registry_sessions r)).

(** [get_session]: the handle of an active session. *)
Definition get_session (progress_token : string) (r : OpenStreamRegistry) : option nat :=
  session_ref <$> registry_sessions r !! progress_token.

Definition is_open_stream_progress (n : JsonRpcNotification) : bool :=
  match notif_params n with
  | Some params => match get params "cvm" with Some v => is_frame_value v | None => false end
  | None => false
  end.

Definition session_options (progress_token : string) (policy : OpenStreamRegistryPolicy)
  : OpenStreamSessionOptions := {|
  opt_progress_token := progress_token;
  opt_max_buffered_chunks := max_buffered_chunks_per_stream policy;
  opt_max_buffered_bytes := max_buffered_bytes_per_stream policy;
  opt_idle_timeout_ms := idle_timeout_ms policy;
  opt_probe_timeout_ms := probe_timeout_ms policy;
  opt_close_grace_period_ms := close_grace_period_ms policy;
|}.

Definition create_session_with (now : Z) (progress_token : string) (on_close on_abort : bool)
    (r : OpenStreamRegistry) : OpenStreamRegistry * result nat OpenStreamError :=
  if bool_decide (is_Some (registry_sessions r !! progress_token))
  then (r, Err (Sequence ("Stream session already exists for " +:+ progress_token)))
  else if max_concurrent_streams (registry_policy r) <=? size r
  then (r, Err (Policy "Maximum concurrent open streams exceeded"))
  else
    let ref := next_ref r in
    (mkRegistry (registry_policy r)
       (<[progress_token := mkEntry ref on_close on_abort]> (registry_sessions r))
       (<[ref := Session.new now (session_options progress_token (registry_policy r))]> (heap r))
       (S ref), Ok ref).

Definition create_session (now : Z) (progress_token : string) (r : OpenStreamRegistry)
  : OpenStreamRegistry * result nat OpenStreamError :=
  create_session_with now progress_token false false r.

Definition get_or_create_session (now : Z) (progress_token : string) (r : OpenStreamRegistry)
  : OpenStreamRegistry * result nat OpenStreamError :=
  match get_session progress_token r with
  | Some ref => (r, Ok ref)
  | None => create_session now progress_token r
  end.

(** Update the session behind a reference. *)
Definition set_session (ref : nat) (s : SessionState) (r : OpenStreamRegistry) : OpenStreamRegistry :=
  mkRegistry (registry_policy r) (registry_sessions r) (<[ref := s]> (heap r)) (next_ref r).

Definition remove_entry (token : string) (r : OpenStreamRegistry) : OpenStreamRegistry :=
  mkRegistry (registry_policy r) (delete token (registry_sessions r)) (heap r) (next_ref r).

Definition run_close (token : string) (r : OpenStreamRegistry) : OpenStreamRegistry * list hook_call :=
  match registry_sessions r !! token with
  | Some entry => (remove_entry token r, if has_on_close entry then [CallOnClose token] else [])
  | None => (r, [])
  end.

Definition run_abort (token : string) (reason : option string) (r : OpenStreamRegistry)
  : OpenStreamRegistry * list hook_call :=
  match registry_sessions r !! token with
  | Some entry => (remove_entry token r, if has_on_abort entry then [CallOnAbort token reason] else [])
  | None => (r, [])
  end.

(** [f as i64] for the finite double [m * 2^e]: truncating and saturating. *)
Definition f64_to_i64 (m e : Z) : Z :=
  Z.max i64_min (Z.min i64_max (if 0 <=? e then m * 2 ^ e else Z.quot m (2 ^ (- e)))).

(** [n.as_i64()], else the cast of the double; an integer beyond [i64] is read as
    a double beyond [2^63] and saturates. *)
Definition stream_progress (n : Number) : option Z :=
  match number_as_i64 n with
  | Some p => Some p
  | None =>
      match n with
      | PosInt _ => Some i64_max
      | NegInt _ => None
      | Float m e => Some (f64_to_i64 m e)
      end
  end.

Definition parse_progress (value : option Value) (token : string) : result Z OpenStreamError :=
  match (match value with Some (VNumber n) => stream_progress n | _ => None end) with
  | Some p => Ok p
  | None => Err (Sequence ("Invalid progress value (token: " +:+ token +:+ ")"))
  end.

Section frames.
Context `{SerdeJson}.

Definition parse_frame (n : JsonRpcNotification) : result (string * Z * OpenStreamFrame) OpenStreamError :=
  match notif_params n with
  | None => Err (Sequence "Open stream frame is missing params")
  | Some params =>
      match (cvm ← get params "cvm"; from_cvm_value cvm) with
      | None => Err (Sequence "Notification is not an open-stream frame")
      | Some frame =>
          match (v ← get params "progressToken"; progress_token_string v) with
          | Some token =>
              if str_is_empty token then Err (Sequence "Open stream frame is missing progressToken")
              else let? progress := parse_progress (get params "progress") token in
                   Ok (token, progress, frame)
          | None => Err (Sequence "Open stream frame is missing progressToken")
          end
      end
  end.

(** The part of [process_frame] after the session was found. *)
Definition route_frame (now : Z) (token : string) (progress : Z) (frame : OpenStreamFrame)
    (r : OpenStreamRegistry) : OpenStreamRegistry * result FrameOutcome OpenStreamError * list hook_call :=
  match (ref ← get_session token r; s ← heap r !! ref; Some (ref, s)) with
  | None => (r, Err (Sequence "session present after create"), [])
  | Some (ref, s) =>
      let '(s1, outcome) := Session.process_frame now progress frame s in
      match outcome with
      | Ok Closed =>
          let '(r', calls) := run_close token (set_session ref s1 r) in (r', Ok Closed, calls)
      | Ok (Aborted reason) =>
          let '(r', calls) := run_abort token reason (set_session ref s1 r) in
          (r', Ok (Aborted reason), calls)
      | Ok other => (set_session ref s1 r, Ok other, [])
      | Err error =>
          let '(r', calls) :=
            run_abort token (Some (error_to_string error)) (set_session ref (Session.fail error s1) r) in
          (r', Err error, calls)
      end
  end.

Definition process_frame (now : Z) (n : JsonRpcNotification) (r : OpenStreamRegistry)
  : OpenStreamRegistry * result FrameOutcome OpenStreamError * list hook_call :=
  match parse_frame n with
  | Err e => (r, Err e, [])
  | Ok (token, progress, frame) =>
      if bool_decide (is_Some (registry_sessions r !! token)) then route_frame now token progress frame r
      else
        match frame with
        | Start _ =>
            match create_session_with now token false false r with
            | (r1, Ok _) => route_frame now token progress frame r1
            | (r1, Err e) => (r1, Err e, [])
            end
        | Ping _ | Pong _ | AbortFrame _ => (r, Ok OutcomeNone, [])
        | _ => (r, Err (Sequence ("Received " +:+ frame_type frame +:+ " frame before start for " +:+ token)), [])
        end
  end.
End frames.

(** The body of the loop of [tick_all]: the session after its tick, and the
    action when there is one. *)
Definition tick_entry (now : Z) (r : OpenStreamRegistry) (te : string * RegistryEntry)
  : OpenStreamRegistry * option (string * KeepaliveAction) :=
  match heap r !! session_ref te.2 with
  | None => (r, None)
  | Some s =>
      let '(s1, action) := Session.tick now s in
      (set_session (session_ref te.2) s1 r,
       match action with ActionNone => None | _ => Some (te.1, action) end)
  end.

Fixpoint tick_entries (now : Z) (l : list (string * RegistryEntry)) (r : OpenStreamRegistry)
  : OpenStreamRegistry * list (string * KeepaliveAction) :=
  match l with
  | [] => (r, [])
  | te :: l' =>
      let '(r1, a) := tick_entry now r te in
      let '(r2, actions) := tick_entries now l' r1 in
      (r2, match a with Some x => x :: actions | None => actions end)
  end.

Definition is_abort_action (x : string * KeepaliveAction) : bool :=
  match x.2 with ActionAbort _ => true | _ => false end.

Definition tick_all (now : Z) (r : OpenStreamRegistry) : OpenStreamRegistry * list (string * KeepaliveAction) :=
  let '(r1, actions) := tick_entries now (map_to_list (registry_sessions r)) r in
  (foldl (λ r x, remove_entry x.1 r) r1 (List.filter is_abort_action actions), actions).

(** [clear]: every registered session is disposed of and dropped. *)
Definition dispose_entry (r : OpenStreamRegistry) (te : string * RegistryEntry) : OpenStreamRegistry :=
  match heap r !! session_ref te.2 with
  | None => r
  | Some s => set_session (session_ref te.2) (Session.dispose s) r
  end.
Definition clear (r : OpenStreamRegistry) : OpenStreamRegistry :=
  let r1 := foldl dispose_entry r (map_to_list (registry_sessions r)) in
  mkRegistry (registry_policy r1) ∅ (heap r1) (next_ref r1).

Definition consumer_abort (token : string) (reason : option string) (r : OpenStreamRegistry)
  : OpenStreamRegistry * list hook_call :=
  match registry_sessions r !! token with
  | Some entry =>
      let r1 := match heap r !! session_ref entry with
                | Some s => set_session (session_ref entry) (Session.fail (Abort token reason) s) r
                | None => r
                end in
      (remove_entry token r1, if has_on_abort entry then [CallOnAbort token reason] else [])
  | None => (r, [])
  end.

End Registry.

(** ** The receiver

    [OpenStreamReceiver] wraps a registry and reads the clock. *)

Record OpenStreamReceiver : Type := mkReceiver { registry : OpenStreamRegistry }.

Module Receiver.
Definition new : OpenStreamReceiver := mkReceiver Registry.new.
Definition with_policy (policy : OpenStreamRegistryPolicy) : OpenStreamReceiver :=
  mkReceiver (Registry.with_policy policy).
Definition is_open_stream_frame (n : JsonRpcNotification) : bool := Registry.is_open_stream_progress n.
Definition process_frame `{SerdeJson} (now : Z) (n : JsonRpcNotification) (r : OpenStreamReceiver)
  : OpenStreamReceiver * result FrameOutcome OpenStreamError * list hook_call :=
  let '(reg, outcome, calls) := Registry.process_frame now n (registry r) in (mkReceiver reg, outcome, calls).
Definition get_session (token : string) (r : OpenStreamReceiver) : option nat :=
  Registry.get_session token (registry r).
Definition active_stream_count (r : OpenStreamReceiver) : Z := Registry.size (registry r).
Definition clear (r : OpenStreamReceiver) : OpenStreamReceiver := mkReceiver (Registry.clear (registry r)).
End Receiver.

(** ** Session facts the registry relies on *)

Lemma finalize_token e s : progress_token (Session.finalize e s) = progress_token s.
Proof. unfold Session.finalize. by destruct (active s). Qed.

Lemma finalize_active e s : active (Session.finalize e s) = false.
Proof. unfold Session.finalize. by destruct (active s) eqn:E. Qed.

Lemma flush_loop_token fuel s : progress_token (Session.flush_loop fuel s) = progress_token s.
Proof. revert s. induction fuel as [|fuel IH]; intros s; cbn; [done|]. case_match; [by rewrite IH|done]. Qed.

(** A flush keeps the token and ends the stream only by finishing it. *)
Lemma flush_facts s :
  let '(s', r) := Session.flush_contiguous_chunks s in
  progress_token s' = progress_token s ∧ (r = Ok false → active s' = active s).
Proof.
  unfold Session.flush_contiguous_chunks, Session.maybe_finish_gracefully.
  pose proof (flush_loop_token (base.size (buffered s)) s). pose proof (flush_loop_active (base.size (buffered s)) s).
  destruct (closed_remotely _); [|done]. destruct (negb _ || _); [done|].
  destruct (expected_last_chunk_index _); [destruct (_ =? _)|]; rewrite ?finalize_token; done.
Qed.

(** A frame keeps the token; the stream stays live unless the frame ended it or
    was refused. *)
Lemma session_frame_facts now p f s :
  let '(s', r) := Session.process_frame now p f s in
  progress_token s' = progress_token s ∧
  (r = Ok OutcomeNone ∨ (∃ nonce, r = Ok (SendPong nonce)) → active s' = true).
Proof.
  unfold Session.process_frame, Session.assert_active, Session.assert_progress.
  destruct (active s) eqn:Ea; [|split; [done|]; by intros [|[]]].
  destruct (p <=? last_progress s); [split; [done|]; by intros [|[]]|]. cbn -[Session.handle_frame].
  set (s0 := Session.set_life _ _ _ _ _ _ _ _ _ _).
  destruct f as [ct| |i d|nonce|nonce|last|reason]; cbn; unfold Session.assert_started; cbn;
    try (destruct (started s); cbn); try (by split; [|intros [|[]]]); try done.
  - destruct (Session.buffer_chunk i d s0) as [s1|e] eqn:Eb; [|by split; [|intros [|[]]]].
    assert (progress_token s1 = progress_token s ∧ active s1 = true) as [Ht1 Ha1]
      by (unfold Session.buffer_chunk in Eb; by break Eb).
    pose proof (flush_facts s1) as Hf. destruct (Session.flush_contiguous_chunks s1) as [s2 [[]|e]];
      destruct Hf as [Hf1 Hf2]; (split; [congruence|]); intros [|[]]; try done. rewrite Hf2; done.
  - destruct (_ <? _); split; try done; by intros [|[]].
  - unfold Session.handle_pong. case_match; done.
  - match goal with |- context [Session.flush_contiguous_chunks ?x] =>
      pose proof (flush_facts x) as Hf; destruct (Session.flush_contiguous_chunks x) as [s2 [[]|e]] end;
      destruct Hf as [Hf1 Hf2]; cbn; (split; [done|]); intros [|[]]; try done. by rewrite Hf2.
Qed.

Lemma tick_facts now s :
  let '(s', a) := Session.tick now s in
  progress_token s' = progress_token s ∧
  ((∀ reason, a ≠ ActionAbort reason) → active s' = active s).
Proof.
  unfold Session.tick. destruct (active s) eqn:Ea; cbn; [|done].
  destruct (Session.probe_expired now s); [rewrite finalize_token; split; [done|]; intros Ha; by destruct (Ha "Probe timeout")|].
  destruct (Session.grace_expired now s);
    [rewrite finalize_token; split; [done|]; intros Ha; by destruct (Ha "Close grace period expired")|].
  destruct (Session.idle_expired now s); done.
Qed.

(** ** The invariant *)

(** Every registered token has its own live session, and there are at most as
    many as the policy allows. *)
Record registry_ok (r : OpenStreamRegistry) : Prop := {
  ro_entry token e : registry_sessions r !! token = Some e →
    ∃ s, heap r !! session_ref e = Some s ∧ progress_token s = token ∧ active s = true;
  ro_fresh ref : is_Some (heap r !! ref) → (ref < next_ref r)%nat;
  ro_size : Registry.size r ≤ Z.max 0 (max_concurrent_streams (registry_policy r));
}.

(** The session a token is registered with. *)
Definition session_of (r : OpenStreamRegistry) (token : string) : option SessionState :=
  e ← registry_sessions r !! token; heap r !! session_ref e.

Lemma session_of_ok r token s :
  registry_ok r → session_of r token = Some s → progress_token s = token ∧ active s = true.
Proof.
  intros [He _ _] Hs. unfold session_of in Hs. apply bind_Some in Hs as (e & Hte & Hs).
  destruct (He _ _ Hte) as (s' & ? & ? & ?). by simplify_eq.
Qed.

(** Sessions of different tokens are different references. *)
Lemma session_refs_distinct r t1 t2 e1 e2 :
  registry_ok r → registry_sessions r !! t1 = Some e1 → registry_sessions r !! t2 = Some e2 →
  session_ref e1 = session_ref e2 → t1 = t2.
Proof.
  intros [He _ _] H1 H2 Href. destruct (He _ _ H1) as (s1 & ? & ? & _), (He _ _ H2) as (s2 & ? & ? & _).
  rewrite Href in *. by simplify_eq.
Qed.

Lemma create_ok now token oc oa r :
  registry_ok r →
  let '(r', res) := Registry.create_session_with now token oc oa r in
  registry_ok r' ∧ (∀ t, t ≠ token → session_of r' t = session_of r t) ∧
  match res with
  | Ok ref => registry_sessions r !! token = None ∧ Registry.get_session token r' = Some ref ∧
      session_of r' token = Some (Session.new now (Registry.session_options token (registry_policy r)))
  | Err _ => r' = r
  end.
Proof.
  intros Hok. unfold Registry.create_session_with. case_bool_decide as Hin; [done|].
  destruct (_ <=? _) eqn:Hsz; [done|]. b2p. destruct Hok as [He Hf Hs].
  assert (registry_sessions r !! token = None) as Hnone by (by apply eq_None_not_Some).
  assert (∀ t e, registry_sessions r !! t = Some e → session_ref e ≠ next_ref r) as Hne.
  { intros t e Ht Href. destruct (He _ _ Ht) as (s & Hh & _). rewrite Href in Hh.
    specialize (Hf _ (mk_is_Some _ _ Hh)). lia. }
  split_and!; [split; cbn| | |..].
  - intros t e. rewrite lookup_insert_Some. intros [[<- <-]|[Hne' Ht]]; cbn.
    + rewrite lookup_insert_eq. by eexists.
    + rewrite lookup_insert_ne by (intros Heq; by apply (Hne t e Ht)). by apply He.
  - intros ref. rewrite lookup_insert_is_Some'. intros [<-|Hr]; [lia|]. specialize (Hf _ Hr). lia.
  - unfold Registry.size in *. cbn. rewrite map_size_insert_None by done. lia.
  - intros t Ht. unfold session_of. cbn. rewrite lookup_insert_ne by done.
    destruct (registry_sessions r !! t) as [e|] eqn:Et; cbn; [|done].
    rewrite lookup_insert_ne; [done|]. intros Heq. by apply (Hne t e Et).
  - done.
  - unfold Registry.get_session. cbn. by rewrite lookup_insert_eq.
  - unfold session_of. cbn. by rewrite lookup_insert_eq; cbn; rewrite lookup_insert_eq.
Qed.

(** Replacing the session of [token] by one of the same token, live or about to
    be removed. *)
Lemma set_session_ok r token e s :
  registry_ok r → registry_sessions r !! token = Some e → progress_token s = token → active s = true →
  registry_ok (Registry.set_session (session_ref e) s r).
Proof.
  intros Hok Ht Htok Ha. pose proof Hok as [He Hf Hs]. split; cbn.
  - intros t e' Ht'. destruct (decide (session_ref e' = session_ref e)) as [Href|Hne].
    + assert (t = token) as -> by by eapply session_refs_distinct.
      rewrite Href, lookup_insert_eq. by eexists.
    + rewrite lookup_insert_ne by done. by apply He.
  - intros ref. rewrite lookup_insert_is_Some'. intros [<-|Hr]; [|by apply Hf].
    destruct (He _ _ Ht) as (s0 & Hh & _). apply Hf. by rewrite Hh.
  - done.
Qed.

Lemma remove_set_ok r token e s :
  registry_ok r → registry_sessions r !! token = Some e →
  registry_ok (Registry.remove_entry token (Registry.set_session (session_ref e) s r)).
Proof.
  intros Hok Ht. pose proof Hok as [He Hf Hs]. split; cbn.
  - intros t e' Ht'. apply lookup_delete_Some in Ht' as [Hne Ht'].
    rewrite lookup_insert_ne; [by apply He|]. intros Href. apply Hne. symmetry. by eapply session_refs_distinct.
  - intros ref. rewrite lookup_insert_is_Some'. intros [<-|Hr]; [|by apply Hf].
    destruct (He _ _ Ht) as (s0 & Hh & _). apply Hf. by rewrite Hh.
  - unfold Registry.size in *. cbn. rewrite map_size_delete, Ht. lia.
Qed.

Lemma set_session_other r token e s t :
  registry_ok r → registry_sessions r !! token = Some e → t ≠ token →
  session_of (Registry.set_session (session_ref e) s r) t = session_of r t.
Proof.
  intros Hok Ht Hne. unfold session_of. cbn.
  destruct (registry_sessions r !! t) as [e'|] eqn:Et; cbn; [|done].
  rewrite lookup_insert_ne; [done|]. intros Href. apply Hne. by eapply session_refs_distinct.
Qed.

Lemma remove_entry_other r token t :
  t ≠ token → session_of (Registry.remove_entry token r) t = session_of r t.
Proof. intros Hne. unfold session_of. cbn. by rewrite lookup_delete_ne. Qed.

(** What routing a frame does to the registry. *)
Lemma route_frame_ok now token p f r e :
  registry_ok r → registry_sessions r !! token = Some e →
  let '(r', res, calls) := Registry.route_frame now token p f r in
  registry_ok r' ∧ (∀ t, t ≠ token → session_of r' t = session_of r t) ∧
  ∃ s, session_of r token = Some s ∧ res = (Session.process_frame now p f s).2 ∧
  match res with
  | Ok OutcomeNone | Ok (SendPong _) =>
      session_of r' token = Some (Session.process_frame now p f s).1 ∧ calls = []
  | Ok Closed => registry_sessions r' !! token = None ∧
      heap r' !! session_ref e = Some (Session.process_frame now p f s).1 ∧
      calls = (if has_on_close e then [CallOnClose token] else [])
  | Ok (Aborted reason) => registry_sessions r' !! token = None ∧
      heap r' !! session_ref e = Some (Session.process_frame now p f s).1 ∧
      calls = (if has_on_abort e then [CallOnAbort token reason] else [])
  | Err error => registry_sessions r' !! token = None ∧
      heap r' !! session_ref e = Some (Session.fail error (Session.process_frame now p f s).1) ∧
      calls = (if has_on_abort e then [CallOnAbort token (Some (error_to_string error))] else [])
  end.
Proof.
  intros Hok He. destruct (ro_entry r Hok _ _ He) as (s & Hh & Htok & Ha).
  unfold Registry.route_frame, Registry.get_session. rewrite He. cbn. rewrite Hh. cbn.
  pose proof (session_frame_facts now p f s) as Hfacts.
  assert (session_of r token = Some s) as Hso by (unfold session_of; rewrite He; done).
  destruct (Session.process_frame now p f s) as [s1 outcome] eqn:Ep. destruct Hfacts as [Ht1 Hact].
  assert (∀ s' r', r' = Registry.remove_entry token (Registry.set_session (session_ref e) s' r) →
    registry_ok r' ∧ (∀ t, t ≠ token → session_of r' t = session_of r t) ∧
    registry_sessions r' !! token = None ∧ heap r' !! session_ref e = Some s') as Hrem.
  { intros s' r' ->. split_and!.
    - by apply remove_set_ok.
    - intros t Ht. rewrite remove_entry_other by done. by eapply set_session_other.
    - cbn. by rewrite lookup_delete_eq.
    - cbn. by rewrite lookup_insert_eq. }
  assert (active s1 = true → registry_ok (Registry.set_session (session_ref e) s1 r) ∧
    (∀ t, t ≠ token → session_of (Registry.set_session (session_ref e) s1 r) t = session_of r t) ∧
    session_of (Registry.set_session (session_ref e) s1 r) token = Some s1) as Hset.
  { intros Ha1. split_and!.
    - apply (set_session_ok r token); [done|done|congruence|done].
    - intros t Ht. by eapply set_session_other.
    - unfold session_of. cbn. rewrite He. cbn. by rewrite lookup_insert_eq. }
  unfold Registry.run_close, Registry.run_abort. cbn. rewrite He.
  destruct outcome as [[|nonce| |reason]|error].
  - destruct (Hset (Hact (or_introl eq_refl))) as (? & ? & ?). split_and!; [done|done|]. exists s. rewrite Ep. by split_and!.
  - destruct (Hset (Hact (or_intror (ex_intro _ _ eq_refl)))) as (? & ? & ?).
    split_and!; [done|done|]. exists s. rewrite Ep. by split_and!.
  - destruct (Hrem s1 _ eq_refl) as (? & ? & ? & ?). split_and!; [done|done|]. exists s. rewrite Ep. by split_and!.
  - destruct (Hrem s1 _ eq_refl) as (? & ? & ? & ?). split_and!; [done|done|]. exists s. rewrite Ep. by split_and!.
  - destruct (Hrem (Session.fail error s1) _ eq_refl) as (? & ? & ? & ?). split_and!; [done|done|]. exists s. rewrite Ep. by split_and!.
Qed.

Section registry_frames.
Context `{SerdeJson}.

Lemma process_frame_registry_ok now n r :
  registry_ok r → registry_ok (Registry.process_frame now n r).1.1.
Proof.
  intros Hok. unfold Registry.process_frame. destruct (Registry.parse_frame n) as [[[token p] f]|e]; [|done].
  case_bool_decide as Hin.
  - destruct Hin as [e He]. pose proof (route_frame_ok now token p f r e Hok He) as Hr.
    destruct (Registry.route_frame now token p f r) as [[r' res] calls]. by destruct Hr.
  - destruct f as [ct| |i d|nonce|nonce|last|reason]; try done.
    pose proof (create_ok now token false false r Hok) as Hc.
    destruct (Registry.create_session_with now token false false r) as [r1 [ref|e]];
      destruct Hc as (Hok1 & _ & Hc); [|done]. destruct Hc as (_ & Href & _).
    unfold Registry.get_session in Href. destruct (registry_sessions r1 !! token) as [e|] eqn:He; [|done].
    pose proof (route_frame_ok now token p (Start ct) r1 e Hok1 He) as Hr.
    destruct (Registry.route_frame now token p (Start ct) r1) as [[r' res] calls]. by destruct Hr.
Qed.

(** Frames are isolated per stream: a frame changes no other stream than the
    one its token names, a refused frame or one that ends its stream leaves the
    token free, and without a stream only a [start] frame does anything: control
    frames are dropped and data frames refused, without a change. *)
Theorem stream_frame_isolation now n r token p f :
  registry_ok r → Registry.parse_frame n = Ok (token, p, f) →
  let '(r', res, calls) := Registry.process_frame now n r in
  (∀ t, t ≠ token → session_of r' t = session_of r t) ∧
  (match res with
   | Err _ | Ok Closed | Ok (Aborted _) => registry_sessions r' !! token = None
   | _ => True
   end) ∧
  (registry_sessions r !! token = None →
   match f with
   | Start _ => True
   | Ping _ | Pong _ | AbortFrame _ => r' = r ∧ res = Ok OutcomeNone
   | _ => r' = r ∧ is_ok res = false
   end).
Proof.
  intros Hok Hp. unfold Registry.process_frame. rewrite Hp. case_bool_decide as Hin.
  - destruct Hin as [e He]. pose proof (route_frame_ok now token p f r e Hok He) as Hr.
    destruct (Registry.route_frame now token p f r) as [[r' res] calls].
    destruct Hr as (_ & Hother & s & _ & _ & Hres). split_and!; [done| |by rewrite He].
    destruct res as [[]|]; naive_solver.
  - apply eq_None_not_Some in Hin.
    destruct f as [ct| |i d|nonce|nonce|last|reason]; try (by split_and!).
    pose proof (create_ok now token false false r Hok) as Hc.
    destruct (Registry.create_session_with now token false false r) as [r1 [ref|e]];
      destruct Hc as (Hok1 & Hother1 & Hc); [|subst; by split_and!].
    destruct Hc as (_ & Href & _). unfold Registry.get_session in Href.
    destruct (registry_sessions r1 !! token) as [e|] eqn:He; [|done].
    pose proof (route_frame_ok now token p (Start ct) r1 e Hok1 He) as Hr.
    destruct (Registry.route_frame now token p (Start ct) r1) as [[r' res] calls].
    destruct Hr as (_ & Hother & s & _ & _ & Hres). split_and!; [|destruct res as [[]|]; naive_solver|done].
    intros t Ht. rewrite Hother by done. by apply Hother1.
Qed.

End registry_frames.

(** ** The keepalive sweep *)

Definition is_abort_of (a : KeepaliveAction) : bool :=
  match a with ActionAbort _ => true | _ => false end.

Lemma tick_entries_spec now l r :
  NoDup (session_ref <$> l.*2) → (∀ t e, (t, e) ∈ l → is_Some (heap r !! session_ref e)) →
  let '(r', actions) := Registry.tick_entries now l r in
  registry_sessions r' = registry_sessions r ∧ registry_policy r' = registry_policy r ∧
  next_ref r' = next_ref r ∧
  (∀ ref, ref ∉ session_ref <$> l.*2 → heap r' !! ref = heap r !! ref) ∧
  (∀ t e s, (t, e) ∈ l → heap r !! session_ref e = Some s →
     heap r' !! session_ref e = Some (Session.tick now s).1) ∧
  (∀ t a, (t, a) ∈ actions ↔ a ≠ ActionNone ∧
     ∃ e s, (t, e) ∈ l ∧ heap r !! session_ref e = Some s ∧ a = (Session.tick now s).2).
Proof.
  revert r. induction l as [|[t0 e0] l IH]; intros r Hnd Hin; cbn.
  { split_and!; [done..|set_solver|]. intros t a. split; [set_solver|]. intros (_ & e & s & Hl & _). set_solver. }
  apply NoDup_cons in Hnd as [Hn0 Hnd]. unfold Registry.tick_entry. cbn.
  destruct (Hin t0 e0) as [s0 Hs0]; [set_solver|]. rewrite Hs0.
  destruct (Session.tick now s0) as [s1 a0] eqn:Et.
  specialize (IH (Registry.set_session (session_ref e0) s1 r) Hnd).
  destruct (Registry.tick_entries now l _) as [r2 actions]. cbn in IH.
  assert (∀ t e, (t, e) ∈ l → session_ref e ≠ session_ref e0) as Hne.
  { intros t e Hl Href. apply Hn0. cbn. rewrite <- Href.
    by apply list_elem_of_fmap_2, (list_elem_of_fmap_2 snd _ (t, e)). }
  destruct IH as (H1 & H2 & H3 & H4 & H5 & H6).
  { intros t e Hl. rewrite lookup_insert_ne; [apply (Hin t); set_solver|]. intros Heq. by eapply Hne. }
  split_and!; [done..| | |].
  - intros ref Href. rewrite H4 by set_solver. rewrite lookup_insert_ne; [done|]. set_solver.
  - intros t e s Hl Hs. apply elem_of_cons in Hl as [[= -> ->]|Hl].
    + rewrite H4 by done. rewrite lookup_insert_eq. simplify_eq. by rewrite Et.
    + eapply H5; [exact Hl|]. rewrite lookup_insert_ne; [done|]. intros Heq. by eapply Hne.
  - intros t a.
    assert ((t, a) ∈ (match match a0 with ActionNone => None | _ => Some (t0, a0) end with
                      | Some x => x :: actions | None => actions end) ↔
            (a0 ≠ ActionNone ∧ (t, a) = (t0, a0)) ∨ (t, a) ∈ actions) as ->.
    { destruct a0; cbn; rewrite ?elem_of_cons; naive_solver. }
    rewrite H6. split.
    + intros [[Ha [= -> ->]]|(Ha & e & s & Hl & Hs & ->)].
      * split; [done|]. exists e0, s0. rewrite Et. split_and!; [set_solver|done|done].
      * split; [done|]. exists e, s. split_and!; [set_solver| |done].
        rewrite lookup_insert_ne in Hs; [done|]. intros Heq. by eapply Hne.
    + intros (Ha & e & s & Hl & Hs & ->). apply elem_of_cons in Hl as [[= -> ->]|Hl].
      * left. simplify_eq. rewrite Et in *. done.
      * right. split; [done|]. exists e, s. split_and!; [done| |done].
        rewrite lookup_insert_ne; [done|]. intros Heq. by eapply Hne.
Qed.

Lemma remove_entries_lookup (l : list (string * KeepaliveAction)) r t :
  registry_sessions (foldl (λ r x, Registry.remove_entry x.1 r) r l) !! t =
    (if decide (t ∈ l.*1) then None else registry_sessions r !! t) ∧
  heap (foldl (λ r x, Registry.remove_entry x.1 r) r l) = heap r ∧
  next_ref (foldl (λ r x, Registry.remove_entry x.1 r) r l) = next_ref r ∧
  registry_policy (foldl (λ r x, Registry.remove_entry x.1 r) r l) = registry_policy r.
Proof.
  revert r. induction l as [|[t0 a] l IH]; intros r; cbn; [done|].
  destruct (IH (Registry.remove_entry t0 r)) as (H1 & H2 & H3 & H4). split_and!; [|done..].
  rewrite H1. cbn. destruct (decide (t = t0)) as [->|].
  - rewrite lookup_delete_eq. repeat case_decide; set_solver.
  - rewrite lookup_delete_ne by done. repeat case_decide; set_solver.
Qed.

Lemma registry_entries_nodup r :
  registry_ok r → NoDup (session_ref <$> (map_to_list (registry_sessions r)).*2).
Proof.
  intros Hok. rewrite <- list_fmap_compose.
  apply NoDup_fmap_2_strong; [|apply NoDup_map_to_list].
  intros [t1 e1] [t2 e2] H1%elem_of_map_to_list H2%elem_of_map_to_list Href. cbn in Href.
  assert (t1 = t2) as -> by by eapply session_refs_distinct. congruence.
Qed.

Lemma abort_tokens actions t :
  t ∈ (List.filter Registry.is_abort_action actions).*1 ↔ ∃ a, (t, a) ∈ actions ∧ is_abort_of a = true.
Proof.
  rewrite list_elem_of_fmap. split.
  - intros ([t' a] & -> & Hin). apply list_elem_of_In, filter_In in Hin as [Hin Hab].
    exists a. split; [by apply list_elem_of_In|]. by destruct a.
  - intros (a & Hin & Hab). exists (t, a). split; [done|].
    apply list_elem_of_In, filter_In. split; [by apply list_elem_of_In|]. by destruct a.
Qed.

(** The entries and sessions after a sweep. *)
Lemma tick_all_lookup now r :
  registry_ok r →
  let '(r', actions) := Registry.tick_all now r in
  (∀ t a, (t, a) ∈ actions ↔ a ≠ ActionNone ∧ ∃ s, session_of r t = Some s ∧ a = (Session.tick now s).2) ∧
  (∀ t e s, registry_sessions r !! t = Some e → heap r !! session_ref e = Some s →
     registry_sessions r' !! t = (if is_abort_of (Session.tick now s).2 then None else Some e) ∧
     heap r' !! session_ref e = Some (Session.tick now s).1) ∧
  (∀ t, registry_sessions r !! t = None → registry_sessions r' !! t = None) ∧
  (∀ ref, is_Some (heap r' !! ref) → is_Some (heap r !! ref)) ∧
  next_ref r' = next_ref r ∧ registry_policy r' = registry_policy r.
Proof.
  intros Hok. unfold Registry.tick_all.
  pose proof (tick_entries_spec now (map_to_list (registry_sessions r)) r (registry_entries_nodup r Hok)) as Hsp.
  destruct (Registry.tick_entries now (map_to_list (registry_sessions r)) r) as [r1 actions].
  destruct Hsp as (H1 & H2 & H3 & H4 & H5 & H6).
  { intros t e Hte%elem_of_map_to_list. destruct (ro_entry r Hok _ _ Hte) as (s & -> & _). eauto. }
  assert (∀ t a, (t, a) ∈ actions ↔ a ≠ ActionNone ∧ ∃ s, session_of r t = Some s ∧ a = (Session.tick now s).2) as Hact.
  { intros t a. rewrite H6. unfold session_of. setoid_rewrite elem_of_map_to_list.
    split; intros (Ha & Hx); (split; [done|]).
    - destruct Hx as (e & s & -> & Hs & ->). by exists s.
    - destruct Hx as (s & (e & He & Hs)%bind_Some & ->). by exists e, s. }
  pose proof (λ t, remove_entries_lookup (List.filter Registry.is_abort_action actions) r1 t) as Hrem.
  set (r' := foldl _ r1 _) in *. destruct (Hrem "") as (_ & Hh & Hn & Hp).
  split_and!; [done| | | |congruence|congruence].
  - intros t e s He Hs. rewrite Hh. split; [|eapply H5; [by apply elem_of_map_to_list|done]].
    destruct (Hrem t) as [-> _]. rewrite H1, He.
    assert (t ∈ (List.filter Registry.is_abort_action actions).*1 ↔ is_abort_of (Session.tick now s).2 = true) as Habs.
    { rewrite abort_tokens. setoid_rewrite Hact. unfold session_of. rewrite He. cbn. split.
      - intros (a & (_ & s' & Hs' & ->) & Hab). by simplify_eq.
      - intros Hab. exists (Session.tick now s).2. split; [|done]. split; [by destruct (Session.tick now s).2|eauto]. }
    destruct (is_abort_of (Session.tick now s).2); case_decide; naive_solver.
  - intros t Ht. destruct (Hrem t) as [-> _]. rewrite H1, Ht. by case_decide.
  - intros ref. rewrite Hh.
    destruct (decide (ref ∈ session_ref <$> (map_to_list (registry_sessions r)).*2)) as [Hin|Hout].
    + apply list_elem_of_fmap in Hin as (e & -> & Hin). apply list_elem_of_fmap in Hin as ([t e'] & -> & Hin).
      apply elem_of_map_to_list in Hin. cbn. destruct (ro_entry r Hok _ _ Hin) as (s & -> & _). eauto.
    + by rewrite <- H4.
Qed.

Lemma tick_all_registry_ok now r r' :
  registry_ok r →
  (∀ t e s, registry_sessions r !! t = Some e → heap r !! session_ref e = Some s →
     registry_sessions r' !! t = (if is_abort_of (Session.tick now s).2 then None else Some e) ∧
     heap r' !! session_ref e = Some (Session.tick now s).1) →
  (∀ t, registry_sessions r !! t = None → registry_sessions r' !! t = None) →
  (∀ ref, is_Some (heap r' !! ref) → is_Some (heap r !! ref)) →
  next_ref r' = next_ref r → registry_policy r' = registry_policy r → registry_ok r'.
Proof.
  intros Hok Hsome Hnone Hheap Hn Hp. split.
  - intros t e He. destruct (registry_sessions r !! t) as [e0|] eqn:He0; [|by rewrite Hnone in He].
    destruct (ro_entry r Hok _ _ He0) as (s & Hs & Htk & Ha). destruct (Hsome t e0 s He0 Hs) as [Hr Hs'].
    rewrite Hr in He. destruct (is_abort_of (Session.tick now s).2) eqn:Eab; [done|]. simplify_eq.
    exists (Session.tick now s).1. pose proof (tick_facts now s) as Htf.
    destruct (Session.tick now s) as [s' a]. destruct Htf as [Htok Hact]. cbn in *.
    split_and!; [done|congruence|]. rewrite Hact; [done|]. by intros reason ->.
  - intros ref Hr. rewrite Hn. by apply (ro_fresh r Hok), Hheap.
  - rewrite Hp. etrans; [|apply (ro_size r Hok)]. unfold Registry.size. apply inj_le, map_subseteq_size.
    apply map_subseteq_spec. intros t e He. destruct (registry_sessions r !! t) as [e0|] eqn:He0.
    + destruct (ro_entry r Hok _ _ He0) as (s & Hs & _). destruct (Hsome t e0 s He0 Hs) as [Hr _].
      rewrite Hr in He. by case_match.
    + by rewrite Hnone in He.
Qed.

(** The keepalive sweep ticks every registered stream once: a stream whose
    tick aborts leaves the registry, every other one stays with its ticked state,
    and exactly the streams with something to send or an abort are reported. *)
Theorem tick_all_spec now r :
  registry_ok r →
  let '(r', actions) := Registry.tick_all now r in
  registry_ok r' ∧
  (∀ t, session_of r' t = s ← session_of r t;
     if is_abort_of (Session.tick now s).2 then None else Some (Session.tick now s).1) ∧
  (∀ t a, (t, a) ∈ actions ↔ a ≠ ActionNone ∧ ∃ s, session_of r t = Some s ∧ a = (Session.tick now s).2).
Proof.
  intros Hok. pose proof (tick_all_lookup now r Hok) as Hl.
  destruct (Registry.tick_all now r) as [r' actions]. destruct Hl as (Hact & Hsome & Hnone & Hheap & Hn & Hp).
  split_and!; [|intros t|done].
  - by apply (tick_all_registry_ok now r).
  - unfold session_of. destruct (registry_sessions r !! t) as [e|] eqn:He; cbn; [|by rewrite Hnone].
    destruct (ro_entry r Hok _ _ He) as (s & Hs & _). destruct (Hsome t e s He Hs) as [-> Hs']. rewrite Hs. cbn.
    destruct (is_abort_of _); done.
Qed.

(** ** Executions *)

Lemma consumer_abort_ok token reason r :
  registry_ok r → registry_ok (Registry.consumer_abort token reason r).1.
Proof.
  intros Hok. unfold Registry.consumer_abort. destruct (registry_sessions r !! token) as [e|] eqn:He; [|done].
  destruct (ro_entry r Hok _ _ He) as (s & Hs & _). rewrite Hs. by apply remove_set_ok.
Qed.

(** Disposing of sessions keeps the set of references. *)
Lemma dispose_entries_heap l r :
  next_ref (foldl Registry.dispose_entry r l) = next_ref r ∧
  registry_policy (foldl Registry.dispose_entry r l) = registry_policy r ∧
  ∀ ref, is_Some (heap (foldl Registry.dispose_entry r l) !! ref) ↔ is_Some (heap r !! ref).
Proof.
  revert r. induction l as [|te l IH]; intros r; cbn; [done|].
  destruct (IH (Registry.dispose_entry r te)) as (-> & -> & IHh).
  unfold Registry.dispose_entry in *. destruct (heap r !! session_ref te.2) as [s|] eqn:Es; cbn in *; [|done].
  split_and!; [done|done|]. intros ref. rewrite IHh, lookup_insert_is_Some'. split; [|by right].
  intros [<-|?]; [rewrite Es; eauto|done].
Qed.

Lemma clear_ok r : registry_ok r → registry_ok (Registry.clear r).
Proof.
  intros Hok. unfold Registry.clear.
  destruct (dispose_entries_heap (map_to_list (registry_sessions r)) r) as (Hn & Hp & Hh).
  split; cbn.
  - intros t e. by rewrite lookup_empty.
  - intros ref Hr. rewrite Hn. by apply (ro_fresh r Hok), Hh.
  - unfold Registry.size. cbn. rewrite map_size_empty. lia.
Qed.

(** A consumer reading through a handle. *)
Definition poll_handle (ref : nat) (r : OpenStreamRegistry) : OpenStreamRegistry :=
  match heap r !! ref with
  | Some s => Registry.set_session ref (Session.poll_next s).1 r
  | None => r
  end.

Lemma poll_facts s :
  progress_token (Session.poll_next s).1 = progress_token s ∧ active (Session.poll_next s).1 = active s.
Proof. unfold Session.poll_next. destruct (queue s); [|done]. destruct (active s) eqn:E; cbn; by rewrite ?E. Qed.

Lemma poll_handle_ok ref r : registry_ok r → registry_ok (poll_handle ref r).
Proof.
  intros Hok. unfold poll_handle. destruct (heap r !! ref) as [s|] eqn:Es; [|done].
  destruct (poll_facts s) as [Ht Ha]. destruct Hok as [He Hf Hs]. split; cbn; [|..|done].
  - intros t e Hte. destruct (He t e Hte) as (s' & Hs' & Htk & Hac).
    destruct (decide (session_ref e = ref)) as [<-|Hne].
    + rewrite lookup_insert_eq. eexists. split_and!; [done|congruence|congruence].
    + rewrite lookup_insert_ne by done. eauto.
  - intros ref'. rewrite lookup_insert_is_Some'. intros [<-|?]; [|by apply Hf]. apply Hf. eauto.
Qed.

Inductive registry_op : Type :=
| GFrame (now : Z) (n : JsonRpcNotification)
| GCreate (now : Z) (token : string) (on_close on_abort : bool)
| GTickAll (now : Z)
| GConsumerAbort (token : string) (reason : option string)
| GPoll (ref : nat)
| GClear.

Section registry_run.
Context `{SerdeJson}.

Definition registry_step (r : OpenStreamRegistry) (op : registry_op) : OpenStreamRegistry :=
  match op with
  | GFrame now n => (Registry.process_frame now n r).1.1
  | GCreate now token oc oa => (Registry.create_session_with now token oc oa r).1
  | GTickAll now => (Registry.tick_all now r).1
  | GConsumerAbort token reason => (Registry.consumer_abort token reason r).1
  | GPoll ref => poll_handle ref r
  | GClear => Registry.clear r
  end.

Lemma registry_step_ok r op : registry_ok r → registry_ok (registry_step r op).
Proof.
  intros Hok. destruct op as [now n|now token oc oa|now|token reason|ref|]; cbn.
  - by apply process_frame_registry_ok.
  - pose proof (create_ok now token oc oa r Hok) as Hc.
    destruct (Registry.create_session_with now token oc oa r). by destruct Hc.
  - pose proof (tick_all_lookup now r Hok) as Hl. destruct (Registry.tick_all now r) as [r' a].
    destruct Hl as (_ & ? & ? & ? & ? & ?). by apply (tick_all_registry_ok now r).
  - by apply consumer_abort_ok.
  - by apply poll_handle_ok.
  - by apply clear_ok.
Qed.

Lemma route_frame_policy now token p f r :
  registry_policy (Registry.route_frame now token p f r).1.1 = registry_policy r.
Proof.
  unfold Registry.route_frame. destruct (_ ≫= _) as [[ref s]|]; [|done].
  destruct (Session.process_frame now p f s) as [s1 [[]|e]]; try done;
    unfold Registry.run_close, Registry.run_abort; cbn; by destruct (registry_sessions r !! token).
Qed.

Lemma registry_step_policy r op : registry_ok r → registry_policy (registry_step r op) = registry_policy r.
Proof.
  intros Hok. destruct op as [now n|now token oc oa|now|token reason|ref|]; cbn.
  - unfold Registry.process_frame. destruct (Registry.parse_frame n) as [[[token p] f]|e]; [|done].
    case_bool_decide; [apply route_frame_policy|]. destruct f; try done.
    unfold Registry.create_session_with. case_bool_decide; [done|]. destruct (_ <=? _); [done|].
    by rewrite route_frame_policy.
  - unfold Registry.create_session_with. case_bool_decide; [done|]. by destruct (_ <=? _).
  - pose proof (tick_all_lookup now r Hok) as Hl. destruct (Registry.tick_all now r) as [r' a].
    by destruct Hl as (_ & _ & _ & _ & _ & ?).
  - unfold Registry.consumer_abort. destruct (registry_sessions r !! token) as [e|]; [|done].
    by destruct (heap r !! session_ref e).
  - unfold poll_handle. by destruct (heap r !! ref).
  - by destruct (dispose_entries_heap (map_to_list (registry_sessions r)) r) as (_ & ? & _).
Qed.

Lemma registry_run_policy r ops :
  registry_ok r → registry_policy (foldl registry_step r ops) = registry_policy r.
Proof.
  revert r. induction ops as [|op ops IH]; intros r Hok; cbn; [done|].
  rewrite IH by by apply registry_step_ok. by apply registry_step_policy.
Qed.

Lemma registry_run_ok r ops : registry_ok r → registry_ok (foldl registry_step r ops).
Proof. revert r. induction ops as [|op ops IH]; intros r Hok; cbn; [done|]. by apply IH, registry_step_ok. Qed.

Lemma with_policy_ok policy : registry_ok (Registry.with_policy policy).
Proof.
  split; cbn.
  - intros t e. by rewrite lookup_empty.
  - intros ref. rewrite lookup_empty. by intros [].
  - unfold Registry.size. cbn. rewrite map_size_empty. lia.
Qed.

(** Under any sequence of frames, creations, sweeps, cancellations and reads
    a registry holds at most [max_concurrent_streams] streams, each registered
    under its own token and still live, and no two tokens share a session. *)
Theorem registry_streams_bounded policy ops :
  let r := foldl registry_step (Registry.with_policy policy) ops in
  Registry.size r ≤ Z.max 0 (max_concurrent_streams policy) ∧
  (∀ t e, registry_sessions r !! t = Some e →
     ∃ s, session_of r t = Some s ∧ progress_token s = t ∧ active s = true) ∧
  (∀ t1 t2 ref, Registry.get_session t1 r = Some ref → Registry.get_session t2 r = Some ref → t1 = t2).
Proof.
  intros r. assert (registry_ok r) as Hok by apply registry_run_ok, with_policy_ok. split_and!.
  - change policy with (registry_policy (Registry.with_policy policy)).
    rewrite <- (registry_run_policy (Registry.with_policy policy) ops) by apply with_policy_ok. apply (ro_size r Hok).
  - intros t e He. destruct (ro_entry r Hok _ _ He) as (s & Hs & ? & ?). exists s. split; [|done].
    unfold session_of. by rewrite He.
  - unfold Registry.get_session. intros t1 t2 ref.
    destruct (registry_sessions r !! t1) as [e1|] eqn:E1; [|done].
    destruct (registry_sessions r !! t2) as [e2|] eqn:E2; [|done]. cbn. intros [= H1] [= H2].
    by eapply session_refs_distinct; eauto; congruence.
Qed.
End registry_run.

(** ** Witnesses *)

Definition demo_stream_frames : list registry_op :=
  [GFrame 0 (into_progress_notification (Start None) "a" 1 None);
   GFrame 0 (into_progress_notification (Start None) "b" 1 None);
   GFrame 1 (into_progress_notification (Chunk 0 "x") "a" 2 None)].
Definition demo_registry : OpenStreamRegistry :=
  foldl (@registry_step bits_serde) (Registry.with_policy OpenStreamRegistryPolicy_default) demo_stream_frames.

Lemma demo_registry_ok : registry_ok demo_registry.
Proof. apply registry_run_ok, with_policy_ok. Qed.

Lemma stream_frame_isolation_witness :
  let bad := into_progress_notification (Chunk 0 "again") "a" 3 None in
  let '(r', res, _) := @Registry.process_frame bits_serde 2 bad demo_registry in
  is_ok res = false ∧ registry_sessions r' !! "a" = None ∧ session_of r' "b" = session_of demo_registry "b".
Proof.
  pose proof (@stream_frame_isolation bits_serde 2 (into_progress_notification (Chunk 0 "again") "a" 3 None)
    demo_registry "a" 3 (Chunk 0 "again") demo_registry_ok ltac:(by vm_compute)) as Hw.
  assert (is_ok (@Registry.process_frame bits_serde 2
    (into_progress_notification (Chunk 0 "again") "a" 3 None) demo_registry).1.2 = false) as Hr by by vm_compute.
  cbv zeta. destruct (@Registry.process_frame bits_serde 2 _ demo_registry) as [[r' res] calls].
  destruct Hw as (Ho & Hres & _). cbn in Hr. split; [done|]. split; [by destruct res|by apply Ho].
Defined.

Lemma tick_all_spec_witness :
  ("b", SendPing "b:1") ∈ (Registry.tick_all 40000000000 demo_registry).2.
Proof.
  pose proof (tick_all_spec 40000000000 demo_registry demo_registry_ok) as Hw.
  destruct (Registry.tick_all 40000000000 demo_registry) as [r' actions]. destruct Hw as (_ & _ & Hw).
  assert (match session_of demo_registry "b" with
          | Some s => (Session.tick 40000000000 s).2 | None => ActionNone end = SendPing "b:1") as Ht by by vm_compute.
  destruct (session_of demo_registry "b") as [s|] eqn:E; [|done].
  apply Hw. split; [done|]. exists s. by split.
Defined.
