(* ===== verification/OpenStreamWriter.v ===== *)
(** * CEP-41 open streams: the writer

    Models [src/transport/open_stream/writer.rs].  Whether the injected publisher
    succeeds is an input of each operation, and an operation returns the frames it
    handed to it.  The operations that take the op lock run one after the other;
    [abort], [send_probe], [tick], [ack_probe] and [dispose] do not take it and
    are steps of their own, between those operations. *)

From Stdlib Require Import Sorted.
From S2P Require Import Prelude Json CoreTypes OversizedFrame Instances OversizedReceiver OpenStreamFrame OpenStreamSession OpenStreamRegistry.

(** ** State *)

Record OpenStreamWriterOptions : Type := mkWriterOptions {
  wo_progress_token : string;
  wo_content_type : option string;
  wo_on_close : bool;
  wo_on_abort : bool;
  wo_idle_timeout : option Z;
  wo_probe_timeout : Z;
}.

Definition with_keepalive (o : OpenStreamWriterOptions) (idle probe : Z) : OpenStreamWriterOptions :=
  mkWriterOptions (wo_progress_token o) (wo_content_type o) (wo_on_close o) (wo_on_abort o) (Some idle) probe.

(** [WriterInner]. *)
Record OpenStreamWriter : Type := mkWriter {
  w_options : OpenStreamWriterOptions;
  w_chunk_index : Z;
  w_progress : Z;
  w_control_nonce : Z;
  w_active : bool;
  w_started : bool;
  w_last_activity : Z;
  w_pending_probe_nonce : option string;
  w_probe_deadline : option Z;
}.

(** A frame handed to the publisher: its progress, the frame, and whether it was
    published. *)
Definition attempt : Type := Z * OpenStreamFrame * bool.

Module Writer.

Definition new (now : Z) (o : OpenStreamWriterOptions) : OpenStreamWriter :=
  mkWriter o 0 0 0 true false now None None.

Definition progress_token (w : OpenStreamWriter) : string := wo_progress_token (w_options w).
Definition is_active (w : OpenStreamWriter) : bool := w_active w.
Definition has_started (w : OpenStreamWriter) : bool := w_started w.

(** Field updates. *)
Definition set_counters (w : OpenStreamWriter) (index progress control : Z) : OpenStreamWriter :=
  mkWriter (w_options w) index progress control (w_active w) (w_started w) (w_last_activity w)
    (w_pending_probe_nonce w) (w_probe_deadline w).
Definition set_flags (w : OpenStreamWriter) (active started : bool) (activity : Z) : OpenStreamWriter :=
  mkWriter (w_options w) (w_chunk_index w) (w_progress w) (w_control_nonce w) active started activity
    (w_pending_probe_nonce w) (w_probe_deadline w).
Definition set_probe (w : OpenStreamWriter) (activity : Z) (nonce : option string) (deadline : option Z)
  : OpenStreamWriter :=
  mkWriter (w_options w) (w_chunk_index w) (w_progress w) (w_control_nonce w) (w_active w) (w_started w)
    activity nonce deadline.

(** [next_progress]: the counter bumped. *)
Definition next_progress (w : OpenStreamWriter) : OpenStreamWriter * Z :=
  let p := u64_add (w_progress w) 1 in
  (set_counters w (w_chunk_index w) p (w_control_nonce w), p).

(** [control_nonce.fetch_add(1) + 1] and the nonce made of it. *)
Definition mint_nonce (w : OpenStreamWriter) : OpenStreamWriter * string :=
  let n := u64_add (w_control_nonce w) 1 in
  (set_counters w (w_chunk_index w) (w_progress w) n, progress_token w +:+ ":" +:+ show_Z n).

(** Handing a frame to the publisher. *)
Definition publish (f : OpenStreamFrame) (ok : bool) (w : OpenStreamWriter) : OpenStreamWriter * list attempt :=
  let '(w1, p) := next_progress w in (w1, [(p, f, ok)]).

(** The third component is whether the operation succeeded. *)
Definition start_internal (now : Z) (start_ok : bool) (w : OpenStreamWriter)
  : OpenStreamWriter * list attempt * bool :=
  if w_started w || negb (w_active w) then (w, [], true)
  else
    let '(w1, out) := publish (Start (wo_content_type (w_options w))) start_ok w in
    if start_ok then
      (set_flags w1 (w_active w1) true
         (if wo_idle_timeout (w_options w) is Some _ then now else w_last_activity w1), out, true)
    else (w1, out, false).

Definition start (now : Z) (start_ok : bool) (w : OpenStreamWriter) : OpenStreamWriter * list attempt * bool :=
  start_internal now start_ok w.

Definition write (now : Z) (data : string) (start_ok ok : bool) (w : OpenStreamWriter)
  : OpenStreamWriter * list attempt * bool :=
  let '(w1, out1, started) := start_internal now start_ok w in
  if negb started then (w1, out1, false)
  else if negb (w_active w1) then (w1, out1, true)
  else
    let '(w2, out2) := publish (Chunk (w_chunk_index w1) data) ok w1 in
    if ok then (set_counters w2 (u64_add (w_chunk_index w2) 1) (w_progress w2) (w_control_nonce w2),
                out1 ++ out2, true)
    else (w2, out1 ++ out2, false).

Definition ping (ok : bool) (w : OpenStreamWriter) : OpenStreamWriter * list attempt * bool :=
  if negb (w_active w) then (w, [], true)
  else
    let '(w1, nonce) := mint_nonce w in
    let '(w2, out) := publish (Ping nonce) ok w1 in (w2, out, ok).

Definition pong (now : Z) (nonce : string) (ok : bool) (w : OpenStreamWriter)
  : OpenStreamWriter * list attempt * bool :=
  if negb (w_active w) then (w, [], true)
  else
    let w1 := match wo_idle_timeout (w_options w) with
              | Some _ => set_probe w now (w_pending_probe_nonce w) (w_probe_deadline w)
              | None => w
              end in
    let '(w2, out) := publish (Pong nonce) ok w1 in (w2, out, ok).

Definition tick (now : Z) (w : OpenStreamWriter) : OpenStreamWriter * KeepaliveAction :=
  match wo_idle_timeout (w_options w) with
  | None => (w, ActionNone)
  | Some idle_timeout =>
      if negb (w_active w) || negb (w_started w) then (w, ActionNone)
      else if (match w_probe_deadline w, w_pending_probe_nonce w with
               | Some deadline, Some _ => deadline <=? now
               | _, _ => false
               end)
      then (w, ActionAbort "Probe timeout")
      else if bool_decide (w_pending_probe_nonce w = None)
              && (idle_timeout <=? Z.max 0 (now - w_last_activity w))
      then
        let '(w1, nonce) := mint_nonce w in
        (set_probe w1 (w_last_activity w1) (Some nonce) (Some (now + wo_probe_timeout (w_options w))),
         SendPing nonce)
      else (w, ActionNone)
  end.

Definition send_probe (nonce : string) (ok : bool) (w : OpenStreamWriter)
  : OpenStreamWriter * list attempt * bool :=
  if negb (w_active w) then (w, [], true)
  else let '(w1, out) := publish (Ping nonce) ok w in (w1, out, ok).

Definition ack_probe (now : Z) (nonce : string) (w : OpenStreamWriter) : OpenStreamWriter :=
  if w_active w && bool_decide (w_pending_probe_nonce w = Some nonce)
  then set_probe w now None None else w.

Definition dispose (w : OpenStreamWriter) : OpenStreamWriter :=
  set_flags w false (w_started w) (w_last_activity w).

(** [close]; the hook is called after the attempt, whatever its result. *)
Definition close (now : Z) (start_ok ok : bool) (w : OpenStreamWriter)
  : OpenStreamWriter * list attempt * bool * list hook_call :=
  let '(w1, out1, started) := start_internal now start_ok w in
  if negb started then (w1, out1, false, [])
  else if negb (w_active w1) then (w1, out1, true, [])
  else
    let w2 := set_flags w1 false (w_started w1) (w_last_activity w1) in
    let last_chunk_index := if 0 <? w_chunk_index w2 then Some (w_chunk_index w2 - 1) else None in
    let '(w3, out2) := publish (Close last_chunk_index) ok w2 in
    (w3, out1 ++ out2, ok, if wo_on_close (w_options w) then [CallOnClose (progress_token w)] else []).

Definition abort (reason : option string) (ok : bool) (w : OpenStreamWriter)
  : OpenStreamWriter * list attempt * bool * list hook_call :=
  if negb (w_active w) then (w, [], true, [])
  else
    let w1 := set_flags w false (w_started w) (w_last_activity w) in
    let '(w2, out) := publish (AbortFrame reason) ok w1 in
    (w2, out, ok, if wo_on_abort (w_options w) then [CallOnAbort (progress_token w) reason] else []).

(** The notification of an attempt. *)
Definition attempt_notification (token : string) (a : attempt) : JsonRpcNotification :=
  into_progress_notification a.1.2 token a.1.1 None.

End Writer.

(** ** Executions *)

Inductive writer_op : Type :=
| WStart (now : Z) (start_ok : bool)
| WWrite (now : Z) (data : string) (start_ok ok : bool)
| WPing (ok : bool)
| WPong (now : Z) (nonce : string) (ok : bool)
| WTick (now : Z)
| WSendProbe (nonce : string) (ok : bool)
| WAckProbe (now : Z) (nonce : string)
| WDispose
| WClose (now : Z) (start_ok ok : bool)
| WAbort (reason : option string) (ok : bool).

Definition writer_step (w : OpenStreamWriter) (op : writer_op) : OpenStreamWriter * list attempt :=
  match op with
  | WStart now start_ok => (Writer.start now start_ok w).1
  | WWrite now data start_ok ok => (Writer.write now data start_ok ok w).1
  | WPing ok => (Writer.ping ok w).1
  | WPong now nonce ok => (Writer.pong now nonce ok w).1
  | WTick now => ((Writer.tick now w).1, [])
  | WSendProbe nonce ok => (Writer.send_probe nonce ok w).1
  | WAckProbe now nonce => (Writer.ack_probe now nonce w, [])
  | WDispose => (Writer.dispose w, [])
  | WClose now start_ok ok => (Writer.close now start_ok ok w).1.1
  | WAbort reason ok => (Writer.abort reason ok w).1.1
  end.

Fixpoint writer_run (w : OpenStreamWriter) (ops : list writer_op) : OpenStreamWriter * list attempt :=
  match ops with
  | [] => (w, [])
  | op :: ops' =>
      let '(w1, out1) := writer_step w op in
      let '(w2, out2) := writer_run w1 ops' in (w2, out1 ++ out2)
  end.

(** The indexes of the published chunks, and the terminal frames. *)
Definition published_chunks (out : list attempt) : list Z :=
  omap (λ a : attempt, match a with (_, Chunk i _, true) => Some i | _ => None end) out.
Definition is_terminal (a : attempt) : bool :=
  match a.1.2 with Close _ | AbortFrame _ => true | _ => false end.
Definition is_published_start (a : attempt) : bool :=
  match a with (_, Start _, true) => true | _ => false end.
Definition needs_start (a : attempt) : bool :=
  match a.1.2 with Chunk _ _ | Close _ => true | _ => false end.

(** No frame follows a terminal one. *)
Fixpoint terminal_last (out : list attempt) : bool :=
  match out with
  | [] => true
  | a :: out' => (if is_terminal a then bool_decide (out' = []) else true) && terminal_last out'
  end.

(** Every chunk and close follows a published [start] ([started]: one was
    published before). *)
Fixpoint start_first (started : bool) (out : list attempt) : bool :=
  match out with
  | [] => true
  | a :: out' => (if needs_start a then started else true) && start_first (started || is_published_start a) out'
  end.

(** ** The wire order of a writer *)

(** From [w] to [w'] the writer attempted [out]. *)
Record wire (w w' : OpenStreamWriter) (out : list attempt) : Prop := {
  wi_progress : out.*1.*1 = seqZ (w_progress w + 1) (Z.of_nat (length out));
  wi_counter : w_progress w' = w_progress w + Z.of_nat (length out);
  wi_chunks : published_chunks out = seqZ (w_chunk_index w) (w_chunk_index w' - w_chunk_index w);
  wi_index : w_chunk_index w ≤ w_chunk_index w' ≤ w_chunk_index w + Z.of_nat (length out);
  wi_inactive : w_active w = false → out = [] ∧ w_active w' = false;
  wi_terminal : terminal_last out = true ∧ (existsb is_terminal out = true → w_active w' = false);
  wi_start : start_first (w_started w) out = true ∧
    w_started w' = w_started w || existsb is_published_start out;
}.

Lemma wire_nil w w' :
  w_progress w' = w_progress w → w_chunk_index w' = w_chunk_index w → w_started w' = w_started w →
  (w_active w = false → w_active w' = false) → wire w w' [].
Proof.
  intros H1 H2 H3 H4. split; cbn; rewrite ?H1, ?H2, ?H3, ?orb_false_r; try done; try lia.
  - by rewrite Z.sub_diag.
  - naive_solver.
Qed.

Lemma terminal_last_app l1 l2 :
  terminal_last l1 = true → terminal_last l2 = true →
  (existsb is_terminal l1 = true → l2 = []) → terminal_last (l1 ++ l2) = true.
Proof.
  induction l1 as [|a l1 IH]; cbn; [done|]. intros H1 H2 H3. b2p.
  destruct (is_terminal a) eqn:Ea; cbn in *; [|by apply IH].
  rewrite (H3 eq_refl), app_nil_r. b2p. subst. done.
Qed.

Lemma start_first_app st l1 l2 :
  start_first st (l1 ++ l2) = start_first st l1 && start_first (st || existsb is_published_start l1) l2.
Proof.
  revert st. induction l1 as [|a l1 IH]; intros st; cbn; [by rewrite orb_false_r|].
  by rewrite IH, andb_assoc, orb_assoc.
Qed.

Lemma wire_trans w1 w2 w3 out1 out2 :
  wire w1 w2 out1 → wire w2 w3 out2 → wire w1 w3 (out1 ++ out2).
Proof.
  intros [A1 A2 A3 A4 A5 [A6 A6'] [A7 A7']] [B1 B2 B3 B4 B5 [B6 B6'] [B7 B7']]. split.
  - rewrite !fmap_app, length_app, A1, B1, A2, Nat2Z.inj_add, seqZ_app by lia. do 2 f_equal; lia.
  - rewrite length_app. lia.
  - unfold published_chunks in *. rewrite omap_app, A3, B3.
    replace (w_chunk_index w3 - w_chunk_index w1) with
      (w_chunk_index w2 - w_chunk_index w1 + (w_chunk_index w3 - w_chunk_index w2)) by lia.
    rewrite seqZ_app by lia. do 2 f_equal; lia.
  - rewrite length_app. lia.
  - intros Ha. destruct (A5 Ha) as [-> Ha2]. by destruct (B5 Ha2) as [-> ?].
  - rewrite existsb_app. split.
    + apply terminal_last_app; [done|done|]. intros Ht. by apply B5, A6'.
    + intros [Ht|Ht]%orb_true_iff; [by apply B5, A6'|by apply B6'].
  - rewrite start_first_app, existsb_app, A7, <- A7', B7, B7', A7'. split; [done|]. by rewrite orb_assoc.
Qed.

(** One frame handed to the publisher by a live writer. *)
Lemma wire_publish w w' (p : Z) (f : OpenStreamFrame) (ok : bool) :
  p = w_progress w + 1 → w_progress w' = p → w_active w = true →
  w_chunk_index w' = w_chunk_index w + (match f with Chunk _ _ => if ok then 1 else 0 | _ => 0 end) →
  (match f with Chunk i _ => i = w_chunk_index w | _ => True end) →
  (is_terminal (p, f, ok) = true → w_active w' = false) →
  (needs_start (p, f, ok) = true → w_started w = true) →
  w_started w' = w_started w || is_published_start (p, f, ok) →
  wire w w' [(p, f, ok)].
Proof.
  intros -> Hp Ha Hi Hc Ht Hs Hst. split; cbn -[seqZ].
  - done.
  - lia.
  - unfold published_chunks. cbn. rewrite Hi.
    replace (w_chunk_index w + _ - w_chunk_index w) with
      (match f with Chunk _ _ => if ok then 1 else 0 | _ => 0 end) by lia.
    destruct f; try done. destruct ok; [|done]. by subst.
  - destruct f; try lia. destruct ok; lia.
  - congruence.
  - rewrite orb_false_r. split; [|done]. by destruct (is_terminal _).
  - rewrite orb_false_r. split; [|done]. destruct (needs_start _); [|done]. by rewrite Hs.
Qed.

Lemma next_progress_small w :
  0 ≤ w_progress w → w_progress w + 1 < u64_modulus → u64_add (w_progress w) 1 = w_progress w + 1.
Proof. intros. apply u64_add_small; lia. Qed.

Lemma start_internal_wire now ok w :
  0 ≤ w_progress w → w_progress w + 1 < u64_modulus →
  let '(w', out, res) := Writer.start_internal now ok w in
  wire w w' out ∧ w_active w' = w_active w ∧ (length out <= 1)%nat ∧
  w_options w' = w_options w ∧ (res = true → w_active w' = true → w_started w' = true).
Proof.
  intros H0 Hn. unfold Writer.start_internal. destruct (w_started w) eqn:Es; cbn.
  { split_and!; [by apply wire_nil|done|lia|done|done]. }
  destruct (w_active w) eqn:Ea; cbn; [|split_and!; [by apply wire_nil|done|lia|done|congruence]].
  destruct ok; cbn; rewrite next_progress_small by done; split_and!; try done; try lia;
    apply wire_publish; cbn; rewrite ?Es, ?Ea; try done; lia.
Qed.

Lemma writer_step_wire w op :
  0 ≤ w_progress w → w_progress w + 2 < u64_modulus → 0 ≤ w_chunk_index w ≤ w_progress w →
  let '(w', out) := writer_step w op in wire w w' out ∧ (length out <= 2)%nat.
Proof.
  intros H0 Hn Hi. destruct op as [now sok|now data sok ok|ok|now nonce ok|now|nonce ok|now nonce| |now sok ok|reason ok]; cbn.
  - pose proof (start_internal_wire now sok w H0 ltac:(lia)) as Hs. unfold Writer.start.
    destruct (Writer.start_internal now sok w) as [[w' out] res]. cbn. destruct Hs as (? & _ & ? & _). split; [done|lia].
  - pose proof (start_internal_wire now sok w H0 ltac:(lia)) as Hs. unfold Writer.write.
    destruct (Writer.start_internal now sok w) as [[w1 out] res]. destruct Hs as (Hw & Ha & Hl & _ & Hst).
    destruct res; cbn; [|split; [done|lia]]. destruct (w_active w1) eqn:Ea1; cbn; [|split; [done|lia]].
    pose proof (wi_counter _ _ _ Hw) as Hc. pose proof (wi_index _ _ _ Hw) as Hix.
    assert (∀ (ok : bool) w2, w_progress w2 = w_progress w1 + 1 → w_active w2 = true → w_started w2 = w_started w1 →
      w_chunk_index w2 = w_chunk_index w1 + (if ok then 1 else 0) →
      wire w w2 (out ++ [(w_progress w1 + 1, Chunk (w_chunk_index w1) data, ok)])) as Hone.
    { intros ok' w2 Hp2 Ha2 Hs2 Hi2. eapply wire_trans; [exact Hw|].
      apply wire_publish; try done; [by rewrite Hst|]. cbn. by rewrite orb_false_r. }
    rewrite next_progress_small by lia. destruct ok; cbn; (split; [|rewrite length_app; cbn; lia]).
    + apply (Hone true); cbn; try done. rewrite u64_add_small; lia.
    + apply (Hone false); cbn; try done. lia.
  - unfold Writer.ping. destruct (w_active w) eqn:Ea; cbn; [|split; [by apply wire_nil|lia]].
    rewrite next_progress_small by lia. split; [|lia]. apply wire_publish; cbn; rewrite ?orb_false_r; try done; lia.
  - unfold Writer.pong. destruct (w_active w) eqn:Ea; cbn; [|split; [by apply wire_nil|lia]].
    destruct (wo_idle_timeout (w_options w)); cbn; rewrite next_progress_small by lia; (split; [|lia]);
      apply wire_publish; cbn; rewrite ?orb_false_r; try done; lia.
  - unfold Writer.tick. split; [|lia].
    destruct (wo_idle_timeout (w_options w)); [|by apply wire_nil].
    destruct (negb (w_active w) || negb (w_started w)); [by apply wire_nil|].
    case_match; [by apply wire_nil|]. destruct (_ && _); by apply wire_nil.
  - unfold Writer.send_probe. destruct (w_active w) eqn:Ea; cbn; [|split; [by apply wire_nil|lia]].
    rewrite next_progress_small by lia. split; [|lia]. apply wire_publish; cbn; rewrite ?orb_false_r; try done; lia.
  - unfold Writer.ack_probe. split; [|lia]. case_match; by apply wire_nil.
  - split; [by apply wire_nil|lia].
  - pose proof (start_internal_wire now sok w H0 ltac:(lia)) as Hs. unfold Writer.close.
    destruct (Writer.start_internal now sok w) as [[w1 out] res]. destruct Hs as (Hw & Ha & Hl & _ & Hst).
    destruct res; cbn; [|split; [done|lia]]. destruct (w_active w1) eqn:Ea1; cbn; [|split; [done|lia]].
    pose proof (wi_counter _ _ _ Hw) as Hc. rewrite next_progress_small by (cbn; lia). cbn.
    split; [|rewrite length_app; cbn; lia]. eapply wire_trans; [exact Hw|].
    apply wire_publish; cbn; rewrite ?orb_false_r; try done; try lia. intros _. by apply Hst.
  - unfold Writer.abort. destruct (w_active w) eqn:Ea; cbn; [|split; [by apply wire_nil|lia]].
    rewrite next_progress_small by (cbn; lia). cbn. split; [|lia].
    apply wire_publish; cbn; rewrite ?orb_false_r; try done; lia.
Qed.

Lemma writer_run_wire ops w :
  0 ≤ w_progress w → w_progress w + 2 * Z.of_nat (length ops) < u64_modulus →
  0 ≤ w_chunk_index w ≤ w_progress w →
  let '(w', out) := writer_run w ops in wire w w' out.
Proof.
  revert w. induction ops as [|op ops IH]; intros w H0 Hn Hi; cbn; [by apply wire_nil|]. cbn [length] in Hn.
  pose proof (writer_step_wire w op H0 ltac:(lia) Hi) as Hs.
  destruct (writer_step w op) as [w1 out1]. destruct Hs as [Hw Hl].
  pose proof (wi_counter _ _ _ Hw). pose proof (wi_index _ _ _ Hw). pose proof (wi_progress _ _ _ Hw).
  specialize (IH w1). destruct (writer_run w1 ops) as [w2 out2]. eapply wire_trans; [exact Hw|].
  apply IH; lia.
Qed.

(** The wire order of a stream: whatever operations are called, in whatever
    order and with whatever publish failures, the frames handed to the publisher
    carry the progress values 1, 2, 3 and so on, the published chunks have the
    indexes 0, 1, 2 and so on (a failed write is retried under the same index),
    every chunk and close follows a published [start], and nothing follows a
    terminal frame. *)
Theorem writer_wire_order now o ops :
  2 * Z.of_nat (length ops) < u64_modulus →
  let '(w, out) := writer_run (Writer.new now o) ops in
  out.*1.*1 = seqZ 1 (Z.of_nat (length out)) ∧
  published_chunks out = seqZ 0 (w_chunk_index w) ∧
  terminal_last out = true ∧ start_first false out = true.
Proof.
  intros Hn. pose proof (writer_run_wire ops (Writer.new now o) ltac:(done) ltac:(cbn; lia) ltac:(cbn; lia)) as Hw.
  destruct (writer_run (Writer.new now o) ops) as [w out]. destruct Hw as [H1 _ H3 _ _ [H6 _] [H7 _]]. cbn in *.
  rewrite Z.sub_0_r in H3. done.
Qed.

(** ** From the writer to the reader *)

(** A tool that writes [data] and closes, every publish succeeding. *)
Definition stream_ops (now : Z) (data : list string) : list writer_op :=
  map (λ d, WWrite now d true true) data ++ [WClose now true true].

(** The chunks of a stream, the first with progress [p] and index [i]. *)
Fixpoint chunk_attempts (p i : Z) (data : list string) : list attempt :=
  match data with
  | [] => []
  | d :: data' => (p, Chunk i d, true) :: chunk_attempts (p + 1) (i + 1) data'
  end.

Lemma stream_ops_started now data w :
  w_started w = true → w_active w = true → 0 ≤ w_chunk_index w → 0 ≤ w_progress w →
  w_chunk_index w + Z.of_nat (length data) < u64_modulus →
  w_progress w + Z.of_nat (length data) + 1 < u64_modulus →
  let n := w_chunk_index w + Z.of_nat (length data) in
  (writer_run w (stream_ops now data)).2 =
  chunk_attempts (w_progress w + 1) (w_chunk_index w) data ++
  [(w_progress w + Z.of_nat (length data) + 1, Close (if n =? 0 then None else Some (n - 1)), true)].
Proof.
  revert w. induction data as [|d data IH]; intros w Hs Ha Hi Hp Hni Hnp; cbn -[Z.of_nat].
  - unfold Writer.close, Writer.start_internal. rewrite Hs. cbn. rewrite Ha. cbn.
    rewrite !Z.add_0_r, u64_add_small by lia.
    destruct (Z.ltb_spec 0 (w_chunk_index w)); destruct (Z.eqb_spec (w_chunk_index w) 0); try lia; done.
  - unfold Writer.write, Writer.start_internal. rewrite Hs. cbn -[Z.of_nat]. rewrite Ha. cbn -[Z.of_nat].
    rewrite !u64_add_small by (cbn [length] in *; lia).
    match goal with |- context [writer_run ?x _] => specialize (IH x); fold (stream_ops now data);
      destruct (writer_run x (stream_ops now data)) as [w2 out2] end.
    cbn [w_started w_active w_chunk_index w_progress Writer.set_counters snd length] in *.
    rewrite IH by (done || lia). cbn -[Z.of_nat]. f_equal.
    replace (w_chunk_index w + 1 + Z.of_nat (length data)) with (w_chunk_index w + Z.of_nat (S (length data))) by lia.
    replace (w_progress w + 1 + Z.of_nat (length data)) with (w_progress w + Z.of_nat (S (length data))) by lia.
    done.
Qed.

(** The same from a new writer: the first operation publishes the [start]. *)
Lemma stream_ops_new now t0 o data :
  Z.of_nat (length data) + 2 < u64_modulus →
  let n := Z.of_nat (length data) in
  (writer_run (Writer.new t0 o) (stream_ops now data)).2 =
  (1, Start (wo_content_type o), true) ::
  chunk_attempts 2 0 data ++ [(n + 2, Close (if n =? 0 then None else Some (n - 1)), true)].
Proof.
  intros Hn. cbv zeta.
  set (w1 := Writer.set_flags (Writer.next_progress (Writer.new t0 o)).1 true true
    (if wo_idle_timeout o is Some _ then now else t0)).
  assert ((writer_run (Writer.new t0 o) (stream_ops now data)).2 =
    (1, Start (wo_content_type o), true) :: (writer_run w1 (stream_ops now data)).2) as ->.
  { unfold w1. destruct data as [|d data]; cbn; [by destruct (wo_idle_timeout o)|].
    by destruct (writer_run _ _). }
  f_equal. assert (w_progress w1 = 1) as Hp by done. assert (w_chunk_index w1 = 0) as Hi by done.
  rewrite stream_ops_started by (done || lia). rewrite Hp, Hi.
  replace (1 + Z.of_nat (length data) + 1) with (Z.of_nat (length data) + 2) by lia. done.
Qed.

(** The registry fed with notifications, its consumer polling the stream [0] between
    them: [reads] has the number of polls after each, none where it ends.  The
    outcomes of the frames and the results of the polls. *)
Fixpoint registry_read `{SerdeJson} (now : Z) (r : OpenStreamRegistry) (ns : list JsonRpcNotification)
    (reads : list nat)
  : OpenStreamRegistry * list (result FrameOutcome OpenStreamError) *
    list (option (option (result string OpenStreamError))) :=
  match ns with
  | [] => (r, [], [])
  | n :: ns' =>
      let '(r1, res, _) := Registry.process_frame now n r in
      let '(r2, got) :=
        match heap r1 !! 0%nat with
        | Some s =>
            let '(s', got) := poll_times (hd 0%nat reads) s in (Registry.set_session 0 s' r1, got)
        | None => (r1, [])
        end in
      let '(r3, rs, rest) := registry_read now r2 ns' (tl reads) in (r3, res :: rs, got ++ rest)
  end.

(** The consumer keeps up: each chunk fits beside what is still unread when it
    arrives.  A consumer that reads every chunk before the next one keeps up as soon
    as each chunk fits alone; one that reads nothing needs room for all of them. *)
Fixpoint keeps_up (policy : OpenStreamRegistryPolicy) (unread data : list string) (reads : list nat) : bool :=
  match data with
  | [] => true
  | d :: data' =>
      (Z.of_nat (length unread) <? max_buffered_chunks_per_stream policy)
      && (queue_bytes (unread ++ [d]) <=? max_buffered_bytes_per_stream policy)
      && keeps_up policy (drop (hd 0%nat reads) (unread ++ [d])) data' (tl reads)
  end.
Definition stream_fits (policy : OpenStreamRegistryPolicy) (data : list string) (reads : list nat) : bool :=
  (1 <=? max_concurrent_streams policy)
  && (max_buffered_bytes_per_stream policy <=? i64_max)
  && (Z.of_nat (length data) + 2 <=? i64_max)
  && keeps_up policy [] data (tl reads).

Section roundtrip.
Context `{SerdeJson}.

(** The notification of a frame is read back as the frame. *)
Lemma parse_notification token p f :
  token ≠ "" → 0 ≤ p ≤ i64_max → frame_ok f = true →
  Registry.parse_frame (into_progress_notification f token p None) = Ok (token, p, f).
Proof.
  intros Ht Hp Hf. destruct (stream_notification_params f token p None) as (params & Hn & Hcvm & Htok & Hprog).
  unfold Registry.parse_frame. rewrite Hn. cbn. rewrite Hcvm, Htok, Hprog. cbn.
  rewrite stream_from_to_cvm_value by done. unfold str_is_empty. rewrite (proj2 (String.eqb_neq _ _) Ht).
  unfold Registry.parse_progress, number_of_u64, Registry.stream_progress, number_as_i64.
  assert (in_i64 p = true) as ->; [|done]. unfold in_i64, i64_min. apply andb_true_iff. rewrite !Z.leb_le. lia.
Qed.

(** A frame of the one registered stream that its session accepts. *)
Lemma registry_accepts now token p f r s s' :
  token ≠ "" → 0 ≤ p ≤ i64_max → frame_ok f = true →
  registry_sessions r = {[token := mkEntry 0 false false]} → heap r !! 0%nat = Some s →
  Session.process_frame now p f s = (s', Ok OutcomeNone) →
  Registry.process_frame now (into_progress_notification f token p None) r =
  (Registry.set_session 0 s' r, Ok OutcomeNone, []).
Proof.
  intros Ht Hp Hf Hr Hh Hs. unfold Registry.process_frame. rewrite parse_notification by done.
  cbn -[Session.process_frame]. rewrite Hr, lookup_singleton_eq. cbn -[Session.process_frame].
  unfold Registry.route_frame, Registry.get_session. rewrite Hr, lookup_singleton_eq. cbn -[Session.process_frame].
  rewrite Hh. cbn -[Session.process_frame]. by rewrite Hs.
Qed.

(** The [start] frame registers the stream. *)
Lemma registry_start now token policy ct :
  token ≠ "" → 1 ≤ max_concurrent_streams policy →
  ∃ r1, Registry.process_frame now (into_progress_notification (Start ct) token 1 None)
      (Registry.with_policy policy) = (r1, Ok OutcomeNone, []) ∧
    registry_sessions r1 = {[token := mkEntry 0 false false]} ∧
    heap r1 !! 0%nat = Some (Session.process_frame now 1 (Start ct)
      (Session.new now (Registry.session_options token policy))).1.
Proof.
  intros Ht Hmax. unfold Registry.process_frame. rewrite parse_notification by (done || (unfold i64_max; lia)).
  cbn -[Session.process_frame]. unfold Registry.create_session_with, Registry.size. cbn -[Session.process_frame].
  rewrite lookup_empty, map_size_empty. cbn -[Session.process_frame].
  rewrite (proj2 (Z.leb_gt _ _)) by lia. unfold Registry.route_frame, Registry.get_session.
  cbn -[Session.process_frame]. rewrite !lookup_insert_eq. cbn -[Session.process_frame]. rewrite lookup_insert_eq.
  cbn -[Session.process_frame].
  eexists. split; [reflexivity|]. cbn. split; [done|]. by rewrite lookup_insert_eq.
Qed.

(** The [close] frame ends a stream without gaps and frees its token. *)
Lemma registry_close now token r p p' n s :
  token ≠ "" → registry_sessions r = {[token := mkEntry 0 false false]} → heap r !! 0%nat = Some s →
  in_sync p n s → 0 ≤ n < u64_modulus → p < p' → 0 ≤ p' ≤ i64_max →
  ∃ r' s', Registry.process_frame now
      (into_progress_notification (Close (if n =? 0 then None else Some (n - 1))) token p' None) r =
      (r', Ok Closed, []) ∧
    registry_sessions r' = ∅ ∧ heap r' !! 0%nat = Some s' ∧
    active s' = false ∧ terminal s' = None ∧ queue s' = queue s.
Proof.
  intros Ht Hr Hh [Hbuf _ Hnext Hlp (Hst & Ha & _)] Hn Hp Hp'. unfold Registry.process_frame.
  rewrite parse_notification; [|done|done|].
  2:{ destruct (Z.eqb_spec n 0); [done|]. cbn. apply in_u64_spec. lia. }
  cbn -[Session.process_frame]. rewrite Hr, lookup_singleton_eq. cbn -[Session.process_frame].
  unfold Registry.route_frame, Registry.get_session. rewrite Hr, lookup_singleton_eq.
  cbn -[Session.process_frame]. rewrite Hh. cbn -[Session.process_frame].
  pose proof (close_contiguous now p' s n Hst Ha Hbuf Hnext Hn ltac:(lia)) as Hc.
  destruct (Session.process_frame now p' _ s) as [s' res]. destruct Hc as (-> & Ha' & Htm & Hq).
  unfold Registry.run_close. cbn. rewrite Hr, lookup_singleton_eq. cbn. eexists _, s'. split; [reflexivity|].
  cbn. rewrite Hr, delete_singleton_eq, lookup_insert_eq. done.
Qed.

(** The chunks and the [close] of a stream that is being read. *)
Lemma registry_rest now token policy data n p reads r s :
  token ≠ "" → registry_sessions r = {[token := mkEntry 0 false false]} → heap r !! 0%nat = Some s →
  in_sync p n s → 0 ≤ n → 0 ≤ p → n + Z.of_nat (length data) < u64_modulus →
  p + Z.of_nat (length data) + 1 ≤ i64_max →
  max_buffered_chunks s = max_buffered_chunks_per_stream policy →
  max_buffered_bytes s = max_buffered_bytes_per_stream policy → max_buffered_bytes s ≤ i64_max →
  keeps_up policy (queue s) data reads = true →
  let total := n + Z.of_nat (length data) in
  let '(r', rs, got) := registry_read now r
    (map (Writer.attempt_notification token)
       (chunk_attempts (p + 1) n data ++
        [(p + Z.of_nat (length data) + 1, Close (if total =? 0 then None else Some (total - 1)), true)])) reads in
  rs = replicate (length data) (Ok OutcomeNone) ++ [Ok Closed] ∧ registry_sessions r' = ∅ ∧
  ∃ s' seen ended, heap r' !! 0%nat = Some s' ∧ active s' = false ∧ terminal s' = None ∧
    queue s ++ data = seen ++ queue s' ∧ omap id got = payloads seen ++ replicate ended None ∧
    (queue s' ≠ [] → ended = 0%nat).
Proof.
  intros Ht. cbv zeta. revert n p reads r s.
  induction data as [|d data IH]; intros n p reads r s Hr Hh Hs Hn Hp Hnu Hpi Hmc Hmb Hmax Hk;
    cbn -[Z.of_nat u64_modulus poll_times] in *.
  - rewrite !Z.add_0_r in *. unfold Writer.attempt_notification. cbn [fst snd].
    destruct (registry_close now token r p (p + 1) n s) as (r1 & s1 & -> & Hr1 & Hh1 & Ha1 & Ht1 & Hq1);
      [done|done|done|done|lia|lia|lia|].
    rewrite Hh1. pose proof (ended_polls (hd 0%nat reads) s1 Ha1 Ht1) as He.
    destruct (poll_times (hd 0%nat reads) s1) as [s2 got]. destruct He as (Ha2 & Ht2 & Hq2 & Hgot).
    split; [done|]. split; [done|].
    exists s2, (take (hd 0%nat reads) (queue s)), (hd 0%nat reads - length (queue s))%nat.
    cbn. rewrite lookup_insert_eq, app_nil_r, app_nil_r, Hgot, Hq2, Hq1, take_drop. split_and!; try done.
    intros Hne. destruct (decide (hd 0%nat reads <= length (queue s))%nat); [lia|]. by rewrite drop_ge in Hne by lia.
  - b2p. unfold Writer.attempt_notification at 1. cbn [fst snd].
    destruct (in_sync_chunk now p (p + 1) n d s Hs) as (s1 & Hf & Hs1 & Hq1 & Hmc1 & Hmb1); [lia|done|lia|done|lia|lia|].
    rewrite (registry_accepts now token (p + 1) (Chunk n d) r s s1);
      [|done|lia|cbn; apply in_u64_spec; lia|done|done|done].
    cbn -[Z.of_nat u64_modulus poll_times]. rewrite lookup_insert_eq.
    pose proof (in_sync_polls (hd 0%nat reads) _ _ s1 Hs1) as Hpolls.
    destruct (poll_times (hd 0%nat reads) s1) as [s2 got1]. destruct Hpolls as (Hs2 & Hq2 & Hg1 & Hmc2 & Hmb2).
    specialize (IH (n + 1) (p + 1) (tl reads) (Registry.set_session 0 s2 (Registry.set_session 0 s1 r)) s2).
    replace (n + 1 + Z.of_nat (length data)) with (n + Z.of_nat (S (length data))) in IH by lia.
    replace (p + 1 + Z.of_nat (length data)) with (p + Z.of_nat (S (length data))) in IH by lia.
    destruct (registry_read now _ _ (tl reads)) as [[r3 rs] got2].
    destruct IH as (-> & Hr3 & s3 & seen & ended & Hh3 & Ha3 & Ht3 & Hseen & Hg2 & Hend);
      [done|cbn; by rewrite lookup_insert_eq|done|lia|lia|lia|lia|congruence|congruence|congruence|by rewrite Hq2, Hq1|].
    split; [done|]. split; [done|].
    exists s3, (take (hd 0%nat reads) (queue s1) ++ seen), ended. split_and!; [done|done|done| | |done].
    + rewrite <- app_assoc, <- Hseen, Hq2, app_assoc, take_drop, Hq1, <- app_assoc. done.
    + rewrite omap_app, Hg1, Hg2. unfold payloads. by rewrite map_app, app_assoc.
Qed.

(** (C12) End to end: a tool writes a list of payloads to a stream and closes it, every
    publish succeeding.  The published notifications arrive in order at a reader
    whose consumer polls the stream any number of times after each of them, and keeps
    up: every chunk fits the buffers of the stream beside what is still unread when it
    arrives.  Then the registry accepts each notification, closes the stream at the
    last one and frees its token, and all the polls, with those that follow, yield
    exactly the payloads, in order, and then the end of the stream. *)
Theorem open_stream_roundtrip t0 tw tr o policy data reads :
  wo_progress_token o ≠ "" → stream_fits policy data reads = true →
  let out := (writer_run (Writer.new t0 o) (stream_ops tw data)).2 in
  let '(r, rs, got) := registry_read tr (Registry.with_policy policy)
                         (map (Writer.attempt_notification (wo_progress_token o)) out) reads in
  rs = replicate (S (length data)) (Ok OutcomeNone) ++ [Ok Closed] ∧
  registry_sessions r = ∅ ∧
  ∃ s ended, heap r !! 0%nat = Some s ∧
    omap id (got ++ (poll_times (S (length data)) s).2) = payloads data ++ replicate (S ended) None.
Proof.
  intros Ht Hfit out. unfold stream_fits, i64_max in Hfit. b2p.
  set (token := wo_progress_token o) in *. set (n := Z.of_nat (length data)) in *.
  assert (out = _) as -> by (apply stream_ops_new; unfold u64_modulus; lia). fold n.
  destruct (registry_start tr token policy (wo_content_type o)) as (r1 & Hstart & Hsess & Hheap); [done|lia|].
  cbn [map registry_read]. unfold Writer.attempt_notification at 1. cbn [fst snd]. rewrite Hstart, Hheap.
  set (s1 := (Session.process_frame _ _ _ _).1).
  assert (in_sync 1 0 s1) as Hs1 by (split; done).
  pose proof (in_sync_polls (hd 0%nat reads) _ _ s1 Hs1) as Hpolls.
  destruct (poll_times (hd 0%nat reads) s1) as [s2 got1]. destruct Hpolls as (Hs2 & Hq2 & Hg1 & Hmc2 & Hmb2).
  replace (queue s1) with (@nil string) in * by done. rewrite drop_nil in Hq2. rewrite take_nil in Hg1.
  pose proof (registry_rest tr token policy data 0 1 (tl reads) (Registry.set_session 0 s2 r1) s2) as Hrest.
  cbv zeta in Hrest. fold n in Hrest. rewrite !Z.add_0_l in Hrest. replace (1 + n + 1) with (n + 2) in Hrest by lia.
  change (1 + 1) with 2 in Hrest.
  destruct (registry_read tr _ _ (tl reads)) as [[r3 rs] got2].
  destruct Hrest as (-> & Hr3 & s3 & seen & ended & Hh3 & Ha3 & Ht3 & Hseen & Hg2 & Hend);
    [done|done|cbn; by rewrite lookup_insert_eq|done|lia|lia|unfold u64_modulus; lia|unfold i64_max; lia|done|done
    |unfold i64_max; rewrite Hmb2; cbn; lia|by rewrite Hq2|].
  split; [done|]. split; [done|]. rewrite Hq2 in Hseen. cbn in Hseen.
  exists s3, (ended + (length data - length (queue s3)))%nat. split; [done|].
  pose proof (ended_polls (S (length data)) s3 Ha3 Ht3) as He.
  destruct (poll_times (S (length data)) s3) as [s4 got3]. destruct He as (_ & _ & _ & Hg3).
  assert (length (queue s3) <= length data)%nat as Hlen by (rewrite Hseen, length_app; lia).
  cbn [snd].
  rewrite !omap_app, Hg1, Hg2, Hg3, take_ge by lia. rewrite Nat.sub_succ_l by done. cbn [app payloads map].
  rewrite Hseen. unfold payloads. rewrite map_app, <- !app_assoc. f_equal.
  destruct (queue s3) as [|d q]; [|by rewrite Hend].
  cbn [map app length]. rewrite <- replicate_add. f_equal. lia.
Qed.
End roundtrip.

(** ** Witnesses *)

Definition demo_writer_options : OpenStreamWriterOptions := mkWriterOptions "tok" None true true (Some 5) 3.
Definition demo_writer_ops : list writer_op :=
  [WWrite 0 "a" false true; WWrite 0 "a" true true; WPing true; WWrite 1 "b" true false; WWrite 1 "b" true true;
   WAbort (Some "x") true; WWrite 2 "c" true true; WClose 3 true true].

Lemma writer_wire_order_witness :
  let out := (writer_run (Writer.new 0 demo_writer_options) demo_writer_ops).2 in
  out.*1.*1 = [1; 2; 3; 4; 5; 6; 7] ∧ published_chunks out = [0; 1] ∧ terminal_last out = true.
Proof.
  split; [by vm_compute|]. split; [by vm_compute|].
  pose proof (writer_wire_order 0 demo_writer_options demo_writer_ops ltac:(by vm_compute)) as Hw.
  destruct (writer_run (Writer.new 0 demo_writer_options) demo_writer_ops) as [w out].
  by destruct Hw as (_ & _ & Hw & _).
Defined.

(** A consumer that reads each chunk before the next one needs room for one. *)
Definition one_chunk_policy : OpenStreamRegistryPolicy :=
  let p := OpenStreamRegistryPolicy_default in
  mkRegistryPolicy 1 1 1 (idle_timeout_ms p) (probe_timeout_ms p) (close_grace_period_ms p).

Lemma open_stream_roundtrip_witness :
  let out := (writer_run (Writer.new 0 demo_writer_options) (stream_ops 1 ["a"; "b"; "c"])).2 in
  let '(r, rs, got) := @registry_read bits_serde 2 (Registry.with_policy one_chunk_policy)
    (map (Writer.attempt_notification "tok") out) [2; 1; 1; 3]%nat in
  rs = [Ok OutcomeNone; Ok OutcomeNone; Ok OutcomeNone; Ok OutcomeNone; Ok Closed] ∧
  ∃ s ended, heap r !! 0%nat = Some s ∧
    omap id (got ++ (poll_times 4 s).2) = payloads ["a"; "b"; "c"] ++ replicate (S ended) None.
Proof.
  pose proof (@open_stream_roundtrip bits_serde 0 1 2 demo_writer_options one_chunk_policy
    ["a"; "b"; "c"] [2; 1; 1; 3]%nat ltac:(done) ltac:(by vm_compute)) as Hw. cbv zeta in Hw |- *.
  change (wo_progress_token demo_writer_options) with "tok" in Hw.
  destruct (registry_read 2 _ _ _) as [[r rs] got]. destruct Hw as (-> & _ & Hw). split; [reflexivity|exact Hw].
Defined.
