(* ===== verification/PaymentTypes.v ===== *)
(** * CEP-8 payments: constants, types, tags and the pricing helpers

    Models [src/payments/constants.rs], [errors.rs], [types.rs], [tags.rs] and the
    functions of [server_payments_utils.rs] that do not wait on a processor.  A
    payment processor or pricing callback is user code: here it is what the SDK
    reads of it, the identifier of its payment method, and a name by which two
    processors are told apart; its answers are inputs of the tasks that call it
    ([ServerTasks]). *)

From S2P Require Import Prelude Json CoreTypes OversizedReceiver.

(** ** Constants *)

Definition PAYMENT_REQUIRED_METHOD : string := "notifications/payment_required".
Definition PAYMENT_ACCEPTED_METHOD : string := "notifications/payment_accepted".
Definition PAYMENT_REJECTED_METHOD : string := "notifications/payment_rejected".
Definition PAYMENT_REQUIRED_ERROR_CODE : Z := -32042.
Definition PAYMENT_PENDING_ERROR_CODE : Z := -32043.
Definition UNSUPPORTED_PAYMENT_INTERACTION_ERROR_CODE : Z := -32602.
Definition PMI_BITCOIN_LIGHTNING_BOLT11 : string := "bitcoin-lightning-bolt11".
Definition DEFAULT_PAYMENT_TTL_MS : Z := 300000.
Definition DEFAULT_MAX_PENDING_PAYMENTS : Z := 1000.
Definition DEFAULT_SYNTHETIC_PROGRESS_INTERVAL_MS : Z := 30000.

(** ** Errors *)

(** The payload of [Serialization] is a [serde_json::Error]. *)
Inductive PaymentError : Type :=
| Processor (message : string)
| Handler (message : string)
| PaymentCanonicalize (method : string)
| Serialization (message : string).

(** ** Types *)

(** A [serde_json::Map]: entries sorted by key. *)
Abbreviation Meta := (list (string * Value)).

Record PricedCapability : Type := mkPriced {
  cap_method : string;
  cap_name : option string;
  cap_amount : Z;
  cap_max_amount : option Z;
  cap_currency_unit : string;
  cap_description : option string;
}.

Inductive PaymentInteractionPolicy : Type := PolicyOptional | PolicyTransparent.
#[export] Instance PaymentInteractionPolicy_eq_dec : EqDecision PaymentInteractionPolicy.
Proof. solve_decision. Defined.

Record PaymentRequiredParams : Type := mkPaymentRequired {
  preq_amount : Z;
  preq_pay_req : string;
  preq_pmi : string;
  preq_description : option string;
  preq_ttl : option Z;
  preq_meta : option Meta;
}.

Record PaymentAcceptedParams : Type := mkPaymentAccepted {
  pacc_amount : Z;
  pacc_pmi : string;
  pacc_meta : option Meta;
}.

Record PaymentRejectedParams : Type := mkPaymentRejected {
  prej_pmi : string;
  prej_amount : option Z;
  prej_message : option string;
}.

Record PaymentOption : Type := mkPaymentOption {
  popt_amount : Z;
  popt_pmi : string;
  popt_pay_req : string;
  popt_description : option string;
  popt_ttl : option Z;
  popt_meta : option Meta;
}.

Record PaymentRequiredErrorData : Type := mkRequiredData {
  rdata_instructions : option string;
  rdata_payment_options : list PaymentOption;
}.

Record PaymentPendingErrorData : Type := mkPendingData {
  pdata_instructions : option string;
  pdata_retry_after : option Z;
}.

Record UnsupportedPaymentInteractionData : Type := mkUnsupportedData {
  udata_requested : PaymentInteractionMode;
  udata_supported : list PaymentInteractionMode;
}.

Definition UnsupportedPaymentInteractionData_new (requested : PaymentInteractionMode)
  : UnsupportedPaymentInteractionData := mkUnsupportedData requested [Transparent].

Record PaymentProcessorCreateParams : Type := mkCreateParams {
  create_amount : Z;
  create_description : option string;
  create_request_event_id : string;
  create_client_pubkey : string;
}.

(** [PaymentProcessorVerifyParams] without its cancellation token. *)
Record PaymentProcessorVerifyParams : Type := mkVerifyParams {
  verify_pay_req : string;
  verify_request_event_id : string;
  verify_client_pubkey : string;
}.

Record VerifyOutcome : Type := mkVerifyOutcome { verified_meta : option Meta }.

Record ResolvePriceParams : Type := mkResolveParams {
  resolve_capability : PricedCapability;
  resolve_request : JsonRpcRequest;
  resolve_client_pubkey : string;
  resolve_request_event_id : string;
}.

Inductive ResolvePriceResult : Type :=
| Quote (amount : Z) (description : option string) (meta : option Meta)
| Reject (message : option string)
| Waive (meta : option Meta).

(** *** Serialization

    [serde_json::to_value] of the derived [Serialize]: an [Option] field that is
    [None] is skipped, and the resulting map is sorted by key. *)

(** [Value::from(i64)]. *)
Definition number_of_i64 (n : Z) : Value := VNumber (if 0 <=? n then PosInt n else NegInt n).

Definition ser_opt {A} (k : string) (f : A → Value) (o : option A) : list (string * Value) :=
  match o with Some a => [(k, f a)] | None => [] end.

Definition required_params_to_value (p : PaymentRequiredParams) : Value :=
  VObject (obj_of_list
    ([("amount", number_of_i64 (preq_amount p)); ("pay_req", VString (preq_pay_req p));
      ("pmi", VString (preq_pmi p))]
     ++ ser_opt "description" VString (preq_description p)
     ++ ser_opt "ttl" number_of_u64 (preq_ttl p) ++ ser_opt "_meta" VObject (preq_meta p))).

Definition accepted_params_to_value (p : PaymentAcceptedParams) : Value :=
  VObject (obj_of_list
    ([("amount", number_of_i64 (pacc_amount p)); ("pmi", VString (pacc_pmi p))]
     ++ ser_opt "_meta" VObject (pacc_meta p))).

Definition rejected_params_to_value (p : PaymentRejectedParams) : Value :=
  VObject (obj_of_list
    (("pmi", VString (prej_pmi p))
     :: ser_opt "amount" number_of_i64 (prej_amount p)
     ++ ser_opt "message" VString (prej_message p))).

Definition payment_option_to_value (p : PaymentOption) : Value :=
  VObject (obj_of_list
    ([("amount", number_of_i64 (popt_amount p)); ("pmi", VString (popt_pmi p));
      ("pay_req", VString (popt_pay_req p))]
     ++ ser_opt "description" VString (popt_description p)
     ++ ser_opt "ttl" number_of_u64 (popt_ttl p) ++ ser_opt "_meta" VObject (popt_meta p))).

Definition required_data_to_value (d : PaymentRequiredErrorData) : Value :=
  VObject (obj_of_list
    (ser_opt "instructions" VString (rdata_instructions d)
     ++ [("payment_options", VArray (map payment_option_to_value (rdata_payment_options d)))])).

Definition pending_data_to_value (d : PaymentPendingErrorData) : Value :=
  VObject (obj_of_list
    (ser_opt "instructions" VString (pdata_instructions d)
     ++ ser_opt "retry_after" number_of_u64 (pdata_retry_after d))).

(** [PaymentInteractionMode] on the wire, [rename_all = "snake_case"]. *)
Definition payment_mode_name (mode : PaymentInteractionMode) : string :=
  match mode with Transparent => "transparent" | ExplicitGating => "explicit_gating" end.

Definition unsupported_data_to_value (d : UnsupportedPaymentInteractionData) : Value :=
  VObject (obj_of_list
    [("requested", VString (payment_mode_name (udata_requested d)));
     ("supported", VArray (map (λ m, VString (payment_mode_name m)) (udata_supported d)))]).

(** ** Tags ([tags.rs]) *)

Definition cep8_capability_identifier (cap : PricedCapability) : option string :=
  name ← cap_name cap;
  if String.eqb name "" then None
  else if String.eqb (cap_method cap) "tools/call" then Some ("tool:" +:+ name)
  else if String.eqb (cap_method cap) "prompts/get" then Some ("prompt:" +:+ name)
  else if String.eqb (cap_method cap) "resources/read" then Some ("resource:" +:+ name)
  else None.

Definition cap_tag (cap : PricedCapability) : option Tag :=
  identifier ← cep8_capability_identifier cap;
  let price := match cap_max_amount cap with
               | Some max => show_Z (cap_amount cap) +:+ "-" +:+ show_Z max
               | None => show_Z (cap_amount cap)
               end in
  Some [tags.CAPABILITY; identifier; price; cap_currency_unit cap].

Definition cap_tags_from_priced_capabilities (caps : list PricedCapability) : list Tag :=
  omap cap_tag caps.

Definition pmi_tag (pmi : string) : Tag := [tags.PMI; pmi].
Definition pmi_tags (pmis : list string) : list Tag := map pmi_tag pmis.

Definition payment_interaction_tag (mode : PaymentInteractionMode) : Tag :=
  [tags.PAYMENT_INTERACTION; payment_mode_name mode].

Definition parse_pmi_tag (tag : Tag) : option string :=
  match tag with
  | name :: v :: _ => if String.eqb name tags.PMI then Some v else None
  | _ => None
  end.

Definition parse_payment_interaction_value (value : string) : option PaymentInteractionMode :=
  if String.eqb value "transparent" then Some Transparent
  else if String.eqb value "explicit_gating" then Some ExplicitGating
  else None.

Definition parse_payment_interaction_tag (tag : Tag) : option PaymentInteractionMode :=
  if decide (head tag = Some tags.PAYMENT_INTERACTION)
  then value ← tag !! 1%nat; parse_payment_interaction_value value
  else None.

(** ** Pricing helpers ([server_payments_utils.rs]) *)

(** An [Arc<dyn PaymentProcessor>]: its [pmi()] and its identity. *)
Record PaymentProcessor : Type := mkProcessor {
  processor_pmi : string;
  processor_ref : nat;
}.
#[export] Instance PaymentProcessor_eq_dec : EqDecision PaymentProcessor.
Proof. solve_decision. Defined.

(** The configuration; [resolve_price] says whether a pricing callback is set.
    [payment_ttl] is a [Duration] in nanoseconds. *)
Record ServerPaymentsOptions : Type := mkPaymentsOptions {
  processors : list PaymentProcessor;
  priced_capabilities : list PricedCapability;
  resolve_price : bool;
  payment_ttl : Z;
  max_pending_payments : Z;
  payment_interaction_policy : PaymentInteractionPolicy;
}.

Definition ServerPaymentsOptions_new (ps : list PaymentProcessor) (caps : list PricedCapability)
  : ServerPaymentsOptions :=
  mkPaymentsOptions ps caps false (from_millis DEFAULT_PAYMENT_TTL_MS)
    DEFAULT_MAX_PENDING_PAYMENTS PolicyOptional.

Definition DEFAULT_VERIFICATION_TIMEOUT : Z := from_millis (5 * 60 * 1000).

Definition build_processors_by_pmi (ps : list PaymentProcessor) : gmap string PaymentProcessor :=
  foldl (λ m p, <[processor_pmi p := p]> m) ∅ ps.

Definition capability_name_for_pricing (request : JsonRpcRequest) : option string :=
  params ← req_params request;
  let m := req_method request in
  if String.eqb m "tools/call" || String.eqb m "prompts/get" then get params "name" ≫= as_str
  else if String.eqb m "resources/read" then get params "uri" ≫= as_str
  else None.

Definition prices (request : JsonRpcRequest) (p : PricedCapability) : bool :=
  String.eqb (cap_method p) (req_method request) &&
  match cap_name p with
  | None => true
  | Some name => bool_decide (Some name = capability_name_for_pricing request)
  end.

Definition match_priced_capability (request : JsonRpcRequest) (priced : list PricedCapability)
  : option PricedCapability := List.find (prices request) priced.

Definition verification_timeout (ttl_seconds : option Z) : Z :=
  match ttl_seconds with
  | None => DEFAULT_VERIFICATION_TIMEOUT
  | Some ttl =>
      if ttl =? 0 then DEFAULT_VERIFICATION_TIMEOUT
      else if ttl * 1000 <=? u64_max then from_millis (ttl * 1000) else DEFAULT_VERIFICATION_TIMEOUT
  end.

(** [Iterator::find_map]. *)
Fixpoint find_map {A B} (f : A → option B) (l : list A) : option B :=
  match l with [] => None | x :: l' => match f x with Some y => Some y | None => find_map f l' end end.

Definition resolve_payment_processor (client_pmis : option (list string))
    (processors_by_pmi : gmap string PaymentProcessor) (ps : list PaymentProcessor)
  : result PaymentProcessor PaymentError :=
  let advertised := pmis ← client_pmis; find_map (λ pmi, processors_by_pmi !! pmi) pmis in
  match (match advertised with Some p => Some p | None => head ps end) with
  | Some p => Ok p
  | None => Err (Processor "no payment processors configured")
  end.

Inductive InitiationOutcome : Type :=
| Rejected (pmi : string) (amount : Z) (message : option string)
| Waived
| PaymentRequired (processor : PaymentProcessor) (payment_required : PaymentRequiredParams)
    (merged_meta : option Meta) (verify_timeout : Z).

(** The merge at the end of [resolve_and_initiate_payment]. *)
Definition merge_meta (processor_meta quote_meta : option Meta) : option Meta :=
  match processor_meta, quote_meta with
  | None, None => None
  | _, _ =>
      Some (foldl (λ merged kv, obj_insert kv.1 kv.2 merged)
              (default [] processor_meta) (default [] quote_meta))
  end.

(** ** Lemmas *)

(** The processor registered last for a payment method. *)
Lemma build_processors_lookup ps pmi :
  build_processors_by_pmi ps !! pmi =
  List.find (λ p, String.eqb (processor_pmi p) pmi) (reverse ps).
Proof.
  unfold build_processors_by_pmi. induction ps as [|p ps IH] using rev_ind; [done|].
  rewrite foldl_app, reverse_app. cbn.
  destruct (String.eqb_spec (processor_pmi p) pmi) as [<-|Hne].
  - by rewrite lookup_insert_eq.
  - by rewrite lookup_insert_ne.
Qed.

Lemma build_processors_elem ps pmi p :
  build_processors_by_pmi ps !! pmi = Some p → p ∈ ps ∧ processor_pmi p = pmi.
Proof.
  rewrite build_processors_lookup. intros [Hin Hp]%List.find_some.
  apply String.eqb_eq in Hp. split; [|done].
  apply list_elem_of_In in Hin. by rewrite elem_of_reverse in Hin.
Qed.

Lemma build_processors_is_Some ps pmi :
  is_Some (build_processors_by_pmi ps !! pmi) ↔ pmi ∈ map processor_pmi ps.
Proof.
  split.
  - intros [p [Hin <-]%build_processors_elem]. by apply list_elem_of_fmap_2.
  - intros (p & -> & Hin)%list_elem_of_fmap. rewrite build_processors_lookup.
    destruct (List.find _ _) eqn:E; [eauto|].
    apply elem_of_reverse, list_elem_of_In, (List.find_none _ _ E), String.eqb_neq in Hin. done.
Qed.

Lemma find_map_Some {A B} (f : A → option B) l b :
  find_map f l = Some b ↔ ∃ l1 x l2, l = l1 ++ x :: l2 ∧ f x = Some b ∧ Forall (λ y, f y = None) l1.
Proof.
  induction l as [|a l IH]; cbn.
  - split; [done|]. by intros ([|??] & ? & ? & [=] & _).
  - destruct (f a) as [b'|] eqn:Ea.
    + split.
      * intros [= ->]. by exists [], a, l.
      * intros ([|y l1] & x & l2 & [= -> ->] & Hx & Hl1); [congruence|]. by inv Hl1.
    + rewrite IH. split.
      * intros (l1 & x & l2 & -> & Hx & Hl1). exists (a :: l1), x, l2. by repeat constructor.
      * intros ([|y l1] & x & l2 & [= -> ->] & Hx & Hl1); [congruence|]. inv Hl1. eauto 10.
Qed.

Lemma find_map_None {A B} (f : A → option B) l :
  find_map f l = None ↔ Forall (λ y, f y = None) l.
Proof.
  induction l as [|a l IH]; cbn; [done|]. rewrite Forall_cons, <- IH. destruct (f a); intuition congruence.
Qed.

(** Processor selection with the map built from the configured processors:
    it fails only when none is configured; otherwise the processor is a
    configured one, and it is the last registered one for the client's first
    payment method that any processor supports, or the first configured one when
    the client names no supported method. *)
Theorem resolve_payment_processor_spec client_pmis ps :
  let by_pmi := build_processors_by_pmi ps in
  let supported pmi := pmi ∈ map processor_pmi ps in
  match resolve_payment_processor client_pmis by_pmi ps with
  | Err e => ps = [] ∧ e = Processor "no payment processors configured"
  | Ok p =>
      p ∈ ps ∧
      ((∃ before after, client_pmis = Some (before ++ processor_pmi p :: after) ∧
          Forall (λ pmi, ¬ supported pmi) before ∧ by_pmi !! processor_pmi p = Some p) ∨
       ((∀ pmis, client_pmis = Some pmis → Forall (λ pmi, ¬ supported pmi) pmis) ∧ head ps = Some p))
  end.
Proof.
  cbn. unfold resolve_payment_processor.
  assert (Hnone : ∀ pmi, build_processors_by_pmi ps !! pmi = None ↔ pmi ∉ map processor_pmi ps).
  { intros pmi. by rewrite <- build_processors_is_Some, eq_None_not_Some. }
  destruct (client_pmis ≫= _) as [p|] eqn:E.
  - destruct client_pmis as [pmis|]; [|done]. cbn in E.
    apply find_map_Some in E as (l1 & pmi & l2 & -> & Hp & Hl1).
    pose proof (build_processors_elem _ _ _ Hp) as [Hin <-]. split; [done|]. left.
    exists l1, l2. split_and!; try done. eapply Forall_impl; [done|]. intros x. apply Hnone.
  - assert (Hall : ∀ pmis, client_pmis = Some pmis →
      Forall (λ pmi, pmi ∉ map processor_pmi ps) pmis).
    { intros pmis ->. cbn in E. apply find_map_None in E. eapply Forall_impl; [done|].
      intros x. apply Hnone. }
    destruct ps as [|p ps]; cbn [head]; [done|]. split; [left|]. by right.
Qed.
