(* ===== verification/ServerTasks.v ===== *)
(** * Server tasks and the inbound middleware chain

    The payment middlewares run on detached tasks that share the authorization
    store, the cache of pending payments, the routes and the writer slots, and
    that suspend while a processor or a publish is awaited.  A task is a program
    ([prog]) over commands ([cmd]): one command is one critical section, one
    atomic access or one awaited call.  [exec] gives a command its effect on the
    shared state; the answers of user code (processors, pricing, verification),
    of the publishing closures and of the clock come from outside.  Any
    interleaving of the tasks' commands is a schedule ([run]).

    Also models [src/transport/server/middleware.rs] (the chain, its terminal and
    the clean-up of a dropped request) and the writer slots of
    [src/transport/server/mod.rs] the clean-up works on. *)

From S2P Require Import Prelude Json CoreTypes OversizedReceiver Lru Authorization RouteStore OpenStreamWriter PaymentTypes.

(** ** Data *)

(** [InboundContext]; the cancellation token shows only as an error of the
    verification it cancels. *)
Record InboundContext : Type := mkContext {
  ctx_client_pubkey : string;
  ctx_request_event_id : string;
  ctx_is_encrypted : bool;
  ctx_mirrored_wrap_kind : option Z;
  ctx_client_pmis : option (list string);
  ctx_payment_interaction : option PaymentInteractionMode;
}.

(** [IncomingRequest]; the event itself rides along as its JSON form. *)
Record IncomingRequest : Type := mkIncoming {
  inc_message : JsonRpcMessage;
  inc_client_pubkey : string;
  inc_event_id : string;
  inc_is_encrypted : bool;
  inc_event : option Value;
}.

Record RouteSnapshot : Type := mkRouteSnapshot {
  rsnap_client_pubkey : string;
  rsnap_original_request_id : Value;
  rsnap_is_encrypted : bool;
  rsnap_mirrored_wrap_kind : option Z;
}.

Record OpenStreamSlot : Type := mkSlot {
  slot_writer : OpenStreamWriter;
  slot_snapshot : RouteSnapshot;
  slot_pending_response : option JsonRpcMessage;
  slot_terminated : bool;
  slot_forwarded : bool;
  slot_live_chains : Z;
}.

Inductive LifecycleFailure : Type :=
| Initiate (e : PaymentError)
| PublishRequired (e : string)
| PublishRejected (e : string)
| Verify (e : PaymentError)
| VerifyTimeout.

Definition is_pre_invoice (f : LifecycleFailure) : bool :=
  match f with
  | Initiate _ | PublishRequired _ | PublishRejected _ => true
  | Verify _ | VerifyTimeout => false
  end.

(** [PendingEntry]: a shared future is a reference. *)
Record PendingEntry : Type := mkPendingEntry {
  expires_at : Z;
  in_flight : nat;
}.

(** The result of the critical section of the transparent middleware. *)
Inductive EnterPendingResult : Type :=
| Joined (in_flight : nat)
| Refused
| Inserted.

(** What [spawn_verification] is given. *)
Record Verification : Type := mkVerification {
  vf_processor : PaymentProcessor;
  vf_pay_req : string;
  vf_pmi : string;
  vf_amount : Z;
  vf_identity : CanonicalInvocationIdentity;
  vf_grant_ttl_ms : Z;
  vf_polling_timeout : Z;
  vf_request_event_id : string;
  vf_client_pubkey : string;
}.

(** The outcome of a call into user code, which can panic. *)
Inductive call (A : Type) : Type := Returned (a : A) | Panicked.
Arguments Returned {A} a.
Arguments Panicked {A}.

(** The outcome of [timeout(d, verify_payment(..))]. *)
Inductive verify_answer : Type :=
| VerifyReturned (r : result VerifyOutcome PaymentError)
| VerifyElapsed
| VerifyPanicked.

(** ** Commands *)

Inductive cmd : Type :=
(* the clock, atomic flags and shared futures *)
| Now
| NewFlag
| StoreFlag (flag : nat) (b : bool)
| LoadFlag (flag : nat)
| NewFuture
| CompleteFuture (future : nat) (r : result unit LifecycleFailure)
| AwaitFuture (future : nat)
(* the authorization store *)
| ClaimOrSetPending (id : CanonicalInvocationIdentity) (ttl_ms : Z)
| UpdatePendingTtl (id : CanonicalInvocationIdentity) (ttl_ms : Z)
| ClearPending (id : CanonicalInvocationIdentity)
| Grant (id : CanonicalInvocationIdentity) (ttl_ms : Z)
(* the cache of pending payments *)
| EnterPending (ttl now : Z) (event_id : string) (fresh : nat)
| ForgetPending (event_id : string) (fresh : nat)
(* user code; a verification names the invocation it is to authorize, if any *)
| ResolvePrice (params : ResolvePriceParams)
| CreatePaymentRequired (processor : PaymentProcessor) (params : PaymentProcessorCreateParams)
| VerifyPayment (processor : PaymentProcessor) (timeout : Z) (params : PaymentProcessorVerifyParams)
    (authorizes : option CanonicalInvocationIdentity)
| SpawnVerification (v : Verification)
(* publishing *)
| SendTargeted (client_pubkey event_id : string) (message : JsonRpcMessage)
| SendNotification (client_pubkey event_id : string) (wrap_kind : option Z) (message : JsonRpcMessage)
(* the terminal of the chain and its clean-up *)
| TxSend (ctx : InboundContext) (message : JsonRpcMessage) (event : option Value)
| MarkForwarded (event_id : string)
| PopRoute (event_id : string)
| RemoveWrapKind (event_id : string)
| LeaveChain (event_id : string)
| RemoveToken (token_key : string)
| DisposeWriter (writer : OpenStreamWriter).

Definition answer (c : cmd) : Type :=
  match c with
  | Now => Z
  | NewFlag | NewFuture => nat
  | LoadFlag _ | TxSend _ _ _ => bool
  | AwaitFuture _ => result unit LifecycleFailure
  | ClaimOrSetPending _ _ => ClaimOrPending
  | EnterPending _ _ _ _ => EnterPendingResult
  | ResolvePrice _ => call (result ResolvePriceResult PaymentError)
  | CreatePaymentRequired _ _ => call (result PaymentRequiredParams PaymentError)
  | VerifyPayment _ _ _ _ => verify_answer
  | SendTargeted _ _ _ | SendNotification _ _ _ _ => result unit string
  | PopRoute _ => option RouteEntry
  | LeaveChain _ => option OpenStreamSlot
  | StoreFlag _ _ | CompleteFuture _ _ | UpdatePendingTtl _ _ | ClearPending _ | Grant _ _
  | ForgetPending _ _ | SpawnVerification _ | MarkForwarded _ | RemoveWrapKind _
  | RemoveToken _ | DisposeWriter _ => unit
  end.

(** ** Programs *)

Inductive prog (A : Type) : Type :=
| Ret (a : A)
| Panic
| Vis (c : cmd) (k : answer c → prog A).
Arguments Ret {A} a.
Arguments Panic {A}.
Arguments Vis {A} c k.

Fixpoint bind {A B} (p : prog A) (f : A → prog B) : prog B :=
  match p with
  | Ret a => f a
  | Panic => Panic
  | Vis c k => Vis c (λ a, bind (k a) f)
  end.

(** [let! x := c in k] issues a command, [let* x := p in k] runs a program. *)
Notation "'let!' x ':=' c 'in' k" := (Vis c (λ x, k))
  (at level 10, x pattern, c at level 100, k at level 200) : rs_scope.
Notation "'let*' x ':=' p 'in' k" := (bind p (λ x, k))
  (at level 10, x pattern, p at level 100, k at level 200) : rs_scope.

(** [AssertUnwindSafe(p).catch_unwind()]: [None] for a caught panic. *)
Fixpoint catch_unwind {A} (p : prog A) : prog (option A) :=
  match p with
  | Ret a => Ret (Some a)
  | Panic => Ret None
  | Vis c k => Vis c (λ a, catch_unwind (k a))
  end.

(** A call into user code: a panic unwinds. *)
Definition unwrap_call {A} (c : call A) : prog A :=
  match c with Returned a => Ret a | Panicked => Panic end.

(** ** The shared state *)

Section tasks.
Context `{Lru L}.

Record World : Type := mkWorld {
  flags : list bool;
  futures : list (option (result unit LifecycleFailure));
  auth : AuthStore L;
  payments : L PendingEntry;
  event_routes : RouteStore L;
  request_wrap_kinds : gmap string (option Z);
  slots : gmap string OpenStreamSlot;
  token_to_event : gmap string string;
  disposed : list OpenStreamWriter;
  incoming : list IncomingRequest;
  rx_closed : bool;
}.

Definition set_flags w x := mkWorld x (futures w) (auth w) (payments w) (event_routes w) (request_wrap_kinds w) (slots w) (token_to_event w) (disposed w) (incoming w) (rx_closed w).
Definition set_futures w x := mkWorld (flags w) x (auth w) (payments w) (event_routes w) (request_wrap_kinds w) (slots w) (token_to_event w) (disposed w) (incoming w) (rx_closed w).
Definition set_auth w x := mkWorld (flags w) (futures w) x (payments w) (event_routes w) (request_wrap_kinds w) (slots w) (token_to_event w) (disposed w) (incoming w) (rx_closed w).
Definition set_payments w x := mkWorld (flags w) (futures w) (auth w) x (event_routes w) (request_wrap_kinds w) (slots w) (token_to_event w) (disposed w) (incoming w) (rx_closed w).
Definition set_routes w x := mkWorld (flags w) (futures w) (auth w) (payments w) x (request_wrap_kinds w) (slots w) (token_to_event w) (disposed w) (incoming w) (rx_closed w).
Definition set_wrap_kinds w x := mkWorld (flags w) (futures w) (auth w) (payments w) (event_routes w) x (slots w) (token_to_event w) (disposed w) (incoming w) (rx_closed w).
Definition set_slots w x := mkWorld (flags w) (futures w) (auth w) (payments w) (event_routes w) (request_wrap_kinds w) x (token_to_event w) (disposed w) (incoming w) (rx_closed w).
Definition set_tokens w x := mkWorld (flags w) (futures w) (auth w) (payments w) (event_routes w) (request_wrap_kinds w) (slots w) x (disposed w) (incoming w) (rx_closed w).
Definition set_disposed w x := mkWorld (flags w) (futures w) (auth w) (payments w) (event_routes w) (request_wrap_kinds w) (slots w) (token_to_event w) x (incoming w) (rx_closed w).
Definition set_incoming w x := mkWorld (flags w) (futures w) (auth w) (payments w) (event_routes w) (request_wrap_kinds w) (slots w) (token_to_event w) (disposed w) x (rx_closed w).

(** *** The cache of pending payments ([server_payments.rs]) *)

Definition PENDING_PURGE_SCAN_LIMIT : nat := 25.

Definition purge_expired_pending (cache : L PendingEntry) (now : Z) : L PendingEntry :=
  let expired := (List.filter (λ ke, expires_at ke.2 <=? now)
                    (take PENDING_PURGE_SCAN_LIMIT (reverse (lru_iter cache)))).*1 in
  foldl (λ c key, (lru_pop key c).1) cache expired.

(** The critical section of [ServerPaymentsMiddleware::handle]. *)
Definition enter_pending (ttl now : Z) (event_id : string) (fresh : nat) (cache : L PendingEntry)
  : L PendingEntry * EnterPendingResult :=
  let cache := purge_expired_pending cache now in
  let start c := (lru_put event_id (mkPendingEntry (now + ttl) fresh) c, Inserted) in
  let insert_new :=
    if lru_len cache =? lru_cap cache then
      match List.find (λ ke, expires_at ke.2 <=? now) (lru_iter cache) with
      | Some (key, _) => start (lru_pop key cache).1
      | None => (cache, Refused)
      end
    else start cache in
  match lru_peek event_id cache with
  | Some entry => if now <? expires_at entry then (cache, Joined (in_flight entry)) else insert_new
  | None => insert_new
  end.

(** The clean-up after a pre-invoice failure ([ptr_eq] compares references). *)
Definition forget_pending (event_id : string) (fresh : nat) (cache : L PendingEntry) : L PendingEntry :=
  match lru_peek event_id cache with
  | Some entry => if Nat.eqb (in_flight entry) fresh then (lru_pop event_id cache).1 else cache
  | None => cache
  end.

(** *** Writer slots ([ServerOpenStreamState]) *)

Definition set_slot_flags (s : OpenStreamSlot) (forwarded : bool) (live_chains : Z) : OpenStreamSlot :=
  mkSlot (slot_writer s) (slot_snapshot s) (slot_pending_response s) (slot_terminated s)
    forwarded live_chains.

Definition mark_forwarded (event_id : string) (m : gmap string OpenStreamSlot) :=
  alter (λ s, set_slot_flags s true (slot_live_chains s)) event_id m.

Definition enter_chain (event_id : string) (m : gmap string OpenStreamSlot) :=
  alter (λ s, set_slot_flags s (slot_forwarded s) (slot_live_chains s + 1)) event_id m.

Definition leave_chain (event_id : string) (m : gmap string OpenStreamSlot)
  : gmap string OpenStreamSlot * option OpenStreamSlot :=
  match m !! event_id with
  | None => (m, None)
  | Some s =>
      let s' := set_slot_flags s (slot_forwarded s) (Z.max 0 (slot_live_chains s - 1)) in
      if (slot_live_chains s' =? 0) && negb (slot_forwarded s') then (delete event_id m, Some s')
      else (<[event_id := s']> m, None)
  end.

Definition client_token_key (client_pubkey_hex token : string) : string :=
  client_pubkey_hex +:+ ":" +:+ token.

(** *** Commands *)

Definition incoming_of (ctx : InboundContext) (message : JsonRpcMessage) (event : option Value)
  : IncomingRequest :=
  mkIncoming message (ctx_client_pubkey ctx) (ctx_request_event_id ctx) (ctx_is_encrypted ctx) event.

(** The effect of a command and its answer; [None] when the task has to wait. *)
Definition exec (env : ∀ c, answer c) (w : World) (c : cmd) : option (World * answer c) :=
  match c return option (World * answer c) with
  | Now => Some (w, env Now)
  | NewFlag => Some (set_flags w (flags w ++ [false]), length (flags w))
  | StoreFlag r b => Some (set_flags w (<[r := b]> (flags w)), tt)
  | LoadFlag r => Some (w, default false (flags w !! r))
  | NewFuture => Some (set_futures w (futures w ++ [None]), length (futures w))
  | CompleteFuture f r => Some (set_futures w (<[f := Some r]> (futures w)), tt)
  | AwaitFuture f => match mjoin (futures w !! f) with Some r => Some (w, r) | None => None end
  | ClaimOrSetPending id ttl =>
      let '(a, r) := claim_or_set_pending (env Now) (auth w) id ttl in Some (set_auth w a, r)
  | UpdatePendingTtl id ttl => Some (set_auth w (update_pending_ttl (env Now) (auth w) id ttl), tt)
  | ClearPending id => Some (set_auth w (clear_pending (auth w) id), tt)
  | Grant id ttl => Some (set_auth w (grant (env Now) (auth w) id ttl), tt)
  | EnterPending ttl now e f =>
      let '(c, r) := enter_pending ttl now e f (payments w) in Some (set_payments w c, r)
  | ForgetPending e f => Some (set_payments w (forget_pending e f (payments w)), tt)
  | ResolvePrice p => Some (w, env (ResolvePrice p))
  | CreatePaymentRequired p q => Some (w, env (CreatePaymentRequired p q))
  | VerifyPayment p t q i => Some (w, env (VerifyPayment p t q i))
  | SpawnVerification v => Some (w, tt)
  | SendTargeted c e m => Some (w, env (SendTargeted c e m))
  | SendNotification c e k m => Some (w, env (SendNotification c e k m))
  | TxSend ctx m e =>
      if rx_closed w then Some (w, false)
      else Some (set_incoming w (incoming w ++ [incoming_of ctx m e]), true)
  | MarkForwarded e => Some (set_slots w (mark_forwarded e (slots w)), tt)
  | PopRoute e => let '(r, o) := pop_route e (event_routes w) in Some (set_routes w r, o)
  | RemoveWrapKind e => Some (set_wrap_kinds w (delete e (request_wrap_kinds w)), tt)
  | LeaveChain e => let '(m, o) := leave_chain e (slots w) in Some (set_slots w m, o)
  | RemoveToken k => Some (set_tokens w (delete k (token_to_event w)), tt)
  | DisposeWriter wr => Some (set_disposed w (disposed w ++ [Writer.dispose wr]), tt)
  end.
End tasks.
Arguments World L : clear implicits.

(** ** The chain ([middleware.rs]) *)

Definition middleware : Type :=
  JsonRpcMessage → InboundContext → (JsonRpcMessage → prog bool) → prog bool.

(** [Next::run]; [reached] is the flag the clean-up reads. *)
Fixpoint next_run (chain : list middleware) (ctx : InboundContext) (event : option Value)
    (reached : nat) (message : JsonRpcMessage) : prog bool :=
  match chain with
  | [] =>
      let! delivered := TxSend ctx message event in
      let! _ := StoreFlag reached delivered in
      if delivered return prog bool
      then let! _ := MarkForwarded (ctx_request_event_id ctx) in Ret true
      else Ret false
  | mw :: rest => mw message ctx (next_run rest ctx event reached)
  end.

(** The clean-up of a request that did not reach the handler: its route, and the
    wrap kind if this clean-up took the route. *)
Definition drop_cleanup (event_id : string) : prog unit :=
  let! popped_route := PopRoute event_id in
  match popped_route return prog unit with
  | Some _ => let! _ := RemoveWrapKind event_id in Ret tt
  | None => Ret tt
  end.

(** The release of the writer slot. *)
Definition slot_cleanup (event_id : string) : prog unit :=
  let! released := LeaveChain event_id in
  match released return prog unit with
  | Some slot =>
      let token := Writer.progress_token (slot_writer slot) in
      let client := rsnap_client_pubkey (slot_snapshot slot) in
      let! _ := RemoveToken (client_token_key client token) in
      let! _ := DisposeWriter (slot_writer slot) in Ret tt
  | None => Ret tt
  end.

Definition run_inbound_chain (chain : list middleware) (ctx : InboundContext)
    (message : JsonRpcMessage) (event : option Value) : prog unit :=
  let event_id := ctx_request_event_id ctx in
  let! reached := NewFlag in
  let* _ := catch_unwind (next_run chain ctx event reached message) in
  let! was_reached := LoadFlag reached in
  let* _ := if was_reached then Ret tt else drop_cleanup event_id in
  slot_cleanup event_id.

(** [dispatch_inbound] and [spawn_inbound_chain]: the state after it and the task
    it spawns. *)
Definition dispatch_inbound `{Lru L} (middlewares : list middleware) (w : World L)
    (ctx : InboundContext) (message : JsonRpcMessage) (event : option Value)
  : World L * list (prog unit) :=
  match middlewares with
  | [] =>
      (if rx_closed w then w else set_incoming w (incoming w ++ [incoming_of ctx message event]), [])
  | _ =>
      (set_slots w (enter_chain (ctx_request_event_id ctx) (slots w)),
       [run_inbound_chain middlewares ctx message event])
  end.

(** ** Schedules *)

Definition event : Type := { c : cmd & answer c }.

Section schedule.
Context `{Lru L}.
Variable chain : list middleware.
Variable spawn_task : Verification → prog unit.

(** The shared state, the tasks, and the commands executed so far with their
    answers. *)
Record Server : Type := mkServer {
  world : World L;
  tasks : list (prog unit);
  trace : list event;
}.

(** The part of the shared state the transport itself works on. *)
Record Owned : Type := mkOwned {
  own_routes : RouteStore L;
  own_wrap_kinds : gmap string (option Z);
  own_slots : gmap string OpenStreamSlot;
  own_tokens : gmap string string;
  own_disposed : list OpenStreamWriter;
  own_incoming : list IncomingRequest;
  own_rx_closed : bool;
}.
Definition owned_of (w : World L) : Owned :=
  mkOwned (event_routes w) (request_wrap_kinds w) (slots w) (token_to_event w) (disposed w) (incoming w)
    (rx_closed w).
Definition set_owned (w : World L) (o : Owned) : World L :=
  mkWorld (flags w) (futures w) (auth w) (payments w) (own_routes o) (own_wrap_kinds o) (own_slots o)
    (own_tokens o) (own_disposed o) (own_incoming o) (own_rx_closed o).

(** What can happen: a request arrives, a task executes its next command, the
    transport works on the routes (responses, sweeps) or on anything else it owns,
    the worker goes away. *)
Inductive action : Type :=
| Deliver (ctx : InboundContext) (message : JsonRpcMessage) (event : option Value)
| Step (task : nat) (env : ∀ c, answer c)
| Routes (op : route_op)
| Owns (o : Owned)
| CloseWorker.

Definition spawned (c : cmd) : list (prog unit) :=
  match c with SpawnVerification v => [spawn_task v] | _ => [] end.

Definition server_step (s : Server) (a : action) : Server :=
  match a with
  | Deliver ctx message event =>
      let '(w, ts) := dispatch_inbound chain (world s) ctx message event in
      mkServer w (tasks s ++ ts) (trace s)
  | Step i env =>
      match tasks s !! i with
      | Some (Vis c k) =>
          match exec env (world s) c with
          | Some (w, a) =>
              mkServer w (<[i := k a]> (tasks s) ++ spawned c) (trace s ++ [existT c a])
          | None => s
          end
      | _ => s
      end
  | Routes op => mkServer (set_routes (world s) (route_step (event_routes (world s)) op)) (tasks s) (trace s)
  | Owns o => mkServer (set_owned (world s) o) (tasks s) (trace s)
  | CloseWorker =>
      mkServer (mkWorld (flags (world s)) (futures (world s)) (auth (world s)) (payments (world s))
                  (event_routes (world s)) (request_wrap_kinds (world s)) (slots (world s))
                  (token_to_event (world s)) (disposed (world s)) (incoming (world s)) true)
        (tasks s) (trace s)
  end.

Definition run (s : Server) (actions : list action) : Server := foldl server_step s actions.
End schedule.
Arguments Server L : clear implicits.
Arguments Owned L : clear implicits.
Arguments action L : clear implicits.

(** A server with no task yet. *)
Definition server_start `{Lru L} (max_entries max_pending_payments : Z) : Server L :=
  mkServer
    (mkWorld [] [] (with_max_entries max_entries) (lru_new (nonzero_or_one max_pending_payments))
       RouteStore_new ∅ ∅ ∅ [] [] false)
    [] [].

(** The weighted number of events of a trace. *)
Definition count (f : ∀ c, answer c → nat) (tr : list event) : nat :=
  list_sum (map (λ e, f (projT1 e) (projT2 e)) tr).

#[global] Arguments count : simpl never.
#[global] Arguments list_sum : simpl never.

(** ** A program logic for accounting

    [gain] and [spend] weigh the commands of a task by their answers.  [wp own n p Q]
    says that, holding [n] credits and the flags [own], the program spends only
    what it holds, issues only commands that satisfy [allowed], writes only flags
    it created, and ends with [Q] ([None] for a panic). *)

Section accounting.
Variables gain spend : ∀ c, answer c → nat.
Variable allowed : cmd → Prop.

Definition local_ok (own : gmap nat bool) (c : cmd) : Prop :=
  match c with StoreFlag r _ => is_Some (own !! r) | _ => True end.

Definition local_step (own : gmap nat bool) (c : cmd) : answer c → gmap nat bool → Prop :=
  match c with
  | NewFlag => λ r own', own !! r = None ∧ own' = <[r := false]> own
  | StoreFlag r b => λ _ own', own' = <[r := b]> own
  | LoadFlag r => λ b own', (∀ b', own !! r = Some b' → b = b') ∧ own' = own
  | _ => λ _ own', own' = own
  end.

Fixpoint wp {A} (own : gmap nat bool) (n : nat) (p : prog A)
    (Q : gmap nat bool → nat → option A → Prop) : Prop :=
  match p with
  | Ret a => Q own n (Some a)
  | Panic => Q own n None
  | Vis c k =>
      allowed c ∧ local_ok own c ∧
      ∀ a own', local_step own c a own' →
        (spend c a <= n + gain c a)%nat ∧ wp own' (n + gain c a - spend c a) (k a) Q
  end.

Lemma wp_mono {A} (p : prog A) own n n' (Q Q' : gmap nat bool → nat → option A → Prop) :
  wp own n p Q → (n <= n')%nat →
  (∀ own m m' r, Q own m r → (m <= m')%nat → Q' own m' r) → wp own n' p Q'.
Proof.
  intros Hp Hn HQ. revert own n n' Hp Hn. induction p as [a| |c k IH]; cbn; intros own n n' Hp Hn.
  - eauto.
  - eauto.
  - destruct Hp as (Ha & Hl & Hk). split_and!; [done..|]. intros a own' Hs.
    destruct (Hk a own' Hs) as [Hle Hwp]. split; [lia|]. eapply IH; [done|lia].
Qed.

Lemma wp_bind {A B} (p : prog A) (f : A → prog B) own n Q :
  wp own n p (λ own n r, match r with Some a => wp own n (f a) Q | None => Q own n None end) →
  wp own n (bind p f) Q.
Proof.
  revert own n. induction p as [a| |c k IH]; cbn; intros own n; [done..|].
  intros (Ha & Hl & Hk). split_and!; [done..|]. intros a own' Hs.
  destruct (Hk a own' Hs) as [Hle Hwp]. split; [done|]. by apply IH.
Qed.

Lemma wp_catch_unwind {A} (p : prog A) own n Q :
  wp own n p (λ own n r, Q own n (Some r)) → wp own n (catch_unwind p) Q.
Proof.
  revert own n. induction p as [a| |c k IH]; cbn; intros own n; [done..|].
  intros (Ha & Hl & Hk). split_and!; [done..|]. intros a own' Hs.
  destruct (Hk a own' Hs) as [Hle Hwp]. split; [done|]. by apply IH.
Qed.

(** Credits a program does not need are still there when it ends. *)
Lemma wp_frame {A} (p : prog A) own n k Q :
  wp own n p Q → wp own (n + k) p (λ own' n' r, ∃ n0, n' = (n0 + k)%nat ∧ Q own' n0 r).
Proof.
  revert own n. induction p as [a| |c ks IH]; cbn; intros own n; [by eauto..|].
  intros (Ha & Hl & Hk). split_and!; [done..|]. intros a own' Hs.
  destruct (Hk a own' Hs) as [Hle Hwp]. split; [lia|].
  replace (n + k + gain c a - spend c a)%nat with (n + gain c a - spend c a + k)%nat by lia.
  by apply IH.
Qed.

(** Rules for the commands; a command is neutral when it is weighed 0. *)
Definition touches_flag (c : cmd) : bool :=
  match c with NewFlag | StoreFlag _ _ | LoadFlag _ => true | _ => false end.

Definition neutral (c : cmd) : Prop := ∀ a, gain c a = 0%nat ∧ spend c a = 0%nat.

Lemma wp_vis {A} c (k : answer c → prog A) own n Q :
  touches_flag c = false → allowed c →
  (∀ a, (spend c a <= n + gain c a)%nat ∧ wp own (n + gain c a - spend c a) (k a) Q) →
  wp own n (Vis c k) Q.
Proof.
  intros Hf Ha Hk. cbn. destruct c; try done; (split_and!; [done..|]); cbn; by intros a ? ->.
Qed.

Lemma wp_neutral {A} c (k : answer c → prog A) own n Q :
  touches_flag c = false → allowed c → neutral c → (∀ a, wp own n (k a) Q) →
  wp own n (Vis c k) Q.
Proof.
  intros Hf Ha Hn Hk. apply wp_vis; [done..|]. intros a. destruct (Hn a) as [-> ->].
  rewrite Nat.add_0_r, Nat.sub_0_r. split; [lia|]. apply Hk.
Qed.

Lemma wp_new_flag {A} (k : nat → prog A) own n Q :
  allowed NewFlag → neutral NewFlag →
  (∀ r, own !! r = None → wp (<[r := false]> own) n (k r) Q) → wp own n (Vis NewFlag k) Q.
Proof.
  intros Ha Hn Hk. cbn. split_and!; [done..|]. intros r ? [Hr ->].
  destruct (Hn r) as [-> ->]. rewrite Nat.add_0_r, Nat.sub_0_r. split; [lia|]. by apply Hk.
Qed.

Lemma wp_store_flag {A} r b (k : unit → prog A) own n Q :
  allowed (StoreFlag r b) → neutral (StoreFlag r b) → is_Some (own !! r) →
  wp (<[r := b]> own) n (k tt) Q → wp own n (Vis (StoreFlag r b) k) Q.
Proof.
  intros Ha Hn Hr Hk. cbn. split_and!; [done..|]. intros [] ? ->.
  destruct (Hn tt) as [E1 E2]. cbn in E1, E2. rewrite E1, E2, Nat.add_0_r, Nat.sub_0_r. split; [lia|done].
Qed.

Lemma wp_load_flag {A} r b (k : bool → prog A) own n Q :
  allowed (LoadFlag r) → neutral (LoadFlag r) → own !! r = Some b →
  wp own n (k b) Q → wp own n (Vis (LoadFlag r) k) Q.
Proof.
  intros Ha Hn Hr Hk. cbn. split_and!; [done..|]. intros b' ? [Hb ->].
  rewrite (Hb _ Hr). destruct (Hn b) as [E1 E2]. cbn in E1, E2.
  rewrite E1, E2, Nat.add_0_r, Nat.sub_0_r. split; [lia|done].
Qed.

(** A flag about which nothing is known. *)
Lemma wp_load_any {A} r (k : bool → prog A) own n Q :
  allowed (LoadFlag r) → neutral (LoadFlag r) → (∀ b, wp own n (k b) Q) →
  wp own n (Vis (LoadFlag r) k) Q.
Proof.
  intros Ha Hn Hk. cbn. split_and!; [done..|]. intros b ? [_ ->].
  destruct (Hn b) as [E1 E2]. cbn in E1, E2. rewrite E1, E2, Nat.add_0_r, Nat.sub_0_r. split; [lia|done].
Qed.
End accounting.

(** Issue a command that is weighed 0 and allowed. *)
Ltac wp_neutral := apply wp_neutral; [done|done|by intros ?|intros].

(** ** Soundness *)

Definition flags_agree (own : gmap nat bool) (l : list bool) : Prop :=
  ∀ r b, own !! r = Some b → l !! r = Some b.

Lemma flags_agree_fresh own l : flags_agree own l → own !! length l = None.
Proof.
  intros Hag. apply eq_None_not_Some. intros [b Hb]. apply Hag, lookup_lt_Some in Hb. lia.
Qed.

Lemma exec_flags `{Lru L} env (w w' : World L) c a :
  exec env w c = Some (w', a) →
  flags w' = match c with
             | NewFlag => flags w ++ [false]
             | StoreFlag r b => <[r := b]> (flags w)
             | _ => flags w
             end.
Proof. destruct c; cbn; intros; repeat case_match; by simplify_eq/=. Qed.

(** One command, seen by the task that executes it and by the others. *)
Lemma exec_local `{Lru L} env (w w' : World L) c a own :
  exec env w c = Some (w', a) → flags_agree own (flags w) → local_ok own c →
  ∃ own', local_step own c a own' ∧ flags_agree own' (flags w') ∧
    ∀ other, flags_agree other (flags w) → other ##ₘ own →
      flags_agree other (flags w') ∧ other ##ₘ own'.
Proof.
  intros Hex Hag Hok. pose proof (exec_flags _ _ _ _ _ Hex) as Hfl.
  destruct c; try (exists own; rewrite Hfl; by cbn).
  - cbn in Hex. simplify_eq/=. pose proof (flags_agree_fresh _ _ Hag) as Hnew.
    exists (<[length (flags w) := false]> own). split_and!; [done|done| |].
    + intros r b [[<- <-]|[_ Hr]]%lookup_insert_Some.
      * by rewrite lookup_app_r, Nat.sub_diag.
      * by apply lookup_app_l_Some, Hag.
    + intros other Ho Hd. split; [intros r b Hr; by apply lookup_app_l_Some, Ho|].
      apply map_disjoint_insert_r. split; [by apply flags_agree_fresh|done].
  - cbn in Hex. simplify_eq/=. destruct Hok as [b0 Hb0].
    pose proof (Hag _ _ Hb0) as Hlt%lookup_lt_Some.
    exists (<[flag := b]> own). split_and!; [done| |].
    + intros r b' [[<- <-]|[? Hr]]%lookup_insert_Some; [by apply list_lookup_insert_eq|].
      rewrite list_lookup_insert_ne by done. by apply Hag.
    + intros other Ho Hd. pose proof (map_disjoint_Some_r other own _ _ Hd Hb0) as Hnone.
      split; [|by apply map_disjoint_insert_r].
      intros r b' Hr. rewrite list_lookup_insert_ne by congruence. by apply Ho.
  - exists own. cbn in Hex. simplify_eq/=. split_and!; [|done..].
    intros b' Hb'. by rewrite (Hag _ _ Hb').
Qed.

Lemma list_sum_insert (l : list nat) i x y :
  l !! i = Some x → (list_sum (<[i := y]> l) + x = list_sum l + y)%nat.
Proof.
  revert i. induction l as [|z l IH]; intros [|i] Hi; try done.
  - injection Hi as ->. change (y + list_sum l + x = x + list_sum l + y)%nat. lia.
  - specialize (IH i Hi). change (z + list_sum (<[i := y]> l) + x = z + list_sum l + y)%nat. lia.
Qed.

Lemma list_sum_app l1 l2 : (list_sum (l1 ++ l2) = list_sum l1 + list_sum l2)%nat.
Proof.
  induction l1 as [|x l1 IH]; [done|].
  change (x + list_sum (l1 ++ l2) = x + list_sum l1 + list_sum l2)%nat. lia.
Qed.

Lemma list_sum_replicate_0 n : list_sum (replicate n 0%nat) = 0%nat.
Proof. induction n as [|n IH]; [done|]. exact IH. Qed.

Lemma count_snoc f tr c (a : answer c) : (count f (tr ++ [existT c a]) = count f tr + f c a)%nat.
Proof. unfold count. rewrite map_app, list_sum_app. unfold list_sum at 2. cbn. lia. Qed.

Lemma count_add f g tr : count (λ c a, (f c a + g c a)%nat) tr = (count f tr + count g tr)%nat.
Proof.
  induction tr as [|[c a] tr IH]; [done|]. unfold count in *. cbn [map].
  change (list_sum (?x :: ?l)) with (x + list_sum l)%nat in *. cbn. unfold list_sum in *. cbn in *. lia.
Qed.

Section soundness.
Context `{Lru L}.
Variables gain spend : ∀ c, answer c → nat.
Variable allowed : cmd → Prop.
Variable chain : list middleware.
Variable spawn_task : Verification → prog unit.

(** A task and the ghost state it runs under. *)
Definition task_ok (p : prog unit) (g : gmap nat bool * nat) : Prop :=
  wp gain spend allowed g.1 g.2 p (λ _ _ _, True).

Record accounted (s : Server L) (gs : list (gmap nat bool * nat)) : Prop := {
  acc_tasks : Forall2 task_ok (tasks s) gs;
  acc_disjoint i j g1 g2 : gs !! i = Some g1 → gs !! j = Some g2 → i ≠ j → g1.1 ##ₘ g2.1;
  acc_agree i g : gs !! i = Some g → flags_agree g.1 (flags (world s));
  acc_balance : (count spend (trace s) + list_sum gs.*2 <= count gain (trace s))%nat;
  acc_allowed : Forall (λ e, allowed (projT1 e)) (trace s);
}.

(** New tasks start without credits and without flags. *)
Lemma accounted_spawn s gs ts (w : World L) :
  accounted s gs → flags w = flags (world s) →
  Forall (λ p, wp gain spend allowed ∅ 0 p (λ _ _ _, True)) ts →
  accounted (mkServer w (tasks s ++ ts) (trace s)) (gs ++ replicate (length ts) (∅, 0%nat)).
Proof.
  intros [Ht Hd Ha Hb Hal] Hw Hts. split; cbn.
  - apply Forall2_app; [done|]. clear -Hts. induction Hts; cbn; by constructor.
  - intros i j g1 g2 H1 H2 Hij. apply lookup_app_Some in H1 as [H1|[_ H1]].
    + apply lookup_app_Some in H2 as [H2|[_ H2]]; [by eapply Hd|].
      apply lookup_replicate_1 in H2 as [-> _]. apply map_disjoint_empty_r.
    + apply lookup_replicate_1 in H1 as [-> _]. apply map_disjoint_empty_l.
  - intros i g Hg. rewrite Hw. apply lookup_app_Some in Hg as [Hg|[_ Hg]]; [by eapply Ha|].
    apply lookup_replicate_1 in Hg as [-> _]. intros r b Hr. cbn in Hr. by rewrite lookup_empty in Hr.
  - rewrite fmap_app, list_sum_app, fmap_replicate. cbn [snd].
    rewrite list_sum_replicate_0. lia.
  - done.
Qed.

Lemma accounted_task s gs i c k env (w : World L) a :
  accounted s gs → tasks s !! i = Some (Vis c k) → exec env (world s) c = Some (w, a) →
  ∃ gs', accounted (mkServer w (<[i := k a]> (tasks s)) (trace s ++ [existT c a])) gs' ∧ allowed c.
Proof.
  intros [Ht Hd Ha Hb Hal] Hi Hex.
  destruct (Forall2_lookup_l _ _ _ _ _ Ht Hi) as ([own n] & Hg & Hwp). cbn in Hwp.
  destruct Hwp as (Hallow & Hok & Hwp). cbn in Hok.
  destruct (exec_local env (world s) w c a own) as (own' & Hls & Hag' & Hother);
    [done|by apply (Ha i (own, n))|done|].
  destruct (Hwp a own' Hls) as [Hle Hk].
  exists (<[i := (own', (n + gain c a - spend c a)%nat)]> gs). split; [|done].
  pose proof (lookup_lt_Some _ _ _ Hg) as Hlt. split; cbn.
  - by apply Forall2_insert.
  - intros i1 i2 g1 g2 H1 H2 Hne.
    apply list_lookup_insert_Some in H1 as [(<- & <- & _)|[N1 H1]];
      apply list_lookup_insert_Some in H2 as [(<- & <- & _)|[N2 H2]]; cbn in *; try done.
    + symmetry. apply Hother; [by eapply Ha|]. by apply (Hd i2 i g2 (own, n)).
    + apply Hother; [by eapply Ha|]. by apply (Hd i1 i g1 (own, n)).
    + by eapply (Hd i1 i2).
  - intros j g Hj. apply list_lookup_insert_Some in Hj as [(<- & <- & _)|[N Hj]]; [done|].
    apply Hother; [by eapply Ha|]. by apply (Hd j i g (own, n)).
  - rewrite !count_snoc, list_fmap_insert.
    pose proof (list_sum_insert gs.*2 i n (n + gain c a - spend c a)) as Hsum.
    rewrite list_lookup_fmap, Hg in Hsum. specialize (Hsum eq_refl). cbn in *. lia.
  - apply Forall_app. split; [done|]. by repeat constructor.
Qed.

Variable deliverable : InboundContext → JsonRpcMessage → Prop.
Hypothesis chain_ok : ∀ ctx m e, deliverable ctx m →
  wp gain spend allowed ∅ 0 (run_inbound_chain chain ctx m e) (λ _ _ _, True).
Hypothesis spawn_ok : ∀ v, allowed (SpawnVerification v) →
  wp gain spend allowed ∅ 0 (spawn_task v) (λ _ _ _, True).

Definition action_ok (a : action L) : Prop :=
  match a with Deliver ctx m _ => deliverable ctx m | _ => True end.

Lemma server_step_accounted s a gs :
  action_ok a → accounted s gs →
  ∃ gs', accounted (server_step chain spawn_task s a) gs'.
Proof.
  intros Ha Hs. destruct a as [ctx m e|i env|op|o|]; cbn in Ha |- *.
  - unfold dispatch_inbound. destruct chain as [|mw rest] eqn:Ec.
    + exists (gs ++ []). cbn. apply (accounted_spawn s gs []); [done|by case_match|constructor].
    + eexists. apply (accounted_spawn s gs [_]); [done..|]. constructor; [by apply chain_ok|constructor].
  - destruct (tasks s !! i) as [[| |c k]|] eqn:Hi; try by eauto.
    destruct (exec env (world s) c) as [[w a]|] eqn:Hex; [|by eauto].
    destruct (accounted_task _ _ _ _ _ _ _ _ Hs Hi Hex) as (gs' & Hs' & Hc).
    eexists. apply (accounted_spawn _ gs' (spawned spawn_task c) w Hs' eq_refl).
    destruct c; cbn; try constructor; [by apply spawn_ok|constructor].
  - exists gs. destruct Hs. by split.
  - exists gs. destruct Hs. by split.
  - exists gs. destruct Hs. by split.
Qed.

(** Every schedule spends at most what it gains, and issues only allowed commands. *)
Lemma run_accounted max_entries max_pending acts :
  Forall action_ok acts →
  let s := run chain spawn_task (server_start max_entries max_pending : Server L) acts in
  (count spend (trace s) <= count gain (trace s))%nat ∧
  Forall (λ e, allowed (projT1 e)) (trace s).
Proof.
  cbn. intros Hacts. cut (∃ gs, accounted
    (run chain spawn_task (server_start max_entries max_pending : Server L) acts) gs).
  { intros [gs [_ _ _ Hb Hal]]. split; [lia|done]. }
  assert (∃ gs, accounted (server_start max_entries max_pending : Server L) gs) as Hstart.
  { exists []. split; cbn; try done; constructor. }
  revert Hstart. generalize (server_start max_entries max_pending : Server L) as s.
  induction Hacts as [|a acts Ha _ IH]; intros s [gs Hs]; [by eauto|].
  apply IH. by eapply server_step_accounted.
Qed.
End soundness.
