(* ===== verification/ServerPayments.v ===== *)
(** * CEP-8 server payments: both lifecycles as tasks

    Models the waiting part of [src/payments/server_payments_utils.rs],
    [server_explicit_gating.rs], [server_payments.rs] and
    [server_transport_payments.rs] as programs over the commands of
    [ServerTasks], and the schedules of a server that runs them.  The properties
    count events of arbitrary schedules: paid invocations against forwarded ones,
    charges against deliveries of one request. *)

From S2P Require Import Prelude Json CoreTypes OversizedCodec Instances OversizedReceiver Lru Authorization RouteStore OpenStreamWriter PaymentTypes ServerTasks.

(** ** Initiation ([server_payments_utils.rs]) *)

Section initiation.
Variable options : ServerPaymentsOptions.
Variable processors_by_pmi : gmap string PaymentProcessor.

(** The price: the callback's, or the capability's own. *)
Definition quote_price (request : JsonRpcRequest) (priced : PricedCapability)
    (request_event_id client_pubkey : string) : prog (result ResolvePriceResult PaymentError) :=
  if resolve_price options then
    let! r := ResolvePrice (mkResolveParams priced request client_pubkey request_event_id) in
    unwrap_call r
  else Ret (Ok (Quote (cap_amount priced) (cap_description priced) None)).

Definition resolve_and_initiate_payment (request : JsonRpcRequest) (priced : PricedCapability)
    (request_event_id client_pubkey : string) (client_pmis : option (list string))
  : prog (result InitiationOutcome PaymentError) :=
  match resolve_payment_processor client_pmis processors_by_pmi (processors options) with
  | Err e => Ret (Err e)
  | Ok processor =>
      let* quote := quote_price request priced request_event_id client_pubkey in
      match quote with
      | Err e => Ret (Err e)
      | Ok (Reject message) =>
          Ret (Ok (Rejected (processor_pmi processor) (cap_amount priced) message))
      | Ok (Waive _) => Ret (Ok Waived)
      | Ok (Quote amount description quote_meta) =>
          let! created := CreatePaymentRequired processor
            (mkCreateParams amount description request_event_id client_pubkey) in
          let* created := unwrap_call created in
          match created with
          | Err e => Ret (Err e)
          | Ok payment_required =>
              Ret (Ok (PaymentRequired processor payment_required
                (merge_meta (preq_meta payment_required) quote_meta)
                (verification_timeout (preq_ttl payment_required))))
          end
      end
  end.
End initiation.

(** ** Explicit gating ([server_explicit_gating.rs]) *)

Definition PAYMENT_REQUIRED_INSTRUCTIONS : string :=
  "Payment is required to process this request. Pay one of the offered options, then retry the same request with exactly the same method and params.".
Definition PAYMENT_PENDING_INSTRUCTIONS : string :=
  "A payment is already pending for this invocation. Retry the same request later with exactly the same method and params.".
Definition PAYMENT_REJECTED_FALLBACK_MESSAGE : string := "Payment rejected by policy".

Definition build_payment_required_error (id : Value) (option : PaymentOption) : JsonRpcErrorResponse :=
  mkErrorResponse "2.0" id
    (mkError PAYMENT_REQUIRED_ERROR_CODE "Payment Required"
       (Some (required_data_to_value (mkRequiredData (Some PAYMENT_REQUIRED_INSTRUCTIONS) [option])))).

(** [retry_after_secs]: [div_ceil(1000)] clamped to [1, 2]. *)
Definition retry_after_secs (remaining_ms : Z) : Z :=
  Z.min 2 (Z.max 1 ((remaining_ms + 999) / 1000)).

Definition build_payment_pending_error (id : Value) (remaining_ms : Z) : JsonRpcErrorResponse :=
  mkErrorResponse "2.0" id
    (mkError PAYMENT_PENDING_ERROR_CODE "Payment Pending"
       (Some (pending_data_to_value
                (mkPendingData (Some PAYMENT_PENDING_INSTRUCTIONS) (Some (retry_after_secs remaining_ms)))))).

Definition build_payment_rejected_error (id : Value) (message : option string) : JsonRpcErrorResponse :=
  mkErrorResponse "2.0" id
    (mkError (-32000) (default PAYMENT_REJECTED_FALLBACK_MESSAGE message) None).

(** [spawn_verification]: the detached task. *)
Definition verification_task (v : Verification) : prog unit :=
  let! outcome := VerifyPayment (vf_processor v) (vf_polling_timeout v)
    (mkVerifyParams (vf_pay_req v) (vf_request_event_id v) (vf_client_pubkey v))
    (Some (vf_identity v)) in
  match outcome return prog unit with
  | VerifyReturned (Ok _) => let! _ := Grant (vf_identity v) (vf_grant_ttl_ms v) in Ret tt
  | VerifyReturned (Err _) | VerifyElapsed | VerifyPanicked =>
      let! _ := ClearPending (vf_identity v) in Ret tt
  end.

Section gating.
Context `{JsonCanon} `{Sha256}.
Variable options : ServerPaymentsOptions.
Variable processors_by_pmi : gmap string PaymentProcessor.

(** [u64::try_from(payment_ttl.as_millis()).unwrap_or(u64::MAX)] *)
Definition payment_ttl_ms : Z := Z.min u64_max (payment_ttl options / 1000000).

(** The lifetime of the grant: the offer's [ttl] if positive, saturating. *)
Definition grant_ttl_ms (p : PaymentRequiredParams) : Z :=
  match preq_ttl p with
  | Some s => if 0 <? s then Z.min u64_max (s * 1000) else payment_ttl_ms
  | None => payment_ttl_ms
  end.

(** The offer: steps 3 to 5 of [handle]. *)
Definition gating_offer (identity : CanonicalInvocationIdentity) (request : JsonRpcRequest)
    (ctx : InboundContext) (processor : PaymentProcessor) (p : PaymentRequiredParams)
    (merged_meta : option Meta) (verify_timeout : Z) : prog bool :=
  let ttl_ms := grant_ttl_ms p in
  let polling_timeout := Z.min verify_timeout (payment_ttl options) in
  let! _ := UpdatePendingTtl identity ttl_ms in
  let response := build_payment_required_error (req_id request)
    (mkPaymentOption (preq_amount p) (preq_pmi p) (preq_pay_req p) (preq_description p)
       (preq_ttl p) merged_meta) in
  let! sent := SendTargeted (ctx_client_pubkey ctx) (ctx_request_event_id ctx)
    (ErrorResponse response) in
  match sent return prog bool with
  | Err _ => let! _ := ClearPending identity in Ret false
  | Ok _ =>
      let! _ := SpawnVerification
        (mkVerification processor (preq_pay_req p) (preq_pmi p) (preq_amount p) identity ttl_ms
           polling_timeout (ctx_request_event_id ctx) (ctx_client_pubkey ctx)) in
      Ret false
  end.

(** The offer cycle owned by the task that set the invocation pending: step 2 of
    [handle] and its outcomes. *)
Definition gating_cycle (identity : CanonicalInvocationIdentity) (request : JsonRpcRequest)
    (priced : PricedCapability) (message : JsonRpcMessage) (ctx : InboundContext)
    (next : JsonRpcMessage → prog bool) : prog bool :=
  let* outcome := resolve_and_initiate_payment options processors_by_pmi request priced
    (ctx_request_event_id ctx) (ctx_client_pubkey ctx) (ctx_client_pmis ctx) in
  match outcome with
  | Err _ => let! _ := ClearPending identity in Ret false
  | Ok (Rejected pmi amount reason) =>
      let! _ := ClearPending identity in
      let! _ := SendTargeted (ctx_client_pubkey ctx) (ctx_request_event_id ctx)
        (ErrorResponse (build_payment_rejected_error (req_id request) reason)) in
      Ret false
  | Ok Waived => let! _ := ClearPending identity in next message
  | Ok (PaymentRequired processor payment_required merged_meta verify_timeout) =>
      gating_offer identity request ctx processor payment_required merged_meta verify_timeout
  end.

(** [ExplicitGatingMiddleware::handle] *)
Definition gating_handle : middleware := λ message ctx next,
  match message with
  | Request request =>
      if bool_decide (ctx_payment_interaction ctx = Some ExplicitGating) then
        match match_priced_capability request (priced_capabilities options) with
        | None => next message
        | Some priced =>
            match compute_canonical_invocation_identity (ctx_client_pubkey ctx)
                    (req_method request) (req_params request) with
            | Err _ => Ret false
            | Ok id =>
                let! claimed := ClaimOrSetPending id payment_ttl_ms in
                match claimed return prog bool with
                | Claimed => next message
                | AlreadyPending remaining_ms =>
                    let! _ := SendTargeted (ctx_client_pubkey ctx) (ctx_request_event_id ctx)
                      (ErrorResponse (build_payment_pending_error (req_id request) remaining_ms)) in
                    Ret false
                | PendingSet => gating_cycle id request priced message ctx next
                end
            end
        end
      else next message
  | _ => next message
  end.
End gating.

(** ** The transparent lifecycle ([server_payments.rs]) *)

(** Serializing the parameter structs never fails. *)
Definition payment_notification (method : string) (params : Value) : result JsonRpcMessage PaymentError :=
  Ok (Notification (mkNotification "2.0" method (Some params))).

Section transparent.
Variable options : ServerPaymentsOptions.
Variable processors_by_pmi : gmap string PaymentProcessor.

(** The acceptance notification after a verified payment, and the forward, which
    happens whether or not the notification could be sent. *)
Definition accept_and_forward (p : PaymentRequiredParams) (verified : VerifyOutcome)
    (message : JsonRpcMessage) (ctx : InboundContext) (next : JsonRpcMessage → prog bool)
  : prog (result unit LifecycleFailure) :=
  let accepted := payment_notification PAYMENT_ACCEPTED_METHOD
    (accepted_params_to_value (mkPaymentAccepted (preq_amount p) (preq_pmi p) (verified_meta verified))) in
  let* _ :=
    match accepted with
    | Ok notification =>
        let! _ := SendNotification (ctx_client_pubkey ctx) (ctx_request_event_id ctx)
          (ctx_mirrored_wrap_kind ctx) notification in Ret tt
    | Err _ => Ret tt
    end in
  let* _ := next message in
  Ret (Ok tt).

(** The payment request on the wire, the verification and its outcomes. *)
Definition charge (processor : PaymentProcessor) (p : PaymentRequiredParams)
    (merged_meta : option Meta) (verify_timeout : Z) (message : JsonRpcMessage)
    (ctx : InboundContext) (next : JsonRpcMessage → prog bool) (invoice_issued : nat)
  : prog (result unit LifecycleFailure) :=
  match payment_notification PAYMENT_REQUIRED_METHOD
          (required_params_to_value
             (mkPaymentRequired (preq_amount p) (preq_pay_req p) (preq_pmi p) (preq_description p)
                (preq_ttl p) merged_meta)) with
  | Err e => Ret (Err (Initiate e))
  | Ok required =>
      let! sent := SendNotification (ctx_client_pubkey ctx) (ctx_request_event_id ctx)
        (ctx_mirrored_wrap_kind ctx) required in
      match sent return prog (result unit LifecycleFailure) with
      | Err e => Ret (Err (PublishRequired e))
      | Ok _ =>
          let! _ := StoreFlag invoice_issued true in
          let polling_timeout := Z.min verify_timeout (payment_ttl options) in
          let! verify_result := VerifyPayment processor polling_timeout
            (mkVerifyParams (preq_pay_req p) (ctx_request_event_id ctx) (ctx_client_pubkey ctx)) None in
          match verify_result return prog (result unit LifecycleFailure) with
          | VerifyElapsed => Ret (Err VerifyTimeout)
          | VerifyReturned (Err e) => Ret (Err (Verify e))
          | VerifyPanicked => Panic
          | VerifyReturned (Ok verified) => accept_and_forward p verified message ctx next
          end
      end
  end.

Definition run_lifecycle_inner (request : JsonRpcRequest) (message : JsonRpcMessage)
    (priced : PricedCapability) (ctx : InboundContext) (next : JsonRpcMessage → prog bool)
    (invoice_issued : nat) : prog (result unit LifecycleFailure) :=
  let* outcome := resolve_and_initiate_payment options processors_by_pmi request priced
    (ctx_request_event_id ctx) (ctx_client_pubkey ctx) (ctx_client_pmis ctx) in
  match outcome with
  | Err e => Ret (Err (Initiate e))
  | Ok (Rejected pmi amount reason) =>
      match payment_notification PAYMENT_REJECTED_METHOD
              (rejected_params_to_value (mkPaymentRejected pmi (Some amount) reason)) with
      | Err e => Ret (Err (Initiate e))
      | Ok rejected =>
          let! sent := SendNotification (ctx_client_pubkey ctx) (ctx_request_event_id ctx)
            (ctx_mirrored_wrap_kind ctx) rejected in
          match sent return prog (result unit LifecycleFailure) with
          | Err e => Ret (Err (PublishRejected e))
          | Ok _ => Ret (Ok tt)
          end
      end
  | Ok Waived => let* _ := next message in Ret (Ok tt)
  | Ok (PaymentRequired processor payment_required merged_meta verify_timeout) =>
      charge processor payment_required merged_meta verify_timeout message ctx next invoice_issued
  end.

Definition run_lifecycle (request : JsonRpcRequest) (message : JsonRpcMessage)
    (priced : PricedCapability) (ctx : InboundContext) (next : JsonRpcMessage → prog bool)
  : prog (result unit LifecycleFailure) :=
  let! invoice_issued := NewFlag in
  let* caught := catch_unwind (run_lifecycle_inner request message priced ctx next invoice_issued) in
  match caught with
  | Some r => Ret r
  | None =>
      let! issued := LoadFlag invoice_issued in
      Ret (Err (if issued
                then Verify (Processor "payment lifecycle panicked after the invoice was issued")
                else Initiate (Processor "payment lifecycle panicked before any invoice was issued")))
  end.

(** [ServerPaymentsMiddleware::handle]; the lifecycle is run by the task that
    inserted it, and the tasks that joined it wait for its result. *)
Definition transparent_handle : middleware := λ message ctx next,
  match message with
  | Request request =>
      if bool_decide (ctx_payment_interaction ctx = Some ExplicitGating) then next message
      else
        match match_priced_capability request (priced_capabilities options) with
        | None => next message
        | Some priced =>
            if max_pending_payments options =? 0 then Ret false
            else
              let event_id := ctx_request_event_id ctx in
              let! now := Now in
              let! fresh := NewFuture in
              let! existing := EnterPending (payment_ttl options) now event_id fresh in
              match existing return prog bool with
              | Joined in_flight => let! _ := AwaitFuture in_flight in Ret false
              | Refused => Ret false
              | Inserted =>
                  let* r := run_lifecycle request message priced ctx next in
                  let! _ := CompleteFuture fresh r in
                  match r with
                  | Err e =>
                      if is_pre_invoice e
                      then let! _ := ForgetPending event_id fresh in Ret false
                      else Ret false
                  | Ok _ => Ret true
                  end
              end
        end
  | _ => next message
  end.
End transparent.

(** ** Registration ([server_transport_payments.rs]) *)

(** What [with_server_payments] reads and sets of the transport. *)
Record PaymentsTransport : Type := mkPaymentsTransport {
  is_started : bool;
  supported_payment_interaction : option PaymentInteractionPolicy;
  announcement_extra_tags : list Tag;
  announcement_pricing_tags : list Tag;
  inbound_middlewares : list middleware;
}.

Definition compose_payment_extra_tags (options : ServerPaymentsOptions)
    (supports_explicit_gating : bool) : list Tag :=
  map (λ p, pmi_tag (processor_pmi p)) (processors options)
  ++ (if supports_explicit_gating then [payment_interaction_tag ExplicitGating] else []).

Section registration.
Context `{JsonCanon} `{Sha256}.

Definition payments_chain (options : ServerPaymentsOptions) : list middleware :=
  let shared_processors := build_processors_by_pmi (processors options) in
  transparent_handle options shared_processors ::
  (if bool_decide (payment_interaction_policy options = PolicyOptional)
   then [gating_handle options shared_processors] else []).

Definition with_server_payments (transport : PaymentsTransport) (options : ServerPaymentsOptions)
  : result PaymentsTransport string :=
  if is_started transport then Err "with_server_payments must be called before start()"
  else match supported_payment_interaction transport with
  | Some _ =>
      Err "a payment interaction policy is already recorded on this transport; with_server_payments registers once and owns the policy"
  | None =>
      let policy := payment_interaction_policy options in
      let supports_explicit_gating := bool_decide (policy = PolicyOptional) in
      Ok (mkPaymentsTransport false (Some policy)
            (compose_payment_extra_tags options supports_explicit_gating)
            (cap_tags_from_priced_capabilities (priced_capabilities options))
            (inbound_middlewares transport ++ payments_chain options))
  end.
End registration.
