(* ===== verification/ServerPaymentsProofs.v ===== *)
(** * CEP-8 server payments: correctness under every schedule

    Nothing priced is forwarded unpaid, in either lifecycle; one request event is
    charged at most once per payment window; a request takes part in one
    lifecycle only. *)

From S2P Require Import Prelude Json CoreTypes OversizedCodec Instances OversizedReceiver Lru Authorization RouteStore OpenStreamWriter PaymentTypes ServerTasks ServerPayments.

(** ** Rules for the parts the lifecycles share *)

(** The commands of the chain around the middlewares. *)
Definition is_wrapper (c : cmd) : bool :=
  match c with
  | NewFlag | StoreFlag _ _ | LoadFlag _ | MarkForwarded _ | PopRoute _ | RemoveWrapKind _
  | LeaveChain _ | RemoveToken _ | DisposeWriter _ => true
  | _ => false
  end.

(** The flags of a task after a step that may have set the flag [r] and created
    others. *)
Definition keeps (r : nat) (own own' : gmap nat bool) : Prop :=
  is_Some (own' !! r) ∧ ∀ r' b, r' ≠ r → own !! r' = Some b → own' !! r' = Some b.

Lemma keeps_refl r own : is_Some (own !! r) → keeps r own own.
Proof. by split. Qed.

Lemma keeps_trans r own1 own2 own3 : keeps r own1 own2 → keeps r own2 own3 → keeps r own1 own3.
Proof. intros [_ H1] [H2 H3]. split; [done|]. eauto. Qed.

Lemma keeps_set r b own : keeps r own (<[r := b]> own).
Proof.
  split; [by rewrite lookup_insert_eq|]. intros r' b' Hne. by rewrite lookup_insert_ne.
Qed.

Lemma keeps_new r r' b own : is_Some (own !! r) → own !! r' = None → keeps r own (<[r' := b]> own).
Proof.
  intros [b0 Hr] Hn. split; [rewrite lookup_insert_ne by congruence; eauto|].
  intros r2 b2 _ H2. by rewrite lookup_insert_ne by congruence.
Qed.

Lemma keeps_drop r flag b own own' :
  own !! flag = None → flag ≠ r → keeps r (<[flag := b]> own) own' → keeps r own own'.
Proof.
  intros Hf Hne [Hr Hk]. split; [done|]. intros r' b' Hr' Ho. apply Hk; [done|].
  by rewrite lookup_insert_ne by congruence.
Qed.

(** The commands of the gating middleware on behalf of a client. *)
Definition gating_for (pub : string) (c : cmd) : bool :=
  match c with
  | ClaimOrSetPending i _ | UpdatePendingTtl i _ | ClearPending i => String.eqb (client_pubkey i) pub
  | SpawnVerification v => String.eqb (client_pubkey (vf_identity v)) pub
  | SendTargeted _ _ _ => true
  | _ => false
  end.

Lemma identity_pubkey `{JsonCanon} `{Sha256} pub method params i :
  compute_canonical_invocation_identity pub method params = Ok i → client_pubkey i = pub.
Proof.
  unfold compute_canonical_invocation_identity. rewrite result_bind_Ok. by intros (h & _ & [= <-]).
Qed.

Section shared_rules.
Variables gain spend : ∀ c, answer c → nat.
Variable allowed : cmd → Prop.
Hypothesis wrapper_ok : ∀ c, is_wrapper c = true → allowed c ∧ neutral gain spend c.
Hypothesis initiate_ok : ∀ c,
  match c with ResolvePrice _ | CreatePaymentRequired _ _ => True | _ => False end →
  allowed c ∧ ∀ a, spend c a = 0%nat.

Local Abbreviation wp := (wp gain spend allowed).

Ltac wrapper := apply wp_neutral; [done|by apply wrapper_ok|by apply wrapper_ok|intros].

(** A continuation that needs [need] credits and writes no older flag but [r]. *)
Definition next_ok (r need : nat) (p : prog bool) : Prop :=
  ∀ own n, is_Some (own !! r) → (need <= n)%nat → wp own n p (λ own' _ _, keeps r own own').

Lemma wp_terminal ctx e r m need :
  allowed (TxSend ctx m e) →
  (∀ b, gain (TxSend ctx m e) b = 0%nat ∧ (spend (TxSend ctx m e) b <= need)%nat) →
  next_ok r need (next_run [] ctx e r m).
Proof.
  intros Ha Hw own n Hr Hn. cbn [next_run]. apply wp_vis; [done..|]. intros delivered.
  destruct (Hw delivered) as [-> Hs]. split; [lia|].
  apply wp_store_flag; [by apply wrapper_ok|by apply wrapper_ok|done|].
  destruct delivered; [wrapper|]; apply keeps_set.
Qed.

Lemma wp_drop_cleanup own n event_id (Q : gmap nat bool → nat → option unit → Prop) :
  Q own n (Some tt) → wp own n (drop_cleanup event_id) Q.
Proof. intros HQ. unfold drop_cleanup. wrapper. case_match; [wrapper|]; done. Qed.

Lemma wp_slot_cleanup own n event_id (Q : gmap nat bool → nat → option unit → Prop) :
  Q own n (Some tt) → wp own n (slot_cleanup event_id) Q.
Proof. intros HQ. unfold slot_cleanup. wrapper. case_match; [do 2 wrapper|]; done. Qed.

Lemma wp_run_inbound_chain chain ctx m e :
  (∀ r, next_ok r 0 (next_run chain ctx e r m)) →
  wp ∅ 0 (run_inbound_chain chain ctx m e) (λ _ _ _, True).
Proof.
  intros Hnext. unfold run_inbound_chain.
  apply wp_new_flag; [by apply wrapper_ok|by apply wrapper_ok|]. intros r _.
  apply wp_bind, wp_catch_unwind. eapply wp_mono; [apply (Hnext r)|done|].
  { rewrite lookup_insert_eq. eauto. }
  { lia. }
  cbn. intros own n n' _ [[b Hb] _] _.
  eapply wp_load_flag; [by apply wrapper_ok|by apply wrapper_ok|done|].
  apply wp_bind. destruct b; cbn; [by apply wp_slot_cleanup|].
  apply wp_drop_cleanup. by apply wp_slot_cleanup.
Qed.

(** Initiation keeps its credits, and holds those of a waiver when it ends with one. *)
Lemma wp_initiate options by_pmi request priced eid pub pmis w own n Q :
  (∀ meta, (w <= gain (ResolvePrice (mkResolveParams priced request pub eid))
                 (Returned (Ok (Waive meta))))%nat) →
  (∀ n' r, (n <= n')%nat → (r = Some (Ok Waived) → (n + w <= n')%nat) → Q own n' r) →
  wp own n (resolve_and_initiate_payment options by_pmi request priced eid pub pmis) Q.
Proof.
  intros Hw HQ. unfold resolve_and_initiate_payment.
  destruct (resolve_payment_processor _ _ _) as [proc|err]; [|apply HQ; [lia|done]].
  assert (Hcreate : ∀ n' amount d meta, (n <= n')%nat → wp own n'
    (let! created := CreatePaymentRequired proc (mkCreateParams amount d eid pub) in
     let* created := unwrap_call created in
     match created with
     | Err e => Ret (Err e)
     | Ok p => Ret (Ok (PaymentRequired proc p (merge_meta (preq_meta p) meta)
                          (verification_timeout (preq_ttl p))))
     end) Q).
  { intros n' amount d meta Hn.
    destruct (initiate_ok (CreatePaymentRequired proc (mkCreateParams amount d eid pub)) I) as [Ha Hs].
    apply wp_vis; [done..|]. intros created. rewrite Hs. split; [lia|].
    destruct created as [[p|err]|]; cbn; (apply HQ; [lia|done]). }
  apply wp_bind. unfold quote_price. destruct (resolve_price options).
  - destruct (initiate_ok (ResolvePrice (mkResolveParams priced request pub eid)) I) as [Ha Hs].
    apply wp_vis; [done..|]. intros quote. rewrite Hs. split; [lia|].
    destruct quote as [[[amount d meta|msg|meta]|err]|]; cbn [unwrap_call ServerTasks.wp].
    + apply Hcreate. lia.
    + apply HQ; [lia|done].
    + specialize (Hw meta). apply HQ; lia.
    + apply HQ; [lia|done].
    + apply HQ; [lia|done].
  - cbn [ServerTasks.wp]. by apply Hcreate.
Qed.

(** *** The transparent middleware, when its own commands cost nothing *)

Definition is_transparent (c : cmd) : bool :=
  match c with
  | Now | NewFuture | CompleteFuture _ _ | AwaitFuture _ | EnterPending _ _ _ _ | ForgetPending _ _
  | VerifyPayment _ _ _ None | SendNotification _ _ _ _ => true
  | _ => false
  end.

Section transparent_free.
Hypothesis transparent_ok : ∀ c, is_transparent c = true → allowed c ∧ ∀ a, spend c a = 0%nat.

Ltac free_cmd ans :=
  match goal with |- wp _ _ (Vis ?c _) _ =>
    let Ha := fresh in let Hs := fresh in
    destruct (transparent_ok c eq_refl) as [Ha Hs];
    apply wp_vis; [done|exact Ha|]; intros ans; rewrite Hs; split; [lia|]; clear Ha Hs
  end.

Lemma wp_accept_and_forward p v m ctx next r need own n :
  next_ok r need (next m) → is_Some (own !! r) → (need <= n)%nat →
  wp own n (accept_and_forward p v m ctx next) (λ own' _ _, keeps r own own').
Proof.
  intros Hnext Hr Hn. unfold accept_and_forward. cbn [payment_notification]. apply wp_bind.
  free_cmd sent. cbn [ServerTasks.wp]. apply wp_bind.
  eapply wp_mono; [apply (Hnext own need); [done|lia]|lia|].
  by intros own' m1 m2 [b|] Hown _.
Qed.

Lemma wp_charge options proc p meta timeout m ctx next flag r need own n :
  (∀ t v, (need <= gain (VerifyPayment proc t (mkVerifyParams (preq_pay_req p)
             (ctx_request_event_id ctx) (ctx_client_pubkey ctx)) None) (VerifyReturned (Ok v)))%nat) →
  next_ok r need (next m) → is_Some (own !! r) → own !! flag = None → flag ≠ r →
  wp (<[flag := false]> own) n (charge options proc p meta timeout m ctx next flag)
    (λ own' _ _, keeps r own own').
Proof.
  intros Hv Hnext Hr Hf Hne. pose proof (λ b, keeps_new r flag b own Hr Hf) as Hk.
  unfold charge. cbn [payment_notification].
  free_cmd sent. destruct sent as [u|e]; [|apply Hk].
  apply wp_store_flag; [by apply wrapper_ok|by apply wrapper_ok|by rewrite lookup_insert_eq; eauto|].
  rewrite insert_insert_eq.
  free_cmd vres. destruct vres as [[v|e]| |]; try apply Hk.
  eapply wp_mono; [apply (wp_accept_and_forward _ _ _ _ _ r need _ need); [done|apply (Hk true)|lia]| |].
  { match goal with |- context [VerifyPayment _ ?t _ _] => specialize (Hv t v) end. lia. }
  intros own' m1 m2 res Hown _. exact (keeps_drop _ _ _ _ _ Hf Hne Hown).
Qed.

(** Whether the transparent middleware charges for a message. *)
Definition engages (options : ServerPaymentsOptions) (ctx : InboundContext) (m : JsonRpcMessage) : bool :=
  match m with
  | Request request =>
      negb (bool_decide (ctx_payment_interaction ctx = Some ExplicitGating)) &&
      (if match_priced_capability request (priced_capabilities options) is Some _ then true else false)
  | _ => false
  end.

(** What the continuation needs comes from the verification or the waiver. *)
Lemma wp_transparent_handle options by_pmi ctx m next r need :
  (engages options ctx m = false → need = 0%nat) →
  (∀ proc t pay_req v,
     (need <= gain (VerifyPayment proc t (mkVerifyParams pay_req (ctx_request_event_id ctx)
                      (ctx_client_pubkey ctx)) None) (VerifyReturned (Ok v)))%nat) →
  (∀ priced request meta,
     (need <= gain (ResolvePrice (mkResolveParams priced request (ctx_client_pubkey ctx)
                      (ctx_request_event_id ctx))) (Returned (Ok (Waive meta))))%nat) →
  next_ok r need (next m) → next_ok r 0 (transparent_handle options by_pmi m ctx next).
Proof.
  intros Heng Hv Hw Hnext own n Hr _. unfold transparent_handle.
  assert (Hfree : engages options ctx m = false → wp own n (next m) (λ own' _ _, keeps r own own')).
  { intros ->%Heng. apply Hnext; [done|lia]. }
  destruct m as [request| | |]; try by apply Hfree. cbn in Hfree.
  case_bool_decide; [by apply Hfree|].
  destruct (match_priced_capability _ _) as [priced|]; [|by apply Hfree]. clear Heng Hfree. case_match; [by apply keeps_refl|].
  free_cmd now. free_cmd fut. free_cmd existing.
  destruct existing as [f| |]; [free_cmd res; by apply keeps_refl|by apply keeps_refl|].
  apply wp_bind. unfold run_lifecycle.
  apply wp_new_flag; [by apply wrapper_ok|by apply wrapper_ok|]. intros flag Hflag.
  assert (Hne : flag ≠ r) by (destruct Hr; congruence).
  apply wp_bind, wp_catch_unwind.
  assert (Hend : ∀ own' n' res, keeps r own own' → wp own' n'
    (let! _ := CompleteFuture fut res in
     match res with
     | Err e => if is_pre_invoice e then let! _ := ForgetPending (ctx_request_event_id ctx) fut in Ret false
                else Ret false
     | Ok _ => Ret true
     end) (λ own' _ _, keeps r own own')).
  { intros own' n' res Hk. free_cmd u. destruct res as [|e]; [done|].
    destruct (is_pre_invoice e); [free_cmd u2|]; done. }
  eapply wp_mono with (Q := λ own' _ _, keeps r own own'); [|done|].
  - unfold run_lifecycle_inner. apply wp_bind.
    eapply (wp_initiate options by_pmi request _ _ _ _ need); [by intros; apply Hw|].
    intros n' outcome _ Hwaive. pose proof (keeps_new r flag false own Hr Hflag) as Hk.
    destruct outcome as [[[pmi amount reason| |proc p meta timeout]|err]|]; try done.
    + cbn [payment_notification]. free_cmd sent. by destruct sent.
    + apply wp_bind. eapply wp_mono; [apply (Hnext _ need); [apply Hk|lia]|specialize (Hwaive eq_refl); lia|].
      intros own' m1 m2 [b|] Hown _; exact (keeps_drop _ _ _ _ _ Hflag Hne Hown).
    + by eapply wp_charge.
  - intros own' m1 m2 [res|] Hk _; cbv beta iota; [by apply Hend|].
    apply wp_load_any; [by apply wrapper_ok|by apply wrapper_ok|]. intros issued. by apply Hend.
Qed.
End transparent_free.

(** *** The gating middleware, when its own commands cost nothing *)

Section gating_free.
Context `{JsonCanon} `{Sha256}.
Variable ctx : InboundContext.
Hypothesis gating_ok : ∀ c, gating_for (ctx_client_pubkey ctx) c = true →
  allowed c ∧ ∀ a, spend c a = 0%nat.

Ltac free_cmd ans :=
  match goal with |- wp _ _ (Vis ?c _) _ =>
    let Ha := fresh in let Hs := fresh in
    destruct (gating_ok c) as [Ha Hs]; [cbn; by first [done|apply String.eqb_eq]|];
    apply wp_vis; [done|exact Ha|]; intros ans; rewrite Hs; split; [lia|]; clear Ha Hs
  end.

Lemma wp_gating_handle options by_pmi m next r :
  next_ok r 0 (next m) → next_ok r 0 (gating_handle options by_pmi m ctx next).
Proof.
  intros Hnext own n Hr _. unfold gating_handle. pose proof (keeps_refl _ _ Hr) as Hk.
  assert (Hfree : ∀ n', wp own n' (next m) (λ own' _ _, keeps r own own'))
    by (intros; apply Hnext; [done|lia]).
  destruct m as [request| | |]; try done. case_bool_decide; [|done].
  destruct (match_priced_capability _ _) as [priced|]; [|done].
  destruct (compute_canonical_invocation_identity _ _ _) as [i|] eqn:Ei; [|done].
  apply identity_pubkey in Ei as Hpub.
  free_cmd claimed.
  destruct claimed as [| |remaining]; [done| |by free_cmd sent].
  unfold gating_cycle. apply wp_bind. eapply (wp_initiate options by_pmi request _ _ _ _ 0); [lia|].
  intros n' outcome _ _.
  destruct outcome as [[[pmi amount reason| |proc p meta timeout]|err]|]; [..|done].
  + free_cmd u. by free_cmd sent.
  + by free_cmd u.
  + unfold gating_offer. free_cmd u. free_cmd sent. by destruct sent; free_cmd u2.
  + by free_cmd u.
Qed.
End gating_free.
End shared_rules.

(** ** Explicit gating: forwarded invocations are paid for *)

Section gating_paid.
Context `{JsonCanon} `{Sha256}.
Variable options : ServerPaymentsOptions.
Variable id : CanonicalInvocationIdentity.

(** The request of a client is an invocation with the identity [id]. *)
Definition invocation_is (pub : string) (request : JsonRpcRequest) : bool :=
  match compute_canonical_invocation_identity pub (req_method request) (req_params request) with
  | Ok i => bool_decide (i = id)
  | Err _ => false
  end.

Definition is_priced (request : JsonRpcRequest) : bool :=
  if match_priced_capability request (priced_capabilities options) is Some _ then true else false.

(** A priced invocation [id] in a session negotiated onto explicit gating. *)
Definition gated_invocation (ctx : InboundContext) (m : JsonRpcMessage) : bool :=
  match m with
  | Request request =>
      bool_decide (ctx_payment_interaction ctx = Some ExplicitGating) && is_priced request
      && invocation_is (ctx_client_pubkey ctx) request
  | _ => false
  end.

(** *** Events *)

Definition gated_forwards (c : cmd) : answer c → nat :=
  match c with
  | TxSend ctx m _ => λ delivered, if delivered && gated_invocation ctx m then 1%nat else 0%nat
  | _ => λ _, 0%nat
  end.

Definition claims (c : cmd) : answer c → nat :=
  match c with
  | ClaimOrSetPending i _ =>
      λ r, match r with Claimed => if bool_decide (i = id) then 1%nat else 0%nat | _ => 0%nat end
  | _ => λ _, 0%nat
  end.

Definition waivers (c : cmd) : answer c → nat :=
  match c with
  | ResolvePrice p =>
      λ r, match r with
           | Returned (Ok (Waive _)) =>
               if invocation_is (resolve_client_pubkey p) (resolve_request p) then 1%nat else 0%nat
           | _ => 0%nat
           end
  | _ => λ _, 0%nat
  end.

Definition grants (c : cmd) : answer c → nat :=
  match c with
  | Grant i _ => λ _, if bool_decide (i = id) then 1%nat else 0%nat
  | _ => λ _, 0%nat
  end.

(** Verified payments for the invocation [id]. *)
Definition verified_payments (c : cmd) : answer c → nat :=
  match c with
  | VerifyPayment _ _ _ (Some i) =>
      λ r, match r with
           | VerifyReturned (Ok _) => if bool_decide (i = id) then 1%nat else 0%nat
           | _ => 0%nat
           end
  | _ => λ _, 0%nat
  end.

(** *** A forward is covered by a claimed grant or a waiver *)

Definition claims_or_waivers (c : cmd) (a : answer c) : nat := (claims c a + waivers c a)%nat.
Definition any_cmd (c : cmd) : Prop := True.

Local Abbreviation fwp := (wp claims_or_waivers gated_forwards any_cmd).
Local Abbreviation fnext := (next_ok claims_or_waivers gated_forwards any_cmd).

Lemma forwards_wrapper c :
  is_wrapper c = true → any_cmd c ∧ neutral claims_or_waivers gated_forwards c.
Proof. by destruct c. Qed.

Lemma forwards_initiate c :
  match c with ResolvePrice _ | CreatePaymentRequired _ _ => True | _ => False end →
  any_cmd c ∧ ∀ a, gated_forwards c a = 0%nat.
Proof. by destruct c. Qed.

Definition gate_need (ctx : InboundContext) (m : JsonRpcMessage) : nat :=
  if gated_invocation ctx m then 1%nat else 0%nat.

Lemma forwards_offer own n i request ctx proc p meta timeout
    (Q : gmap nat bool → nat → option bool → Prop) :
  (∀ r, Q own n r) → fwp own n (gating_offer options i request ctx proc p meta timeout) Q.
Proof.
  intros HQ. unfold gating_offer. do 2 wp_neutral. case_match; wp_neutral; apply HQ.
Qed.

Lemma forwards_gating by_pmi ctx m next r :
  fnext r (gate_need ctx m) (next m) → fnext r 0 (gating_handle options by_pmi m ctx next).
Proof.
  intros Hnext own n Hr _. unfold gating_handle.
  assert (Hfree : gated_invocation ctx m = false → fwp own n (next m) (λ own' _ _, keeps r own own')).
  { intros E. apply Hnext; [done|]. unfold gate_need. rewrite E. lia. }
  destruct m as [request| | |]; try by apply Hfree.
  case_bool_decide as Hmode; [|apply Hfree; cbn; by rewrite bool_decide_eq_false_2].
  destruct (match_priced_capability _ _) as [priced|] eqn:Ep.
  2:{ apply Hfree. cbn. unfold is_priced. by rewrite Ep, andb_false_r. }
  destruct (compute_canonical_invocation_identity _ _ _) as [i|] eqn:Ei; [|by apply keeps_refl].
  assert (Hneed : ∀ n', (bool_decide (i = id) = true → (1 <= n')%nat) →
    (gate_need ctx (Request request) <= n')%nat).
  { intros n' Hn. unfold gate_need. cbn. unfold invocation_is. rewrite Ei.
    destruct (bool_decide (i = id)); [specialize (Hn eq_refl); case_match; lia|].
    rewrite andb_false_r. lia. }
  apply wp_vis; [done..|]. intros claimed. split; [cbn; lia|]. cbn [gated_forwards].
  destruct claimed as [| |remaining].
  - apply Hnext; [done|]. apply Hneed. intros E. cbn. rewrite E. lia.
  - unfold gating_cycle. apply wp_bind.
    eapply (wp_initiate claims_or_waivers gated_forwards any_cmd forwards_initiate _ _ _ _ _ _ _
              (if bool_decide (i = id) then 1%nat else 0%nat)).
    { intros meta. cbn. unfold invocation_is. by rewrite Ei. }
    intros n' outcome Hn Hw. destruct outcome as [[[pmi amount reason| |proc p meta timeout]|err]|]; [..|done].
    + do 2 wp_neutral. done.
    + wp_neutral. apply Hnext; [done|]. apply Hneed. intros E. rewrite E in Hw.
      specialize (Hw eq_refl). lia.
    + by apply forwards_offer.
    + by wp_neutral.
  - by wp_neutral.
Qed.


Lemma forwards_chain ctx m e :
  payment_interaction_policy options = PolicyOptional →
  fwp ∅ 0 (run_inbound_chain (payments_chain options) ctx m e) (λ _ _ _, True).
Proof.
  intros Hpol. apply wp_run_inbound_chain; [apply forwards_wrapper|]. intros r.
  unfold payments_chain. rewrite bool_decide_eq_true_2 by done. cbn [next_run].
  apply (wp_transparent_handle _ _ _ forwards_wrapper forwards_initiate ltac:(by intros []) _ _ _ _ _ _ 0);
    [done|lia|lia|].
  apply forwards_gating. apply wp_terminal; [apply forwards_wrapper|done|].
  intros b. split; [done|]. cbn. unfold gate_need. destruct b; cbn; [done|lia].
Qed.

(** *** A grant is covered by a verified payment *)

(** Commands on the store are for clients whose keys are as long as that of [id]. *)
Definition same_width (c : cmd) : Prop :=
  match c with
  | ClaimOrSetPending i _ | UpdatePendingTtl i _ | ClearPending i | Grant i _ =>
      str_len (client_pubkey i) = str_len (client_pubkey id)
  | SpawnVerification v => str_len (client_pubkey (vf_identity v)) = str_len (client_pubkey id)
  | _ => True
  end.

Local Abbreviation gwp := (wp verified_payments grants same_width).

Lemma grants_wrapper c :
  is_wrapper c = true → same_width c ∧ neutral verified_payments grants c.
Proof. by destruct c. Qed.

Lemma grants_initiate c :
  match c with ResolvePrice _ | CreatePaymentRequired _ _ => True | _ => False end →
  same_width c ∧ ∀ a, grants c a = 0%nat.
Proof. by destruct c. Qed.

Lemma grants_chain ctx m e :
  str_len (ctx_client_pubkey ctx) = str_len (client_pubkey id) →
  gwp ∅ 0 (run_inbound_chain (payments_chain options) ctx m e) (λ _ _ _, True).
Proof.
  intros Hlen. apply wp_run_inbound_chain; [apply grants_wrapper|]. intros r.
  assert (Hend : next_ok verified_payments grants same_width r 0 (next_run [] ctx e r m))
    by (by apply wp_terminal; [apply grants_wrapper| |]).
  unfold payments_chain. cbn [next_run].
  apply (wp_transparent_handle _ _ _ grants_wrapper grants_initiate ltac:(by intros []) _ _ _ _ _ _ 0);
    [done|lia|lia|].
  case_bool_decide; [|done]. apply wp_gating_handle; [apply grants_initiate| |done].
  intros c Hc. destruct c; try done; cbn in Hc |- *; b2p; by rewrite Hc.
Qed.

Lemma grants_verification v :
  same_width (SpawnVerification v) → gwp ∅ 0 (verification_task v) (λ _ _ _, True).
Proof.
  intros Hlen. unfold verification_task. apply wp_vis; [done..|]. intros r. split; [cbn; lia|].
  destruct r as [[o|e]| |]; [|by wp_neutral..].
  apply wp_vis; [done..|]. intros []. by split; [cbn; case_bool_decide; lia|].
Qed.

(** *** The store in between *)

Context `{LruLaws L}.

Lemma exec_claims env (w w' : World L) c a :
  exec env w c = Some (w', a) → same_width c →
  (claims c a + granted (auth w') id <= grants c a + granted (auth w) id)%nat.
Proof.
  intros Hex Hc. pose proof (λ op, auth_step_balance (env Now) (auth w) op id) as Hstep.
  destruct c; cbn in Hex; repeat case_match; simplify_eq/=; try done.
  all: match goal with
  | E : claim_or_set_pending _ _ ?i ?t = _ |- _ =>
      specialize (Hstep (OpClaimOrSetPending i t) Hc); cbn in Hstep; rewrite E in Hstep
  | |- context [update_pending_ttl _ _ ?i ?t] => specialize (Hstep (OpUpdatePendingTtl i t) Hc)
  | |- context [clear_pending _ ?i] => specialize (Hstep (OpClearPending i) Hc)
  | |- context [grant _ _ ?i ?t] => specialize (Hstep (OpGrant i t) Hc)
  | _ => idtac
  end; cbn in Hstep |- *; repeat case_match; try done; lia.
Qed.

Lemma run_claims chain spawn s acts :
  (count claims (trace s) + granted (auth (world s)) id <= count grants (trace s))%nat →
  let s' := run chain spawn s acts in
  Forall (λ e, same_width (projT1 e)) (trace s') →
  (count claims (trace s') + granted (auth (world s')) id <= count grants (trace s'))%nat.
Proof.
  intros Hs. cbn. induction acts as [|a acts IH] using rev_ind; [done|].
  unfold run in *. rewrite foldl_snoc. set (s1 := foldl _ _ _) in *. clearbody s1.
  destruct a as [ctx m e|i env|op|o|]; cbn; try done.
  - unfold dispatch_inbound. destruct chain; cbn; [by case_match|done].
  - destruct (tasks s1 !! i) as [[| |c k]|]; try done.
    destruct (exec env (world s1) c) as [[w a]|] eqn:Hex; [|done]. cbn.
    intros [Hall Hc]%Forall_app. inv Hc. specialize (IH Hall). rewrite !count_snoc.
    pose proof (exec_claims _ _ _ _ _ Hex ltac:(done)). lia.
Qed.
End gating_paid.

(** No unpaid execution under explicit gating: whatever requests arrive, in
    whatever order the tasks run, whatever the processors, the pricing callback,
    the publishes and the clock answer, and whoever panics, the priced
    invocations of one identity handed to the handler in gated sessions are at
    most the payments verified for that identity plus the waivers granted to it. *)
Theorem gated_forwards_paid `{LruLaws L} `{JsonCanon} `{Sha256} options id max_entries acts :
  payment_interaction_policy options = PolicyOptional →
  Forall (action_ok (λ ctx _, str_len (ctx_client_pubkey ctx) = str_len (client_pubkey id))) acts →
  let s := run (payments_chain options) verification_task
             (server_start max_entries (max_pending_payments options) : Server L) acts in
  (count (gated_forwards options id) (trace s) <=
   count (verified_payments id) (trace s) + count (waivers id) (trace s))%nat.
Proof.
  intros Hpol Hacts s.
  destruct (run_accounted (claims_or_waivers id) (gated_forwards options id) any_cmd
    (payments_chain options) verification_task (λ _ _, True)
    (λ ctx m e _, forwards_chain options id ctx m e Hpol)
    ltac:(intros v _; unfold verification_task; wp_neutral; by repeat case_match; wp_neutral)
    max_entries (max_pending_payments options) acts) as [Hf _].
  { eapply Forall_impl; [done|]. by intros []. }
  destruct (run_accounted (verified_payments id) (grants id) (same_width id)
    (payments_chain options) verification_task _
    (λ ctx m e, grants_chain options id ctx m e) (grants_verification id)
    max_entries (max_pending_payments options) acts Hacts) as [Hg Hw].
  pose proof (run_claims id (payments_chain options) verification_task
    (server_start max_entries (max_pending_payments options)) acts) as Hc.
  cbn beta zeta in Hc. fold s in Hf, Hg, Hw, Hc. specialize (λ H, Hc H Hw).
  unfold claims_or_waivers in Hf. rewrite count_add in Hf.
  unfold granted at 1 in Hc. cbn in Hc. rewrite entry_new in Hc. specialize (Hc ltac:(done)). lia.
Qed.

(** ** Transparent lifecycle: forwarded requests are paid for *)

Section transparent_paid.
Context `{JsonCanon} `{Sha256}.
Variable options : ServerPaymentsOptions.
Variable eid : string.

(** A priced request carried by the event [eid], outside explicit gating. *)
Definition charged_request (ctx : InboundContext) (m : JsonRpcMessage) : bool :=
  engages options ctx m && String.eqb (ctx_request_event_id ctx) eid.

Definition charged_forwards (c : cmd) : answer c → nat :=
  match c with
  | TxSend ctx m _ => λ delivered, if delivered && charged_request ctx m then 1%nat else 0%nat
  | _ => λ _, 0%nat
  end.

(** Settled payments of the event, and waivers of its price. *)
Definition settlements (c : cmd) : answer c → nat :=
  match c with
  | VerifyPayment _ _ p None =>
      λ r, match r with
           | VerifyReturned (Ok _) => if String.eqb (verify_request_event_id p) eid then 1%nat else 0%nat
           | _ => 0%nat
           end
  | ResolvePrice p =>
      λ r, match r with
           | Returned (Ok (Waive _)) => if String.eqb (resolve_request_event_id p) eid then 1%nat else 0%nat
           | _ => 0%nat
           end
  | _ => λ _, 0%nat
  end.

Lemma charged_wrapper c : is_wrapper c = true → any_cmd c ∧ neutral settlements charged_forwards c.
Proof. by destruct c. Qed.

Lemma charged_initiate c :
  match c with ResolvePrice _ | CreatePaymentRequired _ _ => True | _ => False end →
  any_cmd c ∧ ∀ a, charged_forwards c a = 0%nat.
Proof. by destruct c. Qed.

Lemma charged_gating by_pmi ctx m next r :
  next_ok settlements charged_forwards any_cmd r
    (if charged_request ctx m then 1%nat else 0%nat) (next m) →
  next_ok settlements charged_forwards any_cmd r
    (if charged_request ctx m then 1%nat else 0%nat) (gating_handle options by_pmi m ctx next).
Proof.
  intros Hnext. destruct (charged_request ctx m) eqn:E.
  - unfold charged_request, engages in E. unfold gating_handle. destruct m; [|done..].
    rewrite !andb_true_iff, negb_true_iff in E. by destruct E as [[-> _] _].
  - apply wp_gating_handle; [apply charged_initiate| |done]. by intros [].
Qed.

Lemma charged_chain ctx m e :
  wp settlements charged_forwards any_cmd ∅ 0
    (run_inbound_chain (payments_chain options) ctx m e) (λ _ _ _, True).
Proof.
  apply wp_run_inbound_chain; [apply charged_wrapper|]. intros r.
  assert (Hend : next_ok settlements charged_forwards any_cmd r
    (if charged_request ctx m then 1%nat else 0%nat) (next_run [] ctx e r m)).
  { apply wp_terminal; [apply charged_wrapper|done|]. intros b. split; [done|]. cbn. destruct b; cbn; [done|lia]. }
  unfold payments_chain. cbn [next_run].
  apply (wp_transparent_handle _ _ _ charged_wrapper charged_initiate ltac:(by intros []) _ _ _ _ _ _
           (if charged_request ctx m then 1%nat else 0%nat)).
  - unfold charged_request. by intros ->.
  - intros. unfold charged_request. cbn. destruct (engages _ _ _), (String.eqb _ _); cbn; lia.
  - intros. unfold charged_request. cbn. destruct (engages _ _ _), (String.eqb _ _); cbn; lia.
  - case_bool_decide; [|done]. by apply charged_gating.
Qed.
End transparent_paid.

(** No unpaid execution in the transparent lifecycle: under every schedule and
    every answer of the processors, publishes and clock, a priced request event
    outside explicit gating is handed to the handler at most as often as a payment
    for it was verified or its price was waived. *)
Theorem transparent_forwards_paid `{Lru L} `{JsonCanon} `{Sha256} options eid max_entries acts :
  let s := run (payments_chain options) verification_task
             (server_start max_entries (max_pending_payments options) : Server L) acts in
  (count (charged_forwards options eid) (trace s) <= count (settlements eid) (trace s))%nat.
Proof.
  apply (run_accounted (settlements eid) (charged_forwards options eid) any_cmd
    (payments_chain options) verification_task (λ _ _, True)).
  - intros ctx m e _. apply charged_chain.
  - intros v _. unfold verification_task. wp_neutral. by repeat case_match; wp_neutral.
  - apply Forall_true. by intros [].
Qed.

(** ** One charge per payment window *)

(** The clock readings with which the cache of pending payments is entered. *)
Definition reading (c : cmd) : option Z :=
  match c with EnterPending _ now _ _ => Some now | _ => None end.

Definition readings (tr : list event) : list Z := omap (λ e, reading (projT1 e)) tr.

(** The readings start at [t] or later and do not go back. *)
Fixpoint ordered (t : Z) (l : list Z) : bool :=
  match l with [] => true | x :: l' => (t <=? x) && ordered x l' end.

Lemma readings_snoc tr c (a : answer c) :
  readings (tr ++ [existT c a]) = readings tr ++ option_list (reading c).
Proof. unfold readings. rewrite omap_app. cbn. by destruct (reading c). Qed.

Lemma last_cons_indep (z : Z) l t t' : List.last (z :: l) t = List.last (z :: l) t'.
Proof. revert z. induction l as [|y l IH]; intros z; [done|]. exact (IH y). Qed.

Lemma ordered_snoc t l o :
  ordered t (l ++ option_list o) = true →
  ordered t l = true ∧ List.last l t ≤ default (List.last l t) o.
Proof.
  destruct o as [x|]; cbn; [|by rewrite app_nil_r]. revert t. induction l as [|y l IH]; intros t; cbn.
  - rewrite andb_true_r. by intros H%Z.leb_le.
  - rewrite !andb_true_iff. intros [Hy [Hl Hx]%IH]. split; [done|]. destruct l; [done|].
    by rewrite (last_cons_indep _ _ t y).
Qed.

Lemma last_snoc_default (l : list Z) o t : List.last (l ++ option_list o) t = default (List.last l t) o.
Proof. destruct o; cbn; [apply List.last_last|by rewrite app_nil_r]. Qed.

Section single_charge.
Context `{JsonCanon} `{Sha256}.
Variable options : ServerPaymentsOptions.
Variable eid : string.

Definition is_payment_required (m : JsonRpcMessage) : bool :=
  bool_decide (msg_method m = Some PAYMENT_REQUIRED_METHOD).

(** Payment requests that reached the client for the event [eid]. *)
Definition charges (c : cmd) : answer c → nat :=
  match c with
  | SendNotification _ e _ m =>
      λ r, match r with
           | Ok _ => if String.eqb e eid && is_payment_required m then 1%nat else 0%nat
           | Err _ => 0%nat
           end
  | _ => λ _, 0%nat
  end.

(** Lifecycles started for the event, and those forgotten before an invoice. *)
Definition inserts (c : cmd) : answer c → nat :=
  match c with
  | EnterPending _ _ e _ =>
      λ r, match r with Inserted => if String.eqb e eid then 1%nat else 0%nat | _ => 0%nat end
  | _ => λ _, 0%nat
  end.

Definition forgets (c : cmd) : answer c → nat :=
  match c with
  | ForgetPending e _ => λ _, if String.eqb e eid then 1%nat else 0%nat
  | _ => λ _, 0%nat
  end.

Definition charges_or_forgets (c : cmd) (a : answer c) : nat := (charges c a + forgets c a)%nat.

(** The cache is entered with the configured lifetime. *)
Definition configured_ttl (c : cmd) : Prop :=
  match c with EnterPending ttl _ _ _ => ttl = payment_ttl options | _ => True end.

Local Abbreviation cwp := (wp inserts charges_or_forgets configured_ttl).
Local Abbreviation cnext := (next_ok inserts charges_or_forgets configured_ttl).

Lemma charges_wrapper c : is_wrapper c = true → configured_ttl c ∧ neutral inserts charges_or_forgets c.
Proof. by destruct c. Qed.

Lemma charges_initiate c :
  match c with ResolvePrice _ | CreatePaymentRequired _ _ => True | _ => False end →
  configured_ttl c ∧ ∀ a, charges_or_forgets c a = 0%nat.
Proof. by destruct c. Qed.

Ltac wrapper := apply wp_neutral; [done|done|by intros []|intros].

(** The credit the lifecycle of an event holds. *)
Definition credit (ctx : InboundContext) : nat :=
  if String.eqb (ctx_request_event_id ctx) eid then 1%nat else 0%nat.

(** The end of a lifecycle: unless the invoice flag is set the credit is still
    held, and it is held after a pre-invoice failure. *)
Definition lifecycle_end (ctx : InboundContext) (r flag : nat) (own own' : gmap nat bool) (n : nat)
    (res : option (result unit LifecycleFailure)) : Prop :=
  keeps r own own' ∧
  match res with
  | Some (Err e) => is_pre_invoice e = true → (credit ctx <= n)%nat
  | Some (Ok _) => True
  | None => ∃ b, own' !! flag = Some b ∧ (b = false → (credit ctx <= n)%nat)
  end.

Lemma lifecycle_end_mono ctx r flag own own' n n' res :
  lifecycle_end ctx r flag own own' n res → (n <= n')%nat → lifecycle_end ctx r flag own own' n' res.
Proof.
  intros [Hk Hres] Hn. split; [done|]. destruct res as [[|e]|]; [done| |].
  - intros He. specialize (Hres He). lia.
  - destruct Hres as (b & Hb & Hc). exists b. split; [done|]. intros ->. specialize (Hc eq_refl). lia.
Qed.

Lemma charges_charge proc p meta timeout m ctx next flag r own n :
  cnext r 0 (next m) → is_Some (own !! r) → own !! flag = None → flag ≠ r →
  (credit ctx <= n)%nat →
  cwp (<[flag := false]> own) n (charge options proc p meta timeout m ctx next flag)
    (λ own' n' res, lifecycle_end ctx r flag own own' n' res).
Proof.
  intros Hnext Hr Hf Hne Hn. pose proof (λ b, keeps_new r flag b own Hr Hf) as Hk.
  unfold charge. cbn [payment_notification].
  apply wp_vis; [done..|]. intros sent.
  assert (Hspend : ∀ c k msg, (charges_or_forgets
    (SendNotification c (ctx_request_event_id ctx) k msg) sent <= credit ctx)%nat).
  { intros c k msg. unfold charges_or_forgets, credit. cbn.
    destruct sent, (String.eqb _ _); cbn; try lia. case_match; lia. }
  split; [etrans; [apply Hspend|lia]|].
  destruct sent as [u|err]; cbn [charges_or_forgets inserts charges forgets].
  2:{ split; [apply Hk|]. cbn. unfold charges_or_forgets. cbn. lia. }
  apply wp_store_flag; [by apply charges_wrapper|by apply charges_wrapper|by rewrite lookup_insert_eq; eauto|].
  rewrite insert_insert_eq. wrapper.
  destruct a as [[v|err]| |]; try (by split; [apply Hk|]).
  - unfold accept_and_forward. cbn [payment_notification]. apply wp_bind.
    apply wp_vis; [done..|]. intros sent2. split; [unfold charges_or_forgets; cbn; destruct sent2; [|lia]; rewrite andb_false_r; lia|].
    cbn [wp]. apply wp_bind. eapply wp_mono; [apply Hnext; [apply (Hk true)|lia]|done|].
    intros own' m1 m2 [b|] Hown _.
    + split; [exact (keeps_drop _ _ _ _ _ Hf Hne Hown)|done].
    + split; [exact (keeps_drop _ _ _ _ _ Hf Hne Hown)|].
      exists true. split; [|done]. apply Hown; [done|]. apply lookup_insert_eq.
  - split; [apply Hk|]. exists true. split; [apply lookup_insert_eq|done].
Qed.

Lemma charges_lifecycle_inner by_pmi request m priced ctx next flag r own n :
  cnext r 0 (next m) → is_Some (own !! r) → own !! flag = None → flag ≠ r →
  (credit ctx <= n)%nat →
  cwp (<[flag := false]> own) n (run_lifecycle_inner options by_pmi request m priced ctx next flag)
    (λ own' n' res, lifecycle_end ctx r flag own own' n' res).
Proof.
  intros Hnext Hr Hf Hne Hn. pose proof (keeps_new r flag false own Hr Hf) as Hk.
  unfold run_lifecycle_inner. apply wp_bind.
  eapply (wp_initiate inserts charges_or_forgets configured_ttl charges_initiate _ _ _ _ _ _ _ 0); [lia|].
  intros n' outcome Hn' _.
  destruct outcome as [[[pmi amount reason| |proc p meta timeout]|err]|].
  - cbn [payment_notification]. apply wp_vis; [done..|]. intros sent.
    assert (Hs : charges_or_forgets (SendNotification (ctx_client_pubkey ctx) (ctx_request_event_id ctx)
      (ctx_mirrored_wrap_kind ctx) (Notification (mkNotification "2.0" PAYMENT_REJECTED_METHOD
        (Some (rejected_params_to_value (mkPaymentRejected pmi (Some amount) reason)))))) sent = 0%nat).
    { unfold charges_or_forgets. cbn. destruct sent; [|done]. by rewrite andb_false_r. }
    rewrite Hs. split; [lia|]. destruct sent; split; try done. cbn. lia.
  - apply wp_bind. eapply wp_mono; [apply wp_frame, (Hnext _ 0%nat); [apply Hk|lia]|done|].
    intros own' m1 m2 [b|] (n0 & -> & Hown) Hm.
    + split; [exact (keeps_drop _ _ _ _ _ Hf Hne Hown)|done].
    + split; [exact (keeps_drop _ _ _ _ _ Hf Hne Hown)|].
      exists false. split; [|lia]. apply Hown; [done|]. apply lookup_insert_eq.
  - apply charges_charge; try done. lia.
  - split; [done|]. cbn. lia.
  - split; [done|]. exists false. split; [apply lookup_insert_eq|lia].
Qed.

Lemma charges_transparent by_pmi ctx m next r :
  cnext r 0 (next m) → cnext r 0 (transparent_handle options by_pmi m ctx next).
Proof.
  intros Hnext own n Hr _. unfold transparent_handle.
  assert (Hfree : cwp own n (next m) (λ own' _ _, keeps r own own')) by (apply Hnext; [done|lia]).
  pose proof (keeps_refl _ _ Hr) as Hk0.
  destruct m as [request| | |]; try done. case_bool_decide; [done|].
  destruct (match_priced_capability _ _) as [priced|]; [|done]. case_match; [done|].
  do 2 wrapper. apply wp_vis; [done..|]. intros entered. split; [cbn; lia|].
  destruct entered as [f| |]; [by wrapper|done|].
  apply wp_bind. unfold run_lifecycle.
  apply wp_new_flag; [by apply charges_wrapper|by apply charges_wrapper|]. intros flag Hflag.
  assert (Hne : flag ≠ r) by (destruct Hr; congruence).
  apply wp_bind, wp_catch_unwind.
  assert (Hend : ∀ own' n' fut res, keeps r own own' →
    match res with Err e => is_pre_invoice e = true → (credit ctx <= n')%nat | Ok _ => True end →
    cwp own' n'
      (let! _ := CompleteFuture fut res in
       match res with
       | Err e => if is_pre_invoice e then let! _ := ForgetPending (ctx_request_event_id ctx) fut in Ret false
                  else Ret false
       | Ok _ => Ret true
       end) (λ own' _ _, keeps r own own')).
  { intros own' n' fut res Hk Hres. wrapper. destruct res as [|err]; [done|].
    destruct (is_pre_invoice err); [|done]. specialize (Hres eq_refl).
    apply wp_vis; [done..|]. intros u. split; [unfold charges_or_forgets, credit in *; cbn; lia|done]. }
  eapply wp_mono; [apply (charges_lifecycle_inner _ _ _ _ ctx _ flag r own (credit ctx)); try done| |].
  { cbn. unfold charges_or_forgets, credit. cbn. lia. }
  intros own' m1 m2 [res|] [Hk Hres] Hm; cbv beta iota.
  - apply Hend; [done|]. destruct res as [|err]; [done|]. intros E. specialize (Hres E). lia.
  - destruct Hres as (b & Hb & Hc).
    eapply wp_load_flag; [by apply charges_wrapper|by apply charges_wrapper|done|].
    apply Hend; [done|]. destruct b; [done|]. intros _. specialize (Hc eq_refl). lia.
Qed.

Lemma charges_chain ctx m e :
  cwp ∅ 0 (run_inbound_chain (payments_chain options) ctx m e) (λ _ _ _, True).
Proof.
  apply wp_run_inbound_chain; [apply charges_wrapper|]. intros r.
  unfold payments_chain. cbn [next_run]. apply charges_transparent.
  assert (Hend : cnext r 0 (next_run [] ctx e r m))
    by (by apply wp_terminal; [apply charges_wrapper| |]).
  case_bool_decide; [|done]. apply wp_gating_handle; [apply charges_initiate|by intros []|done].
Qed.

(** *** The cache in between *)

Context `{LruLaws L}.

(** What may happen to an entry at the time [now]: it stays, or it has expired and
    is gone. *)
Definition aged (now : Z) (k : string) (c c' : L PendingEntry) : Prop :=
  entry c' k = entry c k ∨
  (entry c' k = None ∧ ∃ x, entry c k = Some x ∧ expires_at x ≤ now).

Lemma aged_trans now k c1 c2 c3 : aged now k c1 c2 → aged now k c2 c3 → aged now k c1 c3.
Proof.
  intros [E1|[E1 G1]] [E2|[E2 G2]]; unfold aged; rewrite ?E2, ?E1 in *; eauto.
Qed.

Lemma purge_aged now k c : aged now k c (purge_expired_pending c now).
Proof.
  unfold purge_expired_pending, aged. rewrite pop_all_entry. case_decide as Hin; [right|by left].
  split; [done|]. apply list_elem_of_fmap in Hin as ([k' x] & -> & Hin).
  apply list_elem_of_In, filter_In in Hin as [Hin Hx]. cbn in *. b2p. exists x. split; [|done].
  apply al_elem_get; [apply lru_nodup|]. apply list_elem_of_In in Hin.
  apply elem_of_reverse. eapply elem_of_sublist; [done|apply sublist_take].
Qed.

Lemma pop_expired_aged now k key x (c : L PendingEntry) :
  List.find (λ ke, expires_at ke.2 <=? now) (lru_iter c) = Some (key, x) →
  aged now k c (lru_pop key c).1 ∧ lru_len (lru_pop key c).1 < lru_len c.
Proof.
  intros [Hin Hx]%List.find_some. cbn in Hx. b2p. apply list_elem_of_In in Hin.
  apply (al_elem_get _ _ _ (lru_nodup c)) in Hin. split.
  - unfold aged. rewrite entry_pop. destruct (String.eqb_spec k key) as [->|]; [right|by left]. eauto.
  - unfold lru_len. rewrite lru_pop_iter, <- (length_al_del key x (lru_iter c)); [lia|apply lru_nodup|done].
Qed.

(** The critical section: a fresh entry replaces only an absent or expired one,
    and every other entry stays until it has expired. *)
Lemma enter_pending_entry ttl now e f (c c' : L PendingEntry) r k :
  enter_pending ttl now e f c = (c', r) →
  (r = Inserted ∧ e = k ∧ entry c' k = Some (mkPendingEntry (now + ttl) f) ∧
   ∀ x, entry c k = Some x → expires_at x ≤ now) ∨
  (aged now k c c' ∧ (r = Inserted → e ≠ k)).
Proof.
  unfold enter_pending. pose proof (purge_aged now k c) as Hp.
  set (c0 := purge_expired_pending c now) in *. clearbody c0.
  assert (Hstart : ∀ c1, aged now k c c1 → lru_len c1 < lru_cap c1 →
    (e = k → ∀ x, entry c k = Some x → expires_at x ≤ now) →
    (lru_put e (mkPendingEntry (now + ttl) f) c1, Inserted) = (c', r) →
    (r = Inserted ∧ e = k ∧ entry c' k = Some (mkPendingEntry (now + ttl) f) ∧
     ∀ x, entry c k = Some x → expires_at x ≤ now) ∨
    (aged now k c c' ∧ (r = Inserted → e ≠ k))).
  { intros c1 Hc1 Hroom Hold [= <- <-]. destruct (decide (e = k)) as [<-|Hne].
    - left. rewrite entry_put_eq. eauto.
    - right. split; [|done]. unfold aged. by rewrite entry_put_ne_room by done. }
  assert (Hadmit : (∀ x, e = k → entry c k = Some x → expires_at x ≤ now) →
    (if lru_len c0 =? lru_cap c0 then
       match List.find (λ ke, expires_at ke.2 <=? now) (lru_iter c0) with
       | Some (key, _) => (lru_put e (mkPendingEntry (now + ttl) f) (lru_pop key c0).1, Inserted)
       | None => (c0, Refused)
       end
     else (lru_put e (mkPendingEntry (now + ttl) f) c0, Inserted)) = (c', r) →
    (r = Inserted ∧ e = k ∧ entry c' k = Some (mkPendingEntry (now + ttl) f) ∧
     ∀ x, entry c k = Some x → expires_at x ≤ now) ∨
    (aged now k c c' ∧ (r = Inserted → e ≠ k))).
  { intros Hold. destruct (lru_len c0 =? lru_cap c0) eqn:Efull; b2p.
    - destruct (List.find _ _) as [[key x]|] eqn:Ef; [|intros [= <- <-]; by right].
      destruct (pop_expired_aged now k _ _ _ Ef) as [Hk Hlt].
      apply Hstart; [by eapply aged_trans|rewrite lru_pop_cap; lia|eauto].
    - pose proof (lru_len_le c0). apply Hstart; [done|lia|eauto]. }
  rewrite lru_peek_value. fold (entry c0 e). destruct (entry c0 e) as [x|] eqn:Ee.
  - destruct (now <? expires_at x) eqn:Ex; b2p; [intros [= <- <-]; by right|].
    apply Hadmit. intros y -> Hy. destruct Hp as [E|[E _]]; congruence || (rewrite Ee in E; by simplify_eq).
  - apply Hadmit. intros y -> Hy. destruct Hp as [E|[_ (z & Hz & Hle)]]; [congruence|by simplify_eq].
Qed.

(** The started lifecycles that were not forgotten fill the time since [t0], up to
    the expiry of the entry. *)
Definition window_inv (t0 last : Z) (s : Server L) : Prop :=
  let n := Z.of_nat (count inserts (trace s)) - Z.of_nat (count forgets (trace s)) in
  let ttl := payment_ttl options in
  match entry (payments (world s)) eid with
  | Some x => n * ttl ≤ expires_at x - t0 ∧ expires_at x ≤ last + ttl
  | None => n * ttl ≤ last - t0
  end.

Lemma exec_payments env (w w' : World L) c a :
  exec env w c = Some (w', a) →
  match c with EnterPending _ _ _ _ | ForgetPending _ _ => True | _ => payments w' = payments w end.
Proof. destruct c; cbn; intros Hex; repeat case_match; by simplify_eq/=. Qed.

Lemma exec_window t0 last env s c k i (w : World L) a :
  0 ≤ payment_ttl options → configured_ttl c → exec env (world s) c = Some (w, a) →
  last ≤ default last (reading c) → window_inv t0 last s →
  window_inv t0 (default last (reading c))
    (mkServer w (<[i := k]> (tasks s)) (trace s ++ [existT c a])).
Proof.
  intros Httl Hc Hex Hle Hinv. pose proof (exec_payments _ _ _ _ _ Hex) as Hp.
  unfold window_inv in *. cbn [trace world]. rewrite !count_snoc, !Nat2Z.inj_add.
  destruct c; try (cbn; rewrite Hp; cbn; rewrite !Z.add_0_r; by destruct (entry _ _)); clear Hp.
  - cbn in Hc, Hex. subst ttl. destruct (enter_pending _ _ _ _ _) as [c' r] eqn:Ee. simplify_eq/=.
    apply (enter_pending_entry _ _ _ _ _ _ _ eid) in Ee as [(-> & <- & Hnew & Hold)|[Haged Hne]].
    + rewrite Hnew, String.eqb_refl. cbn.
      destruct (entry (payments (world s)) event_id) as [x|]; [specialize (Hold x eq_refl)|]; lia.
    + assert (E : inserts (EnterPending (payment_ttl options) now event_id fresh) a = 0%nat).
      { cbn. destruct a; try done. rewrite (proj2 (String.eqb_neq _ _)); [done|]. by apply Hne. }
      cbn in E. rewrite E. cbn.
      destruct Haged as [Ea|[Ea (x & Hx & Hexp)]]; rewrite Ea, ?Hx in *; [|lia].
      destruct (entry (payments (world s)) eid); lia.
  - cbn in Hex. simplify_eq/=. unfold forget_pending. rewrite lru_peek_value. fold (entry (payments (world s)) event_id).
    assert (Hkeep : match entry (payments (world s)) eid with
      | Some x => (Z.of_nat (count inserts (trace s)) + 0 -
          (Z.of_nat (count forgets (trace s)) + Z.of_nat (if String.eqb event_id eid then 1 else 0)))
            * payment_ttl options ≤ expires_at x - t0 ∧ expires_at x ≤ last + payment_ttl options
      | None => (Z.of_nat (count inserts (trace s)) + 0 -
          (Z.of_nat (count forgets (trace s)) + Z.of_nat (if String.eqb event_id eid then 1 else 0)))
            * payment_ttl options ≤ last - t0
      end) by (destruct (entry (payments (world s)) eid), (String.eqb event_id eid); cbn; lia).
    destruct (entry (payments (world s)) event_id) as [x|] eqn:Ex; [|done].
    destruct (Nat.eqb _ _); [|done]. rewrite entry_pop, String.eqb_sym.
    destruct (String.eqb_spec event_id eid) as [->|]; [|done]. rewrite Ex in Hinv. cbn. lia.
Qed.

Lemma run_window chain spawn t0 s acts :
  0 ≤ payment_ttl options → trace s = [] → window_inv t0 t0 s →
  let s' := run chain spawn s acts in
  Forall (λ e, configured_ttl (projT1 e)) (trace s') → ordered t0 (readings (trace s')) = true →
  window_inv t0 (List.last (readings (trace s')) t0) s'.
Proof.
  intros Httl Htr Hs. cbn. induction acts as [|a acts IH] using rev_ind; [by cbn; rewrite Htr|].
  unfold run in *. rewrite foldl_snoc. set (s1 := foldl _ _ _) in *. clearbody s1.
  destruct a as [ctx m e|i env|op|o|]; cbn; try done.
  - unfold dispatch_inbound. destruct chain; cbn; [by case_match|done].
  - destruct (tasks s1 !! i) as [[| |c k]|]; try done.
    destruct (exec env (world s1) c) as [[w a]|] eqn:Hex; [|done]. cbn [trace].
    intros [Hall Hc]%Forall_app Hord. inv Hc. rewrite readings_snoc in Hord |- *.
    apply ordered_snoc in Hord as [Hord Hle]. specialize (IH Hall Hord).
    pose proof (exec_window t0 _ env s1 c (k a) i w a Httl ltac:(done) Hex Hle IH) as Hw.
    unfold window_inv in *. cbn [trace world] in *. by rewrite last_snoc_default.
Qed.
End single_charge.

(** One charge per payment window: under every schedule with clock readings in
    order, the payment requests that reach the client for one request event are
    at most one per [payment_ttl] of elapsed time, however often the event is
    redelivered and whatever fails or panics; within one window there is at most
    one. *)
Theorem single_charge_per_window `{LruLaws L} `{JsonCanon} `{Sha256} options eid max_entries acts t0 :
  0 < payment_ttl options →
  let s := run (payments_chain options) verification_task
             (server_start max_entries (max_pending_payments options) : Server L) acts in
  let elapsed := List.last (readings (trace s)) t0 - t0 in
  ordered t0 (readings (trace s)) = true →
  Z.of_nat (count (charges eid) (trace s)) * payment_ttl options ≤ elapsed + payment_ttl options ∧
  (elapsed < payment_ttl options → (count (charges eid) (trace s) <= 1)%nat).
Proof.
  intros Httl s elapsed Hord.
  destruct (run_accounted (inserts eid) (charges_or_forgets eid) (configured_ttl options)
    (payments_chain options) verification_task (λ _ _, True)
    (λ ctx m e _, charges_chain options eid ctx m e)
    ltac:(intros v _; unfold verification_task; wp_neutral; by repeat case_match; wp_neutral)
    max_entries (max_pending_payments options) acts) as [Hc Hall].
  { apply Forall_true. by intros []. }
  fold s in Hc, Hall. unfold charges_or_forgets in Hc. rewrite count_add in Hc.
  assert (Hw : window_inv options eid t0 (List.last (readings (trace s)) t0) s).
  { apply run_window; try done; [lia|]. unfold window_inv. cbn. rewrite entry_new.
    unfold count, list_sum. cbn. lia. }
  assert (Hb : Z.of_nat (count (charges eid) (trace s)) * payment_ttl options
               ≤ elapsed + payment_ttl options).
  { unfold window_inv in Hw. subst elapsed. clearbody s. destruct (entry _ _); nia. }
  split; [done|]. intros Hlt. nia.
Qed.

(** ** A server at work *)

Definition demo_processor : PaymentProcessor := mkProcessor "ln" 0.
Definition demo_options : ServerPaymentsOptions :=
  ServerPaymentsOptions_new [demo_processor] [mkPriced "tools/call" None 10 None "sats" None].

Definition demo_request : JsonRpcMessage :=
  Request (mkRequest "2.0" (VNumber (PosInt 1)) "tools/call" (Some (VObject [("name", VString "add")]))).

Definition demo_context (mode : PaymentInteractionMode) : InboundContext :=
  mkContext "alice" "event-1" false None None (Some mode).

(** Every publish succeeds, every payment is verified; the clock shows [now]. *)
Definition demo_env (now : Z) (c : cmd) : answer c :=
  match c with
  | Now => now
  | NewFlag | NewFuture => 0%nat
  | LoadFlag _ | TxSend _ _ _ => true
  | AwaitFuture _ => Ok tt
  | ClaimOrSetPending _ _ => Claimed
  | EnterPending _ _ _ _ => Refused
  | ResolvePrice _ => Panicked
  | CreatePaymentRequired p q =>
      Returned (Ok (mkPaymentRequired (create_amount q) "lnbc1" (processor_pmi p) None None None))
  | VerifyPayment _ _ _ _ => VerifyReturned (Ok (mkVerifyOutcome None))
  | SendTargeted _ _ _ | SendNotification _ _ _ _ => Ok tt
  | PopRoute _ | LeaveChain _ => None
  | StoreFlag _ _ | CompleteFuture _ _ | UpdatePendingTtl _ _ | ClearPending _ | Grant _ _
  | ForgetPending _ _ | SpawnVerification _ | MarkForwarded _ | RemoveWrapKind _
  | RemoveToken _ | DisposeWriter _ => tt
  end.

Definition demo_steps (task n : nat) (now : Z) : list (action list_cache) := replicate n (Step task (demo_env now)).

(** An offer, its payment, and the retry that claims the grant. *)
Definition demo_gated : list (action list_cache) :=
  Deliver (demo_context ExplicitGating) demo_request None :: demo_steps 0 9 1 ++ demo_steps 1 2 2
  ++ Deliver (demo_context ExplicitGating) demo_request None :: demo_steps 2 7 3.

(** A transparent payment with a redelivery of its event in the middle. *)
Definition demo_transparent : list (action list_cache) :=
  Deliver (demo_context Transparent) demo_request None :: demo_steps 0 7 1
  ++ Deliver (demo_context Transparent) demo_request None :: demo_steps 1 8 2 ++ demo_steps 0 9 3
  ++ demo_steps 1 5 4.

Definition demo_invocation : CanonicalInvocationIdentity :=
  match @compute_canonical_invocation_identity bits_canon id_sha256 "alice" "tools/call"
          (Some (VObject [("name", VString "add")])) with
  | Ok i => i
  | Err _ => mkIdentity "" ""
  end.

Definition demo_run (acts : list (action list_cache)) : Server list_cache :=
  run (@payments_chain bits_canon id_sha256 demo_options) verification_task
    (server_start 10 (max_pending_payments demo_options)) acts.

Lemma gated_forwards_paid_witness :
  let forwards := count (@gated_forwards bits_canon id_sha256 demo_options demo_invocation)
                    (trace (demo_run demo_gated)) in
  forwards = 1%nat ∧
  (forwards <= count (verified_payments demo_invocation) (trace (demo_run demo_gated)) +
               count (@waivers bits_canon id_sha256 demo_invocation) (trace (demo_run demo_gated)))%nat.
Proof.
  split; [by vm_compute|]. unfold demo_run.
  apply (@gated_forwards_paid list_cache _ _ bits_canon id_sha256 demo_options demo_invocation 10 demo_gated);
    [done|]. unfold demo_gated, demo_steps. cbn. repeat constructor; by vm_compute.
Defined.

Lemma single_charge_per_window_witness :
  count (charges "event-1") (trace (demo_run demo_transparent)) = 1%nat ∧
  (count (charges "event-1") (trace (demo_run demo_transparent)) <= 1)%nat.
Proof.
  split; [by vm_compute|]. unfold demo_run.
  refine (proj2 (@single_charge_per_window list_cache _ _ bits_canon id_sha256 demo_options "event-1" 10
           demo_transparent 0 _ _) _); vm_compute; reflexivity.
Defined.

(** ** A waived request that is delivered twice *)

Definition waiving_options : ServerPaymentsOptions :=
  mkPaymentsOptions [demo_processor] (priced_capabilities demo_options) true (payment_ttl demo_options)
    10 PolicyOptional.

Definition waiving_env (c : cmd) : answer c :=
  match c return answer c with ResolvePrice _ => Returned (Ok (Waive None)) | c => demo_env 1 c end.

(** The transport registers the route of the request, then dispatches it. *)
Definition demo_arrival : list (action list_cache) :=
  [Routes (RRegister 0 "event-1" "alice" (VNumber (PosInt 1)) None);
   Deliver (demo_context Transparent) demo_request None].

(** A relay delivers a request event twice and the pricing callback waives it:
    the handler gets the request once, and then the clean-up of the second
    delivery, which joined the first, takes away the route of the response.  No
    payment was requested, so no route snapshot stands in for it. *)
Theorem waived_redelivery_loses_route :
  let s := run (@payments_chain bits_canon id_sha256 waiving_options) verification_task
             (server_start 10 10 : Server list_cache)
             (demo_arrival ++ replicate 12 (Step 0 waiving_env)
              ++ demo_arrival ++ replicate 9 (Step 1 waiving_env)) in
  map inc_event_id (incoming (world s)) = ["event-1"] ∧
  count (@charged_forwards waiving_options "event-1") (trace s) = 1%nat ∧
  count (charges "event-1") (trace s) = 0%nat ∧
  has_event_route "event-1" (event_routes (world s)) = false.
Proof. vm_compute. repeat split. Qed.
