(* ===== verification/BaseTransport.v ===== *)
(** * The base transport: events, encryption, discovery tags and publishing

    Models [src/core/error.rs], [src/core/serializers.rs], [src/encryption/mod.rs],
    [src/transport/discovery_tags.rs] and [src/transport/base.rs].  The relay pool
    ([RelayPoolTrait]), the signer and the event library are outside: [Nostr] lists
    what the transports call of them.  An answer of the outside may depend on what
    was published before, so the calls take the number of the publish attempts. *)

From S2P Require Import Prelude Json CoreTypes OversizedFrame OversizedCodec Instances OpenStreamFrame PaymentTypes.

(** ** Errors ([core/error.rs]) *)

Inductive Error : Type :=
| ETransport (msg : string)
| EEncryption (msg : string)
| EDecryption (msg : string)
| ETimeout
| EValidation (msg : string)
| EUnauthorized (msg : string)
| ESerialization (msg : string)
| EOversizedTransfer (e : OversizedTransferError)
| EOpenStream (e : OpenStreamError)
| EPayment (e : PaymentError)
| EOther (msg : string).

(** [Display]. *)
Definition oversized_error_to_string (e : OversizedTransferError) : string :=
  match e with
  | OversizedFrame.Abort token reason =>
      "Transfer aborted (token: " +:+ token +:+ ")" +:+ match reason with Some r => ": " +:+ r | None => "" end
  | OversizedFrame.Policy msg => "Oversized transfer policy violation: " +:+ msg
  | Digest msg => "Oversized transfer integrity error: " +:+ msg
  | Reassembly msg => "Oversized transfer reassembly error: " +:+ msg
  | OversizedFrame.Sequence msg => "Oversized transfer sequence error: " +:+ msg
  end.
Definition payment_error_to_string (e : PaymentError) : string :=
  match e with
  | Processor msg => "Payment processor error: " +:+ msg
  | Handler msg => "Payment handler error: " +:+ msg
  | PaymentCanonicalize method =>
      "Failed to canonicalize invocation payload for method '" +:+ method +:+
      "'. Ensure params contain only JSON-serializable values (no circular references, functions, symbols, or BigInt)."
  | Serialization msg => "Payment serialization error: " +:+ msg
  end.
Definition Error_to_string (e : Error) : string :=
  match e with
  | ETransport msg => "Transport error: " +:+ msg
  | EEncryption msg => "Encryption error: " +:+ msg
  | EDecryption msg => "Decryption error: " +:+ msg
  | ETimeout => "Request timed out"
  | EValidation msg => "Validation error: " +:+ msg
  | EUnauthorized msg => "Unauthorized: " +:+ msg
  | ESerialization msg => "Serialization error: " +:+ msg
  | EOversizedTransfer e => "Oversized transfer error: " +:+ oversized_error_to_string e
  | EOpenStream e => "Open stream error: " +:+ error_to_string e
  | EPayment e => "Payment error: " +:+ payment_error_to_string e
  | EOther msg => msg
  end.

(** ** Events *)

(** The fields of a Nostr event the SDK reads; ids and keys in hex. *)
Record Event : Type := mkEvent {
  ev_id : string;
  ev_pubkey : string;
  ev_kind : Z;
  ev_tags : list Tag;
  ev_content : string;
}.
#[export] Instance Event_eq_dec : EqDecision Event.
Proof. solve_decision. Defined.

(** [EventBuilder::new(kind, content).tags(tags)]. *)
Record EventBuilder : Type := mkBuilder {
  eb_kind : Z;
  eb_content : string;
  eb_tags : list Tag;
}.

(** The relay pool, the signer and the key and event types of [nostr_sdk]. *)
Class Nostr := {
  pubkey_from_hex : string → result string string;
  event_id_from_hex : string → result string string;
  event_verify : Event → bool;
  event_to_json : Event → string;
  event_from_json : string → option Event;
  pool_sign : nat → EventBuilder → result Event Error;
  pool_signer : nat → result unit string;
  pool_publish_event : nat → Event → result string Error;
  ephemeral_encrypt : nat → string → string → result string string;
  ephemeral_sign : nat → EventBuilder → result Event string;
  nip44_decrypt : string → string → result string string;
}.

(** Signing keeps the kind, the content and the tags of the builder. *)
Class NostrLaws `{Nostr} : Prop := {
  pool_sign_fields n b e : pool_sign n b = Ok e → ev_kind e = eb_kind b ∧ ev_content e = eb_content b;
  pool_sign_tags n b e : pool_sign n b = Ok e → ev_tags e = eb_tags b;
  ephemeral_sign_fields n b e : ephemeral_sign n b = Ok e → ev_kind e = eb_kind b ∧ ev_content e = eb_content b;
  ephemeral_sign_tags n b e : ephemeral_sign n b = Ok e → ev_tags e = eb_tags b;
}.

Definition EventId_all_zeros : string :=
  "0000000000000000000000000000000000000000000000000000000000000000".

(** [Tag::public_key], [Tag::event] and [Tag::custom]. *)
Definition public_key_tag (pubkey : string) : Tag := ["p"; pubkey].
Definition event_tag (event_id : string) : Tag := ["e"; event_id].
Definition custom_tag (name : string) (values : list string) : Tag := name :: values.

(** ** Serializers ([core/serializers.rs]) *)

Definition mcp_to_nostr_event `{SerdeJson} (message : JsonRpcMessage) (kind : Z) (tags : list Tag)
  : EventBuilder := mkBuilder kind (to_string (message_to_value message)) tags.

Definition nostr_event_to_mcp_message `{SerdeJson} (content : string) : option JsonRpcMessage :=
  from_str content ≫= message_from_value.

(** ** Encryption ([encryption/mod.rs]) *)

Section encryption.
Context `{Nostr}.

Definition map_err {A E F} (f : E → F) (r : result A E) : result A F :=
  match r with Ok a => Ok a | Err e => Err (f e) end.

Definition encrypt_nip44 (n : nat) (receiver_pubkey plaintext : string) : result string Error :=
  map_err EEncryption (ephemeral_encrypt n receiver_pubkey plaintext).
Definition decrypt_nip44 (sender_pubkey ciphertext : string) : result string Error :=
  map_err EDecryption (nip44_decrypt sender_pubkey ciphertext).
Definition decrypt_gift_wrap_single_layer (event : Event) : result string Error :=
  decrypt_nip44 (ev_pubkey event) (ev_content event).

Definition gift_wrap_single_layer_with_kind (n : nat) (recipient plaintext : string)
    (gift_wrap_kind : Z) : result Event Error :=
  if negb (gift_wrap_kind =? GIFT_WRAP_KIND) && negb (gift_wrap_kind =? EPHEMERAL_GIFT_WRAP_KIND)
  then Err (EEncryption ("Unsupported gift-wrap kind for single-layer encryption: " +:+ show_Z gift_wrap_kind))
  else
    let? encrypted := encrypt_nip44 n recipient plaintext in
    map_err EEncryption
      (ephemeral_sign n (mkBuilder gift_wrap_kind encrypted [public_key_tag recipient])).

Definition gift_wrap_single_layer (n : nat) (recipient plaintext : string) : result Event Error :=
  let? encrypted := encrypt_nip44 n recipient plaintext in
  map_err EEncryption
    (ephemeral_sign n (mkBuilder GIFT_WRAP_KIND encrypted [public_key_tag recipient])).
End encryption.

(** ** Discovery tags ([transport/discovery_tags.rs]) *)

Definition NON_DISCOVERY_TAG_NAMES : list string := ["p"; "e"].

Record PeerCapabilities : Type := mkCapabilities {
  pc_supports_encryption : bool;
  pc_supports_ephemeral_encryption : bool;
  pc_supports_oversized_transfer : bool;
  pc_supports_open_stream : bool;
}.

Definition has_single_tag (tags : list Tag) (name : string) : bool :=
  existsb (λ tag, bool_decide (tag = [name])) tags.

Definition is_discovery_tag (tag : Tag) : bool :=
  match tag with
  | name :: _ => negb (bool_decide (name ∈ NON_DISCOVERY_TAG_NAMES))
  | [] => false
  end.
Definition get_discovery_tags (tags : list Tag) : list Tag := List.filter is_discovery_tag tags.

Definition learn_peer_capabilities (tags : list Tag) : PeerCapabilities := {|
  pc_supports_encryption := has_single_tag tags tags.SUPPORT_ENCRYPTION;
  pc_supports_ephemeral_encryption := has_single_tag tags tags.SUPPORT_ENCRYPTION_EPHEMERAL;
  pc_supports_oversized_transfer := has_single_tag tags tags.SUPPORT_OVERSIZED_TRANSFER;
  pc_supports_open_stream := has_single_tag tags tags.SUPPORT_OPEN_STREAM;
|}.

Definition extract_pmis (tags : list Tag) : list string := omap parse_pmi_tag tags.

(** The value of a [payment_interaction] tag. *)
Definition interaction_value (tag : Tag) : option string :=
  match tag with
  | name :: value :: _ => if String.eqb name tags.PAYMENT_INTERACTION then Some value else None
  | _ => None
  end.
Definition extract_payment_interaction (tags : list Tag) : option string :=
  find_map interaction_value tags.

Record DiscoveredPeerCapabilities : Type := mkDiscovered {
  discovery_tags : list Tag;
  capabilities : PeerCapabilities;
}.

Definition parse_discovered_peer_capabilities (tags : list Tag) : DiscoveredPeerCapabilities :=
  let discovery_tags := get_discovery_tags tags in
  mkDiscovered discovery_tags (learn_peer_capabilities discovery_tags).

(** ** Publishing ([transport/base.rs]) *)

(** One attempt to publish an MCP message: what the caller asked for, the event
    handed to the relay pool, whether it was gift-wrapped, and the outcome. *)
Record Outbound : Type := mkOutbound {
  ob_message : JsonRpcMessage;
  ob_recipient : string;
  ob_tags : list Tag;
  ob_wrapped : option Z;
  ob_event : Event;
  ob_ok : bool;
}.

(** The log of the publish attempts. *)
Abbreviation Net := (list Outbound).

Definition should_encrypt (mode : EncryptionMode) (kind : Z) (is_encrypted : option bool) : bool :=
  if bool_decide (kind ∈ UNENCRYPTED_KINDS) then false
  else match mode with
       | EncDisabled => false
       | EncRequired => true
       | EncOptional => default true is_encrypted
       end.

Definition create_recipient_tags (pubkey : string) : list Tag := [public_key_tag pubkey].
Definition create_response_tags (pubkey event_id : string) : list Tag :=
  [public_key_tag pubkey; event_tag event_id].
Definition compose_outbound_tags (base_tags discovery_tags negotiation_tags : list Tag) : list Tag :=
  base_tags ++ discovery_tags ++ negotiation_tags.

Section publish.
Context `{SerdeJson} `{Nostr}.
Variable encryption_mode : EncryptionMode.

Definition convert_event_to_mcp (content : string) : option JsonRpcMessage := validate_and_parse content.

Definition create_signed_event (n : nat) (message : JsonRpcMessage) (kind : Z) (tags : list Tag)
  : result Event Error := pool_sign n (mcp_to_nostr_event message kind tags).

(** The event of an encrypted message. *)
Definition wrap_event (n : nat) (event : Event) (recipient : string) (gift_wrap_kind : option Z)
  : result Event Error :=
  let? _ := map_err EEncryption (pool_signer n) in
  gift_wrap_single_layer_with_kind n recipient (event_to_json event) (default GIFT_WRAP_KIND gift_wrap_kind).

(** [prepare_mcp_message]: the id of the signed event and the event to publish. *)
Definition prepare_mcp_message (net : Net) (message : JsonRpcMessage) (recipient : string) (kind : Z)
    (tags : list Tag) (is_encrypted : option bool) (gift_wrap_kind : option Z)
  : result (string * Event) Error :=
  let n := length net in
  let? event := create_signed_event n message kind tags in
  if should_encrypt encryption_mode kind is_encrypted
  then let? wrapped := wrap_event n event recipient gift_wrap_kind in Ok (ev_id event, wrapped)
  else Ok (ev_id event, event).

(** The text of the event of a sizing probe. *)
Definition probe_text (recipient : string) (base_tags : list Tag) (is_encrypted : bool)
    (gift_wrap_kind : Z) (net : Net) (frame : JsonRpcNotification) : result string Error :=
  let? prepared := prepare_mcp_message net (Notification frame) recipient CTXVM_MESSAGES_KIND base_tags
                     (Some is_encrypted) (Some gift_wrap_kind) in
  Ok (event_to_json prepared.2).

(** The kind of the gift wrap a message travels in. *)
Definition wrapped_kind (kind : Z) (is_encrypted : option bool) (gift_wrap_kind : option Z) : option Z :=
  if should_encrypt encryption_mode kind is_encrypted
  then Some (default GIFT_WRAP_KIND gift_wrap_kind) else None.

(** Handing an event to the relay pool. *)
Definition publish_logged (net : Net) (message : JsonRpcMessage) (recipient : string) (tags : list Tag)
    (wrapped : option Z) (event : Event) : Net * result unit Error :=
  let answer := pool_publish_event (length net) event in
  (net ++ [mkOutbound message recipient tags wrapped event (is_ok answer)],
   let? _ := answer in Ok tt).

Definition send_mcp_message (net : Net) (message : JsonRpcMessage) (recipient : string) (kind : Z)
    (tags : list Tag) (is_encrypted : option bool) (gift_wrap_kind : option Z)
  : Net * result string Error :=
  let n := length net in
  match create_signed_event n message kind tags with
  | Err e => (net, Err e)
  | Ok event =>
      let to_publish :=
        if should_encrypt encryption_mode kind is_encrypted
        then wrap_event n event recipient gift_wrap_kind else Ok event in
      match to_publish with
      | Err e => (net, Err e)
      | Ok publishable =>
          let '(net', sent) := publish_logged net message recipient tags
                                 (wrapped_kind kind is_encrypted gift_wrap_kind) publishable in
          (net', let? _ := sent in Ok (ev_id event))
      end
  end.
End publish.

(** ** The connection flag *)

(** [connect] and [disconnect]: the flag after the call, whether the relay pool
    was called, and the result, from the pool's answer. *)
Definition connect (is_connected : bool) (answer : result unit Error) : bool * bool * result unit Error :=
  if is_connected then (is_connected, false, Ok tt)
  else match answer with Ok _ => (true, true, Ok tt) | Err e => (false, true, Err e) end.
Definition disconnect (is_connected : bool) (answer : result unit Error) : bool * bool * result unit Error :=
  if negb is_connected then (is_connected, false, Ok tt)
  else match answer with Ok _ => (false, true, Ok tt) | Err e => (true, true, Err e) end.

(** ** Subscriptions *)

(** [Filter::new().kind(kind).custom_tag(p, p_tag).since(since)]. *)
Record InboxFilter : Type := mkInbox {
  inbox_kind : Z;
  inbox_p_tag : string;
  inbox_since : Z;
}.

(** The filters [subscribe_for_pubkey] gives to the relay pool. *)
Definition subscribe_for_pubkey (now : Z) (pubkey : string) : list InboxFilter :=
  [mkInbox CTXVM_MESSAGES_KIND pubkey now; mkInbox GIFT_WRAP_KIND pubkey now;
   mkInbox EPHEMERAL_GIFT_WRAP_KIND pubkey now].

(** ** Lemmas *)

Section publish_lemmas.
Context `{SerdeJson} `{Nostr}.
Variable mode : EncryptionMode.
Implicit Types net : Net.

(** A send logs nothing (the message could not be built) or one attempt, of the event
    [prepare_mcp_message] makes of what the caller asked for; it succeeds when that
    attempt does. *)
Lemma send_mcp_message_prepared net m r k ts enc gw :
  let '(net', res) := send_mcp_message mode net m r k ts enc gw in
  (net' = net ∧ ∃ e, res = Err e) ∨
  (∃ id ev ok, prepare_mcp_message mode net m r k ts enc gw = Ok (id, ev) ∧
     net' = net ++ [mkOutbound m r ts (wrapped_kind mode k enc gw) ev ok] ∧ is_ok res = ok).
Proof.
  unfold send_mcp_message, prepare_mcp_message. destruct (create_signed_event _ _ _ _) as [ev|e]; cbn; [|eauto].
  destruct (should_encrypt mode k enc); [destruct (wrap_event _ _ _ _) as [w|e]; cbn; [|eauto]|];
    (right; do 3 eexists; split_and!; [done|done|by destruct (pool_publish_event _ _)]).
Qed.

(** A prepared message is the one that would be sent. *)
Lemma prepare_send net m r k ts enc gw id ev :
  prepare_mcp_message mode net m r k ts enc gw = Ok (id, ev) →
  send_mcp_message mode net m r k ts enc gw =
  (let '(net', sent) := publish_logged net m r ts (wrapped_kind mode k enc gw) ev in
   (net', let? _ := sent in Ok id)).
Proof.
  unfold prepare_mcp_message, send_mcp_message.
  destruct (create_signed_event _ _ _ _) as [ev0|e]; cbn; [|done].
  destruct (should_encrypt mode k enc); cbn.
  - destruct (wrap_event _ _ _ _) as [w|e]; cbn; [|done]. by intros [= <- <-].
  - by intros [= <- <-].
Qed.
End publish_lemmas.

(** ** Sizing *)

(** (C27) The chunk size a sender settles on, for any relay pool, encryption and tags:
    the binary search, which measures the events that would be published, always ends
    with a size between 1 and the desired one.  A probe of that size fits the ceiling
    and one of the next size does not (unless it is the desired size), or not even one
    byte fits and the size is 1.  Where, up to the desired size, a probe fits whenever
    a longer one does, no larger size up to the desired one fits. *)
Theorem safe_chunk_size_fits `{SerdeJson} `{Nostr} mode recipient tags is_encrypted wrap_kind net desired
    max_event_bytes :
  let fit := fits (probe_text mode recipient tags is_encrypted wrap_kind net) max_event_bytes in
  ∃ r, resolve_safe_chunk_size (probe_text mode recipient tags is_encrypted wrap_kind net) desired
         max_event_bytes = Some r ∧
    1 ≤ r ≤ Z.max desired 1 ∧
    (fit r = true ∧ (r = Z.max desired 1 ∨ fit (r + 1) = false) ∨ r = 1 ∧ fit 1 = false) ∧
    ((∀ a b, 1 ≤ a ≤ b → b ≤ Z.max desired 1 → fit b = true → fit a = true) →
     ∀ n, r < n ≤ desired → fit n = false).
Proof. apply resolve_largest. Qed.

(** ** A concrete relay *)

Definition event_value (e : Event) : Value :=
  VArray [VString (ev_id e); VString (ev_pubkey e); VNumber (PosInt (ev_kind e));
          VArray (map (λ t, VArray (map VString t)) (ev_tags e)); VString (ev_content e)].
Definition value_event (v : Value) : option Event :=
  match v with
  | VArray [VString id; VString pk; VNumber (PosInt k); VArray ts; VString content] =>
      ts ← mapM (λ t, match t with VArray l => mapM as_str l | _ => None end) ts;
      Some (mkEvent id pk k ts content)
  | _ => None
  end.

(** A relay that refuses the publish attempts [rejects] names; public keys have
    five bytes and encryption is the identity. *)
Definition demo_nostr (rejects : nat → bool) : Nostr := {|
  pubkey_from_hex s := if str_len s =? 5 then Ok s else Err "invalid public key";
  event_id_from_hex s := if str_is_empty s then Err "invalid event id" else Ok s;
  event_verify e := str_len (ev_pubkey e) =? 5;
  event_to_json e := @to_string bits_serde (event_value e);
  event_from_json s := @from_str bits_serde s ≫= value_event;
  pool_sign n b := Ok (mkEvent ("event-" +:+ show_Z (Z.of_nat n)) "serve" (eb_kind b) (eb_tags b) (eb_content b));
  pool_signer n := Ok tt;
  pool_publish_event n e := if rejects n then Err (ETransport "no relay") else Ok (ev_id e);
  ephemeral_encrypt n pk text := Ok text;
  ephemeral_sign n b := Ok (mkEvent ("wrap-" +:+ show_Z (Z.of_nat n)) "ephem" (eb_kind b) (eb_tags b) (eb_content b));
  nip44_decrypt pk text := Ok text;
|}.

#[export] Instance demo_nostr_laws rejects : @NostrLaws (demo_nostr rejects).
Proof. split; cbn; by intros ? ? ? [= <-]. Qed.

(** A plaintext event and its gift wrap. *)
Definition demo_event (id pk : string) (ts : list Tag) (m : JsonRpcMessage) : Event :=
  mkEvent id pk CTXVM_MESSAGES_KIND ts (@to_string bits_serde (message_to_value m)).
Definition demo_wrap (id : string) (kind : Z) (e : Event) : Event :=
  mkEvent id "ephem" kind [public_key_tag "serve"] (@to_string bits_serde (event_value e)).

(** The probes of an encrypted transport that wants chunks of 8 bytes; four fit. *)
Abbreviation demo_probe :=
  (@probe_text bits_serde (demo_nostr (λ _, false)) EncRequired "serve" [public_key_tag "serve"] true GIFT_WRAP_KIND []).
Definition demo_ceiling : Z := 682000.

Lemma demo_probe_fits :
  map (fits demo_probe demo_ceiling) [1; 2; 3; 4; 5; 6; 7; 8] = [true; true; true; true; false; false; false; false].
Proof. by vm_compute. Qed.

Lemma demo_probe_monotone a b :
  1 ≤ a ≤ b → b ≤ Z.max 8 1 → fits demo_probe demo_ceiling b = true → fits demo_probe demo_ceiling a = true.
Proof.
  pose proof demo_probe_fits as Hf. cbn [map] in Hf. generalize dependent (fits demo_probe demo_ceiling).
  intros f [= H1 H2 H3 H4 H5 H6 H7 H8] Ha Hb.
  assert (a = 1 ∨ a = 2 ∨ a = 3 ∨ a = 4 ∨ 5 ≤ a ≤ 8) as Hcases' by lia.
  destruct Hcases' as [->|[->|[->|[->|Ha5]]]]; [done..|]. intros Hb'.
  assert (b = 5 ∨ b = 6 ∨ b = 7 ∨ b = 8) as [->|[->|[->| ->]]] by lia; congruence.
Qed.

Lemma safe_chunk_size_fits_witness :
  ∃ r, resolve_safe_chunk_size demo_probe 8 demo_ceiling = Some r ∧ 1 ≤ r ≤ Z.max 8 1 ∧
    ∀ n, r < n ≤ 8 → fits demo_probe demo_ceiling n = false.
Proof.
  destruct (@safe_chunk_size_fits bits_serde (demo_nostr (λ _, false)) EncRequired "serve" [public_key_tag "serve"]
    true GIFT_WRAP_KIND [] 8 demo_ceiling) as (r & Hr & Hrange & _ & Hlargest).
  exists r. split; [exact Hr|]. split; [exact Hrange|]. exact (Hlargest demo_probe_monotone).
Defined.
