(* ===== verification/Announcements.v ===== *)
(** * Announcements

    Models [src/transport/server/announcement_manager.rs]: the tag sets of a server
    and their cache, the announcement and discoverability events, and the
    auto-publish flow.  A publishing operation returns the builders it handed to
    the relay pool, whose answer is an argument. *)

From S2P Require Import Prelude Json CoreTypes OversizedFrame Instances PaymentTypes BaseTransport ServerTasks.

(** ** Data *)

Record ServerInfo : Type := mkServerInfo {
  si_name : option string;
  si_version : option string;
  si_picture : option string;
  si_website : option string;
  si_about : option string;
}.

Record ProfileMetadata : Type := mkProfile {
  pm_name : option string;
  pm_about : option string;
  pm_picture : option string;
  pm_banner : option string;
  pm_website : option string;
  pm_nip05 : option string;
  pm_lud16 : option string;
  pm_extra : list (string * Value);
}.

(** The derived [Serialize]. *)
Definition server_info_to_value (i : ServerInfo) : Value :=
  VObject (ser_opt "name" VString (si_name i) ++ ser_opt "version" VString (si_version i)
           ++ ser_opt "picture" VString (si_picture i) ++ ser_opt "website" VString (si_website i)
           ++ ser_opt "about" VString (si_about i)).
Definition profile_to_value (p : ProfileMetadata) : Value :=
  VObject (ser_opt "name" VString (pm_name p) ++ ser_opt "about" VString (pm_about p)
           ++ ser_opt "picture" VString (pm_picture p) ++ ser_opt "banner" VString (pm_banner p)
           ++ ser_opt "website" VString (pm_website p) ++ ser_opt "nip05" VString (pm_nip05 p)
           ++ ser_opt "lud16" VString (pm_lud16 p) ++ pm_extra p).

Definition ANNOUNCEMENT_REQUEST_ID : string := "announcement".
Definition DEFAULT_BOOTSTRAP_RELAY_URLS : list string :=
  ["wss://relay.damus.io"; "wss://relay.primal.net"; "wss://nos.lol"; "wss://relay.snort.social/";
   "wss://nostr.mom/"; "wss://nostr.oxtr.dev/"].

(** [dispatch_fn] is whether the sender is still there, [init_permit] the permit
    of the [Notify]. *)
Record AnnouncementManager : Type := mkManager {
  am_server_info : option ServerInfo;
  am_encryption_mode : EncryptionMode;
  am_gift_wrap_mode : GiftWrapMode;
  am_extra_common_tags : list Tag;
  am_internal_common_tags : list Tag;
  am_pricing_tags : list Tag;
  am_cached_common_tags : option (list Tag);
  am_dispatch_fn : bool;
  am_init_permit : bool;
  am_initialized : bool;
  am_relay_urls : list string;
  am_relay_list_urls : option (list string);
  am_bootstrap_relay_urls : option (list string);
  am_should_publish_relay_list : bool;
  am_profile_metadata : option ProfileMetadata;
}.

Module Manager.

Definition new (server_info : option ServerInfo) (encryption_mode : EncryptionMode)
    (gift_wrap_mode : GiftWrapMode) (relay_urls : list string) (relay_list_urls bootstrap_relay_urls : option (list string))
    (should_publish_relay_list : bool) (profile_metadata : option ProfileMetadata) : AnnouncementManager :=
  mkManager server_info encryption_mode gift_wrap_mode [] [] [] None true false false relay_urls
    relay_list_urls bootstrap_relay_urls should_publish_relay_list profile_metadata.

(** Field updates. *)
Definition set_tags (m : AnnouncementManager) (extra internal pricing : list Tag) (cache : option (list Tag))
  : AnnouncementManager :=
  mkManager (am_server_info m) (am_encryption_mode m) (am_gift_wrap_mode m) extra internal pricing cache
    (am_dispatch_fn m) (am_init_permit m) (am_initialized m) (am_relay_urls m) (am_relay_list_urls m)
    (am_bootstrap_relay_urls m) (am_should_publish_relay_list m) (am_profile_metadata m).
Definition set_init (m : AnnouncementManager) (dispatch_fn permit initialized : bool) : AnnouncementManager :=
  mkManager (am_server_info m) (am_encryption_mode m) (am_gift_wrap_mode m) (am_extra_common_tags m)
    (am_internal_common_tags m) (am_pricing_tags m) (am_cached_common_tags m) dispatch_fn permit initialized
    (am_relay_urls m) (am_relay_list_urls m) (am_bootstrap_relay_urls m) (am_should_publish_relay_list m)
    (am_profile_metadata m).

(** *** Tags *)

Definition opt_tag (name : string) (o : option string) : list Tag :=
  match o with Some v => [custom_tag name [v]] | None => [] end.

Definition get_server_info_tags (m : AnnouncementManager) : list Tag :=
  match am_server_info m with
  | Some info =>
      opt_tag tags.NAME (si_name info) ++ opt_tag tags.ABOUT (si_about info)
      ++ opt_tag tags.WEBSITE (si_website info) ++ opt_tag tags.PICTURE (si_picture info)
  | None => []
  end.

(** The encryption capability tags of a mode. *)
Definition encryption_tags (encryption_mode : EncryptionMode) (gift_wrap_mode : GiftWrapMode) : list Tag :=
  if bool_decide (encryption_mode = EncDisabled) then []
  else custom_tag tags.SUPPORT_ENCRYPTION []
       :: (if supports_ephemeral gift_wrap_mode then [custom_tag tags.SUPPORT_ENCRYPTION_EPHEMERAL []] else []).
Definition get_encryption_capability_tags (m : AnnouncementManager) : list Tag :=
  encryption_tags (am_encryption_mode m) (am_gift_wrap_mode m).

(** The composition the cache holds. *)
Definition compute_common_tags (m : AnnouncementManager) : list Tag :=
  get_server_info_tags m ++ get_encryption_capability_tags m
  ++ am_extra_common_tags m ++ am_internal_common_tags m.

Definition get_common_tags (m : AnnouncementManager) : AnnouncementManager * list Tag :=
  match am_cached_common_tags m with
  | Some cached => (m, cached)
  | None =>
      let tags := compute_common_tags m in
      (set_tags m (am_extra_common_tags m) (am_internal_common_tags m) (am_pricing_tags m) (Some tags), tags)
  end.

Definition get_pricing_tags (m : AnnouncementManager) : list Tag := am_pricing_tags m.

Definition get_announcement_tags (m : AnnouncementManager) (kind : Z) : AnnouncementManager * list Tag :=
  if kind =? SERVER_ANNOUNCEMENT_KIND then
    let '(m, tags) := get_common_tags m in (m, tags ++ am_pricing_tags m)
  else (m, am_pricing_tags m).

Definition set_extra_common_tags (tags : list Tag) (m : AnnouncementManager) : AnnouncementManager :=
  set_tags m tags (am_internal_common_tags m) (am_pricing_tags m) None.
Definition set_internal_common_tags (tags : list Tag) (m : AnnouncementManager) : AnnouncementManager :=
  set_tags m (am_extra_common_tags m) tags (am_pricing_tags m) None.
Definition set_pricing_tags (tags : list Tag) (m : AnnouncementManager) : AnnouncementManager :=
  set_tags m (am_extra_common_tags m) (am_internal_common_tags m) tags (am_cached_common_tags m).

Definition shutdown (m : AnnouncementManager) : AnnouncementManager :=
  set_init m false (am_init_permit m) (am_initialized m).

(** *** Relay urls *)

Definition ascii_lower (a : Ascii.ascii) : Ascii.ascii :=
  let n := Ascii.N_of_ascii a in
  if ((65 <=? n) && (n <=? 90))%N then Ascii.ascii_of_N (n + 32) else a.
Fixpoint to_lowercase (s : string) : string :=
  match s with EmptyString => EmptyString | String a s' => String (ascii_lower a) (to_lowercase s') end.

(** [str::strip_prefix]. *)
Fixpoint strip_prefix (p s : string) : option string :=
  match p, s with
  | EmptyString, _ => Some s
  | String a p', String b s' => if Ascii.eqb a b then strip_prefix p' s' else None
  | _, EmptyString => None
  end.

Definition is_local_relay_url (url : string) : bool :=
  let without_proto :=
    match strip_prefix "wss://" url with
    | Some rest => rest
    | None => default url (strip_prefix "ws://" url)
    end in
  let lower := to_lowercase without_proto in
  existsb (λ prefix, match strip_prefix prefix lower with
                     | Some rest => str_is_empty rest || starts_with rest ":" || starts_with rest "/"
                     | None => false
                     end)
    ["localhost"; "127.0.0.1"; "0.0.0.0"; "[::1]"].

Definition get_advertised_relay_urls (m : AnnouncementManager) : list string :=
  default (am_relay_urls m) (am_relay_list_urls m).

(** The loop over [urls]: those not seen yet are appended. *)
Definition push_unseen (result urls : list string) : list string :=
  foldl (λ result url, if bool_decide (url ∈ result) then result else result ++ [url]) result urls.

Definition skips_bootstrap (m : AnnouncementManager) : bool :=
  let advertised := get_advertised_relay_urls m in
  bool_decide (am_bootstrap_relay_urls m = None) && negb (bool_decide (advertised = []))
  && forallb is_local_relay_url advertised.

Definition get_discoverability_publish_relay_urls (m : AnnouncementManager) : list string :=
  let result := push_unseen [] (get_advertised_relay_urls m) in
  if skips_bootstrap m then result
  else push_unseen result (default DEFAULT_BOOTSTRAP_RELAY_URLS (am_bootstrap_relay_urls m)).

(** *** Publishing *)

Section publishing.
Context `{SerdeJson}.
Variable publish : EventBuilder → result string Error.

Definition announce (m : AnnouncementManager)
  : AnnouncementManager * list EventBuilder * result string Error :=
  match am_server_info m with
  | None => (m, [], Err (EOther "No server info configured"))
  | Some info =>
      let '(m, tags) := get_announcement_tags m SERVER_ANNOUNCEMENT_KIND in
      let builder := mkBuilder SERVER_ANNOUNCEMENT_KIND (to_string (server_info_to_value info)) tags in
      (m, [builder], publish builder)
  end.

Definition publish_list (kind : Z) (key : string) (items : list Value) (m : AnnouncementManager)
  : list EventBuilder * result string Error :=
  let builder := mkBuilder kind (to_string (VObject [(key, VArray items)])) (am_pricing_tags m) in
  ([builder], publish builder).
Definition publish_tools := publish_list TOOLS_LIST_KIND "tools".
Definition publish_resources := publish_list RESOURCES_LIST_KIND "resources".
Definition publish_prompts := publish_list PROMPTS_LIST_KIND "prompts".
Definition publish_resource_templates := publish_list RESOURCETEMPLATES_LIST_KIND "resourceTemplates".

(** The typed variants; [to_value] is the [Serialize] of the item type. *)
Fixpoint to_values {T} (to_value : T → result Value string) (items : list T) : result (list Value) Error :=
  match items with
  | [] => Ok []
  | item :: rest =>
      let? v := map_err ESerialization (to_value item) in
      let? vs := to_values to_value rest in Ok (v :: vs)
  end.
Definition publish_typed {T} (to_value : T → result Value string)
    (publish_values : list Value → AnnouncementManager → list EventBuilder * result string Error)
    (items : list T) (m : AnnouncementManager) : list EventBuilder * result string Error :=
  match to_values to_value items with
  | Ok values => publish_values values m
  | Err e => ([], Err e)
  end.
Definition publish_tools_typed {T} (to_value : T → result Value string) := publish_typed to_value publish_tools.
Definition publish_resources_typed {T} (to_value : T → result Value string) := publish_typed to_value publish_resources.
Definition publish_prompts_typed {T} (to_value : T → result Value string) := publish_typed to_value publish_prompts.
Definition publish_resource_templates_typed {T} (to_value : T → result Value string) :=
  publish_typed to_value publish_resource_templates.

(** [delete_announcements]: [fetch kind pubkey] is the answer of the relays, the ids of
    the events, and [delete] is [EventBuilder::delete] of a request with these ids and
    a reason.  The requests published come with the result. *)
Fixpoint delete_kinds (fetch : Z → string → result (list string) Error) (delete : list string → string → EventBuilder)
    (pubkey reason : string) (kinds : list Z) : list EventBuilder * result unit Error :=
  match kinds with
  | [] => ([], Ok tt)
  | kind :: kinds =>
      match fetch kind pubkey with
      | Err e => ([], Err e)
      | Ok [] => delete_kinds fetch delete pubkey reason kinds
      | Ok ids =>
          let builder := delete ids reason in
          match publish builder with
          | Err e => ([builder], Err e)
          | Ok _ => let '(rest, res) := delete_kinds fetch delete pubkey reason kinds in (builder :: rest, res)
          end
      end
  end.
Definition delete_announcements (public_key : result string Error) (fetch : Z → string → result (list string) Error)
    (delete : list string → string → EventBuilder) (reason : string) : list EventBuilder * result unit Error :=
  match public_key with
  | Err e => ([], Err e)
  | Ok pubkey => delete_kinds fetch delete pubkey reason UNENCRYPTED_KINDS
  end.

(** The events of [spawn_publish_discoverability] and the relays they go to; an
    empty list of relays stands for all of the pool. *)
Definition profile_event (m : AnnouncementManager) : option EventBuilder :=
  (λ p, mkBuilder 0 (to_string (profile_to_value p)) []) <$> am_profile_metadata m.
Definition relay_list_event (m : AnnouncementManager) : option EventBuilder :=
  if am_should_publish_relay_list m then
    match get_advertised_relay_urls m with
    | [] => None
    | urls => Some (mkBuilder RELAY_LIST_METADATA_KIND "" (map (λ url, custom_tag tags.RELAY [url]) urls))
    end
  else None.
Definition spawn_publish_discoverability (m : AnnouncementManager) : list (list string * EventBuilder) :=
  let target_urls := get_discoverability_publish_relay_urls m in
  map (λ builder, (target_urls, builder)) (option_list (profile_event m) ++ option_list (relay_list_event m)).

(** *** Auto-publish *)

Definition is_string (v : Value) : bool := match v with VString _ => true | _ => false end.
Definition is_object (v : Value) : bool := match v with VObject _ => true | _ => false end.
Definition is_array (v : Value) : bool := match v with VArray _ => true | _ => false end.

(** A row of the table: a field, its shape and the kind. *)
Definition ANNOUNCEMENT_MAPPINGS : list (string * (Value → bool) * Z) :=
  [("protocolVersion", is_string, SERVER_ANNOUNCEMENT_KIND);
   ("capabilities", is_object, SERVER_ANNOUNCEMENT_KIND);
   ("tools", is_array, TOOLS_LIST_KIND);
   ("resources", is_array, RESOURCES_LIST_KIND);
   ("resourceTemplates", is_array, RESOURCETEMPLATES_LIST_KIND);
   ("prompts", is_array, PROMPTS_LIST_KIND)].
Definition announcement_kind (result : Value) : option Z :=
  find_map (λ row : string * (Value → bool) * Z,
    let '(key, shape, kind) := row in
    match get result key with Some v => if shape v then Some kind else None | None => None end)
    ANNOUNCEMENT_MAPPINGS.
#[global] Arguments announcement_kind : simpl never.

(** A synthetic message on the inbound channel. *)
Definition synthetic (message : JsonRpcMessage) : IncomingRequest :=
  mkIncoming message ANNOUNCEMENT_REQUEST_ID ANNOUNCEMENT_REQUEST_ID false None.
Definition initialized_notification : JsonRpcMessage :=
  Notification (mkNotification "2.0" NOTIFICATIONS_INITIALIZED_METHOD None).

(** The manager, the events published and the messages put on the channel. *)
Definition handle_announcement_response (response : JsonRpcMessage) (m : AnnouncementManager)
  : AnnouncementManager * list EventBuilder * list IncomingRequest :=
  match response with
  | Response resp =>
      match announcement_kind (resp_result resp) with
      | None => (m, [], [])
      | Some kind =>
          let '(m, tags) := get_announcement_tags m kind in
          let builder := mkBuilder kind (to_string (resp_result resp)) tags in
          if kind =? SERVER_ANNOUNCEMENT_KIND
          then (set_init m (am_dispatch_fn m) true true, [builder],
                if am_dispatch_fn m then [synthetic initialized_notification] else [])
          else (m, [builder], [])
      end
  | ErrorResponse _ =>
      (if am_initialized m then m else set_init m (am_dispatch_fn m) true true, [], [])
  | _ => (m, [], [])
  end.
End publishing.

(** [publish_public_announcements]; [version] is the protocol version of rmcp. *)
Definition init_request (version : string) : JsonRpcMessage :=
  Request (mkRequest "2.0" (VString ANNOUNCEMENT_REQUEST_ID) INITIALIZE_METHOD
    (Some (VObject [("protocolVersion", VString version); ("capabilities", VObject []);
                    ("clientInfo", VObject [("name", VString "contextvm-announcement-client");
                                            ("version", VString "0.1.0")])]))).
Definition list_request (method : string) : JsonRpcMessage :=
  Request (mkRequest "2.0" (VString ANNOUNCEMENT_REQUEST_ID) method None).
Definition list_requests : list IncomingRequest :=
  map (λ method, synthetic (list_request method))
    ["tools/list"; "resources/list"; "resources/templates/list"; "prompts/list"].

End Manager.

Record CommonTagsSnapshot : Type := mkTagsSnapshot {
  cts_server_info : option ServerInfo;
  cts_extra_common_tags : list Tag;
  cts_internal_common_tags : list Tag;
  cts_encryption_mode : EncryptionMode;
  cts_gift_wrap_mode : GiftWrapMode;
}.
Definition common_tags_snapshot (m : AnnouncementManager) : CommonTagsSnapshot :=
  mkTagsSnapshot (am_server_info m) (am_extra_common_tags m) (am_internal_common_tags m)
    (am_encryption_mode m) (am_gift_wrap_mode m).
Definition append_common_response_tags (s : CommonTagsSnapshot) (tags : list Tag) : list Tag :=
  tags ++ Manager.encryption_tags (cts_encryption_mode s) (cts_gift_wrap_mode s)
  ++ (match cts_server_info s with Some info => Manager.opt_tag tags.NAME (si_name info) | None => [] end)
  ++ cts_extra_common_tags s ++ cts_internal_common_tags s.

(** ** The cache of the common tags *)

Inductive manager_op : Type :=
| SetExtra (tags : list Tag)
| SetInternal (tags : list Tag)
| SetPricing (tags : list Tag)
| GetCommon
| Announce
| HandleResponse (response : JsonRpcMessage)
| Shutdown.

Section manager_runs.
Context `{SerdeJson}.
Variable publish : EventBuilder → result string Error.

Definition manager_step (m : AnnouncementManager) (op : manager_op) : AnnouncementManager :=
  match op with
  | SetExtra tags => Manager.set_extra_common_tags tags m
  | SetInternal tags => Manager.set_internal_common_tags tags m
  | SetPricing tags => Manager.set_pricing_tags tags m
  | GetCommon => (Manager.get_common_tags m).1
  | Announce => (Manager.announce publish m).1.1
  | HandleResponse response => (Manager.handle_announcement_response response m).1.1
  | Shutdown => Manager.shutdown m
  end.
Definition manager_run (m : AnnouncementManager) (ops : list manager_op) : AnnouncementManager :=
  foldl manager_step m ops.

(** The cache holds what would be computed. *)
Definition cache_ok (m : AnnouncementManager) : Prop :=
  am_cached_common_tags m = None ∨ am_cached_common_tags m = Some (Manager.compute_common_tags m).

Lemma get_common_tags_ok m :
  cache_ok m →
  (Manager.get_common_tags m).2 = Manager.compute_common_tags m ∧ cache_ok (Manager.get_common_tags m).1.
Proof.
  unfold Manager.get_common_tags. intros [Hc|Hc]; rewrite Hc; cbn.
  - split; [done|]. by right.
  - split; [done|]. by right.
Qed.

Lemma get_announcement_tags_ok kind m : cache_ok m → cache_ok (Manager.get_announcement_tags m kind).1.
Proof.
  unfold Manager.get_announcement_tags. destruct (_ =? _); [|done].
  intros [_ Hok]%get_common_tags_ok. by destruct (Manager.get_common_tags m).
Qed.

Lemma manager_step_ok m op : cache_ok m → cache_ok (manager_step m op).
Proof.
  intros Hm. destruct op as [tags|tags|tags| | |[|resp|resp|]|]; cbn -[Manager.announce]; try done; try by left.
  - by apply get_common_tags_ok.
  - unfold Manager.announce. destruct (am_server_info m); [|done].
    pose proof (get_announcement_tags_ok SERVER_ANNOUNCEMENT_KIND m Hm) as Hok.
    by destruct (Manager.get_announcement_tags m SERVER_ANNOUNCEMENT_KIND).
  - destruct (Manager.announcement_kind (resp_result resp)) as [kind|]; [|exact Hm].
    pose proof (get_announcement_tags_ok kind m Hm) as Hok.
    destruct (Manager.get_announcement_tags m kind). by destruct (kind =? _).
  - by destruct (am_initialized m).
Qed.

(** The cached common tags are never stale: after any sequence of tag
    changes, reads, announcements and responses, [get_common_tags] returns the
    server, encryption, extra and internal tags as they are set now. *)
Theorem common_tags_fresh info enc gw urls list_urls boot rl profile ops :
  let m := manager_run (Manager.new info enc gw urls list_urls boot rl profile) ops in
  (Manager.get_common_tags m).2 = Manager.compute_common_tags m.
Proof.
  cbv zeta. apply get_common_tags_ok.
  assert (∀ m, cache_ok m → cache_ok (manager_run m ops)) as Hrun.
  { induction ops as [|op ops IH]; intros m Hm; cbn; [done|]. by apply IH, manager_step_ok. }
  apply Hrun. by left.
Qed.
End manager_runs.

(** ** Relay urls *)

Lemma push_unseen_spec result urls :
  NoDup result →
  NoDup (Manager.push_unseen result urls) ∧ result `prefix_of` Manager.push_unseen result urls ∧
  ∀ x, x ∈ Manager.push_unseen result urls ↔ x ∈ result ∨ x ∈ urls.
Proof.
  unfold Manager.push_unseen. revert result.
  induction urls as [|u urls IH]; intros result Hnd; cbn; [split_and!; [done|done|set_solver]|].
  case_bool_decide as Hu.
  - destruct (IH result Hnd) as (H1 & H2 & H3). split_and!; [done..|]. set_solver.
  - destruct (IH (result ++ [u])) as (H1 & H2 & H3).
    { apply NoDup_app. split_and!; [done| |apply NoDup_singleton]. set_solver. }
    split_and!; [done| |set_solver]. etrans; [|exact H2]. by apply prefix_app_r.
Qed.

(** Where the discoverability events go: every advertised relay once, first
    and in the order they are advertised, then the bootstrap relays that are not
    among them; the default bootstrap relays are left out exactly when none were
    configured and every advertised relay is local. *)
Theorem discoverability_urls_spec m :
  let advertised := Manager.get_advertised_relay_urls m in
  let urls := Manager.get_discoverability_publish_relay_urls m in
  let bootstrap :=
    match am_bootstrap_relay_urls m with
    | Some urls => urls
    | None => if negb (bool_decide (advertised = [])) && forallb Manager.is_local_relay_url advertised
              then [] else DEFAULT_BOOTSTRAP_RELAY_URLS
    end in
  NoDup urls ∧ Manager.push_unseen [] advertised `prefix_of` urls ∧
  (∀ x, x ∈ urls ↔ x ∈ advertised ∨ x ∈ bootstrap) ∧
  (NoDup advertised → advertised `prefix_of` urls).
Proof.
  cbv zeta. unfold Manager.get_discoverability_publish_relay_urls.
  set (adv := Manager.get_advertised_relay_urls m).
  destruct (push_unseen_spec [] adv) as (H1 & _ & H3); [constructor|].
  assert (NoDup adv → Manager.push_unseen [] adv = adv) as Hid.
  { clear. intros Hnd. unfold Manager.push_unseen.
    assert (∀ pre, NoDup (pre ++ adv) → foldl (λ result url, if bool_decide (url ∈ result) then result
      else result ++ [url]) pre adv = pre ++ adv) as Hgen.
    { clear. induction adv as [|u adv IH]; intros pre Hnd; cbn; [by rewrite app_nil_r|].
      rewrite bool_decide_false; [rewrite IH; by rewrite <- app_assoc|].
      apply NoDup_app in Hnd as (_ & Hd & _). intros Hin. apply (Hd u Hin). set_solver. }
    by apply (Hgen []). }
  set (boot := match am_bootstrap_relay_urls m with Some _ => _ | None => _ end).
  assert ((if Manager.skips_bootstrap m then Manager.push_unseen [] adv
           else Manager.push_unseen (Manager.push_unseen [] adv)
                  (default DEFAULT_BOOTSTRAP_RELAY_URLS (am_bootstrap_relay_urls m))) =
          Manager.push_unseen (Manager.push_unseen [] adv) boot) as ->.
  { subst boot. unfold Manager.skips_bootstrap. fold adv.
    destruct (am_bootstrap_relay_urls m); cbn; [done|]. by destruct (_ && _). }
  destruct (push_unseen_spec (Manager.push_unseen [] adv) boot H1) as (H4 & H5 & H6).
  split_and!; [done|done| |].
  - intros x. rewrite H6, H3. set_solver.
  - intros Hnd. by rewrite <- (Hid Hnd) at 1.
Qed.

(** ** The auto-publish flow *)

(** The task of [publish_public_announcements]: not started, waiting for the init
    response, or finished. *)
Inductive orchestrator : Type := Idle | AwaitingInit | Finished.

Record Flow : Type := mkFlow {
  flow_manager : AnnouncementManager;
  flow_task : orchestrator;
  flow_channel : list IncomingRequest;
}.

Inductive flow_op : Type :=
| StartPublish (version : string)
| Respond (response : JsonRpcMessage)
| Notified
| InitTimeout
| CancelPublish.

Definition flow_step `{SerdeJson} (f : Flow) (op : flow_op) : Flow :=
  match op, flow_task f with
  | StartPublish version, Idle =>
      mkFlow (flow_manager f) AwaitingInit
        (flow_channel f ++ [Manager.synthetic (Manager.init_request version)])
  | Respond response, _ =>
      let '(m, _, sent) := Manager.handle_announcement_response response (flow_manager f) in
      mkFlow m (flow_task f) (flow_channel f ++ sent)
  | Notified, AwaitingInit =>
      let m := flow_manager f in
      if am_init_permit m
      then mkFlow (Manager.set_init m (am_dispatch_fn m) false (am_initialized m)) Finished
             (flow_channel f ++ Manager.list_requests)
      else f
  | InitTimeout, AwaitingInit => mkFlow (flow_manager f) Finished (flow_channel f ++ Manager.list_requests)
  | CancelPublish, AwaitingInit => mkFlow (flow_manager f) Finished (flow_channel f)
  | _, _ => f
  end.
Definition flow_run `{SerdeJson} (f : Flow) (ops : list flow_op) : Flow := foldl flow_step f ops.

(** No timeout and no failed init response. *)
Definition flow_regular (op : flow_op) : bool :=
  match op with InitTimeout | Respond (ErrorResponse _) => false | _ => true end.

Definition flow_initialized (f : Flow) : Prop :=
  Manager.synthetic Manager.initialized_notification ∈ flow_channel f.
Definition flow_ordered (l : list IncomingRequest) : Prop :=
  ∀ l1 l2 x, l = l1 ++ x :: l2 → x ∈ Manager.list_requests →
    Manager.synthetic Manager.initialized_notification ∈ l1.

Record flow_ok (f : Flow) : Prop := {
  fo_sender : am_dispatch_fn (flow_manager f) = true;
  fo_permit : am_init_permit (flow_manager f) = true → flow_initialized f;
  fo_ordered : flow_ordered (flow_channel f);
}.

(** Appending messages keeps the order when the list requests among them come
    after the notification. *)
Lemma flow_ordered_app l l' :
  flow_ordered l → (∀ x, x ∈ l' → x ∈ Manager.list_requests →
    Manager.synthetic Manager.initialized_notification ∈ l) → flow_ordered (l ++ l').
Proof.
  intros Hl Hl' l1 l2 x Heq Hx. apply app_eq_inv in Heq as [(k & -> & Hk)|(k & -> & Hk)].
  - destruct k as [|y k]; cbn in Hk; subst.
    + rewrite app_nil_r in Hl'. apply (Hl' x); [set_solver|done].
    + injection Hk as <- ->. by apply (Hl l1 k x).
  - apply elem_of_app. left. apply (Hl' x); [|done]. subst. set_solver.
Qed.

Lemma flow_step_ok `{SerdeJson} f op : flow_regular op = true → flow_ok f → flow_ok (flow_step f op).
Proof.
  intros Hr [Hs Hp Ho]. unfold flow_step.
  destruct op as [v|[|r|r|]| | |], (flow_task f); try done; cbn;
    try (rewrite app_nil_r; by split).
  1: { split; cbn; [done| |].
       - intros Hperm. specialize (Hp Hperm). unfold flow_initialized in *. cbn. set_solver.
       - apply flow_ordered_app; [done|]. intros x ->%list_elem_of_singleton. cbn. set_solver. }
  4: { destruct (am_init_permit (flow_manager f)) eqn:Ep; [|by split; rewrite ?Ep].
       split; cbn; [done|done|]. apply flow_ordered_app; [done|]. intros. by apply Hp. }
  all: destruct (Manager.announcement_kind (resp_result r)) as [kind|]; [|rewrite app_nil_r; by split].
  all: unfold Manager.get_announcement_tags, Manager.get_common_tags.
  all: destruct (kind =? SERVER_ANNOUNCEMENT_KIND);
    [destruct (am_cached_common_tags (flow_manager f)); cbn; rewrite ?Hs|cbn; rewrite app_nil_r; by split].
  all: split; cbn; [done| |]; unfold flow_initialized; cbn; [set_solver|].
  all: apply flow_ordered_app; [done|]; intros x ->%list_elem_of_singleton; cbn; set_solver.
Qed.

(** The auto-publish flow never overtakes its handshake: whatever the order
    of its steps and of the handler's responses, without an init failure or
    timeout every capability-list request on the channel is preceded by the
    [notifications/initialized] message. *)
Theorem announcement_handshake_ordered `{SerdeJson} info enc gw urls list_urls boot rl profile ops l1 l2 x :
  Forall (λ op, flow_regular op = true) ops →
  flow_channel (flow_run
    (mkFlow (Manager.new info enc gw urls list_urls boot rl profile) Idle []) ops) = l1 ++ x :: l2 →
  x ∈ Manager.list_requests →
  Manager.synthetic Manager.initialized_notification ∈ l1.
Proof.
  intros Hops. assert (∀ f, flow_ok f → flow_ok (flow_run f ops)) as Hrun.
  { induction Hops as [|op ops Hop _ IH]; intros f Hf; cbn; [done|]. by apply IH, flow_step_ok. }
  apply fo_ordered, Hrun. split; [done|done|]. intros ? ? ? [? [=]]%eq_sym%app_eq_nil.
Qed.

Definition demo_flow_ops : list flow_op :=
  [StartPublish "2025-11-25";
   Respond (Response (mkResponse "2.0" VNull (VObject [("protocolVersion", VString "2025-11-25")])));
   Notified].

Lemma announcement_handshake_ordered_witness :
  let f := @flow_run bits_serde
    (mkFlow (Manager.new None EncOptional GwOptional [] None None true None) Idle []) demo_flow_ops in
  Manager.synthetic Manager.initialized_notification ∈ take 2 (flow_channel f).
Proof.
  cbv zeta.
  apply (@announcement_handshake_ordered bits_serde None EncOptional GwOptional [] None None true None
    demo_flow_ops _ (drop 1 Manager.list_requests) (Manager.synthetic (Manager.list_request "tools/list"))).
  - by repeat constructor.
  - by vm_compute.
  - cbn. set_solver.
Defined.
