(* ===== verification/Discovery.v ===== *)
(** * Discovery of servers and of their relays

    Models the client side of what [Announcements] publishes:
    [src/discovery/mod.rs], [src/transport/client/server_identity.rs],
    [src/transport/client/server_relay_discovery.rs],
    [src/transport/client/relay_resolution.rs] and the parts of
    [src/relay/mod.rs] they call.  The client of [nostr_sdk] and its NIP-19 decoder
    are parameters; which of two racing futures is ready first, and whether a
    probe ends within its timeout, are arguments. *)

From S2P Require Import Prelude Json CoreTypes Instances BaseTransport Announcements.

(** ** The outside *)

(** An event with its timestamp. *)
Record StampedEvent : Type := mkStamped {
  se_event : Event;
  se_created_at : Z;
}.

(** [Filter::new().kind(kind).author(author)]. *)
Record Filter : Type := mkFilter {
  f_kind : Z;
  f_author : option string;
}.

(** The variants of [nostr_sdk]'s [Nip19]; the others in one. *)
Inductive Nip19 : Type :=
| Nip19_Pubkey (public_key : string)
| Nip19_Profile (public_key : string) (relays : list string)
| Nip19_Other.

(** [client_fetch_events] answers what arrived before its timeout. *)
Class NostrClient := {
  Client : Type;
  client_new : Client;
  client_add_relay : Client → string → result Client string;
  client_connect : Client → Client;
  client_fetch_events : Client → Filter → result (list StampedEvent) string;
  nip19_from_bech32 : string → option Nip19;
  json_error : string → string;
}.

(** ** The relay pool ([relay/mod.rs]) *)

Module RelayPool.
Section pool.
Context `{NostrClient}.

Definition new : result Client Error := Ok client_new.

Fixpoint add_relays (client : Client) (relay_urls : list string) : result Client Error :=
  match relay_urls with
  | [] => Ok client
  | url :: rest => let? client := map_err ETransport (client_add_relay client url) in add_relays client rest
  end.
Definition connect (client : Client) (relay_urls : list string) : result Client Error :=
  let? client := add_relays client relay_urls in Ok (client_connect client).

Fixpoint fetch_events (client : Client) (filters : list Filter) : result (list StampedEvent) Error :=
  match filters with
  | [] => Ok []
  | filter :: rest =>
      let? events := map_err ETransport (client_fetch_events client filter) in
      let? all_events := fetch_events client rest in Ok (events ++ all_events)
  end.
End pool.
End RelayPool.

(** ** Server identity ([server_identity.rs]) *)

Definition parse_server_identity `{Nostr} `{NostrClient} (input : string)
  : result (string * list string) Error :=
  match pubkey_from_hex input with
  | Ok pk => Ok (pk, [])
  | Err _ =>
      match nip19_from_bech32 input with
      | Some (Nip19_Pubkey pk) => Ok (pk, [])
      | Some (Nip19_Profile pk relays) => Ok (pk, relays)
      | _ => Err (EOther ("Invalid serverPubkey format: " +:+ input +:+
                          ". Expected hex pubkey, npub, or nprofile."))
      end
  end.

(** ** Relay lists ([server_relay_discovery.rs]) *)

Record RelayListEntry : Type := mkEntry {
  rle_url : string;
  rle_marker : option string;
}.

(** The filter with the [HashSet] of the urls seen. *)
Fixpoint dedup_from (seen : gset string) (urls : list string) : list string :=
  match urls with
  | [] => []
  | u :: rest => if bool_decide (u ∈ seen) then dedup_from seen rest else u :: dedup_from ({[u]} ∪ seen) rest
  end.
Definition dedup (urls : list string) : list string := dedup_from ∅ urls.

Definition is_unmarked (e : RelayListEntry) : bool :=
  bool_decide (rle_marker e = None) && negb (str_is_empty (rle_url e)).
Definition is_read_write (e : RelayListEntry) : bool :=
  negb (str_is_empty (rle_url e)) &&
  match rle_marker e with Some m => String.eqb m "read" || String.eqb m "write" | None => false end.

Definition select_operational_relay_urls (entries : list RelayListEntry) : list string :=
  match map rle_url (List.filter is_unmarked entries) with
  | [] => dedup (map rle_url (List.filter is_read_write entries))
  | unmarked => dedup unmarked
  end.

(** [sort_by_key(|e| Reverse(e.created_at))], which is stable. *)
Fixpoint insert_by_created_at (e : StampedEvent) (l : list StampedEvent) : list StampedEvent :=
  match l with
  | [] => [e]
  | x :: rest => if se_created_at x <=? se_created_at e then e :: l else x :: insert_by_created_at e rest
  end.
Definition sort_by_created_at (events : list StampedEvent) : list StampedEvent :=
  foldr insert_by_created_at [] events.

(** The closure over the tags. *)
Definition relay_entry (tag : Tag) : option RelayListEntry :=
  match tag with
  | name :: url :: rest =>
      if String.eqb name tags.RELAY then
        if str_is_empty url then None else Some (mkEntry url (head rest))
      else None
  | _ => None
  end.

Section relay_lists.
Context `{NostrClient}.

Definition fetch_relay_list_from_pool (server_pubkey : string) (relay_pool : Client)
  : result (list RelayListEntry) Error :=
  let? events := RelayPool.fetch_events relay_pool [mkFilter RELAY_LIST_METADATA_KIND (Some server_pubkey)] in
  match sort_by_created_at events with
  | [] => Ok []
  | latest :: _ => Ok (omap relay_entry (ev_tags (se_event latest)))
  end.

Definition fetch_server_relay_list (server_pubkey : string) (relay_urls : list string)
  : result (list RelayListEntry) Error :=
  let? pool := RelayPool.new in
  let? pool := RelayPool.connect pool relay_urls in
  fetch_relay_list_from_pool server_pubkey pool.

(** ** Relay resolution ([relay_resolution.rs]) *)

(** Without the signer and the timeout. *)
Record RelayResolutionConfig : Type := mkResolution {
  configured_relay_urls : list string;
  hinted_relay_urls : list string;
  discovery_relay_urls : list string;
  fallback_operational_relay_urls : list string;
  rr_server_pubkey : string;
}.

(** [in_time]: the connection ends before the timeout. *)
Definition connect_fallback_operational_relays (in_time : bool) (fallback_urls : list string) : list string :=
  match fallback_urls with
  | [] => []
  | _ =>
      match RelayPool.new with
      | Err _ => []
      | Ok pool =>
          if in_time then
            match RelayPool.connect pool fallback_urls with Ok _ => fallback_urls | Err _ => [] end
          else []
      end
  end.

(** The future of the discovery. *)
Definition discover_operational_relays (config : RelayResolutionConfig) : list string :=
  select_operational_relay_urls
    (default [] (result_ok (fetch_server_relay_list (rr_server_pubkey config) (discovery_relay_urls config)))).

Inductive RaceWinner : Type :=
| RaceDiscovery (urls : list string)
| RaceFallback (urls : list string).

(** Stages 4 to 6; [discovery_first] is the outcome of the [select!]. *)
Definition race_operational_relays (discovery_first in_time : bool) (config : RelayResolutionConfig) : list string :=
  let last_resort_urls := discovery_relay_urls config in
  let discovery := discover_operational_relays config in
  let fallback := connect_fallback_operational_relays in_time (fallback_operational_relay_urls config) in
  match (if discovery_first then RaceDiscovery discovery else RaceFallback fallback) with
  | RaceDiscovery ((_ :: _) as urls) | RaceFallback ((_ :: _) as urls) => urls
  | RaceDiscovery [] => match fallback with [] => last_resort_urls | urls => urls end
  | RaceFallback [] => match discovery with [] => last_resort_urls | urls => urls end
  end.

Definition resolve_operational_relays (discovery_first in_time : bool) (config : RelayResolutionConfig)
  : list string :=
  match configured_relay_urls config with
  | (_ :: _) as urls => urls
  | [] =>
  match hinted_relay_urls config with
  | (_ :: _) as urls => urls
  | [] =>
  match discovery_relay_urls config with
  | [] => match fallback_operational_relay_urls config with (_ :: _) as urls => urls | [] => [] end
  | _ => race_operational_relays discovery_first in_time config
  end end end.
End relay_lists.

(** ** Announced servers and lists ([discovery/mod.rs]) *)

Record ServerAnnouncement : Type := mkAnnouncement {
  sa_pubkey : string;
  sa_server_info : ServerInfo;
  sa_event_id : string;
  sa_created_at : Z;
  sa_protocol_version : option string;
  sa_capabilities : option Value;
  sa_instructions : option string;
}.

(** [ServerInfo::default()]. *)
Definition ServerInfo_default : ServerInfo := mkServerInfo None None None None None.

(** The derived [Deserialize] of [ServerInfo]: absent fields and [null] are [None]. *)
Definition de_opt_string (o : option Value) : option (option string) :=
  match o with
  | None | Some VNull => Some None
  | Some (VString s) => Some (Some s)
  | Some _ => None
  end.
Definition de_server_info (v : Value) : option ServerInfo :=
  let read n ve p w a :=
    n ← de_opt_string n; ve ← de_opt_string ve; p ← de_opt_string p; w ← de_opt_string w; a ← de_opt_string a;
    Some (mkServerInfo n ve p w a) in
  match v with
  | VObject l => read (obj_get "name" l) (obj_get "version" l) (obj_get "picture" l) (obj_get "website" l)
                   (obj_get "about" l)
  | VArray [n; ve; p; w; a] => read (Some n) (Some ve) (Some p) (Some w) (Some a)
  | _ => None
  end.

(** [val.get(key).and_then(as_str)]. *)
Definition get_str (v : Value) (key : string) : option string := get v key ≫= as_str.

Definition server_info_from_implementation (v : Value) : ServerInfo :=
  mkServerInfo (get_str v "name") (get_str v "version") None (get_str v "websiteUrl") (get_str v "description").

Section discovery.
Context `{SerdeJson}.

Definition parse_announcement_content (content : string)
  : ServerInfo * option string * option Value * option string :=
  match from_str content with
  | None => (ServerInfo_default, None, None, None)
  | Some value =>
      match get value "protocolVersion" with
      | Some _ =>
          (default ServerInfo_default (server_info_from_implementation <$> get value "serverInfo"),
           get_str value "protocolVersion", get value "capabilities", get_str value "instructions")
      | None => (default ServerInfo_default (de_server_info value), None, None, None)
      end
  end.

Context `{NostrClient}.

(** The body of the loop of [discover_servers]. *)
Definition announcement_of (e : StampedEvent) : ServerAnnouncement :=
  let '(server_info, protocol_version, capabilities, instructions) :=
    parse_announcement_content (ev_content (se_event e)) in
  mkAnnouncement (ev_pubkey (se_event e)) server_info (ev_id (se_event e)) (se_created_at e) protocol_version
    capabilities instructions.
Definition discover_servers (client : Client) : result (list ServerAnnouncement) Error :=
  let? events := map_err ETransport (client_fetch_events client (mkFilter SERVER_ANNOUNCEMENT_KIND None)) in
  Ok (map announcement_of events).

Definition as_array (v : Value) : option (list Value) := match v with VArray l => Some l | _ => None end.

Definition fetch_list (client : Client) (server_pubkey : string) (kind : Z) (list_key : string)
  : result (list Value) Error :=
  let? events := map_err ETransport (client_fetch_events client (mkFilter kind (Some server_pubkey))) in
  match events with
  | [] => Ok []
  | event :: _ =>
      match from_str (ev_content (se_event event)) with
      | None => Err (EOther (json_error (ev_content (se_event event))))
      | Some parsed => Ok (default [] (get parsed list_key ≫= as_array))
      end
  end.
Definition discover_tools (client : Client) (server_pubkey : string) :=
  fetch_list client server_pubkey TOOLS_LIST_KIND "tools".
Definition discover_resources (client : Client) (server_pubkey : string) :=
  fetch_list client server_pubkey RESOURCES_LIST_KIND "resources".
Definition discover_prompts (client : Client) (server_pubkey : string) :=
  fetch_list client server_pubkey PROMPTS_LIST_KIND "prompts".
Definition discover_resource_templates (client : Client) (server_pubkey : string) :=
  fetch_list client server_pubkey RESOURCETEMPLATES_LIST_KIND "resourceTemplates".

(** [from_value] is the [Deserialize] of the item type. *)
Fixpoint parse_typed_list {T} (from_value : Value → result T string) (raw : list Value) : result (list T) Error :=
  match raw with
  | [] => Ok []
  | item :: rest =>
      let? value := map_err (λ e, EOther ("Failed to parse typed discovery item: " +:+ e)) (from_value item) in
      let? parsed := parse_typed_list from_value rest in Ok (value :: parsed)
  end.
Definition discover_tools_typed {T} (from_value : Value → result T string) (client : Client) (server_pubkey : string) :=
  let? raw := discover_tools client server_pubkey in parse_typed_list from_value raw.
Definition discover_resources_typed {T} (from_value : Value → result T string) (client : Client) (server_pubkey : string) :=
  let? raw := discover_resources client server_pubkey in parse_typed_list from_value raw.
Definition discover_prompts_typed {T} (from_value : Value → result T string) (client : Client) (server_pubkey : string) :=
  let? raw := discover_prompts client server_pubkey in parse_typed_list from_value raw.
Definition discover_resource_templates_typed {T} (from_value : Value → result T string) (client : Client)
    (server_pubkey : string) :=
  let? raw := discover_resource_templates client server_pubkey in parse_typed_list from_value raw.
End discovery.

(** ** Selection and recency *)

(** [dedup] is the loop with which the server deduplicates the relays it
    publishes to. *)
Lemma dedup_from_push acc urls :
  Manager.push_unseen acc urls = acc ++ dedup_from (list_to_set acc) urls.
Proof.
  unfold Manager.push_unseen. revert acc.
  induction urls as [|u urls IH]; intros acc; cbn; [by rewrite app_nil_r|].
  assert (bool_decide (u ∈ (list_to_set acc : gset string)) = bool_decide (u ∈ acc)) as ->.
  { apply bool_decide_ext. by rewrite elem_of_list_to_set. }
  case_bool_decide; rewrite IH; [done|]. rewrite <- app_assoc. cbn.
  by replace (list_to_set (acc ++ [u]) : gset string) with ({[u]} ∪ list_to_set acc : gset string) by set_solver.
Qed.

Lemma dedup_push_unseen urls : dedup urls = Manager.push_unseen [] urls.
Proof. by rewrite dedup_from_push. Qed.

Lemma dedup_spec urls : NoDup (dedup urls) ∧ ∀ x, x ∈ dedup urls ↔ x ∈ urls.
Proof.
  rewrite dedup_push_unseen. destruct (push_unseen_spec [] urls) as (H1 & _ & H2); [constructor|].
  split; [done|]. intros x. rewrite H2. set_solver.
Qed.

Lemma dedup_nil urls : dedup urls = [] ↔ urls = [].
Proof. by destruct urls. Qed.

Lemma select_elem url entries :
  url ∈ select_operational_relay_urls entries → ∃ e, e ∈ entries ∧ rle_url e = url.
Proof.
  assert (∀ f, url ∈ dedup (map rle_url (List.filter f entries)) → ∃ e, e ∈ entries ∧ rle_url e = url) as Hf.
  { intros f (e & -> & [He _]%list_elem_of_In%filter_In)%dedup_spec%list_elem_of_fmap.
    exists e. split; [by apply list_elem_of_In|done]. }
  unfold select_operational_relay_urls. intros Hin.
  destruct (map rle_url (List.filter is_unmarked entries)) eqn:E; [|rewrite <- E in Hin]; by eapply Hf.
Qed.

Lemma insert_by_created_at_spec e l x rest :
  (∀ y r, l = y :: r → ∀ z, z ∈ l → se_created_at z ≤ se_created_at y) →
  insert_by_created_at e l = x :: rest →
  (x ∈ e :: l) ∧ ∀ z, z ∈ e :: l → se_created_at z ≤ se_created_at x.
Proof.
  intros Hl. destruct l as [|y l]; cbn; [intros [= <- <-]; set_solver by lia|].
  specialize (Hl y l eq_refl). destruct (Z.leb_spec (se_created_at y) (se_created_at e)); intros [= <- <-].
  - split; [set_solver|]. intros z [->|Hz]%elem_of_cons; [lia|]. specialize (Hl z Hz). lia.
  - split; [set_solver|]. intros z [->|Hz]%elem_of_cons; [lia|]. by apply Hl.
Qed.

Lemma elem_of_sort_by_created_at z events : z ∈ sort_by_created_at events ↔ z ∈ events.
Proof.
  assert (∀ e l, z ∈ insert_by_created_at e l ↔ z = e ∨ z ∈ l) as Hins.
  { intros e l. induction l as [|y l IH]; cbn; [by rewrite list_elem_of_singleton; set_solver|].
    destruct (_ <=? _); rewrite !elem_of_cons, ?IH; tauto. }
  induction events as [|e events IH]; [done|].
  change (z ∈ insert_by_created_at e (sort_by_created_at events) ↔ z ∈ e :: events).
  by rewrite Hins, IH, elem_of_cons.
Qed.

(** The first of the sorted events is a newest one. *)
Lemma sort_by_created_at_head events x rest :
  sort_by_created_at events = x :: rest →
  x ∈ events ∧ ∀ z, z ∈ events → se_created_at z ≤ se_created_at x.
Proof.
  revert x rest. induction events as [|e events IH]; intros x rest; cbn; [done|]. intros Hx.
  pose proof (λ z, elem_of_sort_by_created_at z events) as Hperm.
  destruct (insert_by_created_at_spec e (sort_by_created_at events) x rest) as [H1 H2]; [|done|].
  - intros y r Hy z Hz. apply (IH y r Hy), Hperm, Hz.
  - split; [|intros z Hz; apply H2]; set_solver.
Qed.

Lemma sort_by_created_at_newest l1 e l2 :
  Forall (λ x, se_created_at x < se_created_at e) (l1 ++ l2) →
  ∃ rest, sort_by_created_at (l1 ++ e :: l2) = e :: rest.
Proof.
  intros Hold. destruct (sort_by_created_at (l1 ++ e :: l2)) as [|x rest] eqn:E.
  - assert (e ∈ sort_by_created_at (l1 ++ e :: l2)) as Hin by (apply elem_of_sort_by_created_at; set_solver).
    rewrite E in Hin. by apply not_elem_of_nil in Hin.
  - destruct (sort_by_created_at_head _ _ _ E) as [Hx Hmax]. exists rest. f_equal.
    specialize (Hmax e ltac:(set_solver)). rewrite Forall_forall in Hold.
    apply elem_of_app in Hx as [Hx|[->|Hx]%elem_of_cons]; [|done|]; specialize (Hold x ltac:(set_solver)); lia.
Qed.

(** ** Relay resolution *)

(** The first list of urls that is not empty. *)
Definition first_nonempty (ls : list (list string)) : list string :=
  foldr (λ l r, match l with [] => r | _ => l end) [] ls.

(** What the stages of the resolution offer, in the order of their priority. *)
Definition relay_candidates `{NostrClient} (discovery_first in_time : bool) (config : RelayResolutionConfig)
  : list (list string) :=
  let discovered := discover_operational_relays config in
  let probed := connect_fallback_operational_relays in_time (fallback_operational_relay_urls config) in
  [configured_relay_urls config; hinted_relay_urls config]
  ++ match discovery_relay_urls config with
     | [] => [fallback_operational_relay_urls config]
     | bootstrap => (if discovery_first then [discovered; probed] else [probed; discovered]) ++ [bootstrap]
     end.

(** The server announced the relay in its newest relay list on the discovery relays. *)
Definition announced_relay `{NostrClient} (config : RelayResolutionConfig) (url : string) : Prop :=
  ∃ client events latest rest,
    RelayPool.connect client_new (discovery_relay_urls config) = Ok client ∧
    client_fetch_events client (mkFilter RELAY_LIST_METADATA_KIND (Some (rr_server_pubkey config))) = Ok events ∧
    latest ∈ events ∧ (∀ e, e ∈ events → se_created_at e ≤ se_created_at latest) ∧
    tags.RELAY :: url :: rest ∈ ev_tags (se_event latest).

Section resolution.
Context `{NostrClient}.

Lemma first_nonempty_elem url ls : url ∈ first_nonempty ls → ∃ l, l ∈ ls ∧ url ∈ l.
Proof.
  induction ls as [|[|x l] ls IH]; cbn; [by intros ?%not_elem_of_nil| |].
  - intros (l & Hl & Hu)%IH. exists l. set_solver.
  - intros Hu. exists (x :: l). set_solver.
Qed.

Lemma fetch_one_filter client filter :
  RelayPool.fetch_events client [filter] = map_err ETransport (client_fetch_events client filter).
Proof. cbn. destruct (client_fetch_events client filter); cbn; [by rewrite app_nil_r|done]. Qed.

Lemma relay_entry_url tag e : relay_entry tag = Some e → ∃ rest, tag = tags.RELAY :: rle_url e :: rest.
Proof.
  destruct tag as [|name [|url rest]]; cbn; [done..|].
  destruct (String.eqb_spec name tags.RELAY) as [->|]; [|done].
  destruct (str_is_empty url); [done|]. intros [= <-]. by exists rest.
Qed.

Lemma discovered_relay_announced config url :
  url ∈ discover_operational_relays config → announced_relay config url.
Proof.
  unfold discover_operational_relays, fetch_server_relay_list. intros (e & He & <-)%select_elem. revert He.
  cbn [RelayPool.new result_bind]. destruct (RelayPool.connect _ _) as [client|] eqn:Ec; cbn; [|set_solver].
  unfold fetch_relay_list_from_pool. rewrite fetch_one_filter.
  destruct (client_fetch_events _ _) as [events|] eqn:Ef; cbn; [|set_solver].
  destruct (sort_by_created_at events) as [|latest rest] eqn:Es; cbn; [set_solver|].
  intros (tag & Htag & [rest' ->]%relay_entry_url)%list_elem_of_omap.
  destruct (sort_by_created_at_head _ _ _ Es) as [Hin Hmax]. by exists client, events, latest, rest'.
Qed.

Lemma probed_relays in_time urls url : url ∈ connect_fallback_operational_relays in_time urls → url ∈ urls.
Proof.
  destruct urls as [|u urls]; cbn -[RelayPool.connect]; [done|].
  destruct in_time; [destruct (RelayPool.connect _ _)|]; set_solver.
Qed.

Lemma resolve_first_nonempty discovery_first in_time config :
  resolve_operational_relays discovery_first in_time config =
  first_nonempty (relay_candidates discovery_first in_time config).
Proof.
  unfold resolve_operational_relays, relay_candidates, race_operational_relays.
  destruct (configured_relay_urls config), (hinted_relay_urls config); try done.
  destruct (discovery_relay_urls config) as [|u us] eqn:Ed; [by destruct (fallback_operational_relay_urls config)|].
  generalize (discover_operational_relays config) as D.
  generalize (connect_fallback_operational_relays in_time (fallback_operational_relay_urls config)) as F.
  intros [] []; by destruct discovery_first.
Qed.

(** (C30) Relay resolution meets its contract: whoever wins the race between the
    discovery and the probe of the fallback relays, the result is the first
    non-empty candidate in the order configured, hinted, then the winner, the
    loser and the discovery relays (the fallback relays where there are no
    discovery relays); it is empty only if no relay was given at all; and every
    url was given or stands in the newest relay list of the server. *)
Theorem resolve_operational_relays_spec discovery_first in_time config :
  let urls := resolve_operational_relays discovery_first in_time config in
  urls = first_nonempty (relay_candidates discovery_first in_time config) ∧
  (urls = [] ↔ configured_relay_urls config = [] ∧ hinted_relay_urls config = [] ∧
               discovery_relay_urls config = [] ∧ fallback_operational_relay_urls config = []) ∧
  (∀ url, url ∈ urls →
     url ∈ configured_relay_urls config ++ hinted_relay_urls config ++ discovery_relay_urls config
           ++ fallback_operational_relay_urls config ∨ announced_relay config url).
Proof.
  cbv zeta. split; [apply resolve_first_nonempty|]. split.
  - unfold resolve_operational_relays, race_operational_relays.
    destruct (configured_relay_urls config), (hinted_relay_urls config), (discovery_relay_urls config);
      try (by split; [intros ?|intros (? & ? & ? & ?)]).
    + destruct (fallback_operational_relay_urls config); naive_solver.
    + split; [|naive_solver]. destruct (discover_operational_relays config),
        (connect_fallback_operational_relays in_time (fallback_operational_relay_urls config)), discovery_first;
        naive_solver.
  - intros url. rewrite resolve_first_nonempty. unfold relay_candidates.
    intros (l & Hl & Hu)%first_nonempty_elem. pose proof (discovered_relay_announced config url).
    pose proof (probed_relays in_time (fallback_operational_relay_urls config) url).
    rewrite !elem_of_app. destruct (discovery_relay_urls config), discovery_first; cbn in Hl;
      rewrite ?elem_of_cons, ?elem_of_nil in Hl; naive_solver.
Qed.
End resolution.

(** ** What the server publishes is what the client finds *)

Definition nonempty_url (url : string) : bool := negb (str_is_empty url).

Section round_trips.

(** The tags of a relay list are read back as unmarked entries. *)
Lemma relay_list_entries urls :
  omap relay_entry (map (λ url, custom_tag tags.RELAY [url]) urls) =
  map (λ url, mkEntry url None) (List.filter nonempty_url urls).
Proof.
  induction urls as [|u urls IH]; cbn; [done|]. unfold nonempty_url at 1.
  destruct (str_is_empty u); cbn; by rewrite <- IH.
Qed.

Lemma select_unmarked urls :
  urls ≠ [] → Forall (λ u, nonempty_url u = true) urls →
  select_operational_relay_urls (map (λ url, mkEntry url None) urls) = dedup urls.
Proof.
  intros Hne Hall. unfold select_operational_relay_urls.
  assert (map rle_url (List.filter is_unmarked (map (λ url, mkEntry url None) urls)) = urls) as ->.
  { clear Hne. induction Hall as [|u urls Hu _ IH]; [done|].
    cbn [map List.filter]. change (is_unmarked (mkEntry u None)) with (nonempty_url u). rewrite Hu. cbn. by rewrite IH. }
  by destruct urls.
Qed.

Lemma relay_list_event_tags m builder :
  Manager.relay_list_event m = Some builder →
  eb_tags builder = map (λ url, custom_tag tags.RELAY [url]) (Manager.get_advertised_relay_urls m).
Proof.
  unfold Manager.relay_list_event. destruct (am_should_publish_relay_list m); [|done].
  destruct (Manager.get_advertised_relay_urls m); [done|]. by intros [= <-].
Qed.

(** The relay list a server publishes reaches its clients: a client without
    configured and hinted relays, for which the newest relay list on the
    discovery relays is the one the server published, resolves exactly the relays
    the server advertises, in their order and without repetitions and empty
    urls, unless a probe of the fallback relays succeeds first. *)
Theorem advertised_relays_resolved `{NostrClient} m builder config client l1 e l2 discovery_first in_time :
  Manager.relay_list_event m = Some builder →
  ev_tags (se_event e) = eb_tags builder →
  configured_relay_urls config = [] → hinted_relay_urls config = [] → discovery_relay_urls config ≠ [] →
  RelayPool.connect client_new (discovery_relay_urls config) = Ok client →
  client_fetch_events client (mkFilter RELAY_LIST_METADATA_KIND (Some (rr_server_pubkey config)))
    = Ok (l1 ++ e :: l2) →
  Forall (λ x, se_created_at x < se_created_at e) (l1 ++ l2) →
  let urls := List.filter nonempty_url (Manager.get_advertised_relay_urls m) in
  urls ≠ [] →
  discovery_first = true ∨
    connect_fallback_operational_relays in_time (fallback_operational_relay_urls config) = [] →
  resolve_operational_relays discovery_first in_time config = Manager.push_unseen [] urls.
Proof.
  intros Hev Htags Hc Hh Hd Hconn Hfetch Hnew urls Hne Hrace.
  assert (discover_operational_relays config = Manager.push_unseen [] urls) as Hdisc.
  { unfold discover_operational_relays, fetch_server_relay_list. cbn [RelayPool.new result_bind].
    rewrite Hconn. cbn [result_bind]. unfold fetch_relay_list_from_pool. rewrite fetch_one_filter, Hfetch. cbn [map_err result_bind].
    destruct (sort_by_created_at_newest l1 e l2 Hnew) as [rest ->]. cbn [result_ok from_option id].
    rewrite Htags, (relay_list_event_tags m builder Hev), relay_list_entries, select_unmarked;
      [apply dedup_push_unseen|done|].
    apply Forall_forall. by intros x [_ Hx]%list_elem_of_In%filter_In. }
  rewrite resolve_first_nonempty. unfold relay_candidates. rewrite Hc, Hh, Hdisc.
  assert (Manager.push_unseen [] urls ≠ []) as Hpush by (by rewrite <- dedup_push_unseen, dedup_nil).
  destruct (discovery_relay_urls config); [done|].
  destruct (Manager.push_unseen [] urls); [done|]. destruct Hrace as [->| ->]; [done|]. by destruct discovery_first.
Qed.

(** *** Announcements and lists *)

Context `{SerdeJsonLaws}.

(** The ways in which a manager publishes the text of a value. *)
Inductive published (publish : EventBuilder → result string Error) (m : AnnouncementManager)
    (builder : EventBuilder) : Value → Prop :=
| published_info info m' res :
    am_server_info m = Some info → Manager.announce publish m = (m', [builder], res) →
    published publish m builder (server_info_to_value info)
| published_list kind key items res :
    Manager.publish_list publish kind key items m = ([builder], res) →
    published publish m builder (VObject [(key, VArray items)])
| published_response r m' sent :
    Manager.handle_announcement_response (Response r) m = (m', [builder], sent) →
    published publish m builder (resp_result r).

Lemma published_content publish m builder v :
  published publish m builder v → eb_content builder = to_string v.
Proof.
  intros [info m' res Hi Ha|kind key items res Ha|r m' sent Ha].
  - revert Ha. unfold Manager.announce. rewrite Hi. destruct (Manager.get_announcement_tags m _). by intros [= _ <- _].
  - by injection Ha as <- _.
  - revert Ha. cbn. destruct (Manager.announcement_kind (resp_result r)) as [kind|]; [|done].
    destruct (Manager.get_announcement_tags m kind). destruct (kind =? _); by intros [= _ <- _].
Qed.

Lemma get_norm v k : json_exact v = true → get (json_norm v) k = json_norm <$> get v k.
Proof. destruct v; try done. cbn [json_exact]. intros [Hl _]%andb_true_iff. by apply get_json_norm. Qed.

Lemma get_str_norm v k : json_exact v = true → get_str (json_norm v) k = get_str v k.
Proof. intros Hv. unfold get_str. rewrite get_norm by done. by destruct (get v k) as [[]|]. Qed.

Lemma get_exact v k w : json_exact v = true → get v k = Some w → json_exact w = true.
Proof.
  destruct v as [| | | | |l]; try done. cbn. intros [_ Hl]%andb_true_iff. revert Hl.
  induction l as [|[k' x] l IH]; cbn; [done|]. intros [Hx Hl]%andb_true_iff.
  destruct (String.eqb k k'); [by intros [= <-]|by apply IH].
Qed.

Lemma server_info_from_implementation_norm v :
  json_exact v = true → server_info_from_implementation (json_norm v) = server_info_from_implementation v.
Proof. intros Hv. unfold server_info_from_implementation. by rewrite !get_str_norm. Qed.

Lemma de_server_info_value info :
  de_server_info (json_norm (server_info_to_value info)) = Some info ∧
  get (json_norm (server_info_to_value info)) "protocolVersion" = None.
Proof. by destruct info as [[] [] [] [] []]. Qed.

(** The lists a server publishes, by [publish_tools] and its siblings or from the
    handler's responses, are the lists a client fetches (with the entries of
    their objects in key order), when the event is the first the relays answer. *)
Theorem published_list_discovered `{NostrClient} publish m builder v key items client server_pubkey e events :
  published publish m builder v →
  get v key = Some (VArray items) → json_exact v = true → (json_depth v <= RECURSION_LIMIT)%nat →
  client_fetch_events client (mkFilter (eb_kind builder) (Some server_pubkey)) = Ok (e :: events) →
  ev_content (se_event e) = eb_content builder →
  fetch_list client server_pubkey (eb_kind builder) key = Ok (map json_norm items).
Proof.
  intros Hpub Hkey Hex Hdepth Hfetch Hcontent. unfold fetch_list. rewrite Hfetch. cbn [map_err result_bind].
  by rewrite Hcontent, (published_content _ _ _ _ Hpub), from_str_to_string, get_norm, Hkey.
Qed.

(** A published announcement is discovered: every announcement event of a server
    yields an entry with its key and id; one made by [announce] carries the
    configured [ServerInfo], and one made from the handler's initialize result
    its protocol version, capabilities, instructions and implementation. *)
Theorem published_server_discovered `{NostrClient} publish m builder v client e events :
  published publish m builder v → json_exact v = true → (json_depth v <= RECURSION_LIMIT)%nat →
  client_fetch_events client (mkFilter SERVER_ANNOUNCEMENT_KIND None) = Ok events → e ∈ events →
  ev_content (se_event e) = eb_content builder →
  ∃ servers a,
    discover_servers client = Ok servers ∧ a ∈ servers ∧
    sa_pubkey a = ev_pubkey (se_event e) ∧ sa_event_id a = ev_id (se_event e) ∧
    (∀ info, v = server_info_to_value info → sa_server_info a = info) ∧
    (∀ version, get v "protocolVersion" = Some (VString version) →
       sa_protocol_version a = Some version ∧ sa_capabilities a = json_norm <$> get v "capabilities" ∧
       sa_instructions a = get_str v "instructions" ∧
       sa_server_info a = default ServerInfo_default (server_info_from_implementation <$> get v "serverInfo")).
Proof.
  intros Hpub Hex Hdepth Hfetch He Hcontent. exists (map announcement_of events), (announcement_of e).
  split; [unfold discover_servers; by rewrite Hfetch|]. split; [by apply list_elem_of_fmap_2|].
  unfold announcement_of, parse_announcement_content.
  rewrite Hcontent, (published_content _ _ _ _ Hpub), from_str_to_string by done.
  destruct (get (json_norm v) "protocolVersion") eqn:Ep; cbn; (split; [done|]; split; [done|]; split).
  - intros info ->. destruct (de_server_info_value info). congruence.
  - intros version Hv. rewrite !get_str_norm, !get_norm by done. unfold get_str at 1. rewrite Hv.
    split_and!; try done. destruct (get v "serverInfo") eqn:Es; [|done]. cbn.
    by apply server_info_from_implementation_norm, (get_exact v "serverInfo").
  - intros info ->. by rewrite (proj1 (de_server_info_value info)).
  - intros version Hv. by rewrite get_norm, Hv in Ep.
Qed.
End round_trips.

(** ** A concrete client *)

(** It keeps the relays it was given and answers the events of the filter's kind. *)
Definition demo_client (events : list StampedEvent) : NostrClient := {|
  Client := list string;
  client_new := [];
  client_add_relay c url := if str_is_empty url then Err "empty relay url" else Ok (c ++ [url]);
  client_connect c := c;
  client_fetch_events c f := Ok (List.filter (λ e, ev_kind (se_event e) =? f_kind f) events);
  nip19_from_bech32 s := if starts_with s "npub1" then Some (Nip19_Pubkey s) else None;
  json_error s := s;
|}.

Definition stamp (created_at : Z) (b : EventBuilder) : StampedEvent :=
  mkStamped (mkEvent "e1" "server" (eb_kind b) (eb_tags b) (eb_content b)) created_at.

Definition demo_info : ServerInfo := mkServerInfo (Some "Echo") None None (Some "https://e.org") None.
Definition demo_manager : AnnouncementManager :=
  Manager.new (Some demo_info) EncOptional GwOptional ["wss://a"; "wss://b"; "wss://a"] None None true None.
Definition demo_relay_list : EventBuilder :=
  mkBuilder RELAY_LIST_METADATA_KIND "" [["r"; "wss://a"]; ["r"; "wss://b"]; ["r"; "wss://a"]].
Definition demo_old_list : EventBuilder := mkBuilder RELAY_LIST_METADATA_KIND "" [["r"; "wss://old"]].

Lemma advertised_relays_resolved_witness :
  @resolve_operational_relays (demo_client [stamp 1 demo_old_list; stamp 2 demo_relay_list]) true false
    (mkResolution [] [] ["wss://boot"] [] "server") = ["wss://a"; "wss://b"].
Proof.
  apply (@advertised_relays_resolved (demo_client [stamp 1 demo_old_list; stamp 2 demo_relay_list]) demo_manager
    demo_relay_list (mkResolution [] [] ["wss://boot"] [] "server") ["wss://boot"] [stamp 1 demo_old_list]
    (stamp 2 demo_relay_list) [] true false); try done.
  - by repeat constructor.
  - by left.
Defined.

Definition demo_publish (b : EventBuilder) : result string Error := Ok "e1".
Definition demo_tools : list Value := [VObject [("name", VString "echo")]].
Definition demo_list : EventBuilder :=
  mkBuilder TOOLS_LIST_KIND (@to_string bits_serde (VObject [("tools", VArray demo_tools)])) [].

Lemma published_list_discovered_witness :
  @discover_tools bits_serde (demo_client [stamp 1 demo_list]) [] "server" = Ok demo_tools.
Proof.
  apply (@published_list_discovered bits_serde bits_serde_laws (demo_client [stamp 1 demo_list]) demo_publish
    demo_manager demo_list (VObject [("tools", VArray demo_tools)]) "tools" demo_tools [] "server"
    (stamp 1 demo_list) []); try done.
  - by apply (published_list _ _ _ TOOLS_LIST_KIND "tools" demo_tools (Ok "e1")).
  - cbn. unfold RECURSION_LIMIT. lia.
Defined.

Definition demo_announcement : EventBuilder :=
  mkBuilder SERVER_ANNOUNCEMENT_KIND (@to_string bits_serde (server_info_to_value demo_info))
    (Manager.compute_common_tags demo_manager).

Lemma published_server_discovered_witness :
  ∃ servers a, @discover_servers bits_serde (demo_client [stamp 1 demo_announcement]) [] = Ok servers ∧
    a ∈ servers ∧ sa_server_info a = demo_info.
Proof.
  destruct (@published_server_discovered bits_serde bits_serde_laws (demo_client [stamp 1 demo_announcement])
    demo_publish demo_manager demo_announcement (server_info_to_value demo_info) [] (stamp 1 demo_announcement)
    [stamp 1 demo_announcement]) as (servers & a & Hs & Ha & _ & _ & Hi & _); try done.
  - by eapply published_info.
  - cbn. unfold RECURSION_LIMIT. lia.
  - by left.
  - exists servers, a. split; [done|]. split; [done|]. by apply Hi.
Defined.
