(* ===== verification/ClientPayments.v ===== *)
(** * CEP-8 payments: the client engine

    Models [src/payments/client_payments.rs] and the [Deserialize] direction of
    [src/payments/types.rs].  The engine is a state shared by the transport's
    hooks and by the tasks it spawns.  A hook returns the new state, the messages
    it pushed to the local consumer and the tasks it spawned; a task is the await
    point it is suspended at, and its step is the code up to the next one.  The
    answers of user code (policy, wallet, callback) and the clock are arguments. *)

From S2P Require Import Prelude Json CoreTypes OversizedFrame Instances OversizedReceiver Lru RouteStore PaymentTypes ServerTasks BaseTransport.

(** ** Reading the payloads of the server *)

(** The fields of a derived [Deserialize]: by name from an object, by position
    from an array, in which only the first [required] ones must be there. *)
Definition struct_fields (names : list string) (required : nat) (v : Value) : option (nat → option Value) :=
  match v with
  | VObject l => Some (λ i, k ← names !! i; obj_get k l)
  | VArray l =>
      if (required <=? length l)%nat && (length l <=? length names)%nat then Some (λ i, l !! i) else None
  | _ => None
  end.

(** A defaulted [Option<T>] field: absent or [null] is [None]. *)
Definition de_opt {A} (conv : Value → option A) (o : option Value) : option (option A) :=
  match o with
  | None | Some VNull => Some None
  | Some v => Some <$> conv v
  end.

Definition de_payment_required (v : Value) : option PaymentRequiredParams :=
  f ← struct_fields ["amount"; "pay_req"; "pmi"; "description"; "ttl"; "_meta"] 3 v;
  amount ← f 0%nat ≫= de_i64; pay_req ← f 1%nat ≫= as_str; pmi ← f 2%nat ≫= as_str;
  description ← de_opt as_str (f 3%nat); ttl ← de_opt as_u64 (f 4%nat); meta ← de_opt as_object (f 5%nat);
  Some (mkPaymentRequired amount pay_req pmi description ttl meta).

Definition de_payment_rejected (v : Value) : option PaymentRejectedParams :=
  f ← struct_fields ["pmi"; "amount"; "message"] 1 v;
  pmi ← f 0%nat ≫= as_str; amount ← de_opt de_i64 (f 1%nat); message ← de_opt as_str (f 2%nat);
  Some (mkPaymentRejected pmi amount message).

Definition de_payment_option (v : Value) : option PaymentOption :=
  f ← struct_fields ["amount"; "pmi"; "pay_req"; "description"; "ttl"; "_meta"] 3 v;
  amount ← f 0%nat ≫= de_i64; pmi ← f 1%nat ≫= as_str; pay_req ← f 2%nat ≫= as_str;
  description ← de_opt as_str (f 3%nat); ttl ← de_opt as_u64 (f 4%nat); meta ← de_opt as_object (f 5%nat);
  Some (mkPaymentOption amount pmi pay_req description ttl meta).

Definition de_required_data (v : Value) : option PaymentRequiredErrorData :=
  match v with
  | VObject l =>
      instructions ← de_opt as_str (obj_get "instructions" l);
      options ← match obj_get "payment_options" l with Some (VArray os) => mapM de_payment_option os | _ => None end;
      Some (mkRequiredData instructions options)
  | VArray [i; VArray os] =>
      instructions ← de_opt as_str (Some i); options ← mapM de_payment_option os;
      Some (mkRequiredData instructions options)
  | _ => None
  end.

Definition de_pending_data (v : Value) : option PaymentPendingErrorData :=
  f ← struct_fields ["instructions"; "retry_after"] 0 v;
  instructions ← de_opt as_str (f 0%nat); retry_after ← de_opt as_u64 (f 1%nat);
  Some (mkPendingData instructions retry_after).

(** ** Data *)

Record PaymentHandlerRequest : Type := mkHandlerRequest {
  phr_amount : Z;
  phr_pay_req : string;
  phr_pmi : string;
  phr_description : option string;
  phr_ttl : option Z;
  phr_meta : option Meta;
  phr_request_event_id : string;
}.

(** An [Arc<dyn PaymentHandler>]: its [pmi()] and its identity. *)
Record PaymentHandler : Type := mkHandler {
  handler_pmi : string;
  handler_ref : nat;
}.

Record PaymentApproval : Type := mkApproval {
  approval_paid : bool;
  approval_reason : option string;
}.

Record PaymentRequiredCallbackParams : Type := mkCallbackParams {
  cb_options : list PaymentOption;
  cb_instructions : option string;
  cb_original_request : JsonRpcRequest;
}.

(** [payment_policy] and [on_payment_required] say whether the callback is set. *)
Record ClientPaymentsOptions : Type := mkClientPaymentsOptions {
  opt_handlers : list PaymentHandler;
  opt_synthetic_progress_interval : Z;
  opt_default_payment_ttl : Z;
  opt_payment_policy : bool;
  opt_payment_interaction : option PaymentInteractionMode;
  opt_max_pending_retries : Z;
  opt_on_payment_required : bool;
}.

Definition RAW_REQUEST_CACHE_CAPACITY : Z := 1000.
Definition DEFAULT_MAX_PENDING_RETRIES : Z := 10.

Definition ClientPaymentsOptions_new : ClientPaymentsOptions :=
  mkClientPaymentsOptions [] (from_millis DEFAULT_SYNTHETIC_PROGRESS_INTERVAL_MS)
    (from_millis DEFAULT_PAYMENT_TTL_MS) false None DEFAULT_MAX_PENDING_RETRIES false.

Definition is_payment_notification_method (method : string) : bool :=
  String.eqb method PAYMENT_REQUIRED_METHOD || String.eqb method PAYMENT_ACCEPTED_METHOD
  || String.eqb method PAYMENT_REJECTED_METHOD.

Record CachedRequest : Type := mkCached {
  cached_request : JsonRpcRequest;
  cached_pending_retries : Z;
}.

Record HeartbeatEntry : Type := mkHeartbeat {
  hb_stop_at : Z;
  hb_token : Value;
}.

(** The state of [ClientPaymentsEngine].  A touch loop is known by the reference
    of its cancellation token; a child token is cancelled with its parent. *)
Record Engine (L : Type → Type) : Type := mkEngine {
  en_in_flight : gset string;
  en_cache : L CachedRequest;
  en_heartbeats : gmap string HeartbeatEntry;
  en_scheduler_running : bool;
  en_touch_loops : gmap string nat;
  en_cancelled_tokens : gset nat;
  en_next_token : nat;
  en_disposed : bool;
}.
Arguments mkEngine {L}.
Arguments en_in_flight {L}.
Arguments en_cache {L}.
Arguments en_heartbeats {L}.
Arguments en_scheduler_running {L}.
Arguments en_touch_loops {L}.
Arguments en_cancelled_tokens {L}.
Arguments en_next_token {L}.
Arguments en_disposed {L}.

(** A spawned task, at the await it is suspended on.  The chain of an offer waits
    for the policy, for [can_handle] and for [handle]. *)
Inductive engine_task : Type :=
| ChainPolicy (handler : PaymentHandler) (params : PaymentRequiredParams) (entry : option PendingRequest)
    (event_id : string)
| ChainCanHandle (handler : PaymentHandler) (params : PaymentRequiredParams) (entry : option PendingRequest)
    (event_id : string)
| ChainHandle (handler : PaymentHandler) (params : PaymentRequiredParams) (entry : option PendingRequest)
    (event_id : string)
| ApprovalTask (original_id : Value) (params : PaymentRequiredCallbackParams)
| RetryTask (original_id : Value) (request : JsonRpcRequest) (delay : Z)
| TouchTask (event_id : string) (token : nat) (stop_at : Z)
| SchedulerTask.

(** How a step of a task ends; a request sent again may have an identity to fail
    toward. *)
Inductive task_next : Type :=
| Finish
| Continue (t : engine_task)
| Resend (on_failure : option Value) (request : JsonRpcRequest).

(** What a task asked of user code. *)
Inductive user_call : Type :=
| AskedPolicy (request : PaymentHandlerRequest) (approved : bool)
| AskedWallet (handler : PaymentHandler) (request : PaymentHandlerRequest) (willing : bool)
| Paid (handler : PaymentHandler) (request : PaymentHandlerRequest)
| AskedApproval (params : PaymentRequiredCallbackParams).

(** ** Pure helpers *)

(** [u32 as i32]. *)
Definition i32_of_u32 (n : Z) : Z := if n <? 2 ^ 31 then n else n - 2 ^ 32.

(** The power of 1.5 from which [powi] is infinite. *)
Definition F64_POWI_OVERFLOW : Z := 1751.

(** The delay in milliseconds.  For a non-negative exponent every product below
    the cap of ten seconds is exact in [f64]; an infinite power gives the cap,
    also for [0 * inf], since [NaN.min(x)] is [x]. *)
Definition compute_backoff (retry_after_secs retries : Z) : Z :=
  let base_ms := retry_after_secs * 1000 in
  let e := i32_of_u32 retries in
  let capped_ms :=
    if F64_POWI_OVERFLOW <=? e then 10000
    else if 0 <=? e then Z.min (base_ms * 3 ^ e / 2 ^ e) 10000
    else Z.min (base_ms * 2 ^ (- e) / 3 ^ (- e)) 10000 in
  Z.max capped_ms 1000.

Definition normalized_raw (err : JsonRpcErrorResponse) (original_id : Value) : JsonRpcMessage :=
  ErrorResponse (mkErrorResponse (eresp_jsonrpc err) original_id (eresp_error err)).

Definition capability_of (request : JsonRpcRequest) : option string :=
  params ← req_params request;
  v ← match get params "name" with Some v => Some v | None => get params "uri" end;
  as_str v.

(** [Instant + Duration]: [None] is the panic on overflow (the seconds of an
    [Instant] are an [i64]). *)
Definition instant_add (now d : Z) : option Z :=
  if (now + d) / 1000000000 <=? i64_max then Some (now + d) else None.

Definition synthesize_error (id : Value) (code : Z) (message : string) (data : option Value) : JsonRpcMessage :=
  ErrorResponse (mkErrorResponse "2.0" id (mkError code message data)).

Definition emit_beat (token : Value) : JsonRpcMessage :=
  Notification (mkNotification "2.0" NOTIFICATIONS_PROGRESS_METHOD
    (Some (VObject (obj_of_list [("progressToken", token); ("progress", VNumber (PosInt 0))])))).

Definition handler_request (params : PaymentRequiredParams) (event_id : string) : PaymentHandlerRequest :=
  mkHandlerRequest (preq_amount params) (preq_pay_req params) (preq_pmi params) (preq_description params)
    (preq_ttl params) (preq_meta params) event_id.

Definition build_handlers_by_pmi (handlers : list PaymentHandler) : gmap string PaymentHandler :=
  foldl (λ m h, <[handler_pmi h := h]> m) ∅ handlers.

(** ** The engine *)

Module ClientEngine.
Section engine.
Context `{Lru L} `{SerdeJson}.
Variable options : ClientPaymentsOptions.
Implicit Types en : Engine L.

Definition set_in_flight en x : Engine L := mkEngine x (en_cache en) (en_heartbeats en) (en_scheduler_running en) (en_touch_loops en) (en_cancelled_tokens en) (en_next_token en) (en_disposed en).
Definition set_cache en x : Engine L := mkEngine (en_in_flight en) x (en_heartbeats en) (en_scheduler_running en) (en_touch_loops en) (en_cancelled_tokens en) (en_next_token en) (en_disposed en).
Definition set_heartbeats en x running : Engine L := mkEngine (en_in_flight en) (en_cache en) x running (en_touch_loops en) (en_cancelled_tokens en) (en_next_token en) (en_disposed en).
Definition set_touch_loops en x cancelled next : Engine L := mkEngine (en_in_flight en) (en_cache en) (en_heartbeats en) (en_scheduler_running en) x cancelled next (en_disposed en).

(** [new]; the options are the parameters of the other operations. *)
Definition new : Engine L :=
  mkEngine ∅ (lru_new RAW_REQUEST_CACHE_CAPACITY) ∅ false ∅ ∅ 0 false.

Definition handlers_by_pmi : gmap string PaymentHandler := build_handlers_by_pmi (opt_handlers options).

(** [touch_cadence], from the retention timeout of the transport. *)
Definition touch_cadence (correlation_timeout : Z) : Z :=
  Z.min (opt_synthetic_progress_interval options) (correlation_timeout / 2).

(** [Value::to_string]. *)
Definition cache_key (id : Value) : string := to_string id.
Definition token_key (token : Value) : string := to_string token.

(** *** Outbound hook *)

Definition cache_raw_request (message : JsonRpcMessage) en : Engine L :=
  match message with
  | Request req =>
      let key := cache_key (req_id req) in
      let pending_retries := default 0 (cached_pending_retries <$> lru_peek key (en_cache en)) in
      set_cache en (lru_put key (mkCached req pending_retries) (en_cache en))
  | _ => en
  end.

(** *** Heartbeats *)

Definition ensure_scheduler en : Engine L * list engine_task :=
  if en_scheduler_running en || bool_decide (en_heartbeats en = ∅) then (en, [])
  else (set_heartbeats en (en_heartbeats en) true, [SchedulerTask]).

(** The last component is false when the caller panics. *)
Definition register_heartbeat (now : Z) (token : Value) (ttl : Z) en
  : Engine L * list JsonRpcMessage * list engine_task * bool :=
  let key := token_key token in
  if en_heartbeats en !! key is Some _ then (en, [], [], true)
  else
    match instant_add now ttl with
    | None => (en, [], [], false)
    | Some stop_at =>
        let en := set_heartbeats en (<[key := mkHeartbeat stop_at token]> (en_heartbeats en))
                    (en_scheduler_running en) in
        let '(en, spawned) := ensure_scheduler en in
        (en, [emit_beat token], spawned, true)
    end.

Definition stop_heartbeat (token : Value) en : Engine L :=
  set_heartbeats en (delete (token_key token) (en_heartbeats en)) (en_scheduler_running en).

(** One turn of the scheduler: [cancelled] is the branch of the [select!].  An
    interval of zero panics, and the running flag stays set. *)
Definition scheduler_step (now : Z) (cancelled : bool) en : Engine L * list JsonRpcMessage * task_next :=
  if opt_synthetic_progress_interval options =? 0 then (en, [], Finish)
  else if cancelled && en_disposed en then (set_heartbeats en (en_heartbeats en) false, [], Finish)
  else
    let entries := filter (λ ke : string * HeartbeatEntry, now < hb_stop_at ke.2) (en_heartbeats en) in
    if bool_decide (entries = ∅) then (set_heartbeats en entries false, [], Finish)
    else (set_heartbeats en entries (en_scheduler_running en),
          map (λ ke : string * HeartbeatEntry, emit_beat (hb_token ke.2)) (map_to_list entries),
          Continue SchedulerTask).

(** *** Touch loops *)

Definition is_cancelled (token : nat) en : bool :=
  en_disposed en || bool_decide (token ∈ en_cancelled_tokens en).

Definition start_touch_loop (now : Z) (event_id : string) (ttl : Z) en : Engine L * list engine_task * bool :=
  if en_touch_loops en !! event_id is Some _ then (en, [], true)
  else
    let token := en_next_token en in
    let en := set_touch_loops en (<[event_id := token]> (en_touch_loops en)) (en_cancelled_tokens en) (S token) in
    match instant_add now ttl with
    | None => (en, [], false)
    | Some stop_at => (en, [TouchTask event_id token stop_at], true)
    end.

Definition stop_touch_loop (event_id : string) en : Engine L :=
  match en_touch_loops en !! event_id with
  | Some token => set_touch_loops en (delete event_id (en_touch_loops en))
                    ({[token]} ∪ en_cancelled_tokens en) (en_next_token en)
  | None => en
  end.

(** What follows the loop. *)
Definition end_touch_loop (event_id : string) en : Engine L :=
  set_touch_loops en (delete event_id (en_touch_loops en)) (en_cancelled_tokens en) (en_next_token en).

(** One turn of a touch loop: cancelled, or the cadence has elapsed. *)
Definition touch_step (now : Z) (cancelled : bool) (event_id : string) (token : nat) (stop_at : Z)
    (pending : L PendingRequest) en : L PendingRequest * Engine L * task_next :=
  if cancelled && is_cancelled token en then (pending, end_touch_loop event_id en, Finish)
  else if stop_at <=? now then (pending, end_touch_loop event_id en, Finish)
  else
    let '(pending, found) := ClientStore.touch now event_id pending in
    if found then (pending, en, Continue (TouchTask event_id token stop_at))
    else (pending, end_touch_loop event_id en, Finish).

Definition stop_keepalives (event_id : string) (entry : option PendingRequest) en : Engine L :=
  let en := stop_touch_loop event_id en in
  match entry ≫= pending_progress_token with
  | Some token => stop_heartbeat token en
  | None => en
  end.

(** *** Synthesis *)

Definition synthesize_decline (entry : option PendingRequest) (message pmi : string) (amount : Z) en
  : list JsonRpcMessage :=
  match entry with
  | None => []
  | Some entry =>
      let data := [("pmi", VString pmi); ("amount", number_of_i64 amount)] in
      let cached :=
        match lru_peek (cache_key (original_id entry)) (en_cache en) with
        | Some cached =>
            ("method", VString (req_method (cached_request cached)))
            :: ser_opt "capability" VString (capability_of (cached_request cached))
        | None => []
        end in
      [synthesize_error (original_id entry) (-32000) message (Some (VObject (obj_of_list (data ++ cached))))]
  end.

(** *** The inbound notification hook *)

(** [on_payment_required_notification]; the last component is false on a panic. *)
Definition on_payment_required_notification (now : Z) (notif : JsonRpcNotification) (event_id : string)
    (entry : option PendingRequest) (requested_gating effective_gating : bool) en
  : Engine L * list JsonRpcMessage * list engine_task * bool :=
  match entry, notif_params notif ≫= de_payment_required with
  | Some e, Some params =>
      if requested_gating && negb effective_gating then
        (en, synthesize_decline entry "Payment declined: explicit_gating was not accepted by the server"
               (preq_pmi params) (preq_amount params) en, [], true)
      else
        let ttl := match preq_ttl params with
                   | Some secs => from_millis (secs * 1000)
                   | None => opt_default_payment_ttl options
                   end in
        let '(en, pushed, spawned, ok) :=
          if 0 <? ttl then
            let '(en, pushed, spawned, ok) :=
              match pending_progress_token e with
              | Some token => register_heartbeat now token ttl en
              | None => (en, [], [], true)
              end in
            if ok then
              let '(en, loops, ok) := start_touch_loop now event_id ttl en in (en, pushed, spawned ++ loops, ok)
            else (en, pushed, spawned, false)
          else (en, [], [], true) in
        if negb ok then (en, pushed, spawned, false)
        else
          match handlers_by_pmi !! preq_pmi params with
          | None => (en, pushed, spawned, true)
          | Some handler =>
              if bool_decide (preq_pay_req params ∈ en_in_flight en) then (en, pushed, spawned, true)
              else (set_in_flight en ({[preq_pay_req params]} ∪ en_in_flight en), pushed,
                    spawned ++ [ChainPolicy handler params entry event_id], true)
          end
  | _, _ => (en, [], [], true)
  end.

(** Whether the notification is forwarded; [None] on a panic. *)
Definition handle_payment_notification (now : Z) (notif : JsonRpcNotification) (event_id : string)
    (entry : option PendingRequest) (requested_gating effective_gating : bool) en
  : Engine L * list JsonRpcMessage * list engine_task * option bool :=
  if String.eqb (notif_method notif) PAYMENT_REQUIRED_METHOD then
    let '(en, pushed, spawned, ok) :=
      on_payment_required_notification now notif event_id entry requested_gating effective_gating en in
    (en, pushed, spawned, if ok then Some true else None)
  else if String.eqb (notif_method notif) PAYMENT_ACCEPTED_METHOD then
    (stop_keepalives event_id entry en, [], [], Some true)
  else if String.eqb (notif_method notif) PAYMENT_REJECTED_METHOD then
    let en := stop_keepalives event_id entry en in
    match entry with
    | Some entry =>
        let message := p ← notif_params notif; r ← de_payment_rejected p; prej_message r in
        (en, [synthesize_error (original_id entry) (-32000)
                (match message with Some msg => "Payment rejected: " +:+ msg | None => "Payment rejected" end) None],
         [], Some false)
    | None => (en, [], [], Some true)
    end
  else (en, [], [], Some true).

(** *** The terminal hook *)

Definition intercept_payment_required_error (entry : PendingRequest) (err : JsonRpcErrorResponse)
    (data : PaymentRequiredErrorData) en : Engine L * list engine_task * option JsonRpcMessage :=
  let id := original_id entry in
  if negb (opt_on_payment_required options) then (en, [], Some (normalized_raw err id))
  else
    let '(cache, cached) := lru_get (cache_key id) (en_cache en) in
    let en := set_cache en cache in
    match cached with
    | None => (en, [], Some (normalized_raw err id))
    | Some cached =>
        (en, [ApprovalTask id (mkCallbackParams (rdata_payment_options data) (rdata_instructions data)
                                 (cached_request cached))], None)
    end.

Definition intercept_payment_pending_error (entry : PendingRequest) (err : JsonRpcErrorResponse)
    (retry_after : Z) en : Engine L * list engine_task * option JsonRpcMessage :=
  let id := original_id entry in
  let key := cache_key id in
  let count c := if opt_max_pending_retries options <=? cached_pending_retries c then c
                 else mkCached (cached_request c) (cached_pending_retries c + 1) in
  let found := lru_peek key (en_cache en) in
  let en := set_cache en (lru_get_mut key count (en_cache en)).1 in
  match found with
  | None => (en, [], Some (normalized_raw err id))
  | Some cached =>
      let retries := cached_pending_retries cached in
      if opt_max_pending_retries options <=? retries then (en, [], Some (normalized_raw err id))
      else (en, [RetryTask id (cached_request cached) (compute_backoff retry_after retries)], None)
  end.

Definition on_terminal_response (entry : option PendingRequest) (correlated_event_id : option string)
    (message : JsonRpcMessage) en : Engine L * list engine_task * option JsonRpcMessage :=
  let en := match correlated_event_id with Some event_id => stop_touch_loop event_id en | None => en end in
  let en := match entry ≫= pending_progress_token with Some token => stop_heartbeat token en | None => en end in
  let retire : Engine L * list engine_task * option JsonRpcMessage :=
                match entry with
                | Some e => (set_cache en (lru_pop (cache_key (original_id e)) (en_cache en)).1, [], Some message)
                | None => (en, [], Some message)
                end in
  match message, entry with
  | ErrorResponse err, Some e =>
      if err_code (eresp_error err) =? PAYMENT_REQUIRED_ERROR_CODE then
        match err_data (eresp_error err) ≫= de_required_data with
        | Some data =>
            match rdata_payment_options data with
            | [] => retire
            | _ => intercept_payment_required_error e err data en
            end
        | None => retire
        end
      else if err_code (eresp_error err) =? PAYMENT_PENDING_ERROR_CODE then
        match (err_data (eresp_error err) ≫= de_pending_data) ≫= pdata_retry_after with
        | Some retry_after => intercept_payment_pending_error e err retry_after en
        | None => retire
        end
      else retire
  | _, _ => retire
  end.

(** *** The spawned tasks *)

(** What user code answers to the call of this step. *)
Record user_answers : Type := mkAnswers {
  ua_policy : call bool;
  ua_can_handle : call bool;
  ua_handle : call (result unit PaymentError);
  ua_approval : call (result PaymentApproval PaymentError);
}.

(** The end of a chain, panics included. *)
Definition release (params : PaymentRequiredParams) en : Engine L :=
  set_in_flight en (en_in_flight en ∖ {[preq_pay_req params]}).

(** A refused payment. *)
Definition decline (message : string) (params : PaymentRequiredParams) (entry : option PendingRequest)
    (event_id : string) en : Engine L * list JsonRpcMessage :=
  let en := stop_keepalives event_id entry en in
  (release params en, synthesize_decline entry message (preq_pmi params) (preq_amount params) en).

(** A step of [run_transparent_chain]. *)
Definition chain_step (ua : user_answers) (t : engine_task) en
  : Engine L * list JsonRpcMessage * list user_call * task_next :=
  match t with
  | ChainPolicy handler params entry event_id =>
      let request := handler_request params event_id in
      if negb (opt_payment_policy options)
      then (en, [], [], Continue (ChainCanHandle handler params entry event_id))
      else
        match ua_policy ua with
        | Panicked => (release params en, [], [], Finish)
        | Returned true => (en, [], [AskedPolicy request true], Continue (ChainCanHandle handler params entry event_id))
        | Returned false =>
            let '(en, pushed) := decline "Payment declined by client policy" params entry event_id en in
            (en, pushed, [AskedPolicy request false], Finish)
        end
  | ChainCanHandle handler params entry event_id =>
      let request := handler_request params event_id in
      match ua_can_handle ua with
      | Panicked => (release params en, [], [], Finish)
      | Returned true => (en, [], [AskedWallet handler request true], Continue (ChainHandle handler params entry event_id))
      | Returned false =>
          let '(en, pushed) := decline "Payment declined by client handler" params entry event_id en in
          (en, pushed, [AskedWallet handler request false], Finish)
      end
  | ChainHandle handler params entry event_id =>
      (release params en, [], [Paid handler (handler_request params event_id)], Finish)
  | _ => (en, [], [], Finish)
  end.

(** The answer to [on_payment_required]. *)
Definition approval_step (ua : user_answers) (id : Value) (params : PaymentRequiredCallbackParams)
  : list JsonRpcMessage * list user_call * task_next :=
  match ua_approval ua with
  | Panicked => ([], [AskedApproval params], Finish)
  | Returned (Ok approval) =>
      if approval_paid approval then ([], [AskedApproval params], Resend None (cb_original_request params))
      else ([synthesize_error id PAYMENT_REQUIRED_ERROR_CODE "Payment Required"
               (Some (VObject [("reason", VString (default "user_cancelled" (approval_reason approval)))]))],
            [AskedApproval params], Finish)
  | Returned (Err error) =>
      ([synthesize_error id PAYMENT_REQUIRED_ERROR_CODE "Payment Required"
          (Some (VObject [("reason", VString (payment_error_to_string error));
                          ("type", VString "payment_handler_error")]))],
       [AskedApproval params], Finish)
  end.

(** After the backoff, unless the engine was disposed of and that branch is taken. *)
Definition retry_step (cancelled : bool) (id : Value) (request : JsonRpcRequest) en : task_next :=
  if cancelled && en_disposed en then Finish else Resend (Some id) request.

(** A retry that could not be sent. *)
Definition retry_failed (on_failure : option Value) (error : Error) : list JsonRpcMessage :=
  match on_failure with
  | Some id => [synthesize_error id PAYMENT_PENDING_ERROR_CODE "Failed to retry pending request"
                  (Some (VObject [("reason", VString (Error_to_string error))]))]
  | None => []
  end.

Definition task_step (now : Z) (cancelled : bool) (ua : user_answers) (t : engine_task)
    (pending : L PendingRequest) en
  : L PendingRequest * Engine L * list JsonRpcMessage * list user_call * task_next :=
  match t with
  | ApprovalTask id params =>
      let '(pushed, calls, next) := approval_step ua id params in (pending, en, pushed, calls, next)
  | RetryTask id request _ => (pending, en, [], [], retry_step cancelled id request en)
  | TouchTask event_id token stop_at =>
      let '(pending, en, next) := touch_step now cancelled event_id token stop_at pending en in
      (pending, en, [], [], next)
  | SchedulerTask =>
      let '(en, pushed, next) := scheduler_step now cancelled en in (pending, en, pushed, [], next)
  | _ => let '(en, pushed, calls, next) := chain_step ua t en in (pending, en, pushed, calls, next)
  end.

(** *** Disposal *)

Definition dispose en : Engine L :=
  mkEngine ∅ (lru_clear (en_cache en)) ∅ (en_scheduler_running en) ∅
    (list_to_set (map_to_list (en_touch_loops en)).*2 ∪ en_cancelled_tokens en) (en_next_token en) true.
End engine.
End ClientEngine.
