(* ===== verification/ClientEngineProofs.v ===== *)
(** * CEP-8 payments: properties of the client engine

    Where the notification hook panics, how often a pending request is retried and
    with which delays. *)

From S2P Require Import Prelude Json CoreTypes OversizedFrame Instances OversizedReceiver Lru RouteStore PaymentTypes ServerTasks BaseTransport ClientPayments.

Section engine.
Context `{Lru L, !LruLaws L} `{SerdeJson}.
Variable options : ClientPaymentsOptions.
Implicit Types en : Engine L.

(** ** The deadline of an offer *)

Definition offer_ttl (p : PaymentRequiredParams) : Z :=
  match preq_ttl p with Some secs => from_millis (secs * 1000) | None => opt_default_payment_ttl options end.

Lemma instant_add_None now d : instant_add now d = None ↔ i64_max < (now + d) / 1000000000.
Proof. unfold instant_add. destruct (Z.leb_spec ((now + d) / 1000000000) i64_max); split; first [done|lia]. Qed.

Lemma register_heartbeat_panics now token ttl en :
  let '(en', _, _, ok) := ClientEngine.register_heartbeat now token ttl en in
  (ok = false ↔ instant_add now ttl = None ∧ en_heartbeats en !! ClientEngine.token_key token = None) ∧
  en_touch_loops en' = en_touch_loops en.
Proof.
  unfold ClientEngine.register_heartbeat. destruct (_ !! ClientEngine.token_key token) eqn:Eh; [naive_solver|].
  destruct (instant_add now ttl); [|naive_solver]. unfold ClientEngine.ensure_scheduler.
  destruct (_ || _); cbn; naive_solver.
Qed.

Lemma start_touch_panics now id ttl en :
  (ClientEngine.start_touch_loop now id ttl en).2 = false ↔
  instant_add now ttl = None ∧ en_touch_loops en !! id = None.
Proof.
  unfold ClientEngine.start_touch_loop. destruct (en_touch_loops en !! id); [naive_solver|].
  destruct (instant_add now ttl); cbn; naive_solver.
Qed.

Lemma required_hook_panics now n id entry p rg eg en :
  notif_params n ≫= de_payment_required = Some p → rg && negb eg = false →
  (ClientEngine.on_payment_required_notification options now n id (Some entry) rg eg en).2 = false ↔
  0 < offer_ttl p ∧ instant_add now (offer_ttl p) = None ∧
  ((∃ token, pending_progress_token entry = Some token ∧ en_heartbeats en !! ClientEngine.token_key token = None) ∨
   en_touch_loops en !! id = None).
Proof.
  intros Hp Hg. unfold ClientEngine.on_payment_required_notification. rewrite Hp, Hg. fold (offer_ttl p).
  set (ka := if 0 <? offer_ttl p then _ else _).
  assert (ka.2 = false ↔ 0 < offer_ttl p ∧ instant_add now (offer_ttl p) = None ∧
    ((∃ token, pending_progress_token entry = Some token ∧ en_heartbeats en !! ClientEngine.token_key token = None) ∨
     en_touch_loops en !! id = None)) as Hka.
  { subst ka. destruct (Z.ltb_spec 0 (offer_ttl p)); [|cbn; split; [done|lia]].
    assert (∀ en1 (ps : list JsonRpcMessage) ts (ok : bool), en_touch_loops en1 = en_touch_loops en →
      (if ok then let '(en2, loops, ok2) := ClientEngine.start_touch_loop now id (offer_ttl p) en1 in
                  (en2, ps, ts ++ loops, ok2) else (en1, ps, ts, false)).2 = false ↔
      ok = false ∨ (instant_add now (offer_ttl p) = None ∧ en_touch_loops en !! id = None)) as Hrest.
    { intros en1 ps ts ok Hl. destruct ok; [|naive_solver]. rewrite <- Hl, <- start_touch_panics.
      destruct (ClientEngine.start_touch_loop now id (offer_ttl p) en1) as [[? ?] ?]. naive_solver. }
    destruct (pending_progress_token entry) as [token|].
    - pose proof (register_heartbeat_panics now token (offer_ttl p) en) as Hr.
      destruct (ClientEngine.register_heartbeat _ _ _ _) as [[[en1 ps] ts] ok]. destruct Hr as [Hr Hl].
      rewrite (Hrest en1 ps ts ok Hl), Hr. naive_solver.
    - rewrite (Hrest en [] [] true eq_refl). naive_solver. }
  rewrite <- Hka. destruct ka as [[[en1 ps] ts] ok]. cbn. destruct ok; cbn; [|done].
  destruct (_ !! preq_pmi p); [|done]. by case_bool_decide.
Qed.

(** (C33) The payments hook takes the event loop down exactly when an offer for a
    waiting request, not refused by explicit gating, gives a positive time to live
    whose deadline exceeds what an [Instant] can hold, and there is a keepalive to
    start for it: in every other case it returns. *)
Theorem payment_hook_panics_iff now n id e rg eg en :
  (ClientEngine.handle_payment_notification options now n id e rg eg en).2 = None ↔
  notif_method n = PAYMENT_REQUIRED_METHOD ∧
  ∃ entry p, e = Some entry ∧ notif_params n ≫= de_payment_required = Some p ∧ rg && negb eg = false ∧
    0 < offer_ttl p ∧ i64_max < (now + offer_ttl p) / 1000000000 ∧
    ((∃ token, pending_progress_token entry = Some token ∧ en_heartbeats en !! ClientEngine.token_key token = None) ∨
     en_touch_loops en !! id = None).
Proof.
  unfold ClientEngine.handle_payment_notification.
  destruct (String.eqb_spec (notif_method n) PAYMENT_REQUIRED_METHOD) as [Hm|Hm].
  - set (r := ClientEngine.on_payment_required_notification _ _ _ _ _ _ _ _).
    assert (r.2 = false ↔ ∃ entry p, e = Some entry ∧ notif_params n ≫= de_payment_required = Some p ∧
      rg && negb eg = false ∧ 0 < offer_ttl p ∧ i64_max < (now + offer_ttl p) / 1000000000 ∧
      ((∃ token, pending_progress_token entry = Some token ∧ en_heartbeats en !! ClientEngine.token_key token = None) ∨
       en_touch_loops en !! id = None)) as Hr.
    { destruct e as [entry|]; [|subst r; cbn; naive_solver].
      destruct (notif_params n ≫= de_payment_required) as [p|] eqn:Ep;
        [|subst r; unfold ClientEngine.on_payment_required_notification; rewrite Ep; cbn; naive_solver].
      destruct (rg && negb eg) eqn:Eg.
      - subst r; unfold ClientEngine.on_payment_required_notification. rewrite Ep, Eg. cbn. naive_solver.
      - subst r. rewrite (required_hook_panics now n id entry p rg eg en Ep Eg), instant_add_None. naive_solver. }
    destruct r as [[[en' ps] ts] ok]. cbn in Hr |- *. destruct ok; naive_solver.
  - destruct (String.eqb _ PAYMENT_ACCEPTED_METHOD); [cbn; naive_solver|].
    destruct (String.eqb _ PAYMENT_REJECTED_METHOD); [destruct e|]; cbn; naive_solver.
Qed.
End engine.

(** ** The backoff *)

Lemma backoff_power a e : 0 ≤ a → 0 ≤ e → a * 3 ^ e / 2 ^ e ≤ a * 3 ^ (e + 1) / 2 ^ (e + 1).
Proof.
  intros Ha He. rewrite !Z.pow_add_r by lia. rewrite (Z.pow_1_r 3), (Z.pow_1_r 2).
  rewrite <- (Z.div_mul_cancel_r _ _ 2) by lia. apply Z.div_le_mono; [lia|].
  assert (0 ≤ 3 ^ e) by (apply Z.pow_nonneg; lia). nia.
Qed.

Lemma backoff_power_le a d e : 0 ≤ a → 0 ≤ e → 0 ≤ d → a * 3 ^ e / 2 ^ e ≤ a * 3 ^ (e + d) / 2 ^ (e + d).
Proof.
  intros Ha He Hd. revert d Hd. apply natlike_ind; [by rewrite Z.add_0_r|]. intros d Hd IH.
  etransitivity; [exact IH|]. replace (e + Z.succ d) with (e + d + 1) by lia. apply backoff_power; lia.
Qed.

(** The delay of a retry: always between one and ten seconds; at the first
    retry the server's [retry_after] within these bounds; and never shorter at a
    later retry of the same request. *)
Theorem backoff_bounds retry_after retries :
  0 ≤ retry_after →
  1000 ≤ compute_backoff retry_after retries ≤ 10000 ∧
  compute_backoff retry_after 0 = Z.max (Z.min (retry_after * 1000) 10000) 1000 ∧
  ∀ later, 0 ≤ retries ≤ later → later < 2 ^ 31 →
    compute_backoff retry_after retries ≤ compute_backoff retry_after later.
Proof.
  intros Ha. split_and!.
  - unfold compute_backoff. repeat case_match; lia.
  - unfold compute_backoff. repeat case_match; lia.
  - unfold compute_backoff. change (i32_of_u32 0) with 0.
    cbn -[Z.mul Z.div Z.min Z.max]. by rewrite Z.mul_1_r, Z.div_1_r.
  - intros later Hl Hl'. unfold compute_backoff, i32_of_u32.
    rewrite !(proj2 (Z.ltb_lt _ _)) by lia. rewrite !(proj2 (Z.leb_le 0 _)) by lia.
    pose proof (backoff_power_le (retry_after * 1000) (later - retries) retries) as Hp.
    replace (retries + (later - retries)) with later in Hp by lia.
    destruct (Z.leb_spec F64_POWI_OVERFLOW retries), (Z.leb_spec F64_POWI_OVERFLOW later); lia.
Qed.

Lemma backoff_bounds_witness : compute_backoff 2 1 = 3000 ∧ compute_backoff 2 1 ≤ compute_backoff 2 2.
Proof. split; [done|]. apply (backoff_bounds 2 1); lia. Defined.

(** ** Retries of a pending request *)

Section retries.
Context `{Lru L, !LruLaws L} `{SerdeJson}.
Variable options : ClientPaymentsOptions.
Implicit Types en : Engine L.

(** A [-32043] error for a waiting request: the entry, its event id, the error and
    the delay it asks for. *)
Record pending_error : Type := mkPendingError {
  pe_entry : PendingRequest;
  pe_event_id : string;
  pe_error : JsonRpcErrorResponse;
  pe_retry_after : Z;
}.

Definition asks_retry (id : Value) (x : pending_error) : Prop :=
  original_id (pe_entry x) = id ∧ err_code (eresp_error (pe_error x)) = PAYMENT_PENDING_ERROR_CODE ∧
  (err_data (eresp_error (pe_error x)) ≫= de_pending_data) ≫= pdata_retry_after = Some (pe_retry_after x).

(** The hook on a sequence of such errors: the tasks spawned and the messages delivered. *)
Fixpoint answer_errors (l : list pending_error) en : Engine L * list engine_task * list JsonRpcMessage :=
  match l with
  | [] => (en, [], [])
  | x :: l =>
      let '(en, ts, d) := ClientEngine.on_terminal_response options (Some (pe_entry x)) (Some (pe_event_id x))
                            (ErrorResponse (pe_error x)) en in
      let '(en, ts', ds) := answer_errors l en in (en, ts ++ ts', option_list d ++ ds)
  end.

Lemma stop_keepalives_cache id (entry : option PendingRequest) en :
  en_cache (match entry ≫= pending_progress_token with
            | Some token => ClientEngine.stop_heartbeat token (ClientEngine.stop_touch_loop id en)
            | None => ClientEngine.stop_touch_loop id en
            end) = en_cache en.
Proof. destruct (entry ≫= _); cbn; unfold ClientEngine.stop_touch_loop; by destruct (_ !! id). Qed.

(** One error: a retry while the budget lasts, else the error itself. *)
Lemma pending_error_step id x cached en :
  asks_retry id x → entry (en_cache en) (ClientEngine.cache_key id) = Some cached →
  let r := cached_pending_retries cached in
  let '(en', ts, d) := ClientEngine.on_terminal_response options (Some (pe_entry x)) (Some (pe_event_id x))
                         (ErrorResponse (pe_error x)) en in
  if opt_max_pending_retries options <=? r
  then ts = [] ∧ d = Some (normalized_raw (pe_error x) id) ∧
       entry (en_cache en') (ClientEngine.cache_key id) = Some cached
  else ts = [RetryTask id (cached_request cached) (compute_backoff (pe_retry_after x) r)] ∧ d = None ∧
       entry (en_cache en') (ClientEngine.cache_key id) = Some (mkCached (cached_request cached) (r + 1)).
Proof.
  intros (Hid & Hcode & Hdata) Hc. cbv zeta. unfold ClientEngine.on_terminal_response.
  set (en1 := match Some (pe_entry x) ≫= pending_progress_token with Some _ => _ | None => _ end).
  assert (en_cache en1 = en_cache en) as Hen1 by apply stop_keepalives_cache. clearbody en1.
  rewrite Hcode, Hdata. cbn [Z.eqb]. unfold ClientEngine.intercept_payment_pending_error. rewrite Hid, Hen1.
  unfold entry in Hc. rewrite lru_peek_value, Hc. destruct (_ <=? _) eqn:Eb.
  - split_and!; [done|done|]. cbn. rewrite entry_get_mut, String.eqb_refl. unfold entry. rewrite Hc. cbn. by rewrite Eb.
  - split_and!; [done|done|]. cbn. rewrite entry_get_mut, String.eqb_refl. unfold entry. rewrite Hc. cbn. by rewrite Eb.
Qed.

(** The retry budget.  Answering a sequence of [-32043] errors for the same
    cached request, the engine schedules exactly as many retries as the budget
    has left, each replaying the request as the application sent it, after the
    delay the error asks for grown by the number of retries before; every later
    error is delivered under the original id, so no server can keep a request
    retrying for ever. *)
Theorem pending_retries_bounded id l cached en :
  (∀ x, x ∈ l → asks_retry id x) →
  entry (en_cache en) (ClientEngine.cache_key id) = Some cached →
  cached_pending_retries cached ≤ opt_max_pending_retries options →
  let left := Z.to_nat (opt_max_pending_retries options - cached_pending_retries cached) in
  let '(_, spawned, delivered) := answer_errors l en in
  spawned = imap (λ i x, RetryTask id (cached_request cached)
                           (compute_backoff (pe_retry_after x) (cached_pending_retries cached + Z.of_nat i)))
              (take left l) ∧
  delivered = (λ x, normalized_raw (pe_error x) id) <$> drop left l.
Proof.
  revert cached en. induction l as [|x l IH]; intros cached en Hall Hc Hmax; cbv zeta; cbn [answer_errors].
  { by rewrite take_nil, drop_nil. }
  pose proof (pending_error_step id x cached en (Hall x ltac:(set_solver)) Hc) as Hs. cbv zeta in Hs.
  destruct (ClientEngine.on_terminal_response _ _ _ _ _) as [[en1 ts] d].
  destruct (Z.leb_spec (opt_max_pending_retries options) (cached_pending_retries cached)).
  - destruct Hs as (-> & -> & Hc1). specialize (IH cached en1 ltac:(set_solver) Hc1 Hmax). cbv zeta in IH.
    replace (Z.to_nat _) with 0%nat in IH |- * by lia.
    destruct (answer_errors l en1) as [[en2 ts2] ds]. destruct IH as [-> ->]. by rewrite !drop_0, !take_0.
  - destruct Hs as (-> & -> & Hc1).
    specialize (IH (mkCached (cached_request cached) (cached_pending_retries cached + 1)) en1 ltac:(set_solver) Hc1).
    cbn in IH. specialize (IH ltac:(lia)).
    destruct (answer_errors l en1) as [[en2 ts2] ds]. destruct IH as [-> ->].
    replace (Z.to_nat (opt_max_pending_retries options - cached_pending_retries cached))
      with (S (Z.to_nat (opt_max_pending_retries options - (cached_pending_retries cached + 1)))) by lia.
    cbn. rewrite Z.add_0_r. split; [|done]. f_equal. apply imap_ext. intros i y _. unfold compose.
    by replace (cached_pending_retries cached + Z.of_nat (S i)) with (cached_pending_retries cached + 1 + Z.of_nat i) by lia.
Qed.
End retries.

(** A server that keeps answering [-32043]: one retry, then the error. *)
Definition demo_pending_request : JsonRpcRequest := mkRequest "2.0" (VNumber (PosInt 7)) "tools/call" None.
Definition demo_pending_error (event_id : string) : pending_error :=
  mkPendingError (mkPending (VNumber (PosInt 7)) false 0 None) event_id
    (mkErrorResponse "2.0" (VString event_id)
       (mkError PAYMENT_PENDING_ERROR_CODE "Payment Pending" (Some (VObject [("retry_after", VNumber (PosInt 2))])))) 2.
Definition demo_retry_options : ClientPaymentsOptions :=
  mkClientPaymentsOptions [] (from_millis 30000) (from_millis 300000) false None 1 false.
Definition demo_cached_engine : Engine list_cache :=
  @ClientEngine.cache_raw_request list_cache _ bits_serde (Request demo_pending_request) (@ClientEngine.new list_cache _).

Lemma pending_retries_bounded_witness :
  let '(_, spawned, delivered) :=
    @answer_errors list_cache _ bits_serde demo_retry_options
      [demo_pending_error "event-1"; demo_pending_error "event-2"] demo_cached_engine in
  spawned = [RetryTask (VNumber (PosInt 7)) demo_pending_request 2000] ∧ length delivered = 1%nat.
Proof.
  pose proof (@pending_retries_bounded list_cache _ _ bits_serde demo_retry_options (VNumber (PosInt 7))
    [demo_pending_error "event-1"; demo_pending_error "event-2"] (mkCached demo_pending_request 0)
    demo_cached_engine) as Hw.
  destruct (answer_errors _ _ _) as [[en spawned] delivered]. destruct Hw as [-> ->]; [|by vm_compute..|by split].
  intros x. rewrite !elem_of_cons, elem_of_nil. intros [->|[->|[]]]; by vm_compute.
Defined.

(** A touch loop that ends after it was stopped removes whatever loop is
    registered for its event by then: here the one started in its place, which
    goes on unregistered, so that nothing can stop it. *)
Lemma stale_touch_loop_unregisters (en : Engine list_cache) id old new stop_at now pending :
  old ∈ en_cancelled_tokens en → en_touch_loops en !! id = Some new →
  let '(_, en', next) := ClientEngine.touch_step now true id old stop_at pending en in
  next = Finish ∧ en_touch_loops en' !! id = None ∧ ClientEngine.stop_touch_loop id en' = en'.
Proof.
  intros Hold Hnew. unfold ClientEngine.touch_step, ClientEngine.is_cancelled.
  rewrite bool_decide_eq_true_2 by done. rewrite orb_true_r. cbn.
  rewrite lookup_delete_eq. split_and!; [done|done|].
  unfold ClientEngine.stop_touch_loop. cbn. by rewrite lookup_delete_eq.
Qed.
