(* ===== verification/ClientState.v ===== *)
(** * The client transport: configuration, state and critical sections

    The state of [NostrClientTransport] ([src/transport/client/mod.rs]), its
    construction, and the operations it performs under one lock: negotiation tags
    and their latch, the one-shot discovery tags, what is learned from the
    server's tags, the recorded progress tokens and the placeholders of outgoing
    streams. *)

From S2P Require Import Prelude Json CoreTypes OversizedFrame OversizedCodec Instances OversizedReceiver Lru RouteStore OpenStreamFrame OpenStreamSession OpenStreamRegistry PaymentTypes ServerTasks BaseTransport Announcements Discovery ClientPayments.

(** ** Configuration *)

Record NostrClientTransportConfig : Type := mkClientConfig {
  cc_relay_urls : list string;
  cc_server_pubkey : string;
  cc_encryption_mode : EncryptionMode;
  cc_gift_wrap_mode : GiftWrapMode;
  cc_is_stateless : bool;
  cc_timeout : Z;
  cc_discovery_relay_urls : option (list string);
  cc_fallback_operational_relay_urls : option (list string);
  cc_oversized_transfer : OversizedTransferConfig;
  cc_open_stream : OpenStreamConfig;
  cc_payment_interaction : option PaymentInteractionMode;
  cc_pmis : list string;
}.

Definition NostrClientTransportConfig_default : NostrClientTransportConfig := {|
  cc_relay_urls := [];
  cc_server_pubkey := "";
  cc_encryption_mode := EncOptional;
  cc_gift_wrap_mode := GwOptional;
  cc_is_stateless := false;
  cc_timeout := from_millis 30000;
  cc_discovery_relay_urls := None;
  cc_fallback_operational_relay_urls := None;
  cc_oversized_transfer := OversizedTransferConfig_default;
  cc_open_stream := OpenStreamConfig_default;
  cc_payment_interaction := None;
  cc_pmis := [];
|}.

Record ClientNegotiationState : Type := mkNegotiation {
  neg_pmis : list string;
  neg_requested : option PaymentInteractionMode;
  neg_last_sent : option PaymentInteractionMode;
  neg_effective : option PaymentInteractionMode;
}.

(** ** State *)

(** Where a send comes from: the application, or a retry of the engine with the
    identity it fails toward. *)
Inductive send_origin : Type :=
| FromApplication
| FromEngine (on_failure : option Value).

(** A fragmented request on its way. *)
Record OversizedSend : Type := mkOversizedSend {
  os_message : JsonRpcMessage;
  os_token : string;
  os_base_tags : list Tag;
  os_start_tags : list Tag;
  os_wrap_kind : Z;
  os_needs_accept : bool;
  os_waiter : nat;
  os_discovery_sent : bool;
  os_interaction : option PaymentInteractionMode;
  os_frames : BuiltOversizedFrames;
}.

(** A send, at the await it is suspended on: nothing done yet; registered and about to be
    published; the start frame, the wait for the accept, the remaining chunks and the
    end frame; the end frame published but the request not registered; finished. *)
Inductive send_state : Type :=
| SendStart (message : JsonRpcMessage)
| SendPublish (message : JsonRpcMessage) (event_id : string) (event : Event) (tags : list Tag) (wrap_kind : Z)
    (discovery_sent : bool) (interaction : option PaymentInteractionMode)
| SendStartFrame (o : OversizedSend)
| SendAwaitAccept (o : OversizedSend) (deadline : Z)
| SendChunks (o : OversizedSend) (rest : list JsonRpcNotification)
| SendRegister (o : OversizedSend) (end_id : string)
| SendDone (res : result unit Error).

Inductive client_task : Type :=
| EngineTask (t : engine_task)
| SendTask (origin : send_origin) (s : send_state)
| DoneTask.

(** One-shot channels are known by references: [c_accept_waiters] maps a token to
    the waiter of its accept, [c_accepted] are the waiters that were fired;
    [c_placeholders] are the unbound stream placeholders in order, [c_bound] what
    the bound ones were given.  [c_publishers] is the gift-wrap kind the publisher of an outgoing stream
    captured.  [c_consumer] are the messages handed to the local consumer,
    [c_calls] the calls into user code, [c_net] the publish attempts;
    [c_started] is whether the handle of an event loop is held, [c_running] is
    true while the loop runs, [c_cancelled] once it was told
    to stop, [c_open] until [close] took the sender. *)
Record ClientTransport (L : Type → Type) : Type := mkClient {
  c_pending : L PendingRequest;
  c_discovery_sent : bool;
  c_capabilities : PeerCapabilities;
  c_init_event : option Event;
  c_negotiation : ClientNegotiationState;
  c_ephemeral : bool;
  c_seen : L unit;
  c_oversized : OversizedTransferReceiver;
  c_accept_waiters : gmap string nat;
  c_accepted : gset nat;
  c_originals : L Value;
  c_registry : OpenStreamRegistry;
  c_publishers : gmap nat Z;
  c_placeholders : list nat;
  c_bound : list (nat * result (string * nat) Error);
  c_next_ref : nat;
  c_control_progress : Z;
  c_consumer : list JsonRpcMessage;
  c_calls : list user_call;
  c_engine : option (Engine L);
  c_tasks : list client_task;
  c_net : Net;
  c_connected : bool;
  c_started : bool;
  c_running : bool;
  c_cancelled : bool;
  c_open : bool;
}.
Arguments mkClient {L}.
Arguments c_pending {L}.
Arguments c_discovery_sent {L}.
Arguments c_capabilities {L}.
Arguments c_init_event {L}.
Arguments c_negotiation {L}.
Arguments c_ephemeral {L}.
Arguments c_seen {L}.
Arguments c_oversized {L}.
Arguments c_accept_waiters {L}.
Arguments c_accepted {L}.
Arguments c_originals {L}.
Arguments c_registry {L}.
Arguments c_publishers {L}.
Arguments c_placeholders {L}.
Arguments c_bound {L}.
Arguments c_next_ref {L}.
Arguments c_control_progress {L}.
Arguments c_consumer {L}.
Arguments c_calls {L}.
Arguments c_engine {L}.
Arguments c_tasks {L}.
Arguments c_net {L}.
Arguments c_connected {L}.
Arguments c_started {L}.
Arguments c_running {L}.
Arguments c_cancelled {L}.
Arguments c_open {L}.

Section state.
Context {L : Type → Type}.
Implicit Types c : ClientTransport L.

Definition set_pending c x : ClientTransport L := mkClient x (c_discovery_sent c) (c_capabilities c) (c_init_event c) (c_negotiation c) (c_ephemeral c) (c_seen c) (c_oversized c) (c_accept_waiters c) (c_accepted c) (c_originals c) (c_registry c) (c_publishers c) (c_placeholders c) (c_bound c) (c_next_ref c) (c_control_progress c) (c_consumer c) (c_calls c) (c_engine c) (c_tasks c) (c_net c) (c_connected c) (c_started c) (c_running c) (c_cancelled c) (c_open c).
Definition set_discovery_sent c x : ClientTransport L := mkClient (c_pending c) x (c_capabilities c) (c_init_event c) (c_negotiation c) (c_ephemeral c) (c_seen c) (c_oversized c) (c_accept_waiters c) (c_accepted c) (c_originals c) (c_registry c) (c_publishers c) (c_placeholders c) (c_bound c) (c_next_ref c) (c_control_progress c) (c_consumer c) (c_calls c) (c_engine c) (c_tasks c) (c_net c) (c_connected c) (c_started c) (c_running c) (c_cancelled c) (c_open c).
Definition set_capabilities c x : ClientTransport L := mkClient (c_pending c) (c_discovery_sent c) x (c_init_event c) (c_negotiation c) (c_ephemeral c) (c_seen c) (c_oversized c) (c_accept_waiters c) (c_accepted c) (c_originals c) (c_registry c) (c_publishers c) (c_placeholders c) (c_bound c) (c_next_ref c) (c_control_progress c) (c_consumer c) (c_calls c) (c_engine c) (c_tasks c) (c_net c) (c_connected c) (c_started c) (c_running c) (c_cancelled c) (c_open c).
Definition set_init_event c x : ClientTransport L := mkClient (c_pending c) (c_discovery_sent c) (c_capabilities c) x (c_negotiation c) (c_ephemeral c) (c_seen c) (c_oversized c) (c_accept_waiters c) (c_accepted c) (c_originals c) (c_registry c) (c_publishers c) (c_placeholders c) (c_bound c) (c_next_ref c) (c_control_progress c) (c_consumer c) (c_calls c) (c_engine c) (c_tasks c) (c_net c) (c_connected c) (c_started c) (c_running c) (c_cancelled c) (c_open c).
Definition set_negotiation c x : ClientTransport L := mkClient (c_pending c) (c_discovery_sent c) (c_capabilities c) (c_init_event c) x (c_ephemeral c) (c_seen c) (c_oversized c) (c_accept_waiters c) (c_accepted c) (c_originals c) (c_registry c) (c_publishers c) (c_placeholders c) (c_bound c) (c_next_ref c) (c_control_progress c) (c_consumer c) (c_calls c) (c_engine c) (c_tasks c) (c_net c) (c_connected c) (c_started c) (c_running c) (c_cancelled c) (c_open c).
Definition set_ephemeral c x : ClientTransport L := mkClient (c_pending c) (c_discovery_sent c) (c_capabilities c) (c_init_event c) (c_negotiation c) x (c_seen c) (c_oversized c) (c_accept_waiters c) (c_accepted c) (c_originals c) (c_registry c) (c_publishers c) (c_placeholders c) (c_bound c) (c_next_ref c) (c_control_progress c) (c_consumer c) (c_calls c) (c_engine c) (c_tasks c) (c_net c) (c_connected c) (c_started c) (c_running c) (c_cancelled c) (c_open c).
Definition set_seen c x : ClientTransport L := mkClient (c_pending c) (c_discovery_sent c) (c_capabilities c) (c_init_event c) (c_negotiation c) (c_ephemeral c) x (c_oversized c) (c_accept_waiters c) (c_accepted c) (c_originals c) (c_registry c) (c_publishers c) (c_placeholders c) (c_bound c) (c_next_ref c) (c_control_progress c) (c_consumer c) (c_calls c) (c_engine c) (c_tasks c) (c_net c) (c_connected c) (c_started c) (c_running c) (c_cancelled c) (c_open c).
Definition set_oversized c x : ClientTransport L := mkClient (c_pending c) (c_discovery_sent c) (c_capabilities c) (c_init_event c) (c_negotiation c) (c_ephemeral c) (c_seen c) x (c_accept_waiters c) (c_accepted c) (c_originals c) (c_registry c) (c_publishers c) (c_placeholders c) (c_bound c) (c_next_ref c) (c_control_progress c) (c_consumer c) (c_calls c) (c_engine c) (c_tasks c) (c_net c) (c_connected c) (c_started c) (c_running c) (c_cancelled c) (c_open c).
Definition set_accept_waiters c x : ClientTransport L := mkClient (c_pending c) (c_discovery_sent c) (c_capabilities c) (c_init_event c) (c_negotiation c) (c_ephemeral c) (c_seen c) (c_oversized c) x (c_accepted c) (c_originals c) (c_registry c) (c_publishers c) (c_placeholders c) (c_bound c) (c_next_ref c) (c_control_progress c) (c_consumer c) (c_calls c) (c_engine c) (c_tasks c) (c_net c) (c_connected c) (c_started c) (c_running c) (c_cancelled c) (c_open c).
Definition set_accepted c x : ClientTransport L := mkClient (c_pending c) (c_discovery_sent c) (c_capabilities c) (c_init_event c) (c_negotiation c) (c_ephemeral c) (c_seen c) (c_oversized c) (c_accept_waiters c) x (c_originals c) (c_registry c) (c_publishers c) (c_placeholders c) (c_bound c) (c_next_ref c) (c_control_progress c) (c_consumer c) (c_calls c) (c_engine c) (c_tasks c) (c_net c) (c_connected c) (c_started c) (c_running c) (c_cancelled c) (c_open c).
Definition set_originals c x : ClientTransport L := mkClient (c_pending c) (c_discovery_sent c) (c_capabilities c) (c_init_event c) (c_negotiation c) (c_ephemeral c) (c_seen c) (c_oversized c) (c_accept_waiters c) (c_accepted c) x (c_registry c) (c_publishers c) (c_placeholders c) (c_bound c) (c_next_ref c) (c_control_progress c) (c_consumer c) (c_calls c) (c_engine c) (c_tasks c) (c_net c) (c_connected c) (c_started c) (c_running c) (c_cancelled c) (c_open c).
Definition set_registry c x : ClientTransport L := mkClient (c_pending c) (c_discovery_sent c) (c_capabilities c) (c_init_event c) (c_negotiation c) (c_ephemeral c) (c_seen c) (c_oversized c) (c_accept_waiters c) (c_accepted c) (c_originals c) x (c_publishers c) (c_placeholders c) (c_bound c) (c_next_ref c) (c_control_progress c) (c_consumer c) (c_calls c) (c_engine c) (c_tasks c) (c_net c) (c_connected c) (c_started c) (c_running c) (c_cancelled c) (c_open c).
Definition set_publishers c x : ClientTransport L := mkClient (c_pending c) (c_discovery_sent c) (c_capabilities c) (c_init_event c) (c_negotiation c) (c_ephemeral c) (c_seen c) (c_oversized c) (c_accept_waiters c) (c_accepted c) (c_originals c) (c_registry c) x (c_placeholders c) (c_bound c) (c_next_ref c) (c_control_progress c) (c_consumer c) (c_calls c) (c_engine c) (c_tasks c) (c_net c) (c_connected c) (c_started c) (c_running c) (c_cancelled c) (c_open c).
Definition set_placeholders c x : ClientTransport L := mkClient (c_pending c) (c_discovery_sent c) (c_capabilities c) (c_init_event c) (c_negotiation c) (c_ephemeral c) (c_seen c) (c_oversized c) (c_accept_waiters c) (c_accepted c) (c_originals c) (c_registry c) (c_publishers c) x (c_bound c) (c_next_ref c) (c_control_progress c) (c_consumer c) (c_calls c) (c_engine c) (c_tasks c) (c_net c) (c_connected c) (c_started c) (c_running c) (c_cancelled c) (c_open c).
Definition set_bound c x : ClientTransport L := mkClient (c_pending c) (c_discovery_sent c) (c_capabilities c) (c_init_event c) (c_negotiation c) (c_ephemeral c) (c_seen c) (c_oversized c) (c_accept_waiters c) (c_accepted c) (c_originals c) (c_registry c) (c_publishers c) (c_placeholders c) x (c_next_ref c) (c_control_progress c) (c_consumer c) (c_calls c) (c_engine c) (c_tasks c) (c_net c) (c_connected c) (c_started c) (c_running c) (c_cancelled c) (c_open c).
Definition set_next_ref c x : ClientTransport L := mkClient (c_pending c) (c_discovery_sent c) (c_capabilities c) (c_init_event c) (c_negotiation c) (c_ephemeral c) (c_seen c) (c_oversized c) (c_accept_waiters c) (c_accepted c) (c_originals c) (c_registry c) (c_publishers c) (c_placeholders c) (c_bound c) x (c_control_progress c) (c_consumer c) (c_calls c) (c_engine c) (c_tasks c) (c_net c) (c_connected c) (c_started c) (c_running c) (c_cancelled c) (c_open c).
Definition set_control_progress c x : ClientTransport L := mkClient (c_pending c) (c_discovery_sent c) (c_capabilities c) (c_init_event c) (c_negotiation c) (c_ephemeral c) (c_seen c) (c_oversized c) (c_accept_waiters c) (c_accepted c) (c_originals c) (c_registry c) (c_publishers c) (c_placeholders c) (c_bound c) (c_next_ref c) x (c_consumer c) (c_calls c) (c_engine c) (c_tasks c) (c_net c) (c_connected c) (c_started c) (c_running c) (c_cancelled c) (c_open c).
Definition set_consumer c x : ClientTransport L := mkClient (c_pending c) (c_discovery_sent c) (c_capabilities c) (c_init_event c) (c_negotiation c) (c_ephemeral c) (c_seen c) (c_oversized c) (c_accept_waiters c) (c_accepted c) (c_originals c) (c_registry c) (c_publishers c) (c_placeholders c) (c_bound c) (c_next_ref c) (c_control_progress c) x (c_calls c) (c_engine c) (c_tasks c) (c_net c) (c_connected c) (c_started c) (c_running c) (c_cancelled c) (c_open c).
Definition set_calls c x : ClientTransport L := mkClient (c_pending c) (c_discovery_sent c) (c_capabilities c) (c_init_event c) (c_negotiation c) (c_ephemeral c) (c_seen c) (c_oversized c) (c_accept_waiters c) (c_accepted c) (c_originals c) (c_registry c) (c_publishers c) (c_placeholders c) (c_bound c) (c_next_ref c) (c_control_progress c) (c_consumer c) x (c_engine c) (c_tasks c) (c_net c) (c_connected c) (c_started c) (c_running c) (c_cancelled c) (c_open c).
Definition set_engine c x : ClientTransport L := mkClient (c_pending c) (c_discovery_sent c) (c_capabilities c) (c_init_event c) (c_negotiation c) (c_ephemeral c) (c_seen c) (c_oversized c) (c_accept_waiters c) (c_accepted c) (c_originals c) (c_registry c) (c_publishers c) (c_placeholders c) (c_bound c) (c_next_ref c) (c_control_progress c) (c_consumer c) (c_calls c) x (c_tasks c) (c_net c) (c_connected c) (c_started c) (c_running c) (c_cancelled c) (c_open c).
Definition set_tasks c x : ClientTransport L := mkClient (c_pending c) (c_discovery_sent c) (c_capabilities c) (c_init_event c) (c_negotiation c) (c_ephemeral c) (c_seen c) (c_oversized c) (c_accept_waiters c) (c_accepted c) (c_originals c) (c_registry c) (c_publishers c) (c_placeholders c) (c_bound c) (c_next_ref c) (c_control_progress c) (c_consumer c) (c_calls c) (c_engine c) x (c_net c) (c_connected c) (c_started c) (c_running c) (c_cancelled c) (c_open c).
Definition set_net c x : ClientTransport L := mkClient (c_pending c) (c_discovery_sent c) (c_capabilities c) (c_init_event c) (c_negotiation c) (c_ephemeral c) (c_seen c) (c_oversized c) (c_accept_waiters c) (c_accepted c) (c_originals c) (c_registry c) (c_publishers c) (c_placeholders c) (c_bound c) (c_next_ref c) (c_control_progress c) (c_consumer c) (c_calls c) (c_engine c) (c_tasks c) x (c_connected c) (c_started c) (c_running c) (c_cancelled c) (c_open c).
Definition set_connected c x : ClientTransport L := mkClient (c_pending c) (c_discovery_sent c) (c_capabilities c) (c_init_event c) (c_negotiation c) (c_ephemeral c) (c_seen c) (c_oversized c) (c_accept_waiters c) (c_accepted c) (c_originals c) (c_registry c) (c_publishers c) (c_placeholders c) (c_bound c) (c_next_ref c) (c_control_progress c) (c_consumer c) (c_calls c) (c_engine c) (c_tasks c) (c_net c) x (c_started c) (c_running c) (c_cancelled c) (c_open c).
Definition set_started c x : ClientTransport L := mkClient (c_pending c) (c_discovery_sent c) (c_capabilities c) (c_init_event c) (c_negotiation c) (c_ephemeral c) (c_seen c) (c_oversized c) (c_accept_waiters c) (c_accepted c) (c_originals c) (c_registry c) (c_publishers c) (c_placeholders c) (c_bound c) (c_next_ref c) (c_control_progress c) (c_consumer c) (c_calls c) (c_engine c) (c_tasks c) (c_net c) (c_connected c) x (c_running c) (c_cancelled c) (c_open c).
Definition set_running c x : ClientTransport L := mkClient (c_pending c) (c_discovery_sent c) (c_capabilities c) (c_init_event c) (c_negotiation c) (c_ephemeral c) (c_seen c) (c_oversized c) (c_accept_waiters c) (c_accepted c) (c_originals c) (c_registry c) (c_publishers c) (c_placeholders c) (c_bound c) (c_next_ref c) (c_control_progress c) (c_consumer c) (c_calls c) (c_engine c) (c_tasks c) (c_net c) (c_connected c) (c_started c) x (c_cancelled c) (c_open c).
Definition set_cancelled c x : ClientTransport L := mkClient (c_pending c) (c_discovery_sent c) (c_capabilities c) (c_init_event c) (c_negotiation c) (c_ephemeral c) (c_seen c) (c_oversized c) (c_accept_waiters c) (c_accepted c) (c_originals c) (c_registry c) (c_publishers c) (c_placeholders c) (c_bound c) (c_next_ref c) (c_control_progress c) (c_consumer c) (c_calls c) (c_engine c) (c_tasks c) (c_net c) (c_connected c) (c_started c) (c_running c) x (c_open c).
Definition set_open c x : ClientTransport L := mkClient (c_pending c) (c_discovery_sent c) (c_capabilities c) (c_init_event c) (c_negotiation c) (c_ephemeral c) (c_seen c) (c_oversized c) (c_accept_waiters c) (c_accepted c) (c_originals c) (c_registry c) (c_publishers c) (c_placeholders c) (c_bound c) (c_next_ref c) (c_control_progress c) (c_consumer c) (c_calls c) (c_engine c) (c_tasks c) (c_net c) (c_connected c) (c_started c) (c_running c) (c_cancelled c) x.

(** Pushing to the consumer, spawning tasks, logging calls of user code. *)
Definition push (ms : list JsonRpcMessage) c : ClientTransport L := set_consumer c (c_consumer c ++ ms).
Definition spawn (ts : list client_task) c : ClientTransport L := set_tasks c (c_tasks c ++ ts).
Definition log_calls (cs : list user_call) c : ClientTransport L := set_calls c (c_calls c ++ cs).
End state.

(** ** Pure decisions *)

Definition is_gift_wrap_kind (kind : Z) : bool := (kind =? GIFT_WRAP_KIND) || (kind =? EPHEMERAL_GIFT_WRAP_KIND).

Definition outbound_gift_wrap_kind (mode : GiftWrapMode) (server_supports_ephemeral : bool) : Z :=
  match mode with
  | GwPersistent => GIFT_WRAP_KIND
  | GwEphemeral => EPHEMERAL_GIFT_WRAP_KIND
  | GwOptional => if server_supports_ephemeral then EPHEMERAL_GIFT_WRAP_KIND else GIFT_WRAP_KIND
  end.

Definition violates_encryption_policy (kind : Z) (mode : EncryptionMode) : bool :=
  (is_gift_wrap_kind kind && bool_decide (mode = EncDisabled))
  || (negb (is_gift_wrap_kind kind) && bool_decide (mode = EncRequired)).

Definition request_progress_token (req : JsonRpcRequest) : option Value :=
  params ← req_params req; meta ← get params "_meta"; get meta "progressToken".

Definition has_support_ephemeral_tag (tags : list Tag) : bool :=
  existsb (λ tag, bool_decide (head tag = Some tags.SUPPORT_ENCRYPTION_EPHEMERAL)) tags.

Definition should_learn_ephemeral_support (actual_pubkey server_pubkey : string) (event_kind : option Z)
    (tags : list Tag) : bool :=
  String.eqb actual_pubkey server_pubkey
  && (bool_decide (event_kind = Some EPHEMERAL_GIFT_WRAP_KIND) || has_support_ephemeral_tag tags).

(** Tags of an outgoing request. *)
Definition get_client_capability_tags (config : NostrClientTransportConfig) : list Tag :=
  (if bool_decide (cc_encryption_mode config = EncDisabled) then []
   else custom_tag tags.SUPPORT_ENCRYPTION []
        :: (if bool_decide (cc_gift_wrap_mode config = GwPersistent) then []
            else [custom_tag tags.SUPPORT_ENCRYPTION_EPHEMERAL []]))
  ++ (if oc_enabled (cc_oversized_transfer config) then [custom_tag tags.SUPPORT_OVERSIZED_TRANSFER []] else [])
  ++ (if sc_enabled (cc_open_stream config) then [custom_tag tags.SUPPORT_OPEN_STREAM []] else []).

Definition get_pending_negotiation_tags (n : ClientNegotiationState)
  : list Tag * option PaymentInteractionMode :=
  let pending_mode :=
    match neg_requested n with
    | Some mode => if bool_decide (Some mode = neg_last_sent n) then None else Some mode
    | None => None
    end in
  (pmi_tags (neg_pmis n) ++ match pending_mode with Some mode => [payment_interaction_tag mode] | None => [] end,
   pending_mode).

Definition mark_payment_interaction_sent (sent : option PaymentInteractionMode) (n : ClientNegotiationState)
  : ClientNegotiationState :=
  match sent with
  | Some mode => mkNegotiation (neg_pmis n) (neg_requested n) (Some mode) (neg_effective n)
  | None => n
  end.

(** The recorded mode, from the tags of a server event. *)
Definition learn_effective (tags : list Tag) (n : ClientNegotiationState) : ClientNegotiationState :=
  if bool_decide (neg_requested n = Some ExplicitGating) then
    match extract_payment_interaction tags ≫= parse_payment_interaction_value with
    | Some mode => mkNegotiation (neg_pmis n) (neg_requested n) (neg_last_sent n) (Some mode)
    | None => n
    end
  else n.

Definition or_capabilities (a b : PeerCapabilities) : PeerCapabilities :=
  mkCapabilities (pc_supports_encryption a || pc_supports_encryption b)
    (pc_supports_ephemeral_encryption a || pc_supports_ephemeral_encryption b)
    (pc_supports_oversized_transfer a || pc_supports_oversized_transfer b)
    (pc_supports_open_stream a || pc_supports_open_stream b).

Definition PeerCapabilities_default : PeerCapabilities := mkCapabilities false false false false.

(** ** Operations *)

Section operations.
Context `{Lru L} `{SerdeJson}.
Variable config : NostrClientTransportConfig.
Implicit Types c : ClientTransport L.

Definition get_pending_client_discovery_tags c : list Tag :=
  if c_discovery_sent c then [] else get_client_capability_tags config.

Definition choose_outbound_gift_wrap_kind c : Z :=
  outbound_gift_wrap_kind (cc_gift_wrap_mode config) (c_ephemeral c).

(** *** Settings *)

Definition set_payment_interaction (mode : PaymentInteractionMode) c : ClientTransport L :=
  let n := c_negotiation c in
  set_negotiation c (mkNegotiation (neg_pmis n) (Some mode) (neg_last_sent n) (neg_effective n)).
Definition set_client_pmis (pmis : list string) c : ClientTransport L :=
  let n := c_negotiation c in
  set_negotiation c (mkNegotiation pmis (neg_requested n) (neg_last_sent n) (neg_effective n)).
Definition get_effective_payment_interaction c : option PaymentInteractionMode := neg_effective (c_negotiation c).
Definition get_server_initialize_event c : option Event := c_init_event c.
Definition discovered_server_capabilities c : PeerCapabilities := c_capabilities c.
Definition server_supports_ephemeral_encryption c : bool := c_ephemeral c.

(** *** Learning from the server's tags *)

Definition event_has_initialize_result (event : Event) : bool :=
  match (content ← from_str (ev_content event); result ← get content "result"; get result "protocolVersion") with
  | Some _ => true
  | None => false
  end.

Definition learn_baseline (event : Event) (stored : option Event) : option Event :=
  match stored with
  | None => Some event
  | Some existing =>
      if negb (event_has_initialize_result existing) && event_has_initialize_result event
      then Some event else stored
  end.

Definition learn_server_discovery (event : Event) c : ClientTransport L :=
  let discovered := parse_discovered_peer_capabilities (ev_tags event) in
  match discovery_tags discovered with
  | [] => c
  | _ =>
      let c := set_capabilities c (or_capabilities (c_capabilities c) (capabilities discovered)) in
      let c := set_negotiation c (learn_effective (ev_tags event) (c_negotiation c)) in
      set_init_event c (learn_baseline event (c_init_event c))
  end.

(** *** Recorded progress tokens *)

Definition record_original_progress_token (token : string) (original : Value) c : ClientTransport L :=
  set_originals c (lru_push token original (c_originals c)).1.

Definition remove_original_progress_token (token : option string) c : ClientTransport L :=
  match token with
  | Some token => set_originals c (lru_pop token (c_originals c)).1
  | None => c
  end.

Definition original_progress_token (token : string) c : ClientTransport L * option Value :=
  let '(originals, v) := lru_get token (c_originals c) in (set_originals c originals, v).

Definition stripped_progress_notification (params original_token : Value) : option JsonRpcMessage :=
  progress ← get params "progress";
  let copy key stripped := match get params key with Some v => obj_insert key v stripped | None => stripped end in
  let stripped := obj_insert "progress" progress (obj_insert "progressToken" original_token []) in
  Some (Notification (mkNotification "2.0" NOTIFICATIONS_PROGRESS_METHOD
    (Some (VObject (copy "message" (copy "total" stripped)))))).

Definition forward_stripped_progress (notif : JsonRpcNotification) (token : string) c : ClientTransport L :=
  match notif_params notif with
  | None => c
  | Some params =>
      let '(c, recorded) := original_progress_token token c in
      match (match recorded with Some v => Some v | None => get params "progressToken" end) with
      | None => c
      | Some original => push (option_list (stripped_progress_notification params original)) c
      end
  end.

(** *** The stateless handshake *)

(** [version] is the protocol version of rmcp. *)
Definition emulate_initialize_response (version : string) (request_id : Value) : JsonRpcMessage :=
  Response (mkResponse "2.0" request_id (VObject (obj_of_list
    [("protocolVersion", VString version);
     ("serverInfo", VObject [("name", VString "Emulated-Stateless-Server"); ("version", VString "1.0.0")]);
     ("capabilities", VObject (obj_of_list
        [("tools", VObject [("listChanged", VBool true)]);
         ("prompts", VObject [("listChanged", VBool true)]);
         ("resources", VObject (obj_of_list [("subscribe", VBool true); ("listChanged", VBool true)]))]))]))).

(** *** Placeholders of outgoing streams *)

Definition fresh_ref c : ClientTransport L * nat := (set_next_ref c (S (c_next_ref c)), c_next_ref c).

(** [prepare_outbound_open_stream_session] and [prepare_outbound]. *)
Definition prepare_outbound c : ClientTransport L * nat :=
  let '(c, ref) := fresh_ref c in (set_placeholders c (c_placeholders c ++ [ref]), ref).

(** [cancel_outbound]: the placeholder pushed last is dropped. *)
Definition cancel_outbound c : ClientTransport L :=
  set_placeholders c (removelast (c_placeholders c)).

Definition create_outbound_open_stream_session (now : Z) (token : string) c
  : ClientTransport L * result nat Error :=
  match Registry.get_session token (c_registry c) with
  | Some existing => (c, Ok existing)
  | None =>
      let '(registry, res) := Registry.create_session_with now token false false (c_registry c) in
      let c := set_registry c registry in
      match res with
      | Ok ref => (set_publishers c (<[ref := choose_outbound_gift_wrap_kind c]> (c_publishers c)), Ok ref)
      | Err e => (c, Err (EOpenStream e))
      end
  end.

Definition bind_pending_outbound_open_stream (now : Z) (token : string) (original : Value) c : ClientTransport L :=
  match c_placeholders c with
  | [] => c
  | waiter :: rest =>
      let c := record_original_progress_token token original (set_placeholders c rest) in
      let '(c, res) := create_outbound_open_stream_session now token c in
      set_bound c (c_bound c ++ [(waiter, let? ref := res in Ok (token, ref))])
  end.

(** *** Construction *)

(** What a transport keeps of its configuration. *)
Record ClientSetup : Type := mkSetup {
  setup_server_pubkey : string;
  setup_hinted_relay_urls : list string;
  setup_discovery_relay_urls : list string;
  setup_fallback_operational_relay_urls : list string;
}.

Definition initial_client : ClientTransport L :=
  mkClient ClientStore.new false PeerCapabilities_default None
    (mkNegotiation (cc_pmis config) (cc_payment_interaction config) None None) false
    (lru_new DEFAULT_LRU_SIZE) (OversizedReceiver.with_policy (policy_of_config (cc_oversized_transfer config)))
    ∅ ∅ (lru_new DEFAULT_LRU_SIZE) (Registry.with_policy (registry_policy_of_config (cc_open_stream config)))
    ∅ [] [] 0 0 [] [] None [] [] false false false false true.

Definition with_relay_pool `{Nostr} `{NostrClient} : result (ClientSetup * ClientTransport L) Error :=
  let? identity := parse_server_identity (cc_server_pubkey config) in
  Ok (mkSetup identity.1 identity.2 (default DEFAULT_BOOTSTRAP_RELAY_URLS (cc_discovery_relay_urls config))
        (default [] (cc_fallback_operational_relay_urls config)), initial_client).

(** [new] builds its own relay pool first. *)
Definition client_new `{Nostr} `{NostrClient} : result (ClientSetup * ClientTransport L) Error :=
  let? identity := parse_server_identity (cc_server_pubkey config) in
  let? _ := RelayPool.new in
  with_relay_pool.
End operations.
