(* ===== verification/ClientOutbound.v ===== *)
(** * The client transport: sending

    [ClientSendParts::send] of [src/transport/client/mod.rs], as a machine that
    stops where the event loop or another send can get in between: before a publish, while it waits
    for the accept of a fragmented request, and between the end frame and the
    registration of the request. *)

From S2P Require Import Prelude Json CoreTypes OversizedFrame OversizedCodec Instances OversizedReceiver Lru RouteStore OpenStreamFrame OpenStreamSession OpenStreamRegistry PaymentTypes ServerTasks BaseTransport Announcements Discovery ClientPayments ClientState.

Section sending.
Context `{Lru L} `{SerdeJson} `{Sha256} `{Nostr}.
Variable config : NostrClientTransportConfig.
(** The key of the server, and the protocol version of rmcp. *)
Variable server_pubkey : string.
Variable version : string.
Implicit Types c : ClientTransport L.

Local Abbreviation mode := (cc_encryption_mode config).
Local Abbreviation oversized := (cc_oversized_transfer config).

(** ** What a message asks for *)

(** What stateless mode answers in place of the server. *)
Definition emulated (message : JsonRpcMessage) : option (list JsonRpcMessage) :=
  if negb (cc_is_stateless config) then None
  else match message with
       | Request req =>
           if String.eqb (req_method req) "initialize"
           then Some [emulate_initialize_response version (req_id req)] else None
       | Notification n => if String.eqb (notif_method n) "notifications/initialized" then Some [] else None
       | _ => None
       end.

Definition message_token (message : JsonRpcMessage) : option Value :=
  match message with Request req => request_progress_token req | _ => None end.

(** A streaming tool call takes the oldest placeholder. *)
Definition bind_stream (now : Z) (message : JsonRpcMessage) c : ClientTransport L :=
  match message with
  | Request req =>
      if sc_enabled (cc_open_stream config) && String.eqb (req_method req) "tools/call" then
        match request_progress_token req with
        | Some original =>
            match progress_token_string original with
            | Some token => bind_pending_outbound_open_stream config now token original c
            | None => c
            end
        | None => c
        end
      else c
  | _ => c
  end.

(** The token a fragmented request would travel under; its original is recorded. *)
Definition oversized_token (message : JsonRpcMessage) c : ClientTransport L * option string :=
  if oc_enabled oversized then
    match message_token message with
    | Some original =>
        match progress_token_string original with
        | Some token => (record_original_progress_token token original c, Some token)
        | None => (c, None)
        end
    | None => (c, None)
    end
  else (c, None).

(** ** Registration and latches *)

Definition register_request (now : Z) (event_id : string) (message : JsonRpcMessage) c : ClientTransport L :=
  match message with
  | Request req =>
      set_pending c (ClientStore.register now event_id (req_id req)
        (String.eqb (req_method req) INITIALIZE_METHOD) (request_progress_token req) (c_pending c))
  | _ => c
  end.

(** After a successful publish. *)
Definition sent_latches (discovery_sent : bool) (interaction : option PaymentInteractionMode) c
  : ClientTransport L :=
  let c := if discovery_sent then set_discovery_sent c true else c in
  set_negotiation c (mark_payment_interaction_sent interaction (c_negotiation c)).

(** ** Fragmented requests *)

(** The frames of a request and the waiter of its accept. *)
Definition start_oversized (message : JsonRpcMessage) (content token : string) (base_tags start_tags : list Tag)
    (discovery_sent : bool) (interaction : option PaymentInteractionMode) c : ClientTransport L * send_state :=
  let needs_accept := negb (pc_supports_oversized_transfer (c_capabilities c)) in
  let gift_wrap_kind := choose_outbound_gift_wrap_kind config c in
  let is_encrypted := should_encrypt mode CTXVM_MESSAGES_KIND None in
  let chunk_size :=
    default 1 (resolve_safe_chunk_size
      (probe_text mode server_pubkey base_tags is_encrypted gift_wrap_kind (c_net c))
      (oc_chunk_size oversized) (oc_threshold oversized)) in
  let options := with_accept_handshake (with_chunk_size (OversizedSenderOptions_new token) chunk_size) needs_accept in
  match build_oversized_frames content options with
  | Err e => (c, SendDone (Err (EOversizedTransfer e)))
  | Ok frames =>
      let '(c, waiter) := fresh_ref c in
      let c := if needs_accept then set_accept_waiters c (<[token := waiter]> (c_accept_waiters c)) else c in
      (c, SendStartFrame (mkOversizedSend message token base_tags start_tags gift_wrap_kind needs_accept waiter
            discovery_sent interaction frames))
  end.

(** One frame of the sequence. *)
Definition publish_frame (o : OversizedSend) (tags : list Tag) (net : Net) (frame : JsonRpcNotification)
  : Net * result string Error :=
  send_mcp_message mode net (Notification frame) server_pubkey CTXVM_MESSAGES_KIND tags None
    (Some (os_wrap_kind o)).

Definition drop_waiter (o : OversizedSend) c : ClientTransport L :=
  if os_needs_accept o then set_accept_waiters c (delete (os_token o) (c_accept_waiters c)) else c.

(** How the wait for the accept stands; [None] while it lasts. *)
Definition accept_outcome (now deadline : Z) (o : OversizedSend) c : option AcceptOutcome :=
  if bool_decide (os_waiter o ∈ c_accepted c) then Some Accepted
  else if negb (bool_decide (c_accept_waiters c !! os_token o = Some (os_waiter o))) then Some WaiterDropped
  else if deadline <=? now then Some TimedOut
  else None.

Definition accept_failed (o : OversizedSend) : Error :=
  EOversizedTransfer (OversizedFrame.Abort (progress_token_of (built_start (os_frames o)))
    (Some "timed out waiting for accept frame")).

(** ** The machine *)

(** The first segment: up to the first publish. *)
Definition send_start (now : Z) (has_tx : bool) (message : JsonRpcMessage) c : ClientTransport L * send_state :=
  match emulated message with
  | Some answers => (if has_tx then push answers c else c, SendDone (Ok tt))
  | None =>
      let c := bind_stream now message c in
      let base_tags := create_recipient_tags server_pubkey in
      let discovery_tags := if is_request message then get_pending_client_discovery_tags config c else [] in
      let '(negotiation_tags, interaction) :=
        if is_request message then get_pending_negotiation_tags (c_negotiation c) else ([], None) in
      let tags := compose_outbound_tags base_tags discovery_tags negotiation_tags in
      let gift_wrap_kind := choose_outbound_gift_wrap_kind config c in
      let discovery_sent := negb (bool_decide (discovery_tags = [])) in
      let '(c, token) := oversized_token message c in
      let content := to_string (message_to_value message) in
      let prepared := prepare_mcp_message mode (c_net c) message server_pubkey CTXVM_MESSAGES_KIND tags None
                        (Some gift_wrap_kind) in
      let single (event_id : string) (event : Event) :=
        (register_request now event_id message c,
         SendPublish message event_id event tags gift_wrap_kind discovery_sent interaction) in
      match token with
      | Some token =>
          let fragmented := start_oversized message content token base_tags tags discovery_sent interaction c in
          if oc_threshold oversized <=? str_len content then fragmented
          else match prepared with
               | Ok (event_id, event) =>
                   if oc_threshold oversized <? str_len (event_to_json event) then fragmented
                   else single event_id event
               | Err _ => fragmented
               end
      | None =>
          match prepared with
          | Ok (event_id, event) => single event_id event
          | Err e => (c, SendDone (Err e))
          end
      end
  end.

(** One segment of a send; a finished or still waiting one stays as it is. *)
Definition send_step (now : Z) (has_tx : bool) (s : send_state) c : ClientTransport L * send_state :=
  match s with
  | SendStart message => send_start now has_tx message c
  | SendPublish message event_id event tags gift_wrap_kind discovery_sent interaction =>
      let '(net, sent) := publish_logged (c_net c) message server_pubkey tags
                            (wrapped_kind mode CTXVM_MESSAGES_KIND None (Some gift_wrap_kind)) event in
      let c := set_net c net in
      match sent with
      | Err e => (set_pending c (ClientStore.remove event_id (c_pending c)).1, SendDone (Err e))
      | Ok _ => (sent_latches discovery_sent interaction c, SendDone (Ok tt))
      end
  | SendStartFrame o =>
      let '(net, sent) := publish_frame o (os_start_tags o) (c_net c) (built_start (os_frames o)) in
      let c := set_net c net in
      match sent with
      | Err e => (drop_waiter o c, SendDone (Err e))
      | Ok _ =>
          (c, if os_needs_accept o
              then SendAwaitAccept o (now + from_millis (oc_accept_timeout_ms oversized))
              else SendChunks o (built_chunks (os_frames o)))
      end
  | SendAwaitAccept o deadline =>
      match accept_outcome now deadline o c with
      | None => (c, s)
      | Some Accepted => (c, SendChunks o (built_chunks (os_frames o)))
      | Some _ => (drop_waiter o c, SendDone (Err (accept_failed o)))
      end
  | SendChunks o rest =>
      let frame := match rest with f :: _ => f | [] => built_end (os_frames o) end in
      let '(net, sent) := publish_frame o (os_base_tags o) (c_net c) frame in
      let c := set_net c net in
      match sent with
      | Err e => (drop_waiter o c, SendDone (Err e))
      | Ok id => (c, match rest with _ :: rest => SendChunks o rest | [] => SendRegister o id end)
      end
  | SendRegister o end_id =>
      let c := register_request now end_id (os_message o) (drop_waiter o c) in
      (sent_latches (os_discovery_sent o) (os_interaction o) c, SendDone (Ok tt))
  | SendDone res => (c, SendDone res)
  end.

(** [NostrClientTransport::send]: the request is cached for the engine, then the
    send starts. *)
Definition send (message : JsonRpcMessage) c : ClientTransport L :=
  spawn [SendTask FromApplication (SendStart message)]
    (set_engine c (ClientEngine.cache_raw_request message <$> c_engine c)).
End sending.
