(* ===== verification/ClientInbound.v ===== *)
(** * The client transport: the event loop

    The event loop of [src/transport/client/mod.rs]: one relay event from its gift
    wrap to the local consumer, the periodic sweeps, and the steps of the tasks
    the payments engine and the sends leave behind.  The last part composes them
    with the calls of the application into [client_step]. *)

From S2P Require Import Prelude Json CoreTypes OversizedFrame OversizedCodec Instances OversizedReceiver Lru RouteStore OpenStreamFrame OpenStreamSession OpenStreamRegistry PaymentTypes ServerTasks BaseTransport Announcements Discovery ClientPayments ClientState ClientOutbound.

Section inbound.
Context `{Lru L} `{SerdeJson} `{Sha256} `{Nostr}.
Variable config : NostrClientTransportConfig.
(** The key of the server, the protocol version of rmcp, and the options of the
    payments engine. *)
Variable server_pubkey : string.
Variable version : string.
Variable options : ClientPaymentsOptions.
Implicit Types c : ClientTransport L.

Local Abbreviation mode := (cc_encryption_mode config).

(** ** Open streams *)

(** A keepalive frame of a stream, published to the server. *)
Definition publish_control_frame (frame : OpenStreamFrame) (token : string) c : ClientTransport L :=
  let progress := u64_add (c_control_progress c) 1 in
  let c := set_control_progress c progress in
  let '(net, _) :=
    send_mcp_message mode (c_net c)
      (Notification (OpenStreamFrame.into_progress_notification frame token progress None)) server_pubkey
      CTXVM_MESSAGES_KIND (create_recipient_tags server_pubkey) None
      (Some (choose_outbound_gift_wrap_kind config c)) in
  set_net c net.

(** The progress token of a frame. *)
Definition frame_token (notif : JsonRpcNotification) : option string :=
  params ← notif_params notif; v ← get params "progressToken"; progress_token_string v.

Definition touch_correlated (now : Z) (e_tag : option string) c : ClientTransport L :=
  match e_tag with
  | Some correlated => set_pending c (ClientStore.touch now correlated (c_pending c)).1
  | None => c
  end.

Definition forward_progress (notif : JsonRpcNotification) (token : option string) c : ClientTransport L :=
  match token with Some token => forward_stripped_progress notif token c | None => c end.

Definition is_terminal_outcome (outcome : result FrameOutcome OpenStreamError) : bool :=
  match outcome with Ok Closed | Ok (Aborted _) | Err _ => true | _ => false end.

Definition handle_inbound_open_stream_frame (now : Z) (notif : JsonRpcNotification) (e_tag : option string) c
  : ClientTransport L :=
  let token := frame_token notif in
  let c := touch_correlated now e_tag c in
  let '(registry, outcome, _) := Registry.process_frame now notif (c_registry c) in
  let c := set_registry c registry in
  let c := match outcome, token with
           | Ok (SendPong nonce), Some token => publish_control_frame (OpenStreamFrame.Pong nonce) token c
           | _, _ => c
           end in
  let c := forward_progress notif token c in
  if is_terminal_outcome outcome then remove_original_progress_token token c else c.

(** The keepalive sweep ([run_open_stream_keepalive_sweep]). *)
Definition sweep_client_open_stream_sessions (now : Z) c : ClientTransport L :=
  let '(registry, actions) := Registry.tick_all now (c_registry c) in
  foldl (λ c a, match a.2 with SendPing nonce => publish_control_frame (OpenStreamFrame.Ping nonce) a.1 c | _ => c end)
    (set_registry c registry) actions.

(** The frame a reader publishes when it is aborted: the publisher captured its
    gift-wrap kind with the session. *)
Definition abort_session (ref : nat) (reason : option string) c : ClientTransport L :=
  match heap (c_registry c) !! ref with
  | None => c
  | Some s =>
      let publisher := c_publishers c !! ref in
      let '(s, frame) := Session.abort (bool_decide (is_Some publisher)) reason s in
      let c := set_registry c (Registry.set_session ref s (c_registry c)) in
      match frame, publisher with
      | Some frame, Some kind =>
          let '(net, _) :=
            send_mcp_message mode (c_net c) (Notification frame) server_pubkey CTXVM_MESSAGES_KIND
              (create_recipient_tags server_pubkey) None (Some kind) in
          set_net c net
      | _, _ => c
      end
  end.

(** [abort_open_stream], which is also [ClientOpenStreamHandle::cancel]. *)
Definition abort_open_stream (token : string) (reason : option string) c : ClientTransport L :=
  let c := match Registry.get_session token (c_registry c) with
           | Some ref => abort_session ref reason c
           | None => c
           end in
  set_registry c (Registry.consumer_abort token reason (c_registry c)).1.

(** ** Terminal responses *)

Definition terminal_message (message : JsonRpcMessage) : bool := is_response message || is_error message.

Definition consume_terminal_response (e_tag : option string) (message : JsonRpcMessage) c
  : ClientTransport L * option JsonRpcMessage :=
  let '(c, entry) :=
    match e_tag with
    | Some correlated =>
        if terminal_message message then
          let '(pending, entry) := ClientStore.remove correlated (c_pending c) in (set_pending c pending, entry)
        else (c, None)
    | None => (c, None)
    end in
  match c_engine c with
  | Some engine =>
      let '(engine, spawned, deliverable) :=
        ClientEngine.on_terminal_response options entry e_tag message engine in
      (spawn (EngineTask <$> spawned) (set_engine c (Some engine)), deliverable)
  | None => (c, Some message)
  end.

(** Both places that deliver a terminal message. *)
Definition deliver_terminal (e_tag : option string) (message : JsonRpcMessage) c : ClientTransport L :=
  let '(c, deliverable) := consume_terminal_response e_tag message c in push (option_list deliverable) c.

(** ** Oversized frames *)

Definition is_accept (notif : JsonRpcNotification) : bool :=
  match (params ← notif_params notif; cvm ← get params "cvm"; OversizedFrame.from_cvm_value cvm) with
  | Some OversizedFrame.Accept => true
  | _ => false
  end.

(** An accept wakes the send that waits for it, once. *)
Definition route_accept (notif : JsonRpcNotification) (token : option string) c : ClientTransport L :=
  match token with
  | None => c
  | Some token =>
      match c_accept_waiters c !! token with
      | None => c
      | Some waiter =>
          let c := set_accept_waiters c (delete token (c_accept_waiters c)) in
          forward_stripped_progress notif token (set_accepted c ({[waiter]} ∪ c_accepted c))
      end
  end.

Definition handle_oversized_frame (now : Z) (notif : JsonRpcNotification) (e_tag : option string) c
  : ClientTransport L :=
  let token := frame_token notif in
  if is_accept notif then route_accept notif token c
  else
    let c := touch_correlated now e_tag c in
    let '(receiver, outcome) := OversizedReceiver.process_frame now (c_oversized c) notif in
    let c := set_oversized c receiver in
    let tracked := match token with Some token => is_tracking receiver token | None => false end in
    match outcome with
    | Ok None => if tracked then forward_progress notif token c else c
    | Ok (Some message) => deliver_terminal e_tag message (remove_original_progress_token token c)
    | Err _ => remove_original_progress_token token c
    end.

(** ** The plain path *)

Definition gating (m : option PaymentInteractionMode) : bool := bool_decide (m = Some ExplicitGating).

(** The payments hook on a notification: the state and whether to forward it;
    [None] when it panics. *)
Definition notify_engine (now : Z) (n : JsonRpcNotification) (correlated : string) (engine : Engine L) c
  : ClientTransport L * option bool :=
  let entry := ClientStore.peek correlated (c_pending c) in
  let '(engine, pushed, spawned, forward) :=
    ClientEngine.handle_payment_notification options now n correlated entry
      (gating (neg_requested (c_negotiation c))) (gating (neg_effective (c_negotiation c))) engine in
  (push pushed (spawn (EngineTask <$> spawned) (set_engine c (Some engine))), forward).

Definition handle_mcp_notification (now : Z) (n : JsonRpcNotification) (e_tag : option string) c
  : ClientTransport L :=
  let c := if String.eqb (notif_method n) PAYMENT_REQUIRED_METHOD then touch_correlated now e_tag c else c in
  let '(c, forward) :=
    match c_engine c, e_tag with
    | Some engine, Some correlated =>
        if is_payment_notification_method (notif_method n) then notify_engine now n correlated engine c
        else (c, Some true)
    | _, _ => (c, Some true)
    end in
  match forward with
  | Some true => push [Notification n] c
  | Some false => c
  | None => set_running c false
  end.

(** What passes the correlation gate. *)
Definition correlated (e_tag : option string) c : bool :=
  match e_tag with Some id => ClientStore.contains id (c_pending c) | None => true end.

Definition handle_plain (now : Z) (content : string) (e_tag : option string) c : ClientTransport L :=
  if negb (correlated e_tag c) then c
  else
    match validate_and_parse content with
    | None => c
    | Some (Request _) => c
    | Some (Notification n) => handle_mcp_notification now n e_tag c
    | Some message => match e_tag with None => c | Some _ => deliver_terminal e_tag message c end
    end.

(** ** From the relay event to the message *)

Definition open_event (event : Event) c : ClientTransport L * option Event :=
  let gift_wrap := is_gift_wrap_kind (ev_kind event) in
  if violates_encryption_policy (ev_kind event) mode then (c, None)
  else if gift_wrap && negb (allows_kind (cc_gift_wrap_mode config) (ev_kind event)) then (c, None)
  else if gift_wrap then
    if lru_contains (ev_id event) (c_seen c) then (c, None)
    else
      match pool_signer (length (c_net c)) with
      | Err _ => (c, None)
      | Ok _ =>
          match decrypt_gift_wrap_single_layer event with
          | Err _ => (c, None)
          | Ok decrypted_json =>
              match event_from_json decrypted_json with
              | None => (c, None)
              | Some inner =>
                  if event_verify inner
                  then (set_seen c (lru_put (ev_id event) tt (c_seen c)), Some inner)
                  else (c, None)
              end
          end
      end
  else (c, Some event).

(** What the tags of a server event teach. *)
Definition learn (event inner : Event) c : ClientTransport L :=
  let c := learn_server_discovery inner c in
  if should_learn_ephemeral_support (ev_pubkey inner) server_pubkey
       (if is_gift_wrap_kind (ev_kind event) then Some (ev_kind event) else None) (ev_tags inner)
  then set_ephemeral c true else c.

(** A notification frame of one of the two transfer extensions. *)
Definition progress_frame (is_frame : JsonRpcNotification → bool) (content : string)
  : option JsonRpcNotification :=
  notif ← from_str content ≫= de_notification;
  if String.eqb (notif_method notif) NOTIFICATIONS_PROGRESS_METHOD && is_frame notif then Some notif else None.

(** The content of an event of the server. *)
Definition handle_content (now : Z) (content : string) (e_tag : option string) c : ClientTransport L :=
  match (if sc_enabled (cc_open_stream config)
         then progress_frame Receiver.is_open_stream_frame content else None) with
  | Some notif => handle_inbound_open_stream_frame now notif e_tag c
  | None =>
      match progress_frame is_oversized_frame content with
      | Some notif => handle_oversized_frame now notif e_tag c
      | None => handle_plain now content e_tag c
      end
  end.

Definition handle_notification (now : Z) (event : Event) c : ClientTransport L :=
  match open_event event c with
  | (c, None) => c
  | (c, Some inner) =>
      if negb (String.eqb (ev_pubkey inner) server_pubkey) then c
      else handle_content now (ev_content inner) (get_tag_value (ev_tags inner) "e") (learn event inner c)
  end.

(** ** The sweep of the event loop *)

(** [sweep_interval]: half the timeout, between one and thirty seconds. *)
Definition sweep_interval : Z :=
  Z.min (from_millis 30000) (Z.max (from_millis 1000) (cc_timeout config / 2)).

Definition sweep_tick (now : Z) c : ClientTransport L :=
  let c := set_pending c (ClientStore.sweep_expired now (cc_timeout config) (c_pending c)).1 in
  let c := if oc_enabled (cc_oversized_transfer config)
           then set_oversized c (remove_expired now (c_oversized c)).1 else c in
  if sc_enabled (cc_open_stream config) then sweep_client_open_stream_sessions now c else c.

(** ** Tasks *)

Definition after_engine_step (next : task_next) : client_task :=
  match next with
  | Finish => DoneTask
  | Continue t => EngineTask t
  | Resend on_failure request => SendTask (FromEngine on_failure) (SendStart (Request request))
  end.

(** A retry of the engine that failed is reported to the consumer. *)
Definition after_send_step (origin : send_origin) (s : send_state) c : ClientTransport L * client_task :=
  match origin, s with
  | FromEngine on_failure, SendDone (Err e) => (push (ClientEngine.retry_failed on_failure e) c, DoneTask)
  | FromEngine _, SendDone (Ok _) => (c, DoneTask)
  | _, _ => (c, SendTask origin s)
  end.

(** One step of the [i]-th task. *)
Definition run_task (now : Z) (cancelled : bool) (ua : ClientEngine.user_answers) (i : nat) c
  : ClientTransport L :=
  match c_tasks c !! i with
  | Some (EngineTask t) =>
      match c_engine c with
      | None => c
      | Some engine =>
          let '(pending, engine, pushed, calls, next) :=
            ClientEngine.task_step options now cancelled ua t (c_pending c) engine in
          let c := log_calls calls (push pushed (set_engine (set_pending c pending) (Some engine))) in
          set_tasks c (<[i := after_engine_step next]> (c_tasks c))
      end
  | Some (SendTask origin s) =>
      let has_tx := match origin with FromApplication => c_open c | FromEngine _ => true end in
      let '(c, s) := send_step config server_pubkey version now has_tx s c in
      let '(c, task) := after_send_step origin s c in
      set_tasks c (<[i := task]> (c_tasks c))
  | _ => c
  end.

(** ** Life cycle *)

Definition with_client_payments c : ClientTransport L * result unit Error :=
  if c_started c then (c, Err (EOther "with_client_payments must be called before start()"))
  else if negb (c_open c) then (c, Err (EOther "with_client_payments cannot register on a closed transport"))
  else if c_engine c is Some _ then
    (c, Err (EOther "client payments are already registered on this transport; with_client_payments registers once and owns the payment surface"))
  else
    let c := set_client_pmis (handler_pmi <$> opt_handlers options) c in
    let c := match opt_payment_interaction options with
             | Some interaction => set_payment_interaction interaction c
             | None => c
             end in
    (set_engine c (Some ClientEngine.new), Ok tt).

(** What the relay pool answers to [start]. *)
Record start_answers : Type := mkStartAnswers {
  sa_discovery_first : bool;
  sa_in_time : bool;
  sa_connect : result unit Error;
  sa_public_key : result string Error;
  sa_subscribe : result unit Error;
}.

(** The relays [start] connects to. *)
Definition connect_urls `{NostrClient} (setup : ClientSetup) (sa : start_answers) : list string :=
  match resolve_operational_relays (sa_discovery_first sa) (sa_in_time sa)
          (mkResolution (cc_relay_urls config) (setup_hinted_relay_urls setup)
             (setup_discovery_relay_urls setup) (setup_fallback_operational_relay_urls setup)
             (setup_server_pubkey setup)) with
  | [] => cc_relay_urls config
  | urls => urls
  end.

(** [start] of a transport that is not closed: the state, the subscription, the
    result. *)
Definition start (now : Z) (sa : start_answers) c : ClientTransport L * list InboxFilter * result unit Error :=
  match map_err EOther (pool_signer (length (c_net c))) with
  | Err e => (c, [], Err e)
  | Ok _ =>
      let '(connected, _, res) := connect (c_connected c) (sa_connect sa) in
      let c := set_connected c connected in
      match (let? _ := res in sa_public_key sa) with
      | Err e => (c, [], Err e)
      | Ok pubkey =>
          match sa_subscribe sa with
          | Err e => (c, subscribe_for_pubkey now pubkey, Err e)
          | Ok _ => (set_running (set_started c true) true, subscribe_for_pubkey now pubkey, Ok tt)
          end
      end
  end.

(** [close], up to the wait for the event loop and from there. *)
Definition close_begin c : ClientTransport L :=
  set_cancelled (set_engine c (ClientEngine.dispose <$> c_engine c)) true.

Definition close_finish (answer : result unit Error) c : ClientTransport L * result unit Error :=
  let c := set_open (set_started c false) false in
  let c := set_oversized c (OversizedReceiver.clear (c_oversized c)) in
  let c := set_originals (set_accept_waiters c ∅) (lru_clear (c_originals c)) in
  let c := set_placeholders (set_registry c (Registry.clear (c_registry c))) [] in
  let '(connected, _, res) := disconnect (c_connected c) answer in
  (set_connected c connected, res).

(** ** Runs *)

(** One atomic step of the application, of the event loop, of a task or of a
    consumer of a stream. *)
Inductive client_action : Type :=
| Install
| SetInteraction (interaction : PaymentInteractionMode)
| SetPmis (pmis : list string)
| StartTransport (now : Z) (sa : start_answers)
| SendMessage (message : JsonRpcMessage)
| PrepareStream
| CancelStream
| AbortStream (token : string) (reason : option string)
| PollStream (ref : nat)
| KeepaliveSweep (now : Z)
| Receive (now : Z) (event : Event)
| LoopSweep (now : Z)
| LoopExit
| RunTask (now : Z) (cancelled : bool) (ua : ClientEngine.user_answers) (i : nat)
| CloseBegin
| CloseFinish (answer : result unit Error).

(** The event loop acts while it runs; it may be told to stop, or its channel may
    close.  [close] goes on once it has ended.  A transport is started once. *)
Definition client_step c (a : client_action) : ClientTransport L :=
  match a with
  | Install => (with_client_payments c).1
  | SetInteraction interaction => set_payment_interaction interaction c
  | SetPmis pmis => set_client_pmis pmis c
  | StartTransport now sa => if c_started c || negb (c_open c) then c else (start now sa c).1.1
  | SendMessage message => send message c
  | PrepareStream => (prepare_outbound c).1
  | CancelStream => cancel_outbound c
  | AbortStream token reason => abort_open_stream token reason c
  | PollStream ref => set_registry c (poll_handle ref (c_registry c))
  | KeepaliveSweep now => sweep_client_open_stream_sessions now c
  | Receive now event => if c_running c then handle_notification now event c else c
  | LoopSweep now => if c_running c then sweep_tick now c else c
  | LoopExit => set_running c false
  | RunTask now cancelled ua i => run_task now cancelled ua i c
  | CloseBegin => close_begin c
  | CloseFinish answer => if c_cancelled c && negb (c_running c) then (close_finish answer c).1 else c
  end.

Definition client_run c (actions : list client_action) : ClientTransport L := foldl client_step c actions.
End inbound.

(** ** A concrete client *)

(** A client of the server ["serve"] with one wallet for the method ["ln"] and a policy. *)
Definition demo_wallet : PaymentHandler := mkHandler "ln" 0.
Definition demo_client_options : ClientPaymentsOptions :=
  mkClientPaymentsOptions [demo_wallet] (from_millis 30000) (from_millis 300000) true None 10 false.
Definition demo_client_config : NostrClientTransportConfig := NostrClientTransportConfig_default.

Abbreviation demo_client_run rejects actions :=
  (@client_run list_cache list_lru bits_serde id_sha256 (demo_nostr rejects) demo_client_config "serve" "2025"
     demo_client_options (@initial_client list_cache list_lru demo_client_config) actions).

(** Relays and user code that agree to everything. *)
Definition demo_start : start_answers := mkStartAnswers true true (Ok tt) (Ok "alice") (Ok tt).
Definition willing : ClientEngine.user_answers :=
  ClientEngine.mkAnswers (Returned true) (Returned true) (Returned (Ok tt)) (Returned (Ok (mkApproval true None))).
Definition run_first_task (now : Z) (i : nat) : client_action := RunTask now false willing i.

(** The request ["event-0"] is on its way. *)
Definition demo_tool_call : JsonRpcMessage :=
  Request (mkRequest "2.0" (VNumber (PosInt 7)) "tools/call" (Some (VObject [("name", VString "paint")]))).
Definition demo_called : list client_action :=
  [Install; StartTransport 0 demo_start; SendMessage demo_tool_call; run_first_task 1 0; run_first_task 1 0].

(** Events of the server about it. *)
Definition from_server (id : string) (m : JsonRpcMessage) : Event :=
  demo_event id "serve" [public_key_tag "alice"; event_tag "event-0"] m.
Definition demo_offer_params (ttl : Z) : Value :=
  VObject [("amount", VNumber (PosInt 5)); ("pay_req", VString "lnbc1"); ("pmi", VString "ln");
           ("ttl", VNumber (PosInt ttl))].
Definition demo_offer (id : string) (ttl : Z) : Event :=
  from_server id (Notification (mkNotification "2.0" PAYMENT_REQUIRED_METHOD (Some (demo_offer_params ttl)))).
Definition demo_response (id : string) : Event :=
  from_server id (Response (mkResponse "2.0" (VNumber (PosInt 7)) (VString "done"))).
