(* ===== verification/ClientRuns.v ===== *)
(** * The client transport: what a run may change

    Frame lemmas of the event loop and of the engine's tasks, and two invariants of
    every run: the encryption policy of what is published, and the one-shot
    negotiation tags. *)

From S2P Require Import Prelude Json CoreTypes OversizedFrame OversizedCodec Instances OversizedReceiver Lru RouteStore OpenStreamFrame OpenStreamSession OpenStreamRegistry PaymentTypes ServerTasks BaseTransport Announcements Discovery ClientPayments ClientState ClientOutbound ClientInbound.

Section frames.
Context `{Lru L} `{SerdeJson} `{Sha256} `{Nostr}.
Variable config : NostrClientTransportConfig.
Variable server_pubkey version : string.
Variable options : ClientPaymentsOptions.
Implicit Types c : ClientTransport L.

Local Abbreviation mode := (cc_encryption_mode config).
Local Abbreviation step := (client_step config server_pubkey version options).

(** ** The event loop *)

(** The gift-wrap kinds the configuration allows. *)
Definition kind_allowed (k : Z) : Prop := allows_kind (cc_gift_wrap_mode config) k = true.

(** An event prepared for the server, under a kind the gift-wrap mode allows. *)
Definition prepared_ok (m : JsonRpcMessage) (tags : list Tag) (id : string) (ev : Event) : Prop :=
  public_key_tag server_pubkey ∈ tags ∧
  ∃ net k, kind_allowed k ∧
    prepare_mcp_message mode net m server_pubkey CTXVM_MESSAGES_KIND tags None (Some k) = Ok (id, ev).
(** How an event leaves: prepared from the message that is logged with it. *)
Definition outbound_ok (ob : Outbound) : Prop := ∃ id, prepared_ok (ob_message ob) (ob_tags ob) id (ob_event ob).

(** A frame the transport sends on its own. *)
Definition control_outbound (ob : Outbound) : Prop :=
  outbound_ok ob ∧ (∃ n, ob_message ob = Notification n) ∧ ob_tags ob = create_recipient_tags server_pubkey.

(** What the event loop may do to the part of the state the sends depend on. *)
Record loop_frame c c' : Prop := {
  lf_net : ∃ l, c_net c' = c_net c ++ l ∧ Forall control_outbound l;
  lf_tasks : ∃ ts, c_tasks c' = c_tasks c ++ (EngineTask <$> ts);
  lf_calls : c_calls c' = c_calls c;
  lf_discovery : c_discovery_sent c' = c_discovery_sent c;
  lf_sent : neg_last_sent (c_negotiation c') = neg_last_sent (c_negotiation c);
  lf_publishers : c_publishers c' = c_publishers c;
  lf_seen : c_seen c' = c_seen c;
}.

#[local] Instance loop_frame_preorder : PreOrder loop_frame.
Proof.
  split.
  - intros c. split; try done; [exists []; by rewrite app_nil_r|exists []; cbn; by rewrite app_nil_r].
  - intros c1 c2 c3 [(l1&N1&F1) (t1&T1) ? ? ? ? ?] [(l2&N2&F2) (t2&T2) ? ? ? ? ?]. split; try congruence.
    + exists (l1 ++ l2). rewrite N2, N1, <- app_assoc. split; [done|by apply Forall_app].
    + exists (t1 ++ t2). by rewrite T2, T1, fmap_app, <- app_assoc.
Qed.

(** Setting a field the frame does not mention. *)
Lemma loop_frame_same c c' :
  c_net c' = c_net c → c_tasks c' = c_tasks c → c_calls c' = c_calls c →
  c_discovery_sent c' = c_discovery_sent c →
  neg_last_sent (c_negotiation c') = neg_last_sent (c_negotiation c) →
  c_publishers c' = c_publishers c → c_seen c' = c_seen c → loop_frame c c'.
Proof.
  intros Hn Ht ? ? ? ? ?. split; try done; exists []; cbn; by rewrite app_nil_r.
Qed.

(** [frame] proves a frame of setters; [frame via] goes through an intermediate state. *)
Ltac frame := first [done | by apply loop_frame_same].
Ltac frame_after c1 := transitivity c1; [frame|].

Lemma outbound_kind_allowed b : kind_allowed (outbound_gift_wrap_kind (cc_gift_wrap_mode config) b).
Proof. unfold kind_allowed. by destruct (cc_gift_wrap_mode config), b. Qed.

(** A message sent to the server is logged as [outbound_ok]. *)
Lemma send_logged net m ts k :
  kind_allowed k → public_key_tag server_pubkey ∈ ts →
  let '(net', res) := send_mcp_message mode net m server_pubkey CTXVM_MESSAGES_KIND ts None (Some k) in
  (net' = net ∧ is_ok res = false) ∨
  ∃ ob, net' = net ++ [ob] ∧ outbound_ok ob ∧ ob_message ob = m ∧ ob_tags ob = ts ∧ ob_ok ob = is_ok res.
Proof.
  intros Hk Hp. pose proof (send_mcp_message_prepared mode net m server_pubkey CTXVM_MESSAGES_KIND ts None (Some k)) as Hl.
  destruct (send_mcp_message _ _ _ _ _ _ _ _) as [net' res]. destruct Hl as [[-> [e ->]]|(id & ev & ok & Hprep & -> & <-)].
  - by left.
  - right. eexists. split; [done|]. split_and!; try done. exists id. split; [done|]. cbn. eauto.
Qed.
Lemma recipient_tagged : public_key_tag server_pubkey ∈ create_recipient_tags server_pubkey.
Proof. unfold create_recipient_tags. set_solver. Qed.

Lemma publish_control_frame_frame f token c :
  loop_frame c (publish_control_frame config server_pubkey f token c).
Proof.
  unfold publish_control_frame.
  match goal with |- context [send_mcp_message _ ?n ?m _ _ ?ts _ (Some ?k)] =>
    pose proof (send_logged n m ts k (outbound_kind_allowed _) recipient_tagged) as Hs;
    destruct (send_mcp_message mode n m server_pubkey CTXVM_MESSAGES_KIND ts None (Some k)) as [net res] end.
  cbn in Hs. split; cbn; try done; [|exists []; cbn; by rewrite app_nil_r].
  destruct Hs as [[-> _]|(ob & -> & Hob & Hm & Ht & _)]; [exists []; by rewrite app_nil_r|].
  exists [ob]. split; [done|]. apply Forall_singleton. split_and!; eauto.
Qed.

Lemma forward_stripped_frame n token c : loop_frame c (forward_stripped_progress n token c).
Proof.
  unfold forward_stripped_progress, original_progress_token. destruct (notif_params n); [|done].
  destruct (lru_get _ _) as [o [w|]]; [frame|]. destruct (get _ _); frame.
Qed.

Lemma forward_progress_frame n token c : loop_frame c (forward_progress n token c).
Proof. destruct token; [apply forward_stripped_frame|done]. Qed.

Lemma touch_correlated_frame now e c : loop_frame c (touch_correlated now e c).
Proof. destruct e; frame. Qed.

Lemma remove_original_frame token c : loop_frame c (remove_original_progress_token token c).
Proof. destruct token; frame. Qed.

Lemma open_stream_frame_frame now n e c :
  loop_frame c (handle_inbound_open_stream_frame config server_pubkey now n e c).
Proof.
  unfold handle_inbound_open_stream_frame. etransitivity; [apply (touch_correlated_frame now e)|].
  destruct (Registry.process_frame _ _ _) as [[r o] calls].
  etransitivity; [|destruct (is_terminal_outcome o); [apply remove_original_frame|reflexivity]].
  etransitivity; [|apply forward_progress_frame].
  frame_after (set_registry (touch_correlated now e c) r).
  destruct o as [[]|]; try done. destruct (frame_token n); [apply publish_control_frame_frame|done].
Qed.

Lemma sweep_streams_frame now c : loop_frame c (sweep_client_open_stream_sessions config server_pubkey now c).
Proof.
  unfold sweep_client_open_stream_sessions. destruct (Registry.tick_all _ _) as [r actions].
  frame_after (set_registry c r). generalize (set_registry c r). clear.
  induction actions as [|[t a] actions IH]; intros c; cbn; [done|].
  etransitivity; [|apply IH]. destruct a; try done. apply publish_control_frame_frame.
Qed.

Lemma sweep_tick_frame now c : loop_frame c (sweep_tick config server_pubkey now c).
Proof.
  unfold sweep_tick.
  etransitivity; [|destruct (sc_enabled _); [apply sweep_streams_frame|reflexivity]].
  destruct (oc_enabled _); frame.
Qed.

Lemma deliver_terminal_frame e m c : loop_frame c (deliver_terminal options e m c).
Proof.
  unfold deliver_terminal, consume_terminal_response.
  set (ce := match e with Some _ => _ | None => _ end).
  assert (loop_frame c ce.1) as Hce.
  { subst ce. destruct e; [|done]. destruct (terminal_message m); [|done]. by destruct (ClientStore.remove _ _); frame. }
  destruct ce as [c1 entry]. etransitivity; [exact Hce|]. destruct (c_engine c1) as [en|]; [|frame].
  destruct (ClientEngine.on_terminal_response _ _ _ _ _) as [[en' ts] d].
  split; cbn; try done; eauto. exists []. by rewrite app_nil_r.
Qed.

Lemma route_accept_frame n token c : loop_frame c (route_accept n token c).
Proof.
  unfold route_accept. destruct token as [token|]; [|done]. destruct (_ !! _); [|done].
  etransitivity; [|apply forward_stripped_frame]. frame.
Qed.

Lemma oversized_frame_frame now n e c : loop_frame c (handle_oversized_frame options now n e c).
Proof.
  unfold handle_oversized_frame. destruct (is_accept n); [apply route_accept_frame|].
  etransitivity; [apply (touch_correlated_frame now e)|].
  destruct (OversizedReceiver.process_frame _ _ _) as [r [[m|]|err]].
  - etransitivity; [|apply deliver_terminal_frame]. etransitivity; [|apply remove_original_frame]. frame.
  - frame_after (set_oversized (touch_correlated now e c) r).
    destruct (match frame_token n with Some _ => _ | None => _ end); [apply forward_progress_frame|done].
  - etransitivity; [|apply remove_original_frame]. frame.
Qed.

Lemma mcp_notification_frame now n e c : loop_frame c (handle_mcp_notification options now n e c).
Proof.
  unfold handle_mcp_notification.
  set (c1 := if String.eqb _ _ then _ else c).
  transitivity c1; [subst c1; destruct (String.eqb _ _); [apply touch_correlated_frame|done]|].
  assert (∀ (fw : option bool) c2, loop_frame c2
            (match fw with Some true => push [Notification n] c2 | Some false => c2 | None => set_running c2 false end))
    as Hfw by (intros [[]|] c2; frame).
  destruct (c_engine c1) as [en|], e as [id|]; try apply (Hfw (Some true)).
  destruct (is_payment_notification_method _); [|apply (Hfw (Some true))].
  unfold notify_engine. destruct (ClientEngine.handle_payment_notification _ _ _ _ _ _ _ _) as [[[en' ps] ts] fw].
  etransitivity; [|apply Hfw]. split; cbn; try done; eauto. exists []. by rewrite app_nil_r.
Qed.

Lemma handle_content_frame now content e c :
  loop_frame c (handle_content config server_pubkey options now content e c).
Proof.
  unfold handle_content. destruct (if sc_enabled _ then _ else _); [apply open_stream_frame_frame|].
  destruct (progress_frame _ _); [apply oversized_frame_frame|].
  unfold handle_plain. destruct (negb _); [done|]. destruct (validate_and_parse _) as [[]|]; try done.
  - destruct e; [apply deliver_terminal_frame|done].
  - destruct e; [apply deliver_terminal_frame|done].
  - apply mcp_notification_frame.
Qed.

(** Opening an event changes the set of seen gift wraps only. *)
Lemma open_event_state event c :
  ∃ seen, (open_event config event c).1 = set_seen c seen.
Proof.
  assert (c = set_seen c (c_seen c)) as Hc by by destruct c.
  unfold open_event. repeat case_match; eauto.
Qed.

Lemma learn_frame event inner c : loop_frame c (learn server_pubkey event inner c).
Proof.
  unfold learn. transitivity (learn_server_discovery inner c);
    [|destruct (should_learn_ephemeral_support _ _ _ _); frame].
  unfold learn_server_discovery. destruct (discovery_tags _); [done|]. apply loop_frame_same; cbn; try done.
  unfold learn_effective. by repeat case_match.
Qed.

Lemma handle_notification_frame now event c :
  loop_frame (open_event config event c).1 (handle_notification config server_pubkey options now event c).
Proof.
  unfold handle_notification. destruct (open_event config event c) as [c1 [inner|]]; [|done].
  destruct (negb _); [done|].
  etransitivity; [apply (learn_frame event inner)|]. apply handle_content_frame.
Qed.

(** ** What is published *)

Local Abbreviation caps := (get_client_capability_tags config).

(** The server was told the capabilities, and a payment interaction. *)
Definition announced (net : Net) : Prop := ∃ ob, ob ∈ net ∧ ob_ok ob = true ∧ caps ⊆ ob_tags ob.
Definition mode_sent (net : Net) (m : PaymentInteractionMode) : Prop :=
  ∃ ob, ob ∈ net ∧ ob_ok ob = true ∧ payment_interaction_tag m ∈ ob_tags ob.

(** Every request went out with the capabilities or after them. *)
Definition net_announced (net : Net) : Prop :=
  ∀ pre ob post, net = pre ++ ob :: post → is_request (ob_message ob) = true →
    caps ⊆ ob_tags ob ∨ announced pre.

(** The tags of a request on its way, and what it will latch. *)
Definition composed (net : Net) (m : JsonRpcMessage) (tags : list Tag) (ds : bool)
    (interaction : option PaymentInteractionMode) : Prop :=
  (is_request m = true → caps ⊆ tags ∨ announced net) ∧ (ds = true → caps ⊆ tags) ∧
  (∀ x, interaction = Some x → payment_interaction_tag x ∈ tags).

(** The frames of a fragmented request go to the server. *)
Definition frames_ok (o : OversizedSend) : Prop :=
  kind_allowed (os_wrap_kind o) ∧ public_key_tag server_pubkey ∈ os_start_tags o ∧
  public_key_tag server_pubkey ∈ os_base_tags o.

Definition send_ok (net : Net) (s : send_state) : Prop :=
  match s with
  | SendPublish m id ev tags k ds interaction => prepared_ok m tags id ev ∧ composed net m tags ds interaction
  | SendStartFrame o =>
      frames_ok o ∧ is_request (os_message o) = true ∧
      composed net (os_message o) (os_start_tags o) (os_discovery_sent o) (os_interaction o)
  | SendAwaitAccept o _ | SendChunks o _ | SendRegister o _ =>
      frames_ok o ∧ announced net ∧ (∀ x, os_interaction o = Some x → mode_sent net x)
  | _ => True
  end.

Definition task_ok (net : Net) (t : client_task) : Prop :=
  match t with SendTask _ s => send_ok net s | _ => True end.

Record client_inv c : Prop := {
  ci_net : Forall outbound_ok (c_net c);
  ci_requests : net_announced (c_net c);
  ci_discovery : c_discovery_sent c = true → announced (c_net c);
  ci_sent : ∀ m, neg_last_sent (c_negotiation c) = Some m → mode_sent (c_net c) m;
  ci_tasks : Forall (task_ok (c_net c)) (c_tasks c);
  ci_publishers : map_Forall (λ _ k, kind_allowed k) (c_publishers c);
}.

Lemma announced_app net l : announced net → announced (net ++ l).
Proof. intros (ob & ? & ?). exists ob. set_solver. Qed.

Lemma mode_sent_app net l m : mode_sent net m → mode_sent (net ++ l) m.
Proof. intros (ob & ? & ?). exists ob. set_solver. Qed.

Lemma composed_app net l m tags ds i : composed net m tags ds i → composed (net ++ l) m tags ds i.
Proof. intros (H3 & H4). split; [|done]. intros Hr. destruct (H3 Hr); [by left|right; by apply announced_app]. Qed.

Hint Resolve announced_app mode_sent_app composed_app : core.

Lemma task_ok_app net l t : task_ok net t → task_ok (net ++ l) t.
Proof. destruct t as [|? []|]; cbn; naive_solver. Qed.

Lemma net_announced_app net l :
  net_announced net →
  (∀ ob, ob ∈ l → is_request (ob_message ob) = true → caps ⊆ ob_tags ob ∨ announced net) →
  net_announced (net ++ l).
Proof.
  intros Hn Hl pre ob post Heq Hr. apply app_eq_inv in Heq as [(k & -> & Hk)|(k & -> & ->)].
  - destruct k as [|ob' k]; cbn in Hk.
    + rewrite app_nil_r in Hn, Hl. apply Hl; [|done]. set_solver.
    + injection Hk as <- ->. by apply (Hn pre ob k).
  - destruct (Hl ob) as [?|?]; [set_solver|done|by left|right; by apply announced_app].
Qed.

(** The invariant only depends on these fields, and survives what the event loop does. *)
Lemma inv_loop_frame c c' : loop_frame c c' → client_inv c → client_inv c'.
Proof.
  intros [(l & Hn & Hl) (ts & Ht) _ Hd Hs Hp _] [I1 I2 I3 I4 I5 I6].
  assert (Forall outbound_ok l) as Ho by (eapply Forall_impl; [exact Hl|by intros ? []]).
  split; rewrite ?Hn, ?Ht, ?Hd, ?Hp.
  - by apply Forall_app.
  - apply net_announced_app; [done|]. intros ob Hob. rewrite Forall_forall in Hl.
    destruct (Hl ob Hob) as (_ & [n ->] & _). done.
  - eauto.
  - intros m. rewrite Hs. eauto.
  - apply Forall_app. split; [eapply Forall_impl; [exact I5|intros; by apply task_ok_app]|].
    apply Forall_fmap. by apply Forall_true.
  - done.
Qed.

(** ** Sends *)

(** What the preparation of a send may do. *)
Record prep_frame c c' : Prop := {
  pf_net : c_net c' = c_net c;
  pf_tasks : c_tasks c' = c_tasks c;
  pf_calls : c_calls c' = c_calls c;
  pf_discovery : c_discovery_sent c' = c_discovery_sent c;
  pf_negotiation : c_negotiation c' = c_negotiation c;
  pf_engine : c_engine c' = c_engine c;
  pf_publishers : map_Forall (λ _ k, kind_allowed k) (c_publishers c) →
                  map_Forall (λ _ k, kind_allowed k) (c_publishers c');
}.

#[local] Instance prep_frame_preorder : PreOrder prep_frame.
Proof. split; [by intros c|]. intros c1 c2 c3 [] []. split; first [congruence|eauto]. Qed.

Lemma inv_prep_frame c c' : prep_frame c c' → client_inv c → client_inv c'.
Proof.
  intros [Hn Ht _ Hd Hg _ Hp] [I1 I2 I3 I4 I5 I6].
  split; rewrite ?Hn, ?Ht, ?Hd, ?Hg; try done. by apply Hp.
Qed.

Lemma create_session_prep now token c :
  prep_frame c (create_outbound_open_stream_session config now token c).1.
Proof.
  unfold create_outbound_open_stream_session. destruct (Registry.get_session _ _); [done|].
  destruct (Registry.create_session_with _ _ _ _ _) as [r [ref|e]]; split; cbn; try done.
  intros Hp. apply map_Forall_insert_2; [apply outbound_kind_allowed|done].
Qed.

Lemma bind_stream_prep now m c : prep_frame c (bind_stream config now m c).
Proof.
  unfold bind_stream. destruct m as [req| | |]; try done. destruct (_ && _); [|done].
  destruct (request_progress_token req) as [original|]; [|done].
  destruct (progress_token_string original) as [token|]; [|done].
  unfold bind_pending_outbound_open_stream. destruct (c_placeholders c) as [|w rest]; [done|].
  match goal with |- context [create_outbound_open_stream_session _ _ _ ?c0] =>
    pose proof (create_session_prep now token c0) as Hc;
    destruct (create_outbound_open_stream_session config now token c0) as [c1 res] end.
  etransitivity; [|etransitivity; [exact Hc|]]; by split.
Qed.

Lemma oversized_token_prep m c :
  prep_frame c (oversized_token config m c).1 ∧
  (is_Some (oversized_token config m c).2 → is_request m = true).
Proof.
  unfold oversized_token. destruct (oc_enabled _); [|by split; [|intros []]].
  destruct m; cbn; try by (split; [|intros []]).
  destruct (request_progress_token _) as [o|]; [|by split; [|intros []]].
  destruct (progress_token_string o); by repeat split.
Qed.

Lemma pending_tags_ok n x :
  (get_pending_negotiation_tags n).2 = Some x → payment_interaction_tag x ∈ (get_pending_negotiation_tags n).1.
Proof. unfold get_pending_negotiation_tags. cbn. intros ->. set_solver. Qed.

(** The tags composed for a message. *)
Lemma compose_ok m c :
  client_inv c →
  let discovery_tags := if is_request m then get_pending_client_discovery_tags config c else [] in
  let n := if is_request m then get_pending_negotiation_tags (c_negotiation c) else ([], None) in
  composed (c_net c) m (compose_outbound_tags (create_recipient_tags server_pubkey) discovery_tags n.1)
    (negb (bool_decide (discovery_tags = []))) n.2.
Proof.
  intros Hi. cbv zeta. unfold composed, compose_outbound_tags, get_pending_client_discovery_tags.
  destruct (is_request m); cbn; [|done]. split_and!.
  - intros _. destruct (c_discovery_sent c) eqn:E; [right; by apply (ci_discovery _ Hi)|left; set_solver].
  - destruct (c_discovery_sent c); [by rewrite bool_decide_eq_true_2|set_solver].
  - intros x Hx. apply pending_tags_ok in Hx. set_solver.
Qed.

Lemma start_oversized_ok m content token base start ds i c :
  client_inv c → is_request m = true → composed (c_net c) m start ds i →
  public_key_tag server_pubkey ∈ start → public_key_tag server_pubkey ∈ base →
  let '(c', s) := start_oversized config server_pubkey m content token base start ds i c in
  prep_frame c c' ∧ send_ok (c_net c') s.
Proof.
  intros Hi Hr Hc Hs Hb. unfold start_oversized. destruct (build_oversized_frames _ _); [|done].
  cbn. destruct (pc_supports_oversized_transfer _); cbn; (split; [by split|]);
    (split; [split_and!; [apply outbound_kind_allowed|done|done]|done]).
Qed.

Lemma register_request_prep now id m c : prep_frame c (register_request now id m c).
Proof. by destruct m. Qed.

Lemma send_start_ok now tx m c :
  client_inv c →
  let '(c', s) := send_start config server_pubkey version now tx m c in
  prep_frame c c' ∧ send_ok (c_net c') s.
Proof.
  intros Hi. unfold send_start. destruct (emulated config version m) as [answers|]; [by destruct tx|].
  pose proof (bind_stream_prep now m c) as Hb. set (c1 := bind_stream config now m c) in *.
  assert (client_inv c1) as Hi1 by by apply (inv_prep_frame c).
  pose proof (compose_ok m c1 Hi1) as Hc. cbv zeta in Hc.
  set (n := if is_request m then get_pending_negotiation_tags _ else _) in *. destruct n as [ntags i]. cbn in Hc.
  set (disc := if is_request m then _ else _) in *.
  set (tags := compose_outbound_tags _ _ _) in *. set (ds := negb _) in *.
  destruct (oversized_token_prep m c1) as [Ho Hr]. destruct (oversized_token config m c1) as [c2 token]. cbn in Ho, Hr.
  assert (client_inv c2) as Hi2 by by apply (inv_prep_frame c1).
  rewrite <- (pf_net _ _ Ho) in Hc.
  assert (prep_frame c c2) as Hp by (etransitivity; eassumption).
  assert (public_key_tag server_pubkey ∈ tags) as Htag by (unfold tags, compose_outbound_tags, create_recipient_tags; set_solver).
  assert (∀ id ev, prepare_mcp_message mode (c_net c2) m server_pubkey CTXVM_MESSAGES_KIND tags None
              (Some (choose_outbound_gift_wrap_kind config c1)) = Ok (id, ev) →
            prep_frame c (register_request now id m c2) ∧
            send_ok (c_net (register_request now id m c2))
              (SendPublish m id ev tags (choose_outbound_gift_wrap_kind config c1) ds i)) as Hs.
  { intros id ev Hprep. split; [etransitivity; [exact Hp|apply register_request_prep]|].
    cbn [send_ok]. rewrite (pf_net _ _ (register_request_prep now id m c2)).
    split; [|done]. split; [done|]. do 2 eexists. split; [apply outbound_kind_allowed|exact Hprep]. }
  destruct token as [token|].
  - pose proof (start_oversized_ok m (to_string (message_to_value m)) token (create_recipient_tags server_pubkey)
      tags ds i c2 Hi2 (Hr ltac:(done)) Hc Htag recipient_tagged) as Hf.
    destruct (start_oversized _ _ _ _ _ _ _ _ _ _) as [c3 s3]. destruct Hf as [Hf1 Hf2].
    assert (prep_frame c c3 ∧ send_ok (c_net c3) s3) as Hf by (split; [etransitivity; eassumption|done]).
    destruct (_ <=? _); [exact Hf|]. destruct (prepare_mcp_message _ _ _ _ _ _ _ _) as [[id ev]|] eqn:Eprep; [|exact Hf].
    destruct (_ <? _); [exact Hf|by apply Hs].
  - destruct (prepare_mcp_message _ _ _ _ _ _ _ _) as [[id ev]|] eqn:Eprep; [by apply Hs|by split].
Qed.

Lemma inv_publish ob c :
  client_inv c → outbound_ok ob → (is_request (ob_message ob) = true → caps ⊆ ob_tags ob ∨ announced (c_net c)) →
  client_inv (set_net c (c_net c ++ [ob])).
Proof.
  intros [I1 I2 I3 I4 I5 I6] Ho Hr. split; cbn; eauto.
  - apply Forall_app. by split; [|apply Forall_singleton].
  - apply net_announced_app; [done|]. intros ob' ->%list_elem_of_singleton. done.
  - eapply Forall_impl; [exact I5|]. intros. by apply task_ok_app.
Qed.

(** A frame of a fragmented request is logged. *)
Lemma publish_frame_ok o tags f c :
  kind_allowed (os_wrap_kind o) → public_key_tag server_pubkey ∈ tags → client_inv c →
  let '(net, res) := publish_frame config server_pubkey o tags (c_net c) f in
  client_inv (set_net c net) ∧ (∃ l, net = c_net c ++ l) ∧
  (is_ok res = true → ∃ ob, ob ∈ net ∧ ob_ok ob = true ∧ ob_tags ob = tags).
Proof.
  intros Hk Htag Hi. unfold publish_frame. pose proof (send_logged (c_net c) (Notification f) tags _ Hk Htag) as Hs.
  destruct (send_mcp_message _ _ _ _ _ _ _ _) as [net res].
  destruct Hs as [[-> Hres]|(ob & -> & Ho & Hm & Ht & Hok)].
  - split_and!; [by destruct c|exists []; by rewrite app_nil_r|congruence].
  - split_and!; [|eauto|intros Hr; exists ob; set_solver].
    apply inv_publish; [done..|]. by rewrite Hm.
Qed.

Lemma drop_waiter_prep o c : prep_frame c (drop_waiter o c).
Proof. unfold drop_waiter. by destruct (os_needs_accept o). Qed.

Lemma inv_latches ds i c :
  client_inv c → (ds = true → announced (c_net c)) → (∀ x, i = Some x → mode_sent (c_net c) x) →
  client_inv (sent_latches ds i c).
Proof.
  intros [I1 I2 I3 I4 I5 I6] Hd Hs. split; destruct ds; cbn; try done; eauto;
    destruct i; cbn; eauto; intros m [= <-]; eauto.
Qed.

(** What a segment of a send leaves alone. *)
Definition send_frame c c' : Prop :=
  c_tasks c' = c_tasks c ∧ c_calls c' = c_calls c ∧ c_engine c' = c_engine c.

Lemma prep_send_frame c c' : prep_frame c c' → send_frame c c'.
Proof. by intros []. Qed.

Lemma send_frame_trans c1 c2 c3 : send_frame c1 c2 → send_frame c2 c3 → send_frame c1 c3.
Proof. unfold send_frame. intuition congruence. Qed.

Lemma send_step_ok now tx s c :
  client_inv c → send_ok (c_net c) s →
  let '(c', s') := send_step config server_pubkey version now tx s c in
  client_inv c' ∧ send_ok (c_net c') s'.
Proof.
  intros Hi Hs. destruct s as [m|m id ev tags k ds i|o|o deadline|o rest|o id|res]; cbn [send_step]; cbn in Hs.
  - pose proof (send_start_ok now tx m c Hi) as Hst.
    destruct (send_start _ _ _ _ _ _ _) as [c' s']. destruct Hst as [Hp Hok].
    split_and!; [by apply (inv_prep_frame c)|done].
  - destruct Hs as (Hk & Hr & Hd & Hx). unfold publish_logged.
    set (ob := mkOutbound _ _ _ _ _ _).
    assert (client_inv (set_net c (c_net c ++ [ob]))) as Hi' by (apply inv_publish; [done|by exists id|done]).
    assert (∀ P, pool_publish_event (length (c_net c)) ev = Ok P → ob_ok ob = true) as Hok by (by intros P Hp; cbn; rewrite Hp).
    destruct (pool_publish_event _ _) as [P|e]; cbn.
    + split; [|done]. apply inv_latches; [done|..]; cbn.
      * intros Hds. exists ob. split_and!; [set_solver|by eapply Hok|by apply Hd].
      * intros x ->. exists ob. split_and!; [set_solver|by eapply Hok|by apply Hx].
    + split; [|done]. by apply (inv_prep_frame (set_net c (c_net c ++ [ob]))).
  - destruct Hs as ((Hk & Hts & Htb) & Hreq & Hr & Hd & Hx).
    pose proof (publish_frame_ok o (os_start_tags o) (built_start (os_frames o)) c Hk Hts Hi) as Hp.
    destruct (publish_frame _ _ _ _ _ _) as [net [id|e]]; destruct Hp as (Hi' & [l Hl] & Hok).
    + destruct (Hok eq_refl) as (ob & Hob & Hobk & Hobt).
      split; [done|].
      assert (announced net) as Ha.
      { destruct (Hr Hreq); [exists ob; by rewrite Hobt|subst; by apply announced_app]. }
      assert (∀ x, os_interaction o = Some x → mode_sent net x) as Hm.
      { intros x Hix. exists ob. rewrite Hobt. eauto. }
      by destruct (os_needs_accept o).
    + split; [|done]. apply (inv_prep_frame (set_net c net)); [apply drop_waiter_prep|done].
  - destruct (accept_outcome _ _ _ _) as [[]|]; [done| | |done];
      (split; [apply (inv_prep_frame c); [apply drop_waiter_prep|done]|done]).
  - destruct Hs as ((Hk & Hts & Htb) & Ha & Hm).
    match goal with |- context [publish_frame _ _ _ ?ts _ ?f] =>
      pose proof (publish_frame_ok o ts f c Hk Htb Hi) as Hp end.
    destruct (publish_frame _ _ _ _ _ _) as [net [id|e]]; destruct Hp as (Hi' & [l Hl] & _).
    + split; [done|]. subst net.
      destruct rest; (split_and!; [done|by apply announced_app|intros x Hx; by apply mode_sent_app, Hm]).
    + split; [|done]. apply (inv_prep_frame (set_net c net)); [apply drop_waiter_prep|done].
  - destruct Hs as (Hk & Ha & Hm).
    set (c1 := register_request _ _ _ _).
    assert (prep_frame c c1) as Hp by (etransitivity; [apply drop_waiter_prep|apply register_request_prep]).
    split; [|done]. apply inv_latches; [by apply (inv_prep_frame c)|..]; by rewrite (pf_net _ _ Hp).
  - done.
Qed.

Lemma send_step_frame now tx s c :
  send_frame c (send_step config server_pubkey version now tx s c).1.
Proof.
  destruct s as [m|m id ev tags k ds i|o|o deadline|o rest|o id|res]; cbn [send_step].
  - unfold send_start. destruct (emulated config version m); [by destruct tx|].
    pose proof (prep_send_frame _ _ (bind_stream_prep now m c)) as Hb. set (c1 := bind_stream config now m c) in *.
    destruct (if is_request m then get_pending_negotiation_tags _ else _) as [ntags i].
    destruct (oversized_token_prep m c1) as [Ho%prep_send_frame _].
    destruct (oversized_token config m c1) as [c2 token]. cbn in Ho.
    pose proof (send_frame_trans _ _ _ Hb Ho) as Hp.
    assert (∀ id, send_frame c (register_request now id m c2)) as Hs.
    { intros id. eapply send_frame_trans; [exact Hp|]. apply prep_send_frame, register_request_prep. }
    destruct token as [token|]; [|by destruct (prepare_mcp_message _ _ _ _ _ _ _ _) as [[id ev]|]; cbn].
    set (f := start_oversized _ _ _ _ _ _ _ _ _ _).
    assert (send_frame c f.1) as Hf.
    { subst f. eapply send_frame_trans; [exact Hp|]. unfold start_oversized.
      destruct (build_oversized_frames _ _); [|done]. cbn. by destruct (pc_supports_oversized_transfer _). }
    clearbody f. destruct (_ <=? _); [done|]. destruct (prepare_mcp_message _ _ _ _ _ _ _ _) as [[id ev]|]; [|done].
    by destruct (_ <? _); cbn.
  - unfold publish_logged. destruct (pool_publish_event _ _); cbn; [by destruct ds|done].
  - destruct (publish_frame _ _ _ _ _ _) as [net []]; [done|]. apply (prep_send_frame (set_net c net)), drop_waiter_prep.
  - destruct (accept_outcome _ _ _ _) as [[]|]; try done; apply prep_send_frame, drop_waiter_prep.
  - destruct (publish_frame _ _ _ _ _ _) as [net []]; [done|]. apply (prep_send_frame (set_net c net)), drop_waiter_prep.
  - set (c1 := register_request _ _ _ _).
    assert (send_frame c c1) as Hp.
    { apply prep_send_frame. etransitivity; [apply drop_waiter_prep|apply register_request_prep]. }
    by destruct (os_discovery_sent o).
  - done.
Qed.

(** ** Runs *)

(** The fields the invariant reads. *)
Lemma inv_same c c' :
  c_net c' = c_net c → c_tasks c' = c_tasks c → c_discovery_sent c' = c_discovery_sent c →
  neg_last_sent (c_negotiation c') = neg_last_sent (c_negotiation c) → c_publishers c' = c_publishers c →
  client_inv c → client_inv c'.
Proof.
  intros Hn Ht Hd Hs Hp [I1 I2 I3 I4 I5 I6]. split; rewrite ?Hn, ?Ht, ?Hd, ?Hp; try done. by rewrite Hs.
Qed.

Lemma inv_task i t c :
  client_inv c → task_ok (c_net c) t → client_inv (set_tasks c (<[i := t]> (c_tasks c))).
Proof. intros [I1 I2 I3 I4 I5 I6] Ht. split; cbn; try done. by apply Forall_insert. Qed.

Lemma abort_session_inv ref reason c :
  client_inv c → client_inv (abort_session config server_pubkey ref reason c).
Proof.
  intros Hi. unfold abort_session. destruct (heap _ !! ref) as [s|]; [|done].
  destruct (Session.abort _ _ _) as [s' frame]. set (c1 := set_registry c _).
  assert (client_inv c1) as Hi1 by by apply (inv_same c).
  destruct frame as [f|]; [|done]. destruct (c_publishers c !! ref) as [k|] eqn:Ek; [|done].
  pose proof (send_logged (c_net c1) (Notification f) (create_recipient_tags server_pubkey) k
    (ci_publishers _ Hi _ _ Ek) recipient_tagged) as Hs.
  destruct (send_mcp_message _ _ _ _ _ _ _ _) as [net res].
  destruct Hs as [[-> _]|(ob & -> & Ho & Hm & Ht & _)]; [by apply (inv_same c1)|].
  apply inv_publish; [done..|]. by rewrite Hm.
Qed.

Lemma run_task_inv now cancelled ua i c :
  client_inv c → client_inv (run_task config server_pubkey version options now cancelled ua i c).
Proof.
  intros Hi. unfold run_task. destruct (c_tasks c !! i) as [[t|origin s|]|] eqn:Et; [..|done|done].
  - destruct (c_engine c) as [en|]; [|done].
    destruct (ClientEngine.task_step _ _ _ _ _ _ _) as [[[[p en'] ps] calls] next].
    apply inv_task; [by apply (inv_same c)|by destruct next].
  - pose proof (Forall_lookup_1 _ _ _ _ (ci_tasks _ Hi) Et) as Hs.
    match goal with |- context [send_step _ _ _ _ ?tx _ _] =>
      pose proof (send_step_ok now tx s c Hi Hs) as Hst end.
    destruct (send_step _ _ _ _ _ _ _) as [c' s']. destruct Hst as [Hi' Hs'].
    destruct origin as [|f], s' as [| | | | | |[]]; cbn [after_send_step]; apply inv_task; try done.
    by apply (inv_same c').
Qed.

Lemma step_inv c a : client_inv c → client_inv (step c a).
Proof.
  intros Hi. destruct a; cbn [client_step].
  - unfold with_client_payments. repeat case_match; cbn; try done; by apply (inv_same c).
  - by apply (inv_same c).
  - by apply (inv_same c).
  - destruct (c_started c || _); [done|]. unfold start, connect. repeat (case_match; simplify_eq/=); by apply (inv_same c).
  - destruct Hi as [I1 I2 I3 I4 I5 I6]. split; cbn; try done. apply Forall_app. by split; [|apply Forall_singleton].
  - by apply (inv_same c).
  - by apply (inv_same c).
  - unfold abort_open_stream. destruct (Registry.get_session _ _) as [ref|]; [|by apply (inv_same c)].
    by eapply inv_same, abort_session_inv.
  - by apply (inv_same c).
  - by eapply inv_loop_frame, Hi; apply sweep_streams_frame.
  - destruct (c_running c); [|done]. eapply inv_loop_frame; [apply handle_notification_frame|].
    destruct (open_event_state event c) as [seen ->]. by apply (inv_same c).
  - destruct (c_running c); [|done]. by eapply inv_loop_frame, Hi; apply sweep_tick_frame.
  - by apply (inv_same c).
  - by apply run_task_inv.
  - by apply (inv_same c).
  - destruct (_ && _); [|done]. unfold close_finish, disconnect.
    repeat (case_match; simplify_eq/=); by apply (inv_same c).
Qed.

Lemma initial_inv : client_inv (initial_client config).
Proof.
  split; cbn; try done. intros pre ob post Hn. by destruct pre.
Qed.

Lemma run_inv c actions : client_inv c → client_inv (client_run config server_pubkey version options c actions).
Proof. revert c. induction actions as [|a l IH]; intros c Hi; cbn; [done|]. by apply IH, step_inv. Qed.

Local Abbreviation reached actions :=
  (client_run config server_pubkey version options (initial_client config) actions).

(** What an event prepared for the server is. *)
Lemma prepared_event `{!NostrLaws} m tags id ev :
  prepared_ok m tags id ev →
  public_key_tag server_pubkey ∈ ev_tags ev ∧
  match mode with
  | EncDisabled => ev_kind ev = CTXVM_MESSAGES_KIND ∧ ev_content ev = to_string (message_to_value m)
  | _ => kind_allowed (ev_kind ev) ∧
         ∃ n signed, pool_sign n (mcp_to_nostr_event m CTXVM_MESSAGES_KIND tags) = Ok signed ∧
           encrypt_nip44 n server_pubkey (event_to_json signed) = Ok (ev_content ev)
  end.
Proof.
  intros (Htag & net & k & Hk & Hprep). unfold prepare_mcp_message, create_signed_event in Hprep.
  destruct (pool_sign _ _) as [signed|e] eqn:Es; cbn in Hprep; [|done].
  assert (should_encrypt mode CTXVM_MESSAGES_KIND None = negb (bool_decide (mode = EncDisabled))) as Henc
    by (unfold should_encrypt; rewrite bool_decide_eq_false_2 by (intros Hin; cbv in Hin; set_solver); by destruct mode).
  rewrite Henc in Hprep. destruct (bool_decide (mode = EncDisabled)) eqn:Ed; cbn in Hprep.
  - apply bool_decide_eq_true in Ed. injection Hprep as <- <-. rewrite Ed, (pool_sign_tags _ _ _ Es). split; [done|].
    by apply pool_sign_fields in Es.
  - apply bool_decide_eq_false in Ed. unfold wrap_event, gift_wrap_single_layer_with_kind in Hprep.
    destruct (map_err EEncryption (pool_signer _)) as [u|e]; cbn in Hprep; [|done].
    destruct (_ && _); cbn in Hprep; [done|]. destruct (encrypt_nip44 _ _ _) as [text|e] eqn:Et; cbn in Hprep; [|done].
    destruct (ephemeral_sign _ _) as [w|e] eqn:Ew; cbn in Hprep; [|done]. injection Hprep as <- <-.
    rewrite (ephemeral_sign_tags _ _ _ Ew). apply ephemeral_sign_fields in Ew as [Hkind Hcontent].
    split; [cbn; set_solver|]. rewrite Hkind, Hcontent. cbn. destruct mode; eauto. done.
Qed.

(** (C31) In every run, whatever the application, the server, the wallet and the
    scheduler do, every event the client hands to the relays is tagged with the key of
    the server; unless encryption is disabled it is a gift wrap, of a kind the
    gift-wrap mode allows, whose content is the signed event of the message, encrypted
    to the server; with encryption disabled it is a plain message event whose content
    is the text of the message. *)
Theorem client_outbound_policy `{!NostrLaws} actions :
  Forall (λ ob,
    public_key_tag server_pubkey ∈ ev_tags (ob_event ob) ∧
    match mode with
    | EncDisabled =>
        ev_kind (ob_event ob) = CTXVM_MESSAGES_KIND ∧
        ev_content (ob_event ob) = to_string (message_to_value (ob_message ob))
    | _ =>
        allows_kind (cc_gift_wrap_mode config) (ev_kind (ob_event ob)) = true ∧
        ∃ n signed, pool_sign n (mcp_to_nostr_event (ob_message ob) CTXVM_MESSAGES_KIND (ob_tags ob)) = Ok signed ∧
          encrypt_nip44 n server_pubkey (event_to_json signed) = Ok (ev_content (ob_event ob))
    end) (c_net (reached actions)).
Proof.
  eapply Forall_impl; [exact (ci_net _ (run_inv _ actions initial_inv))|]. intros ob [id Hob]. by eapply prepared_event.
Qed.

(** Capability announcement, in every run with any number of concurrent sends
    and failed publishes: a request goes out with the client's capability tags or
    after an event that carried them was accepted; no continuation frame of a
    fragmented request leaves before that either; and the latches tell the truth:
    once set, an event with the capability tags, and one with the recorded payment
    interaction, was accepted. *)
Theorem client_announces_capabilities actions :
  let c := reached actions in
  (∀ pre ob post, c_net c = pre ++ ob :: post → is_request (ob_message ob) = true →
     caps ⊆ ob_tags ob ∨ announced pre) ∧
  (∀ origin o rest, SendTask origin (SendChunks o rest) ∈ c_tasks c → announced (c_net c)) ∧
  (c_discovery_sent c = true → announced (c_net c)) ∧
  (∀ m, neg_last_sent (c_negotiation c) = Some m → mode_sent (c_net c) m).
Proof.
  cbv zeta. destruct (run_inv _ actions initial_inv) as [I1 I2 I3 I4 I5 I6]. split_and!; [exact I2| |exact I3|exact I4].
  intros origin o rest Hin. rewrite Forall_forall in I5. by destruct (I5 _ Hin) as (_ & ? & _).
Qed.
End frames.

(** ** A client that encrypts *)

Lemma client_outbound_policy_witness :
  let net := c_net (demo_client_run (λ _, false) [StartTransport 0 demo_start; SendMessage demo_tool_call;
                                                  run_first_task 1 0; run_first_task 1 0]) in
  map (λ ob, ev_kind (ob_event ob)) net = [GIFT_WRAP_KIND] ∧
  Forall (λ ob, public_key_tag "serve" ∈ ev_tags (ob_event ob)) net.
Proof.
  cbv zeta. split; [by vm_compute|].
  eapply Forall_impl; [apply (@client_outbound_policy list_cache _ bits_serde id_sha256 (demo_nostr (λ _, false))
    demo_client_config "serve" "2025" demo_client_options _)|]. by intros ob [? _].
Defined.
