(* ===== verification/ClientWallet.v ===== *)
(** * The client transport: the wallet

    Every run of the client, seen from the user code that holds the money: which
    offers reach the wallet, with whose approval, and how often. *)

From S2P Require Import Prelude Json CoreTypes OversizedFrame OversizedCodec Instances OversizedReceiver Lru RouteStore OpenStreamFrame OpenStreamSession OpenStreamRegistry PaymentTypes ServerTasks BaseTransport Announcements Discovery ClientPayments ClientState ClientOutbound ClientInbound ClientRuns.

Section wallet.
Context `{Lru L} `{SerdeJson} `{Sha256} `{Nostr}.
Variable config : NostrClientTransportConfig.
Variable server_pubkey version : string.
Variable options : ClientPaymentsOptions.
Implicit Types c : ClientTransport L.

Local Abbreviation step := (client_step config server_pubkey version options).
Local Abbreviation run := (client_run config server_pubkey version options).

(** ** Chains, offers and payments *)

(** The offer a task may still pay. *)
Definition chain_offer (t : engine_task) : option (PaymentHandler * PaymentHandlerRequest) :=
  match t with
  | ChainPolicy h p _ id | ChainCanHandle h p _ id | ChainHandle h p _ id => Some (h, handler_request p id)
  | _ => None
  end.
Definition live_offer (t : client_task) : option (PaymentHandler * PaymentHandlerRequest) :=
  match t with EngineTask t => chain_offer t | _ => None end.
Definition paid_offer (u : user_call) : option (PaymentHandler * PaymentHandlerRequest) :=
  match u with Paid h r => Some (h, r) | _ => None end.

Definition live c : list (PaymentHandler * PaymentHandlerRequest) := omap live_offer (c_tasks c).
Definition paid c : list (PaymentHandler * PaymentHandlerRequest) := omap paid_offer (c_calls c).
Definition in_flight c : gset string := match c_engine c with Some en => en_in_flight en | None => ∅ end.

(** The offer an event makes to the client in state [c]: from the server, for a
    request that waits for its answer, with a wallet for it, and not contrary to
    a refused explicit gating. *)
Definition offer_at (event : Event) c : option (PaymentHandler * PaymentHandlerRequest) :=
  match (open_event config event c).2 with
  | None => None
  | Some inner =>
      if negb (String.eqb (ev_pubkey inner) server_pubkey) then None
      else
        match get_tag_value (ev_tags inner) "e", validate_and_parse (ev_content inner) with
        | Some id, Some (Notification n) =>
            let negotiated := c_negotiation (learn server_pubkey event inner c) in
            if ClientStore.contains id (c_pending c)
               && String.eqb (notif_method n) PAYMENT_REQUIRED_METHOD
               && negb (gating (neg_requested negotiated) && negb (gating (neg_effective negotiated)))
            then
              match notif_params n ≫= de_payment_required with
              | Some params =>
                  match ClientEngine.handlers_by_pmi options !! preq_pmi params with
                  | Some h => Some (h, handler_request params id)
                  | None => None
                  end
              | None => None
              end
            else None
        | _, _ => None
        end
  end.

(** The offers received in a run. *)
Fixpoint offers c (actions : list client_action) : list (PaymentHandler * PaymentHandlerRequest) :=
  match actions with
  | [] => []
  | a :: rest =>
      match a with
      | Receive _ event => if c_running c then option_list (offer_at event c) else []
      | _ => []
      end ++ offers (step c a) rest
  end.

Definition offered_in c (actions : list client_action) (o : PaymentHandler * PaymentHandlerRequest) : Prop :=
  ∃ before now event after, actions = before ++ Receive now event :: after ∧
    offer_at event (run c before) = Some o.

(** ** The hooks of the engine *)

Section engine.
Implicit Types en : Engine L.

Definition no_chain (t : engine_task) : Prop := chain_offer t = None.

(** What the payments hooks may do: spawn keepalives, or one chain for a fresh invoice. *)
Definition hook_frame en en' (ts : list engine_task) (o : option engine_task) : Prop :=
  ∃ ts0, ts = ts0 ++ option_list o ∧ Forall no_chain ts0 ∧
  match o with
  | None => en_in_flight en' = en_in_flight en
  | Some t =>
      ∃ h p e id, t = ChainPolicy h p e id ∧ (preq_pay_req p ∉ en_in_flight en) ∧
        en_in_flight en' = ({[preq_pay_req p]} ∪ en_in_flight en)
  end.

Lemma stop_touch_in_flight id en : en_in_flight (ClientEngine.stop_touch_loop id en) = en_in_flight en.
Proof. unfold ClientEngine.stop_touch_loop. by destruct (_ !! id). Qed.

Lemma stop_keepalives_in_flight id e en : en_in_flight (ClientEngine.stop_keepalives id e en) = en_in_flight en.
Proof.
  unfold ClientEngine.stop_keepalives. destruct (_ ≫= _); cbn; apply stop_touch_in_flight.
Qed.

Lemma terminal_hook en e id m :
  let '(en', ts, _) := ClientEngine.on_terminal_response options e id m en in hook_frame en en' ts None.
Proof.
  unfold ClientEngine.on_terminal_response.
  set (en1 := match id with Some _ => _ | None => en end).
  assert (en_in_flight en1 = en_in_flight en) as H1' by (subst en1; destruct id; [apply stop_touch_in_flight|done]).
  set (en2 := match e ≫= pending_progress_token with Some _ => _ | None => en1 end).
  assert (en_in_flight en2 = en_in_flight en) as H2' by (subst en2; by destruct (e ≫= _)).
  clearbody en2. clear H1'.
  assert (∀ (en' : Engine L) ts, en_in_flight en' = en_in_flight en2 → Forall no_chain ts → hook_frame en en' ts None) as Hf.
  { intros en' ts Hf Hts. exists ts. rewrite Hf. by rewrite app_nil_r. }
  destruct m, e as [e|]; try by apply Hf.
  destruct (_ =? _).
  - destruct (_ ≫= de_required_data) as [d|]; [|by apply Hf].
    destruct (rdata_payment_options d); [by apply Hf|].
    unfold ClientEngine.intercept_payment_required_error. destruct (negb _); [by apply Hf|].
    destruct (lru_get _ _) as [cache [cached|]]; apply Hf; try done. by apply Forall_singleton.
  - destruct (_ =? _); [|by apply Hf]. destruct (_ ≫= pdata_retry_after) as [ra|]; [|by apply Hf].
    unfold ClientEngine.intercept_payment_pending_error. destruct (lru_peek _ _) as [cached|]; [|by apply Hf].
    destruct (_ <=? _); apply Hf; try done. by apply Forall_singleton.
Qed.

Lemma ensure_scheduler_hook en :
  let '(en', ts) := ClientEngine.ensure_scheduler en in en_in_flight en' = en_in_flight en ∧ Forall no_chain ts.
Proof. unfold ClientEngine.ensure_scheduler. destruct (_ || _); [done|]. split; [done|by apply Forall_singleton]. Qed.

Lemma register_heartbeat_hook now token ttl en :
  let '(en', _, ts, _) := ClientEngine.register_heartbeat now token ttl en in
  en_in_flight en' = en_in_flight en ∧ Forall no_chain ts.
Proof.
  unfold ClientEngine.register_heartbeat. destruct (_ !! _); [done|]. destruct (instant_add _ _); [|done].
  match goal with |- context [ClientEngine.ensure_scheduler ?en0] =>
    pose proof (ensure_scheduler_hook en0); by destruct (ClientEngine.ensure_scheduler en0) end.
Qed.

Lemma start_touch_hook now id ttl en :
  let '(en', ts, _) := ClientEngine.start_touch_loop now id ttl en in
  en_in_flight en' = en_in_flight en ∧ Forall no_chain ts.
Proof.
  unfold ClientEngine.start_touch_loop. destruct (_ !! _); [done|].
  destruct (instant_add _ _); (split; [done|]); [by apply Forall_singleton|done].
Qed.

(** The keepalives of an offer. *)
Lemma keepalive_hook now (e : PendingRequest) id ttl en :
  let '(en', _, ts, _) :=
    if 0 <? ttl then
      let '(en, pushed, spawned, ok) :=
        match pending_progress_token e with
        | Some token => ClientEngine.register_heartbeat now token ttl en
        | None => (en, [], [], true)
        end in
      if ok : bool then
        let '(en, loops, ok) := ClientEngine.start_touch_loop now id ttl en in (en, pushed, spawned ++ loops, ok)
      else (en, pushed, spawned, false)
    else (en, [], [], true) in
  en_in_flight en' = en_in_flight en ∧ Forall no_chain ts.
Proof.
  destruct (0 <? ttl); [|done].
  assert (∀ (en1 : Engine L) (ps : list JsonRpcMessage) ts (ok : bool), en_in_flight en1 = en_in_flight en → Forall no_chain ts →
    let '(en', _, ts, _) :=
      (if ok then let '(en2, loops, ok2) := ClientEngine.start_touch_loop now id ttl en1 in (en2, ps, ts ++ loops, ok2)
       else (en1, ps, ts, false)) in
    en_in_flight en' = en_in_flight en ∧ Forall no_chain ts) as Hrest.
  { intros en1 ps ts ok Hin Hts. destruct ok; [|done]. pose proof (start_touch_hook now id ttl en1) as Hl.
    destruct (ClientEngine.start_touch_loop now id ttl en1) as [[en2 loops] ok2]. destruct Hl as [-> Hl].
    split; [done|]. by apply Forall_app. }
  destruct (pending_progress_token e) as [token|]; [|by apply (Hrest en [] [] true)].
  pose proof (register_heartbeat_hook now token ttl en) as Hr.
  destruct (ClientEngine.register_heartbeat now token ttl en) as [[[en1 ps] ts] ok].
  by apply (Hrest en1 ps ts ok); apply Hr.
Qed.

(** A chain is spawned for an offer with a wallet, at most one per hook. *)
Lemma required_hook now n id e rg eg en :
  let '(en', _, ts, _) := ClientEngine.on_payment_required_notification options now n id e rg eg en in
  ∃ o, hook_frame en en' ts o ∧
    ∀ t, o = Some t → ∃ h p, t = ChainPolicy h p e id ∧ is_Some e ∧ rg && negb eg = false ∧
      notif_params n ≫= de_payment_required = Some p ∧
      ClientEngine.handlers_by_pmi options !! preq_pmi p = Some h.
Proof.
  unfold ClientEngine.on_payment_required_notification.
  assert (∀ en' ts, en_in_flight en' = en_in_flight en → Forall no_chain ts →
    ∃ o, hook_frame en en' ts o ∧ ∀ t, o = Some t → ∃ h p, t = ChainPolicy h p e id ∧ is_Some e ∧
      rg && negb eg = false ∧ notif_params n ≫= de_payment_required = Some p ∧
      ClientEngine.handlers_by_pmi options !! preq_pmi p = Some h) as Hf.
  { intros en' ts Hf Hts. exists None. split; [|done]. exists ts. by rewrite app_nil_r. }
  destruct e as [e|]; [|by apply Hf]. destruct (_ ≫= de_payment_required) as [p|] eqn:Ep; [|by apply Hf].
  destruct (rg && negb eg) eqn:Eg; [by apply Hf|].
  match goal with |- context [0 <? ?ttl] => pose proof (keepalive_hook now e id ttl en) as Hk end.
  match type of Hk with match ?k with _ => _ end => destruct k as [[[en1 ps] ts] ok] end. destruct Hk as [Hin Hts].
  destruct (negb ok); [by apply Hf|]. destruct (_ !! preq_pmi p) as [h|] eqn:Eh; [|by apply Hf].
  case_bool_decide as Hfl; [by apply Hf|].
  exists (Some (ChainPolicy h p (Some e) id)). split; [|intros t [= <-]; by exists h, p].
  exists ts. split; [done|]. split; [done|]. exists h, p, (Some e), id. rewrite <- Hin. done.
Qed.

Lemma payment_hook now n id e rg eg en :
  let '(en', _, ts, _) := ClientEngine.handle_payment_notification options now n id e rg eg en in
  ∃ o, hook_frame en en' ts o ∧
    ∀ t, o = Some t → notif_method n = PAYMENT_REQUIRED_METHOD ∧ ∃ h p, t = ChainPolicy h p e id ∧ is_Some e ∧
      rg && negb eg = false ∧ notif_params n ≫= de_payment_required = Some p ∧
      ClientEngine.handlers_by_pmi options !! preq_pmi p = Some h.
Proof.
  unfold ClientEngine.handle_payment_notification.
  assert (∀ (en' : Engine L), en_in_flight en' = en_in_flight en → hook_frame en en' [] None) as Hf.
  { intros en' Hf. exists []. by split_and!. }
  destruct (String.eqb_spec (notif_method n) PAYMENT_REQUIRED_METHOD) as [Hm|].
  - pose proof (required_hook now n id e rg eg en) as Hr.
    destruct (ClientEngine.on_payment_required_notification _ _ _ _ _ _ _ _) as [[[en' ps] ts] ok].
    destruct Hr as (o & Ho & Hr). exists o. split; [done|]. intros t Ht. split; [done|by apply Hr].
  - destruct (String.eqb _ PAYMENT_ACCEPTED_METHOD); [exists None; split; [apply Hf, stop_keepalives_in_flight|done]|].
    destruct (String.eqb _ PAYMENT_REJECTED_METHOD); [|exists None; by split; [apply Hf|]].
    destruct e; (exists None; split; [apply Hf, stop_keepalives_in_flight|done]).
Qed.
End engine.

(** ** The event loop *)

(** A step that leaves the engine and its tasks alone. *)
Local Abbreviation quiet := send_frame.

#[local] Instance quiet_preorder : PreOrder (@send_frame L).
Proof. split; [by intros c|]. intros c1 c2 c3. apply send_frame_trans. Qed.

Lemma publish_control_quiet f token c : quiet c (publish_control_frame config server_pubkey f token c).
Proof. unfold publish_control_frame. by destruct (send_mcp_message _ _ _ _ _ _ _ _). Qed.

Lemma forward_stripped_quiet n token c : quiet c (forward_stripped_progress n token c).
Proof.
  unfold forward_stripped_progress, original_progress_token. destruct (notif_params n); [|done].
  destruct (lru_get _ _) as [o [w|]]; [done|]. by destruct (get _ _).
Qed.

Lemma forward_progress_quiet n token c : quiet c (forward_progress n token c).
Proof. destruct token; [apply forward_stripped_quiet|done]. Qed.

Lemma touch_correlated_quiet now e c : quiet c (touch_correlated now e c).
Proof. by destruct e. Qed.

Lemma remove_original_quiet token c : quiet c (remove_original_progress_token token c).
Proof. by destruct token. Qed.

Lemma open_stream_quiet now n e c : quiet c (handle_inbound_open_stream_frame config server_pubkey now n e c).
Proof.
  unfold handle_inbound_open_stream_frame. etransitivity; [apply (touch_correlated_quiet now e)|].
  destruct (Registry.process_frame _ _ _) as [[r o] calls].
  etransitivity; [|destruct (is_terminal_outcome o); [apply remove_original_quiet|reflexivity]].
  etransitivity; [|apply forward_progress_quiet].
  transitivity (set_registry (touch_correlated now e c) r); [done|].
  destruct o as [[]|]; try done. destruct (frame_token n); [apply publish_control_quiet|done].
Qed.

Lemma client_sweep_quiet now c : quiet c (sweep_client_open_stream_sessions config server_pubkey now c).
Proof.
  unfold sweep_client_open_stream_sessions. destruct (Registry.tick_all _ _) as [r actions].
  transitivity (set_registry c r); [done|]. generalize (set_registry c r). clear.
  induction actions as [|[t a] actions IH]; intros c; cbn; [done|].
  etransitivity; [|apply IH]. destruct a; try done. apply publish_control_quiet.
Qed.

Lemma sweep_tick_quiet now c : quiet c (sweep_tick config server_pubkey now c).
Proof.
  unfold sweep_tick. etransitivity; [|destruct (sc_enabled _); [apply client_sweep_quiet|reflexivity]].
  by destruct (oc_enabled _).
Qed.

Lemma route_accept_quiet n token c : quiet c (route_accept n token c).
Proof.
  unfold route_accept. destruct token as [token|]; [|done]. destruct (_ !! _); [|done].
  etransitivity; [|apply forward_stripped_quiet]. done.
Qed.

Lemma learn_quiet event inner c : quiet c (learn server_pubkey event inner c).
Proof.
  unfold learn, learn_server_discovery.
  destruct (discovery_tags _); by destruct (should_learn_ephemeral_support _ _ _ _).
Qed.

(** What the event loop does to the chains: nothing, or one chain for the offer [o]. *)
Definition chain_frame c c' (o : option (PaymentHandler * PaymentHandlerRequest)) : Prop :=
  c_calls c' = c_calls c ∧
  ∃ ts, c_tasks c' = c_tasks c ++ (EngineTask <$> ts) ∧ omap chain_offer ts = option_list o ∧
  (∀ t, t ∈ ts → no_chain t ∨ ∃ h p e id, t = ChainPolicy h p e id) ∧
  match o with
  | None => in_flight c' = in_flight c
  | Some (_, r) => (phr_pay_req r ∉ in_flight c) ∧ in_flight c' = ({[phr_pay_req r]} ∪ in_flight c)
  end.

Lemma quiet_chain_frame c c' : quiet c c' → chain_frame c c' None.
Proof.
  intros (Ht & Hc & He). split; [done|]. exists []. unfold in_flight. rewrite Ht, He. cbn.
  split_and!; [by rewrite app_nil_r|done|set_solver|done].
Qed.

Lemma chain_frame_quiet c1 c2 c3 o : quiet c1 c2 → chain_frame c2 c3 o → chain_frame c1 c3 o.
Proof.
  intros (Ht & Hc & He) (Hc' & ts & Ht' & Hr). split; [congruence|]. exists ts. split; [congruence|].
  unfold in_flight in *. by rewrite He in Hr.
Qed.

Lemma chain_frame_push c1 c2 c3 o : chain_frame c1 c2 o → quiet c2 c3 → chain_frame c1 c3 o.
Proof.
  intros (Hc' & ts & Ht' & Hr) (Ht & Hc & He). split; [congruence|]. exists ts. split; [congruence|].
  unfold in_flight in *. by rewrite He.
Qed.

Lemma no_chains ts : Forall no_chain ts → omap chain_offer ts = [].
Proof. induction 1 as [|t ts Ht _ IH]; [done|]. cbn. rewrite Ht. exact IH. Qed.

(** A hook of the engine, seen from the transport. *)
Lemma hook_chain_frame c en en' ts o ps :
  c_engine c = Some en → hook_frame en en' ts o →
  chain_frame c (push ps (spawn (EngineTask <$> ts) (set_engine c (Some en')))) (o ≫= chain_offer).
Proof.
  intros He (ts0 & -> & Hno & Ho). split; [done|]. exists (ts0 ++ option_list o). split; [done|].
  rewrite omap_app, (no_chains ts0 Hno). unfold in_flight. rewrite He. cbn.
  rewrite Forall_forall in Hno. destruct o as [t|].
  - destruct Ho as (h & p & e & id & -> & Hfl & Hin). cbn. split_and!; [done| |done|done].
    intros t [Hin'| ->%list_elem_of_singleton]%elem_of_app; [left; by apply Hno|right; eauto].
  - split_and!; [done| |done]. intros t. rewrite app_nil_r. left. by apply Hno.
Qed.

Lemma deliver_terminal_chains e m c : chain_frame c (deliver_terminal options e m c) None.
Proof.
  unfold deliver_terminal, consume_terminal_response.
  set (ce := match e with Some _ => _ | None => _ end).
  assert (quiet c ce.1) as Hce.
  { subst ce. destruct e; [|done]. destruct (terminal_message m); [|done]. by destruct (ClientStore.remove _ _). }
  destruct ce as [c1 entry]. apply (chain_frame_quiet _ _ _ _ Hce). destruct (c_engine c1) as [en|] eqn:He; [|by apply quiet_chain_frame].
  pose proof (terminal_hook en entry e m) as Hh.
  destruct (ClientEngine.on_terminal_response _ _ _ _ _) as [[en' ts] d].
  exact (hook_chain_frame _ _ _ _ None _ He Hh).
Qed.

Lemma oversized_frame_chains now n e c : chain_frame c (handle_oversized_frame options now n e c) None.
Proof.
  unfold handle_oversized_frame. destruct (is_accept n); [apply quiet_chain_frame, route_accept_quiet|].
  apply (chain_frame_quiet _ _ _ _ (touch_correlated_quiet now e c)).
  destruct (OversizedReceiver.process_frame _ _ _) as [r [[m|]|err]].
  - eapply chain_frame_quiet; [|apply deliver_terminal_chains]. etransitivity; [|apply remove_original_quiet]. done.
  - apply quiet_chain_frame. transitivity (set_oversized (touch_correlated now e c) r); [done|].
    destruct (match frame_token n with Some _ => _ | None => _ end); [apply forward_progress_quiet|done].
  - apply quiet_chain_frame. etransitivity; [|apply remove_original_quiet]. done.
Qed.

Lemma notify_engine_chains now n id en c :
  c_engine c = Some en →
  ∃ o, chain_frame c (notify_engine options now n id en c).1 o ∧
    ∀ x, o = Some x → notif_method n = PAYMENT_REQUIRED_METHOD ∧
      gating (neg_requested (c_negotiation c)) && negb (gating (neg_effective (c_negotiation c))) = false ∧
      ∃ p h, notif_params n ≫= de_payment_required = Some p ∧
        ClientEngine.handlers_by_pmi options !! preq_pmi p = Some h ∧ x = (h, handler_request p id).
Proof.
  intros He. unfold notify_engine.
  match goal with |- context [ClientEngine.handle_payment_notification _ _ _ _ ?e ?rg ?eg _] =>
    pose proof (payment_hook now n id e rg eg en) as Hh;
    destruct (ClientEngine.handle_payment_notification options now n id e rg eg en) as [[[en' ps] ts] fw] end.
  destruct Hh as (o & Ho & Hspec). exists (o ≫= chain_offer). split; [by apply (hook_chain_frame _ en)|].
  intros x Hx. destruct o as [t|]; [|done]. destruct (Hspec t eq_refl) as (Hm & h & p & -> & _ & Hg & Hp & Hh).
  injection Hx as <-. split_and!; [done|done|]. by exists p, h.
Qed.

Lemma mcp_notification_chains now n e c :
  ∃ o, chain_frame c (handle_mcp_notification options now n e c) o ∧
    ∀ x, o = Some x → notif_method n = PAYMENT_REQUIRED_METHOD ∧
      gating (neg_requested (c_negotiation c)) && negb (gating (neg_effective (c_negotiation c))) = false ∧
      ∃ id p h, e = Some id ∧ notif_params n ≫= de_payment_required = Some p ∧
        ClientEngine.handlers_by_pmi options !! preq_pmi p = Some h ∧ x = (h, handler_request p id).
Proof.
  unfold handle_mcp_notification. set (c1 := if String.eqb _ _ then _ else c).
  assert (quiet c c1 ∧ c_negotiation c1 = c_negotiation c) as [Hq Hneg].
  { subst c1. destruct (String.eqb _ _); [|done]. by destruct e. }
  assert (∀ (fw : option bool) c2, quiet c2
            (match fw with Some true => push [Notification n] c2 | Some false => c2 | None => set_running c2 false end))
    as Hfw by (by intros [[]|] c2).
  assert (∃ o, chain_frame c (push [Notification n] c1) o ∧ o = None) as Hplain.
  { exists None. split; [|done]. apply quiet_chain_frame. etransitivity; [exact Hq|done]. }
  destruct (c_engine c1) as [en|] eqn:He, e as [id|]; try by (destruct Hplain as (? & ? & ->); exists None).
  destruct (is_payment_notification_method _); [|by destruct Hplain as (? & ? & ->); exists None].
  destruct (notify_engine_chains now n id en c1 He) as (o & Ho & Hspec).
  destruct (notify_engine options now n id en c1) as [c2 fw]. exists o. split.
  - eapply chain_frame_quiet; [exact Hq|]. eapply chain_frame_push; [exact Ho|apply Hfw].
  - intros x Hx. destruct (Hspec x Hx) as (Hm & Hg & p & h & Hp). rewrite Hneg in Hg. split_and!; [done|done|].
    by exists id, p, h.
Qed.

(** (Receiving) One relay event starts at most the chain of the offer it makes. *)
Lemma handle_notification_chains now event c :
  ∃ o, chain_frame c (handle_notification config server_pubkey options now event c) o ∧
       (o = None ∨ o = offer_at event c).
Proof.
  unfold handle_notification, offer_at. destruct (open_event_state config event c) as [seen Hs].
  destruct (open_event config event c) as [c1 [inner|]]; cbn in Hs |- *; subst c1;
    [|exists None; split; [by apply quiet_chain_frame|by left]].
  destruct (negb (String.eqb _ _)); [exists None; split; [by apply quiet_chain_frame|by left]|].
  set (c1 := learn server_pubkey event inner (set_seen c seen)).
  assert (quiet c c1) as Hq by (etransitivity; [|apply learn_quiet]; done).
  assert (c_negotiation c1 = c_negotiation (learn server_pubkey event inner c) ∧ c_pending c1 = c_pending c) as [Hneg Hpend].
  { subst c1. unfold learn, learn_server_discovery.
    destruct (discovery_tags _); by destruct (should_learn_ephemeral_support _ _ _ _). }
  unfold handle_content. destruct (if sc_enabled _ then _ else _).
  { exists None. split; [|by left]. eapply chain_frame_quiet; [exact Hq|]. apply quiet_chain_frame, open_stream_quiet. }
  destruct (progress_frame _ _).
  { exists None. split; [|by left]. eapply chain_frame_quiet; [exact Hq|]. apply oversized_frame_chains. }
  unfold handle_plain.
  destruct (correlated _ _) eqn:Ecor; cbn [negb]; [|exists None; split; [by apply quiet_chain_frame|by left]].
  destruct (validate_and_parse _) as [[req|resp|err|n]|]; try (exists None; split; [by apply quiet_chain_frame|by left]).
  1,2: destruct (get_tag_value _ _); exists None; (split; [|by left]);
    [eapply chain_frame_quiet; [exact Hq|apply deliver_terminal_chains]|by apply quiet_chain_frame].
  destruct (mcp_notification_chains now n (get_tag_value (ev_tags inner) "e") c1) as (o & Ho & Hspec).
  exists o. split; [by eapply chain_frame_quiet|]. destruct o as [x|]; [right|by left].
  destruct (Hspec x eq_refl) as (Hm & Hg & id & p & h & He & Hp & Hh & ->).
  rewrite He in Ecor |- *. cbn in Ecor. rewrite Hpend in Ecor. rewrite Ecor, Hm, String.eqb_refl, <- Hneg, Hg. cbn.
  by rewrite Hp, Hh.
Qed.

(** ** The tasks *)

(** A step of a task: its next state, the calls it made, the invoice it let go. *)
Inductive task_effect : client_task → client_task → list user_call → option string → Prop :=
| effect_other t t' calls :
    live_offer t = None → live_offer t' = None → omap paid_offer calls = [] → task_effect t t' calls None
| effect_policy h p e id calls :
    (opt_payment_policy options = true → calls = [AskedPolicy (handler_request p id) true]) →
    omap paid_offer calls = [] →
    task_effect (EngineTask (ChainPolicy h p e id)) (EngineTask (ChainCanHandle h p e id)) calls None
| effect_willing h p e id :
    task_effect (EngineTask (ChainCanHandle h p e id)) (EngineTask (ChainHandle h p e id))
      [AskedWallet h (handler_request p id) true] None
| effect_pay h p e id :
    task_effect (EngineTask (ChainHandle h p e id)) DoneTask [Paid h (handler_request p id)] (Some (preq_pay_req p))
| effect_drop t h r calls :
    live_offer t = Some (h, r) → omap paid_offer calls = [] →
    task_effect t DoneTask calls (Some (phr_pay_req r)).

Definition released (f : gset string) (o : option string) : gset string :=
  match o with Some pay_req => f ∖ {[pay_req]} | None => f end.

Lemma engine_task_effect now cancelled ua t pending (en : Engine L) :
  let '(_, en', _, calls, next) := ClientEngine.task_step options now cancelled ua t pending en in
  ∃ o, task_effect (EngineTask t) (after_engine_step next) calls o ∧
       en_in_flight en' = released (en_in_flight en) o.
Proof.
  destruct t as [h p e id|h p e id|h p e id|id params|id request delay|id token stop|]; cbn [ClientEngine.task_step].
  - cbn. destruct (opt_payment_policy options) eqn:Ep; cbn.
    + destruct (ClientEngine.ua_policy ua) as [[]|]; cbn; [exists None|exists (Some (preq_pay_req p))..]; (split; [|try done]).
      * by apply effect_policy.
      * by apply (effect_drop _ h (handler_request p id)).
      * by rewrite stop_keepalives_in_flight.
      * by apply (effect_drop _ h (handler_request p id)).
    + exists None. split; [|done]. by apply effect_policy; [rewrite Ep|].
  - cbn. destruct (ClientEngine.ua_can_handle ua) as [[]|]; cbn; [exists None|exists (Some (preq_pay_req p))..]; (split; [|try done]).
    + apply effect_willing.
    + by apply (effect_drop _ h (handler_request p id)).
    + by rewrite stop_keepalives_in_flight.
    + by apply (effect_drop _ h (handler_request p id)).
  - cbn. exists (Some (preq_pay_req p)). split; [apply effect_pay|done].
  - unfold ClientEngine.approval_step.
    destruct (ClientEngine.ua_approval ua) as [[ap|err]|]; [destruct (approval_paid ap)|..]; cbn;
      exists None; (split; [by apply effect_other|done]).
  - exists None. split; [|done]. unfold ClientEngine.retry_step. by destruct (_ && _); apply effect_other.
  - unfold ClientEngine.touch_step.
    destruct (cancelled && _); [exists None; by split; [apply effect_other|]|].
    destruct (_ <=? _); [exists None; by split; [apply effect_other|]|].
    destruct (ClientStore.touch _ _ _) as [p []]; exists None; by split; [apply effect_other|].
  - unfold ClientEngine.scheduler_step.
    destruct (_ =? 0); [exists None; by split; [apply effect_other|]|].
    destruct (cancelled && _); [exists None; by split; [apply effect_other|]|].
    case_bool_decide; exists None; by split; [apply effect_other|].
Qed.

Lemma run_task_effect now cancelled ua i c :
  let c' := run_task config server_pubkey version options now cancelled ua i c in
  (c_tasks c' = c_tasks c ∧ c_calls c' = c_calls c ∧ in_flight c' = in_flight c) ∨
  ∃ t t' calls o, c_tasks c !! i = Some t ∧ c_tasks c' = <[i := t']> (c_tasks c) ∧
    c_calls c' = c_calls c ++ calls ∧ task_effect t t' calls o ∧ in_flight c' = released (in_flight c) o.
Proof.
  cbv zeta. unfold run_task. destruct (c_tasks c !! i) as [[t|origin s|]|] eqn:Et; [..|by left|by left].
  - destruct (c_engine c) as [en|] eqn:He; [|by left]. right.
    pose proof (engine_task_effect now cancelled ua t (c_pending c) en) as Ht.
    destruct (ClientEngine.task_step _ _ _ _ _ _ _) as [[[[p en'] ps] calls] next].
    destruct Ht as (o & Heff & Hin). exists (EngineTask t), (after_engine_step next), calls, o.
    unfold in_flight. rewrite He. by split_and!.
  - right. match goal with |- context [send_step _ _ _ _ ?tx _ _] =>
      pose proof (send_step_frame config server_pubkey version now tx s c) as Hst end.
    destruct (send_step _ _ _ _ _ _ _) as [c' s']. cbn in Hst. destruct Hst as (Ht & Hc & Hen).
    exists (SendTask origin s). unfold in_flight.
    destruct origin as [|f], s' as [| | | | | |[]]; cbn;
      (eexists _, [], None; split_and!; [done|by rewrite Ht|by rewrite app_nil_r, Hc|by apply effect_other|by cbn; rewrite Hen]).
Qed.

(** ** Steps *)

(** New tasks, of which at most the chain of [o] may pay. *)
Definition grow_frame c c' (o : option (PaymentHandler * PaymentHandlerRequest)) : Prop :=
  c_calls c' = c_calls c ∧
  ∃ ts, c_tasks c' = c_tasks c ++ ts ∧ omap live_offer ts = option_list o ∧
  ∀ t, t ∈ ts → live_offer t = None ∨ ∃ h p e id, t = EngineTask (ChainPolicy h p e id).

Definition flight_frame c c' (o : option (PaymentHandler * PaymentHandlerRequest)) : Prop :=
  match o with
  | None => in_flight c' = in_flight c
  | Some (_, r) => (phr_pay_req r ∉ in_flight c) ∧ in_flight c' = ({[phr_pay_req r]} ∪ in_flight c)
  end.

Lemma chain_grow_frame c c' o : chain_frame c c' o → grow_frame c c' o ∧ flight_frame c c' o.
Proof.
  intros (Hc & ts & Ht & Ho & Hall & Hf). split; [|done]. split; [done|]. exists (EngineTask <$> ts).
  split_and!; [done| |].
  - rewrite <- Ho. clear. induction ts as [|t ts IH]; [done|]. cbn. by rewrite IH.
  - intros t (t' & -> & Hin)%list_elem_of_fmap. destruct (Hall t' Hin) as [?|(h & p & e & id & ->)]; [by left|].
    right. eauto.
Qed.

Lemma same_grow_frame c c' : c_calls c' = c_calls c → c_tasks c' = c_tasks c → grow_frame c c' None.
Proof. intros Hc Ht. split; [done|]. exists []. rewrite Ht, app_nil_r. split_and!; [done|done|set_solver]. Qed.

Lemma close_finish_frame answer c :
  quiet c (close_finish answer c).1.
Proof. unfold close_finish, disconnect. by repeat (case_match; simplify_eq/=). Qed.

Lemma start_quiet now sa c : quiet c (start now sa c).1.1.
Proof. unfold start, connect. by repeat (case_match; simplify_eq/=). Qed.

Lemma abort_stream_quiet token reason c : quiet c (abort_open_stream config server_pubkey token reason c).
Proof.
  unfold abort_open_stream. destruct (Registry.get_session _ _) as [ref|]; [|done].
  unfold abort_session. by repeat (case_match; simplify_eq/=).
Qed.

Lemma step_cases c a :
  (∃ o, grow_frame c (step c a) o ∧ (a = CloseBegin ∨ flight_frame c (step c a) o) ∧
     (o = None ∨ ∃ now event, a = Receive now event ∧ c_running c = true ∧ o = offer_at event c)) ∨
  (∃ i t t' calls o, c_tasks c !! i = Some t ∧ c_tasks (step c a) = <[i := t']> (c_tasks c) ∧
     c_calls (step c a) = c_calls c ++ calls ∧ task_effect t t' calls o ∧
     in_flight (step c a) = released (in_flight c) o).
Proof.
  assert (∀ c', quiet c c' → ∃ o, grow_frame c c' o ∧ (a = CloseBegin ∨ flight_frame c c' o) ∧
     (o = None ∨ ∃ now event, a = Receive now event ∧ c_running c = true ∧ o = offer_at event c)) as Hq.
  { intros c' Hc'. exists None. destruct (chain_grow_frame _ _ _ (quiet_chain_frame _ _ Hc')). eauto. }
  assert (∀ c', c_calls c' = c_calls c → c_tasks c' = c_tasks c → a = CloseBegin ∨ in_flight c' = in_flight c →
     ∃ o, grow_frame c c' o ∧ (a = CloseBegin ∨ flight_frame c c' o) ∧
     (o = None ∨ ∃ now event, a = Receive now event ∧ c_running c = true ∧ o = offer_at event c)) as Hs.
  { intros c' Hc' Ht Hf. exists None. split_and!; [by apply same_grow_frame|done|by left]. }
  destruct a as [|interaction|pmis|now sa|m| | |token reason|ref|now|now event|now| |now cancelled ua i| |answer];
    cbn [client_step].
  1: left; apply Hs; unfold with_client_payments;
       [by repeat case_match|by repeat case_match|right; unfold in_flight; by repeat (case_match; simplify_eq/=)].
  1,2: left; by apply Hq.
  - left. apply Hq. destruct (_ || _); [done|]. apply start_quiet.
  - left. exists None. split_and!; [|right; unfold flight_frame, in_flight; cbn; by destruct (c_engine c) as [en|], m|by left].
    split; [done|]. eexists. split_and!; [done|done|]. intros t ->%list_elem_of_singleton. by left.
  - left. by apply Hq.
  - left. by apply Hq.
  - left. apply Hq, abort_stream_quiet.
  - left. by apply Hq.
  - left. apply Hq, client_sweep_quiet.
  - left. destruct (c_running c) eqn:Er; [|by apply Hq].
    destruct (handle_notification_chains now event c) as (o & Ho & Hoff). exists o.
    destruct (chain_grow_frame _ _ _ Ho). split_and!; [done|by right|].
    destruct Hoff as [->| ->]; [by left|right; eauto].
  - left. apply Hq. destruct (c_running c); [apply sweep_tick_quiet|done].
  - left. by apply Hq.
  - destruct (run_task_effect now cancelled ua i c) as [(Ht & Hc & Hf)|(t & t' & calls & o & Hr)].
    + left. apply Hs; [done|done|by right].
    + right. exists i, t, t', calls, o. exact Hr.
  - left. apply Hs; [done|done|by left].
  - left. apply Hq. destruct (_ && _); [apply close_finish_frame|done].
Qed.

(** ** Authorization *)

Definition approved (calls : list user_call) (r : PaymentHandlerRequest) : Prop :=
  opt_payment_policy options = true → AskedPolicy r true ∈ calls.

Section authorization.
Variable offered : PaymentHandler * PaymentHandlerRequest → Prop.

Definition chain_ok (calls : list user_call) (t : client_task) : Prop :=
  match t with
  | EngineTask (ChainPolicy h p _ id) => offered (h, handler_request p id)
  | EngineTask (ChainCanHandle h p _ id) =>
      offered (h, handler_request p id) ∧ approved calls (handler_request p id)
  | EngineTask (ChainHandle h p _ id) =>
      offered (h, handler_request p id) ∧ approved calls (handler_request p id) ∧
      AskedWallet h (handler_request p id) true ∈ calls
  | _ => True
  end.

Record wallet_authorized c : Prop := {
  au_paid : ∀ pre h r post, c_calls c = pre ++ Paid h r :: post →
    AskedWallet h r true ∈ pre ∧ approved pre r ∧ offered (h, r);
  au_tasks : Forall (chain_ok (c_calls c)) (c_tasks c);
}.

Lemma chain_ok_app calls l t : chain_ok calls t → chain_ok (calls ++ l) t.
Proof. unfold chain_ok, approved. destruct t as [[]| |]; cbn; rewrite ?elem_of_app; naive_solver. Qed.

Lemma chain_ok_other calls t : live_offer t = None → chain_ok calls t.
Proof. by destruct t as [[]| |]. Qed.

(** New calls keep the payments in order. *)
Lemma paid_snoc calls l :
  (∀ pre h r post, calls = pre ++ Paid h r :: post → AskedWallet h r true ∈ pre ∧ approved pre r ∧ offered (h, r)) →
  (omap paid_offer l = [] ∨ ∃ h r, l = [Paid h r] ∧ AskedWallet h r true ∈ calls ∧ approved calls r ∧ offered (h, r)) →
  ∀ pre h r post, calls ++ l = pre ++ Paid h r :: post →
    AskedWallet h r true ∈ pre ∧ approved pre r ∧ offered (h, r).
Proof.
  intros Hc Hl pre h r post Heq. apply app_eq_inv in Heq as [(k & -> & Hk)|(k & -> & ->)].
  - destruct k as [|u k]; cbn in Hk.
    + rewrite app_nil_r in *. destruct Hl as [Hl|(h' & r' & -> & Hw)]; [by rewrite <- Hk in Hl|].
      by injection Hk as -> -> _.
    + injection Hk as <- ->. by apply (Hc pre h r k).
  - destruct Hl as [Hl|(h' & r' & Hl & Hw)].
    + rewrite omap_app in Hl. cbn in Hl. by apply app_eq_nil in Hl as [_ ?].
    + destruct k as [|u k]; cbn in Hl; [|by destruct k]. injection Hl as <- <-. rewrite app_nil_r. done.
Qed.
End authorization.

Lemma chain_ok_mono (P Q : PaymentHandler * PaymentHandlerRequest → Prop) calls t :
  (∀ x, P x → Q x) → chain_ok P calls t → chain_ok Q calls t.
Proof. intros HPQ. destruct t as [[]| |]; cbn; naive_solver. Qed.

(** A step of a task keeps its chain authorized, and pays with all the answers. *)
Lemma task_effect_ok P t t' calls new o :
  task_effect t t' new o → chain_ok P calls t →
  chain_ok P (calls ++ new) t' ∧
  (omap paid_offer new = [] ∨
   ∃ h r, new = [Paid h r] ∧ AskedWallet h r true ∈ calls ∧ approved calls r ∧ P (h, r)).
Proof.
  intros Heff Ht. destruct Heff as [t t' new Hl Hl' Hn|h p e id new Hpol Hn|h p e id|h p e id|t h r new Hl Hn]; cbn in *.
  - split; [by apply chain_ok_other|by left].
  - split; [|by left]. split; [done|]. intros Hp. rewrite (Hpol Hp). set_solver.
  - split; [|by left]. unfold approved in *. rewrite !elem_of_app. set_solver.
  - split; [done|]. right. eexists _, _. split; [done|]. by destruct Ht as (? & ? & ?).
  - by split; [|left].
Qed.

Lemma wallet_step (P Q : PaymentHandler * PaymentHandlerRequest → Prop) c a :
  (∀ x, P x → Q x) →
  (∀ now event x, a = Receive now event → offer_at event c = Some x → Q x) →
  wallet_authorized P c → wallet_authorized Q (step c a).
Proof.
  intros HPQ Hnew [Hpaid Htasks].
  assert (∀ pre h r post, c_calls c = pre ++ Paid h r :: post → AskedWallet h r true ∈ pre ∧ approved pre r ∧ Q (h, r))
    as HpaidQ by (intros pre h r post Heq; destruct (Hpaid pre h r post Heq) as (? & ? & ?); eauto).
  assert (Forall (chain_ok Q (c_calls c)) (c_tasks c)) as HtasksQ
    by (eapply Forall_impl; [exact Htasks|intros; by eapply chain_ok_mono]).
  destruct (step_cases c a) as [(o & (Hc & ts & Ht & Ho & Hall) & _ & Hoff)|(i & t & t' & new & o & Hi & Ht & Hc & Heff & _)].
  - split; rewrite ?Hc, ?Ht; [done|]. apply Forall_app. split; [done|]. apply Forall_forall. intros t Hin.
    destruct (Hall t Hin) as [Hl|(h & p & e & id & ->)]; [by apply chain_ok_other|]. cbn.
    assert ((h, handler_request p id) ∈ option_list o) as Hx.
    { rewrite <- Ho. apply list_elem_of_omap. by exists (EngineTask (ChainPolicy h p e id)). }
    destruct o as [x|]; cbn in Hx; [|set_solver]. apply list_elem_of_singleton in Hx as <-.
    destruct Hoff as [?|(now & event & -> & _ & Heq)]; [done|]. by eapply Hnew.
  - pose proof (Forall_lookup_1 _ _ _ _ HtasksQ Hi) as Hok.
    destruct (task_effect_ok Q t t' (c_calls c) new o Heff Hok) as [Hok' Hpay].
    split; rewrite ?Hc, ?Ht; [by apply paid_snoc|].
    apply Forall_insert; [|done]. eapply Forall_impl; [exact HtasksQ|]. intros. by apply chain_ok_app.
Qed.

Lemma run_snoc c actions a : run c (actions ++ [a]) = step (run c actions) a.
Proof. unfold client_run. by rewrite foldl_app. Qed.

Lemma wallet_run actions : wallet_authorized (offered_in (initial_client config) actions) (run (initial_client config) actions).
Proof.
  induction actions as [|a actions IH] using rev_ind.
  - split; cbn; [by intros []|done].
  - rewrite run_snoc. eapply wallet_step, IH.
    + intros x (before & now & event & after & -> & Hx). exists before, now, event, (after ++ [a]).
      by rewrite <- app_assoc.
    + intros now event x -> Hx. by exists actions, now, event, [].
Qed.

(** (C3) The wallet pays only authorized offers.  In every run, a call of a
    wallet's [handle] comes after the same wallet said it can pay this very
    request and, where a payment policy is set, after the policy approved it; and
    the request is an offer of the server: it came in an event that passed the
    encryption policy and whose author is the server (with a verified signature
    when it was gift-wrapped), tagged with a request of the client that was still
    waiting for its answer, for a payment method that wallet is registered for, and
    not against a refused explicit gating. *)
Theorem wallet_pays_authorized_offers actions pre h r post :
  c_calls (run (initial_client config) actions) = pre ++ Paid h r :: post →
  AskedWallet h r true ∈ pre ∧
  (opt_payment_policy options = true → AskedPolicy r true ∈ pre) ∧
  ∃ before now event after, actions = before ++ Receive now event :: after ∧
    offer_at event (run (initial_client config) before) = Some (h, r).
Proof. apply (au_paid _ _ (wallet_run actions)). Qed.

(** ** Accounting *)

Lemma offers_snoc c actions a :
  offers c (actions ++ [a]) =
  offers c actions ++ match a with
                      | Receive _ event =>
                          let c' := run c actions in if c_running c' then option_list (offer_at event c') else []
                      | _ => []
                      end.
Proof.
  revert c. induction actions as [|b actions IH]; intros c; cbn [offers app]; [by rewrite app_nil_r|].
  rewrite IH, <- app_assoc. done.
Qed.

Lemma live_insert i t t' c :
  c_tasks c !! i = Some t →
  ∃ l1 l2, live c = l1 ++ option_list (live_offer t) ++ l2 ∧
    omap live_offer (<[i := t']> (c_tasks c)) = l1 ++ option_list (live_offer t') ++ l2.
Proof.
  intros Hi. exists (omap live_offer (take i (c_tasks c))), (omap live_offer (drop (S i) (c_tasks c))).
  assert (∀ (x : client_task) l, omap live_offer (x :: l) = option_list (live_offer x) ++ omap live_offer l) as Hcons
    by (intros x l; cbn; by destruct (live_offer x)).
  split.
  - unfold live. rewrite <- (take_drop_middle _ _ _ Hi) at 1. by rewrite omap_app, Hcons.
  - rewrite insert_take_drop by by eapply lookup_lt_Some. by rewrite omap_app, Hcons.
Qed.

Lemma task_effect_live t t' new o :
  task_effect t t' new o →
  omap paid_offer new ++ option_list (live_offer t') ⊆+ option_list (live_offer t).
Proof.
  intros [?? ? Hl Hl' Hn|? ? ? ? ? ? Hn|?|?|? ? ? ? Hl Hn]; cbn; rewrite ?Hl, ?Hl', ?Hn; try done.
  by apply submseteq_nil_l.
Qed.

Lemma accounts_step c a l :
  paid c ++ live c ⊆+ l →
  paid (step c a) ++ live (step c a) ⊆+
    l ++ match a with
         | Receive _ event => if c_running c then option_list (offer_at event c) else []
         | _ => []
         end.
Proof.
  intros Hacc. unfold paid, live.
  destruct (step_cases c a) as [(o & (Hc & ts & Ht & Ho & Hall) & _ & Hoff)|(i & t & t' & new & o & Hi & Ht & Hc & Heff & _)];
    rewrite Hc, Ht.
  - rewrite omap_app, Ho, app_assoc. apply submseteq_app; [done|].
    destruct Hoff as [->|(now & event & -> & -> & ->)]; [apply submseteq_nil_l|done].
  - transitivity l; [|by apply submseteq_inserts_r].
    etransitivity; [|exact Hacc]. destruct (live_insert i t t' c Hi) as (l1 & l2 & Hl & ->).
    unfold paid. rewrite Hl, omap_app. pose proof (task_effect_live _ _ _ _ Heff) as Hle.
    rewrite <- app_assoc. apply submseteq_app; [done|].
    transitivity (l1 ++ (omap paid_offer new ++ option_list (live_offer t')) ++ l2).
    + apply Permutation_submseteq. solve_Permutation.
    + by apply submseteq_app, submseteq_app.
Qed.

(** The wallet pays each offer at most once: in every run, the payments and
    the chains that may still pay are, with their multiplicities, among the
    offers received. *)
Theorem wallet_pays_each_offer_once actions :
  let c := run (initial_client config) actions in
  paid c ++ live c ⊆+ offers (initial_client config) actions.
Proof.
  cbv zeta. induction actions as [|a actions IH] using rev_ind; [done|].
  rewrite run_snoc, offers_snoc. cbv zeta. by apply accounts_step.
Qed.

(** ** One chain per invoice *)

Definition invoices c : list string := (λ x, phr_pay_req x.2) <$> live c.

Definition one_chain c : Prop := NoDup (invoices c) ∧ ∀ pay_req, pay_req ∈ invoices c → pay_req ∈ in_flight c.

Lemma one_chain_step c a : a ≠ CloseBegin → one_chain c → one_chain (step c a).
Proof.
  intros Ha [Hnd Hin]. unfold one_chain, invoices, live in *.
  destruct (step_cases c a) as [(o & (Hc & ts & Ht & Ho & Hall) & [?|Hf] & _)|(i & t & t' & new & o & Hi & Ht & _ & Heff & Hf)];
    [done|..].
  - rewrite Ht, omap_app, Ho. destruct o as [[h r]|]; cbn in Hf |- *; [|by rewrite app_nil_r, Hf].
    destruct Hf as [Hfresh ->]. rewrite fmap_app. cbn. split.
    + apply NoDup_app. split_and!; [done| |apply NoDup_singleton].
      intros x Hx ->%list_elem_of_singleton. by apply Hfresh, Hin.
    + intros x [?| ->%list_elem_of_singleton]%elem_of_app; set_solver.
  - destruct (live_insert i t t' c Hi) as (l1 & l2 & Hl & Hl'). unfold live in Hl. rewrite Ht, Hl', Hf.
    rewrite Hl in Hnd, Hin.
    assert (∀ h r, live_offer t = Some (h, r) → live_offer t' = None →
      NoDup ((λ x, phr_pay_req x.2) <$> l1 ++ option_list (live_offer t') ++ l2) ∧
      ∀ pay_req, pay_req ∈ ((λ x, phr_pay_req x.2) <$> l1 ++ option_list (live_offer t') ++ l2) →
        pay_req ∈ in_flight c ∖ {[phr_pay_req r]}) as Hdrop.
    { intros h r Ho Ho'. rewrite Ho in Hnd, Hin. rewrite Ho'. cbn in Hnd, Hin |- *. rewrite fmap_app in Hnd. cbn in Hnd.
      rewrite <- Permutation_middle in Hnd. apply NoDup_cons in Hnd as [Hni Hnd]. rewrite fmap_app in *. split; [done|].
      intros x Hx. apply elem_of_difference. split; [|set_solver]. apply Hin. cbn. set_solver. }
    destruct Heff as [? ? ? E1 E2|h p e id ? ?|h p e id|h p e id|? h r ? E1]; cbn in Hnd, Hin |- *.
    + rewrite E1 in Hnd, Hin. by rewrite E2.
    + done.
    + done.
    + by apply (Hdrop h (handler_request p id)).
    + by apply (Hdrop h r).
Qed.

(** (C10) While the transport is not being closed, no two chains are under way for
    the same invoice: in every run, the chains that may still pay are for different
    payment requests, all of them recorded as in flight. *)
Theorem one_chain_per_invoice actions :
  CloseBegin ∉ actions →
  let c := run (initial_client config) actions in
  NoDup (invoices c) ∧ ∀ pay_req, pay_req ∈ invoices c → pay_req ∈ in_flight c.
Proof.
  cbv zeta. induction actions as [|a actions IH] using rev_ind; intros Hn.
  - split; [apply NoDup_nil_2|cbn; set_solver].
  - rewrite run_snoc. apply one_chain_step; [set_solver|]. apply IH. set_solver.
Qed.
End wallet.

(** ** Witnesses *)

(** The offer of the server is approved, and paid. *)
Definition demo_paid : list client_action :=
  demo_called ++ [Receive 2 (demo_offer "offer-1" 60); run_first_task 3 2; run_first_task 3 2; run_first_task 3 2].

Definition demo_request : PaymentHandlerRequest :=
  mkHandlerRequest 5 "lnbc1" "ln" None (Some 60) None "event-0".

Lemma wallet_pays_authorized_offers_witness :
  ∃ pre post, c_calls (demo_client_run (λ _, false) demo_paid) = pre ++ Paid demo_wallet demo_request :: post ∧
    AskedPolicy demo_request true ∈ pre.
Proof.
  assert (c_calls (demo_client_run (λ _, false) demo_paid) =
    [AskedPolicy demo_request true; AskedWallet demo_wallet demo_request true] ++ Paid demo_wallet demo_request :: [])
    as Hc by by vm_compute.
  eexists _, _. split; [exact Hc|].
  by apply (@wallet_pays_authorized_offers list_cache _ bits_serde id_sha256 (demo_nostr (λ _, false))
    demo_client_config "serve" "2025" demo_client_options demo_paid _ _ _ _ Hc).
Defined.

Definition demo_offered : list client_action :=
  demo_called ++ [Receive 2 (demo_offer "offer-1" 60); Receive 3 (demo_offer "offer-2" 60)].

Lemma one_chain_per_invoice_witness :
  let c := demo_client_run (λ _, false) demo_offered in
  invoices c = ["lnbc1"] ∧ NoDup (invoices c).
Proof.
  cbv zeta. split; [by vm_compute|].
  apply (@one_chain_per_invoice list_cache _ bits_serde id_sha256 (demo_nostr (λ _, false))
    demo_client_config "serve" "2025" demo_client_options demo_offered).
  unfold demo_offered, demo_called. rewrite elem_of_app, !elem_of_cons, elem_of_nil. naive_solver.
Defined.

(** [close] forgets the invoices in flight before the event loop has stopped: an
    offer received again meanwhile starts a second chain for the same invoice. *)
Lemma closing_forgets_invoices :
  invoices (demo_client_run (λ _, false)
    (demo_called ++ [Receive 2 (demo_offer "offer-1" 60); CloseBegin; Receive 3 (demo_offer "offer-2" 60)]))
  = ["lnbc1"; "lnbc1"].
Proof. by vm_compute. Qed.

(** The claim on an invoice ends with its chain: the same offer received again is
    paid again. *)
Lemma settled_invoice_paid_again :
  (λ x, phr_pay_req x.2) <$> paid (demo_client_run (λ _, false)
    (demo_paid ++ [Receive 4 (demo_offer "offer-2" 60); run_first_task 5 3; run_first_task 5 3; run_first_task 5 3]))
  = ["lnbc1"; "lnbc1"].
Proof. by vm_compute. Qed.
