(* ===== verification/ClientAdmission.v ===== *)
(** * The client transport: admission and correlation

    Which relay events act on the client, what answers a request, and where the
    payments hook panics. *)

From S2P Require Import Prelude Json CoreTypes OversizedFrame OversizedCodec Instances OversizedReceiver Lru RouteStore OpenStreamFrame OpenStreamSession OpenStreamRegistry PaymentTypes ServerTasks BaseTransport Announcements Discovery ClientPayments ClientState ClientOutbound ClientInbound ClientRuns.

Section admission.
Context `{Lru L, !LruLaws L} `{SerdeJson} `{Sha256} `{Nostr}.
Variable config : NostrClientTransportConfig.
Variable server_pubkey version : string.
Variable options : ClientPaymentsOptions.
Implicit Types c : ClientTransport L.

Local Abbreviation mode := (cc_encryption_mode config).
Local Abbreviation handle := (handle_notification config server_pubkey options).

(** ** Admission *)

(** An event passes when its kind conforms to the policies; a gift wrap is new
    and holds a signed event. *)
Definition admissible (event inner : Event) c : Prop :=
  violates_encryption_policy (ev_kind event) mode = false ∧
  if is_gift_wrap_kind (ev_kind event) then
    allows_kind (cc_gift_wrap_mode config) (ev_kind event) = true ∧
    lru_contains (ev_id event) (c_seen c) = false ∧
    (∃ json, decrypt_gift_wrap_single_layer event = Ok json ∧ event_from_json json = Some inner) ∧
    event_verify inner = true
  else inner = event.

Lemma open_event_admissible event inner c :
  (open_event config event c).2 = Some inner →
  admissible event inner c ∧
  (is_gift_wrap_kind (ev_kind event) = true →
   (open_event config event c).1 = set_seen c (lru_put (ev_id event) tt (c_seen c))).
Proof.
  unfold open_event, admissible. destruct (violates_encryption_policy _ _); [done|].
  destruct (is_gift_wrap_kind _); cbn; [|by intros [= ->]].
  destruct (allows_kind _ _); [|done]. cbn. destruct (lru_contains _ _); [done|].
  destruct (pool_signer _); [|done]. destruct (decrypt_gift_wrap_single_layer event) as [json|]; [|done].
  destruct (event_from_json json) as [inner'|] eqn:Ej; [|done]. destruct (event_verify inner') eqn:Ev; [|done].
  cbn. intros [= <-]. split; [|done]. split_and!; eauto.
Qed.

(** (C9) Only the server acts on the client.  An event of a kind the encryption
    mode or the gift-wrap mode excludes, a gift wrap seen before, one that cannot
    be opened or holds an event with a bad signature, and an event of any other
    author changes nothing but the record of seen gift wraps; and a gift wrap that
    did act is recorded, so that delivered again it does nothing while it is
    remembered. *)
Theorem only_server_events_act now event c :
  ((∃ seen, handle now event c = set_seen c seen) ∨
   ∃ inner, ev_pubkey inner = server_pubkey ∧ admissible event inner c ∧
     (is_gift_wrap_kind (ev_kind event) = true → lru_contains (ev_id event) (c_seen (handle now event c)) = true)) ∧
  (is_gift_wrap_kind (ev_kind event) = true → lru_contains (ev_id event) (c_seen c) = true →
   handle now event c = c).
Proof.
  split.
  - pose proof (handle_notification_frame config server_pubkey options now event c) as [_ _ _ _ _ _ Hseen].
    unfold handle_notification in Hseen |- *. destruct (open_event_state config event c) as [seen Hs].
    destruct (open_event config event c) as [c1 [inner|]] eqn:Eo; cbn in Hs; subst c1; [|left; eauto].
    destruct (String.eqb_spec (ev_pubkey inner) server_pubkey) as [Hk|]; [|left; eauto]. right. exists inner.
    destruct (open_event_admissible event inner c) as [Ha Hput]; [by rewrite Eo|]. split_and!; [done|done|].
    intros Hg. rewrite Hseen. specialize (Hput Hg). rewrite Eo in Hput. cbn in Hput. rewrite Hput. cbn.
    apply lru_contains_entry. rewrite entry_put_eq. done.
  - intros Hg Hs. unfold handle_notification, open_event. rewrite Hg, Hs.
    destruct (violates_encryption_policy _ _); [done|]. by destruct (_ && _).
Qed.

(** ** Correlation *)

Lemma deliver_terminal_pending e m c :
  c_pending (deliver_terminal options e m c) =
  match e with
  | Some id => if terminal_message m then (ClientStore.remove id (c_pending c)).1 else c_pending c
  | None => c_pending c
  end.
Proof.
  unfold deliver_terminal, consume_terminal_response.
  set (ce := match e with Some _ => _ | None => _ end).
  assert (c_pending ce.1 = match e with
    | Some id => if terminal_message m then (ClientStore.remove id (c_pending c)).1 else c_pending c
    | None => c_pending c end) as <-.
  { subst ce. destruct e as [id|]; [|done]. destruct (terminal_message m); [|done]. by destruct (ClientStore.remove _ _). }
  destruct ce as [c1 entry]. destruct (c_engine c1); [|done].
  by destruct (ClientEngine.on_terminal_response _ _ _ _ _) as [[? ?] ?].
Qed.

(** *** The correlation store forgets

    Only the sends register requests: nothing else makes an id wait again. *)

Definition forgets c c' : Prop := ∀ id, entry (c_pending c) id = None → entry (c_pending c') id = None.

#[local] Instance forgets_preorder : PreOrder forgets.
Proof. split; [by intros c id|]. intros c1 c2 c3 H12 H23 id Hid. by apply H23, H12. Qed.
Lemma forgets_same c c' : c_pending c' = c_pending c → forgets c c'.
Proof. intros He id. by rewrite He. Qed.
Ltac same_pending := first [done | by apply forgets_same].

Lemma touch_forgets now e c : forgets c (touch_correlated now e c).
Proof.
  destruct e as [id|]; [|done]. intros id' Hid. cbn. unfold ClientStore.touch. rewrite entry_get_mut.
  destruct (String.eqb_spec id' id) as [<-|]; [by rewrite Hid|done].
Qed.
Lemma deliver_forgets e m c : forgets c (deliver_terminal options e m c).
Proof.
  intros id Hid. rewrite deliver_terminal_pending. destruct e as [id'|]; [|done].
  destruct (terminal_message m); [|done]. unfold ClientStore.remove. rewrite entry_pop. by case_match.
Qed.
Lemma forward_progress_pending n token c : c_pending (forward_progress n token c) = c_pending c.
Proof.
  destruct token as [token|]; [|done]. cbn. unfold forward_stripped_progress, original_progress_token.
  destruct (notif_params n); [|done]. destruct (lru_get _ _) as [o [w|]]; [done|]. by destruct (get _ _).
Qed.
Lemma control_frame_pending f token c : c_pending (publish_control_frame config server_pubkey f token c) = c_pending c.
Proof. unfold publish_control_frame. by destruct (send_mcp_message _ _ _ _ _ _ _ _). Qed.
Lemma remove_token_pending token c : c_pending (remove_original_progress_token token c) = c_pending c.
Proof. by destruct token. Qed.

Lemma open_stream_frame_forgets now n e c :
  forgets c (handle_inbound_open_stream_frame config server_pubkey now n e c).
Proof.
  unfold handle_inbound_open_stream_frame. transitivity (touch_correlated now e c); [apply touch_forgets|].
  destruct (Registry.process_frame _ _ _) as [[r o] calls]. apply forgets_same.
  set (c1 := match o with Ok (SendPong nonce) => _ | _ => _ end).
  assert (c_pending c1 = c_pending (touch_correlated now e c)) as <-
    by (subst c1; repeat case_match; rewrite ?control_frame_pending; done).
  destruct (is_terminal_outcome o); by rewrite ?remove_token_pending, forward_progress_pending.
Qed.
Lemma oversized_frame_forgets now n e c : forgets c (handle_oversized_frame options now n e c).
Proof.
  unfold handle_oversized_frame. destruct (is_accept n).
  - apply forgets_same. unfold route_accept. destruct (frame_token n) as [token|]; [|done]. case_match; [|done].
    match goal with |- context [forward_stripped_progress n token ?c'] => exact (forward_progress_pending n (Some token) c') end.
  - transitivity (touch_correlated now e c); [apply touch_forgets|].
    destruct (OversizedReceiver.process_frame _ _ _) as [r [[m|]|err]].
    + etransitivity; [|apply deliver_forgets]. apply forgets_same. by rewrite remove_token_pending.
    + apply forgets_same. case_match; by rewrite ?forward_progress_pending.
    + apply forgets_same. by rewrite remove_token_pending.
Qed.
Lemma notification_forgets now n e c : forgets c (handle_mcp_notification options now n e c).
Proof.
  unfold handle_mcp_notification. set (c1 := if String.eqb _ _ then _ else c).
  transitivity c1; [subst c1; case_match; [apply touch_forgets|done]|]. apply forgets_same.
  destruct (c_engine c1) as [en|]; [|done]. destruct e as [id|]; [|done].
  destruct (is_payment_notification_method _); [|done]. unfold notify_engine.
  destruct (ClientEngine.handle_payment_notification _ _ _ _ _ _ _ _) as [[[en' ps] ts] [[]|]]; done.
Qed.
Lemma handle_content_forgets now content e c : forgets c (handle_content config server_pubkey options now content e c).
Proof.
  unfold handle_content. destruct (if sc_enabled _ then _ else _); [apply open_stream_frame_forgets|].
  destruct (progress_frame _ _); [apply oversized_frame_forgets|].
  unfold handle_plain. destruct (negb _); [done|]. destruct (validate_and_parse _) as [[]|]; try done.
  - destruct e; [apply deliver_forgets|done].
  - destruct e; [apply deliver_forgets|done].
  - apply notification_forgets.
Qed.

Lemma learn_same event inner c :
  c_pending (learn server_pubkey event inner c) = c_pending c ∧
  c_engine (learn server_pubkey event inner c) = c_engine c ∧
  c_consumer (learn server_pubkey event inner c) = c_consumer c.
Proof. unfold learn, learn_server_discovery. repeat case_match; done. Qed.
Lemma opened_same event c :
  c_pending (open_event config event c).1 = c_pending c ∧ c_engine (open_event config event c).1 = c_engine c ∧
  c_consumer (open_event config event c).1 = c_consumer c.
Proof. by destruct (open_event_state config event c) as [seen ->]. Qed.

Lemma handle_forgets now event c : forgets c (handle now event c).
Proof.
  unfold handle_notification. destruct (opened_same event c) as [Ho _].
  destruct (open_event config event c) as [c1 [inner|]]; cbn in Ho; [|by apply forgets_same].
  destruct (negb _); [by apply forgets_same|]. etransitivity; [|apply handle_content_forgets]. apply forgets_same.
  by destruct (learn_same event inner c1) as [-> _].
Qed.
Lemma sweep_streams_pending now c :
  c_pending (sweep_client_open_stream_sessions config server_pubkey now c) = c_pending c.
Proof.
  unfold sweep_client_open_stream_sessions. destruct (Registry.tick_all _ _) as [r actions].
  change (c_pending c) with (c_pending (set_registry c r)). generalize (set_registry c r). clear.
  induction actions as [|[t a] actions IH]; intros c; cbn; [done|]. rewrite IH.
  destruct a; rewrite ?control_frame_pending; done.
Qed.
Lemma sweep_tick_forgets now c : forgets c (sweep_tick config server_pubkey now c).
Proof.
  unfold sweep_tick. set (c1 := set_pending _ _). transitivity c1.
  - intros id Hid. subst c1. cbn. unfold ClientStore.sweep_expired. cbn. rewrite pop_all_entry. by case_decide.
  - apply forgets_same. destruct (sc_enabled _); [rewrite sweep_streams_pending|]; by destruct (oc_enabled _).
Qed.

(** Every step but that of a task. *)
Definition runs_no_task (a : client_action) : Prop := match a with RunTask _ _ _ _ => False | _ => True end.
Lemma step_forgets c a : runs_no_task a → forgets c (client_step config server_pubkey version options c a).
Proof.
  intros Ha. destruct a; cbn [client_step]; try (by apply forgets_same); try done.
  - unfold with_client_payments. repeat case_match; same_pending.
  - destruct (_ || _); [done|]. unfold start, connect. repeat (case_match; simplify_eq/=); same_pending.
  - unfold abort_open_stream, abort_session. repeat (case_match; simplify_eq/=); same_pending.
  - apply forgets_same, sweep_streams_pending.
  - destruct (c_running c); [apply handle_forgets|done].
  - destruct (c_running c); [apply sweep_tick_forgets|done].
  - destruct (_ && _); [|done]. unfold close_finish, disconnect. repeat (case_match; simplify_eq/=); same_pending.
Qed.
Lemma run_forgets c actions :
  Forall runs_no_task actions → forgets c (client_run config server_pubkey version options c actions).
Proof.
  revert c. induction actions as [|a actions IH]; intros c Ha; [done|]. apply Forall_cons in Ha as [Ha Hrest].
  cbn. etransitivity; [by apply step_forgets|]. by apply IH.
Qed.

(** *** Answers *)

(** A message of the server in one event: not a frame of a stream or of a fragmented
    message. *)
Definition single (inner : Event) : Prop :=
  ev_pubkey inner = server_pubkey ∧
  (sc_enabled (cc_open_stream config) = true → progress_frame Receiver.is_open_stream_frame (ev_content inner) = None) ∧
  progress_frame is_oversized_frame (ev_content inner) = None.

Lemma single_handled now event inner c c1 :
  open_event config event c = (c1, Some inner) → single inner →
  handle now event c =
  handle_plain options now (ev_content inner) (get_tag_value (ev_tags inner) "e") (learn server_pubkey event inner c1).
Proof.
  intros Ho (Hk & Hs & Hf). unfold handle_notification. rewrite Ho, (proj2 (String.eqb_eq _ _) Hk). cbn.
  unfold handle_content. rewrite Hf. destruct (sc_enabled _); [by rewrite Hs|done].
Qed.

Lemma contains_entry id c : ClientStore.contains id (c_pending c) = false ↔ entry (c_pending c) id = None.
Proof.
  unfold ClientStore.contains. rewrite <- not_true_iff_false, lru_contains_entry. symmetry. apply eq_None_not_Some.
Qed.
Lemma uncorrelated_dropped now content id c :
  entry (c_pending c) id = None → handle_plain options now content (Some id) c = c.
Proof. intros Hid. unfold handle_plain, correlated. by rewrite (proj2 (contains_entry id c) Hid). Qed.

Lemma deliver_terminal_consumer e m c :
  ∃ o, c_consumer (deliver_terminal options e m c) = c_consumer c ++ option_list o ∧ (c_engine c = None → o = Some m).
Proof.
  unfold deliver_terminal, consume_terminal_response.
  set (ce := match e with Some _ => _ | None => _ end).
  assert (c_consumer ce.1 = c_consumer c ∧ c_engine ce.1 = c_engine c) as [Hc He]
    by (subst ce; destruct e; [|done]; destruct (terminal_message m); [|done]; by destruct (ClientStore.remove _ _)).
  destruct ce as [c1 entry0]. cbn in Hc, He. rewrite <- Hc, <- He. destruct (c_engine c1) as [en|]; [|by exists (Some m)].
  destruct (ClientEngine.on_terminal_response _ _ _ _ _) as [[en' ts] d]. by exists d.
Qed.

End admission.

(** ** Where the gate does not reach *)

Section reassembled.
Context `{Lru L} `{SerdeJson} `{Sha256} `{Nostr}.
Variable options : ClientPaymentsOptions.
Implicit Types c : ClientTransport L.

(** A message that was reassembled from frames is handed over without the gate
    of the plain path: also a request of the server, and a response to a request
    that is not waiting. *)
Lemma reassembled_delivered now n e m c :
  is_accept n = false → (OversizedReceiver.process_frame now (c_oversized c) n).2 = Ok (Some m) →
  c_engine c = None → c_consumer (handle_oversized_frame options now n e c) = c_consumer c ++ [m].
Proof.
  intros Ha Hp He. unfold handle_oversized_frame. rewrite Ha.
  assert (c_oversized (touch_correlated now e c) = c_oversized c) as -> by by destruct e.
  destruct (OversizedReceiver.process_frame now (c_oversized c) n) as [r o]. cbn in Hp. subst o.
  unfold deliver_terminal, consume_terminal_response.
  set (c1 := remove_original_progress_token _ _).
  assert (c_engine c1 = None ∧ c_consumer c1 = c_consumer c) as [He1 Hc1]
    by (subst c1; destruct (frame_token n), e; by rewrite <- ?He).
  clearbody c1. destruct e as [id|]; [destruct (terminal_message m); [destruct (ClientStore.remove _ _)|]|];
    cbn; rewrite He1; cbn; by rewrite Hc1.
Qed.
End reassembled.

(** ** Witnesses *)

(** The same offer in a gift wrap, delivered twice. *)
Lemma only_server_events_act_witness :
  let c := demo_client_run (λ _, false) (demo_called ++ [Receive 2 (demo_wrap "wrap-1" GIFT_WRAP_KIND (demo_offer "offer-1" 60))]) in
  length (c_tasks c) = 3%nat ∧
  @handle_notification list_cache _ bits_serde id_sha256 (demo_nostr (λ _, false)) demo_client_config "serve"
    demo_client_options 3 (demo_wrap "wrap-1" GIFT_WRAP_KIND (demo_offer "offer-1" 60)) c = c.
Proof.
  cbv zeta. split; [by vm_compute|].
  apply (@only_server_events_act list_cache _ _ bits_serde id_sha256 (demo_nostr (λ _, false)) demo_client_config "serve"
    demo_client_options 3 (demo_wrap "wrap-1" GIFT_WRAP_KIND (demo_offer "offer-1" 60))); by vm_compute.
Defined.

(** A tool call answered; the answer delivered again, under another event, is dropped. *)
Definition demo_asked : ClientTransport list_cache :=
  demo_client_run (λ _, false) [StartTransport 0 demo_start; SendMessage demo_tool_call; run_first_task 1 0; run_first_task 1 0].

Lemma client_run_nil `{Lru L} `{SerdeJson} `{Sha256} `{Nostr} config server_pubkey version options (c : ClientTransport L) :
  client_run config server_pubkey version options c [] = c.
Proof. done. Qed.

Abbreviation demo_handle := (@handle_notification list_cache _ bits_serde id_sha256 (demo_nostr (λ _, false))
  demo_client_config "serve" demo_client_options).
Abbreviation demo_open := (@open_event list_cache _ (demo_nostr (λ _, false)) demo_client_config).
Abbreviation demo_answered := (demo_handle 2 (demo_response "r") demo_asked).
Definition demo_answer : JsonRpcMessage := Response (mkResponse "2.0" (VNumber (PosInt 7)) (VString "done")).

Lemma demo_response_single id : id ∈ ["r"; "s"] → @single bits_serde demo_client_config "serve" (demo_response id).
Proof. intros [->|[->|[]%elem_of_nil]%elem_of_cons]%elem_of_cons; (split_and!; [|intros _|]; by vm_compute). Qed.
Lemma demo_asked_facts :
  demo_open (demo_response "r") demo_asked = (demo_asked, Some (demo_response "r")) ∧
  @validate_and_parse bits_serde (ev_content (demo_response "r")) = Some demo_answer ∧
  ClientStore.contains "event-0" (c_pending demo_asked) = true ∧ c_engine demo_asked = None ∧ c_consumer demo_asked = [].
Proof. split_and!; by vm_compute. Qed.
Lemma demo_answered_opens : demo_open (demo_response "s") demo_answered = (demo_answered, Some (demo_response "s")).
Proof. by vm_compute. Qed.


(** An offer with the largest time to live: the event loop is gone. *)
Lemma huge_ttl_stops_event_loop :
  c_running (demo_client_run (λ _, false) demo_called) = true ∧
  c_running (demo_client_run (λ _, false) (demo_called ++ [Receive 2 (demo_offer "offer-1" u64_max)])) = false.
Proof. split; by vm_compute. Qed.
