(* ===== verification/ClientSends.v ===== *)
(** * The client transport: fragmented sends as a whole

    What a fragmented send publishes, however its segments are interleaved with the
    event loop, other sends and the application, and what its late registration can
    lose. *)

From S2P Require Import Prelude Json CoreTypes OversizedFrame OversizedCodec Instances OversizedReceiver Lru RouteStore OpenStreamFrame OpenStreamSession OpenStreamRegistry PaymentTypes ServerTasks BaseTransport Announcements Discovery ClientPayments ClientState ClientOutbound ClientInbound.

Section sends.
Context `{Lru L} `{SerdeJson} `{Sha256} `{Nostr}.
Variable config : NostrClientTransportConfig.
Variable server_pubkey version : string.
Variable has_tx : bool.
Implicit Types c : ClientTransport L.

Local Abbreviation step := (send_step config server_pubkey version).

(** The publish attempts of one segment. *)
Definition own_attempts c c' : list Outbound := drop (length (c_net c)) (c_net c').

(** The segments of one send, each in the state the rest of the client left; what the
    send publishes in them, and where it ends up. *)
Fixpoint interleaved (s : send_state) (env : list (Z * ClientTransport L)) : list Outbound * send_state :=
  match env with
  | [] => ([], s)
  | (now, c) :: env =>
      let '(c', s) := step now has_tx s c in
      let '(outs, s) := interleaved s env in (own_attempts c c' ++ outs, s)
  end.

(** The frames of a fragmented request in order, each with its tags. *)
Definition tagged (tags : list Tag) (f : JsonRpcNotification) : JsonRpcMessage * list Tag := (Notification f, tags).
Definition wire_order (o : OversizedSend) : list (JsonRpcMessage * list Tag) :=
  tagged (os_start_tags o) (built_start (os_frames o)) ::
  (tagged (os_base_tags o) <$> built_chunks (os_frames o) ++ [built_end (os_frames o)]).
(** A send of [o] in state [s] has still to publish [l]. *)
Definition remaining (o : OversizedSend) (s : send_state) (l : list (JsonRpcMessage * list Tag)) : Prop :=
  match s with
  | SendStartFrame o' => o' = o ∧ l = wire_order o
  | SendAwaitAccept o' _ => o' = o ∧ l = tail (wire_order o)
  | SendChunks o' rest => o' = o ∧ l = (tagged (os_base_tags o) <$> rest ++ [built_end (os_frames o)])
  | SendRegister o' _ => o' = o ∧ l = []
  | SendDone (Ok _) => l = []
  | _ => False
  end.
Definition out_frame (ob : Outbound) : JsonRpcMessage * list Tag := (ob_message ob, ob_tags ob).

Lemma publish_frame_attempt o tags f c :
  let '(net, res) := publish_frame config server_pubkey o tags (c_net c) f in
  (net = c_net c ∧ ∃ e, res = Err e) ∨
  ∃ ob, net = c_net c ++ [ob] ∧ out_frame ob = tagged tags f ∧ ob_ok ob = is_ok res.
Proof.
  unfold publish_frame. pose proof (send_mcp_message_prepared (cc_encryption_mode config) (c_net c) (Notification f)
    server_pubkey CTXVM_MESSAGES_KIND tags None (Some (os_wrap_kind o))) as Hs.
  destruct (send_mcp_message _ _ _ _ _ _ _ _) as [net res].
  destruct Hs as [[-> He]|(id & ev & ok & _ & -> & <-)]; [by left|]. right. eexists. by split_and!.
Qed.

Lemma own_none c c' : c_net c' = c_net c → own_attempts c c' = [].
Proof. unfold own_attempts. intros ->. by rewrite drop_all. Qed.
Lemma own_one c c' ob : c_net c' = c_net c ++ [ob] → own_attempts c c' = [ob].
Proof. unfold own_attempts. intros ->. by rewrite drop_app_length. Qed.
Lemma drop_waiter_net o c : c_net (drop_waiter o c) = c_net c.
Proof. unfold drop_waiter. by destruct (os_needs_accept o). Qed.
Lemma register_net now id m c ds i : c_net (sent_latches ds i (register_request now id m c)) = c_net c.
Proof. by destruct m, ds. Qed.

(** One segment publishes nothing, or the next frame; after a failed attempt the send
    is over. *)
Lemma segment o now s c l :
  remaining o s l →
  let '(c', s') := step now has_tx s c in
  let outs := own_attempts c c' in
  (∃ e, s' = SendDone (Err e) ∧ (outs = [] ∨ ∃ ob l', outs = [ob] ∧ ob_ok ob = false ∧ l = out_frame ob :: l')) ∨
  (outs = [] ∧ remaining o s' l) ∨
  (∃ ob l', outs = [ob] ∧ ob_ok ob = true ∧ l = out_frame ob :: l' ∧ remaining o s' l').
Proof.
  assert (∀ tags f c c' s' e, (∃ ob, c_net c' = c_net c ++ [ob] ∧ out_frame ob = tagged tags f ∧ ob_ok ob = false) →
    s' = SendDone (Err e) → ∀ l', ∃ e, s' = SendDone (Err e) ∧ (own_attempts c c' = [] ∨
      ∃ ob l'', own_attempts c c' = [ob] ∧ ob_ok ob = false ∧ tagged tags f :: l' = out_frame ob :: l'')) as Hfail.
  { intros tags f c0 c' s' e (ob & Hn & Hf & Hk) -> l'. exists e. split; [done|]. right. exists ob, l'.
    rewrite (own_one c0 c' ob) by done. by rewrite Hf. }
  destruct s as [m|m id ev tags k ds i|o'|o' d|o' rest|o' id|[u|e]]; cbn [remaining]; try done; intros Hl.
  - destruct Hl as [-> ->]. cbn [send_step].
    pose proof (publish_frame_attempt o (os_start_tags o) (built_start (os_frames o)) c) as Hp.
    destruct (publish_frame _ _ _ _ _ _) as [net [id|e]]; destruct Hp as [[Hn He]|(ob & Hn & Hf & Hk)].
    + by destruct He.
    + right; right. exists ob, (tail (wire_order o)). rewrite (own_one c (set_net c net) ob) by done. rewrite Hf.
      split_and!; [done..|]. destruct (os_needs_accept o); by split.
    + left. exists e. split; [done|]. left. apply own_none. by rewrite drop_waiter_net.
    + left. apply (Hfail _ _ c _ _ e); [|done]. exists ob. by rewrite drop_waiter_net.
  - destruct Hl as [-> ->]. cbn [send_step].
    destruct (accept_outcome _ _ _ _) as [[]|]; try (left; eexists; split; [done|]; left; apply own_none, drop_waiter_net);
      (right; left; split; [by apply own_none|by split]).
  - destruct Hl as [-> ->]. cbn [send_step].
    set (f := match rest with [] => _ | f :: _ => f end).
    pose proof (publish_frame_attempt o (os_base_tags o) f c) as Hp.
    assert (tagged (os_base_tags o) <$> rest ++ [built_end (os_frames o)] =
      tagged (os_base_tags o) f :: match rest with [] => [] | _ :: rest => tagged (os_base_tags o) <$> rest ++ [built_end (os_frames o)] end)
      as -> by by destruct rest.
    destruct (publish_frame _ _ _ _ _ _) as [net [id|e]]; destruct Hp as [[Hn He]|(ob & Hn & Hf & Hk)].
    + by destruct He.
    + right; right. eexists ob, _. rewrite (own_one c (set_net c net) ob) by done. rewrite Hf.
      split_and!; [done..|]. destruct rest; by split.
    + left. exists e. split; [done|]. left. apply own_none. by rewrite drop_waiter_net.
    + left. apply (Hfail _ _ c _ _ e); [|done]. exists ob. by rewrite drop_waiter_net.
  - destruct Hl as [-> ->]. cbn [send_step]. right; left. split; [|done].
    apply own_none. rewrite register_net. apply drop_waiter_net.
  - subst l. right; left. split; [by apply own_none|done].
Qed.

Lemma interleaved_done res env : interleaved (SendDone res) env = ([], SendDone res).
Proof. induction env as [|[now c] env IH]; [done|]. cbn. rewrite IH. unfold own_attempts. by rewrite drop_all. Qed.

(** Where the publishing stands. *)
Definition publishes (o : OversizedSend) (l : list (JsonRpcMessage * list Tag)) (outs : list Outbound) (s : send_state)
  : Prop :=
  (∃ rest, l = (out_frame <$> outs) ++ rest ∧ match s with SendDone (Err _) => True | _ => remaining o s rest end) ∧
  Forall (λ ob, ob_ok ob = true) (removelast outs) ∧
  ((∀ e, s ≠ SendDone (Err e)) → Forall (λ ob, ob_ok ob = true) outs).

Lemma interleaved_publishes o env s l :
  remaining o s l → let '(outs, s') := interleaved s env in publishes o l outs s'.
Proof.
  revert s l. induction env as [|[now c] env IH]; intros s l Hl; cbn.
  - split_and!; [exists l; split; [done|]; by destruct s as [| | | | | |[]]|constructor|constructor].
  - pose proof (segment o now s c l Hl) as Hs. destruct (step now has_tx s c) as [c' s1].
    destruct Hs as [(e & -> & Ho)|[[Ho Hl1]|(ob & l' & Ho & Hk & -> & Hl1)]].
    + rewrite interleaved_done, app_nil_r. destruct Ho as [->|(ob & l' & -> & Hk & ->)].
      * split_and!; [by exists l|constructor|constructor].
      * split_and!; [by exists l'|constructor|]. intros Hne. by destruct (Hne e).
    + rewrite Ho. specialize (IH s1 l Hl1). by destruct (interleaved s1 env).
    + rewrite Ho. specialize (IH s1 l' Hl1). destruct (interleaved s1 env) as [outs s2].
      destruct IH as ((rest & -> & Hr) & Hinit & Hall). split_and!.
      * by exists rest.
      * cbn. destruct outs as [|ob2 outs]; [constructor|]. by constructor.
      * intros Hne. constructor; [done|by apply Hall].
Qed.

(** Nothing follows the start frame before the accept arrived. *)
Lemma await_quiet o d env :
  (interleaved (SendAwaitAccept o d) env).1 ≠ [] → ∃ now c, (now, c) ∈ env ∧ os_waiter o ∈ c_accepted c.
Proof.
  induction env as [|[now c] env IH]; cbn; [done|]. destruct (accept_outcome now d o c) as [a|] eqn:Ha; cycle 1.
  - cbn. destruct (interleaved (SendAwaitAccept o d) env) as [outs s]. cbn in *. rewrite own_none by done.
    intros (now' & c' & Hin & Hw)%IH. exists now', c'. split; [by right|done].
  - unfold accept_outcome in Ha. case_bool_decide as Hw; [intros _; exists now, c; split; [left|done]|].
    assert (a ≠ Accepted) as Hna by (repeat case_match; congruence).
    destruct a; try done; rewrite interleaved_done; cbn; rewrite own_none by (apply drop_waiter_net); done.
Qed.

(** The segments a send needs that waits for no accept. *)
Definition segments_left (s : send_state) : nat :=
  match s with
  | SendStartFrame o => length (built_chunks (os_frames o)) + 3
  | SendChunks _ rest => length rest + 2
  | SendRegister _ _ => 1
  | _ => 0
  end.
Lemma segments_suffice o env s l :
  os_needs_accept o = false → remaining o s l → (∀ o d, s ≠ SendAwaitAccept o d) →
  (segments_left s <= length env)%nat → ∃ res, (interleaved s env).2 = SendDone res.
Proof.
  intros Hna. revert s l. induction env as [|[now c] env IH]; intros s l Hl Hw Hlen.
  - destruct s as [| |o'|o' d| | |res]; cbn in *; try done; try lia; eauto. by destruct (Hw o' d).
  - cbn. pose proof (segment o now s c l Hl) as Hs.
    assert (∃ res, (let '(_, s1) := step now has_tx s c in interleaved s1 env).2 = SendDone res) as Hgoal.
    { destruct s as [| |o'|o' d|o' rest|o' id|res]; cbn [remaining] in Hl; try done.
      - destruct Hl as [-> ->]. cbn [send_step] in *. destruct (publish_frame _ _ _ _ _ _) as [net [id|e]].
        + rewrite Hna in *. cbn in Hlen. eapply (IH (SendChunks _ _)); [by split|done|cbn; lia].
        + rewrite interleaved_done. eauto.
      - by destruct (Hw o' d).
      - destruct Hl as [-> ->]. cbn [send_step] in *. destruct (publish_frame _ _ _ _ _ _) as [net [id|e]].
        + destruct rest as [|f rest]; cbn in Hlen; [eapply (IH (SendRegister _ _))|eapply (IH (SendChunks _ _))];
            [by split|done|cbn; lia|by split|done|cbn; lia].
        + rewrite interleaved_done. eauto.
      - cbn [send_step]. rewrite interleaved_done. eauto.
      - cbn [send_step]. rewrite interleaved_done. eauto. }
    destruct (step now has_tx s c) as [c' s1]. destruct (interleaved s1 env). exact Hgoal.
Qed.

(** (C34) What a fragmented request puts on the wire, however the event loop, other
    sends and the application run between its segments: the frames are attempted in
    order, the start frame with the negotiation tags, then the chunks and the end frame
    with the plain ones, each once and none skipped; a failed attempt is the last; a
    send reported as done has published every frame; where the server has to accept,
    nothing follows the start frame before the accept of this send has arrived; and
    where it has not, the send is over after as many segments as there are chunks and
    three more. *)
Theorem fragmented_send_order o env :
  let '(outs, s) := interleaved (SendStartFrame o) env in
  publishes o (wire_order o) outs s ∧
  (∀ u, s = SendDone (Ok u) → out_frame <$> outs = wire_order o) ∧
  (os_needs_accept o = true → (1 < length outs)%nat → ∃ now c, (now, c) ∈ env ∧ os_waiter o ∈ c_accepted c) ∧
  (os_needs_accept o = false → (length (built_chunks (os_frames o)) + 3 <= length env)%nat → ∃ res, s = SendDone res).
Proof.
  pose proof (interleaved_publishes o env (SendStartFrame o) (wire_order o) (conj eq_refl eq_refl)) as Hp.
  pose proof (segments_suffice o env (SendStartFrame o) (wire_order o)) as Hdone.
  assert (os_needs_accept o = true → (1 < length (interleaved (SendStartFrame o) env).1)%nat →
    ∃ now c, (now, c) ∈ env ∧ os_waiter o ∈ c_accepted c) as Hacc.
  { intros Hna. destruct env as [|[now c] env]; cbn; [lia|].
    pose proof (publish_frame_attempt o (os_start_tags o) (built_start (os_frames o)) c) as Hf.
    destruct (publish_frame _ _ _ _ _ _) as [net [id|e]].
    - rewrite Hna. pose proof (await_quiet o (now + from_millis (oc_accept_timeout_ms (cc_oversized_transfer config))) env) as Hq.
      destruct (interleaved (SendAwaitAccept o _) env) as [outs s]. cbn in *. rewrite length_app. intros Hlen.
      assert (length (own_attempts c (set_net c net)) <= 1)%nat as Hone
        by (destruct Hf as [[-> _]|(ob & -> & _)]; [rewrite own_none by done|rewrite (own_one c (set_net c (c_net c ++ [ob])) ob) by done]; cbn; lia).
      destruct Hq as (now' & c' & Hin & Hw); [by destruct outs; cbn in *; [lia|]|]. exists now', c'. split; [by right|done].
    - rewrite interleaved_done. cbn. rewrite app_nil_r.
      destruct Hf as [[-> _]|(ob & -> & _)]; [rewrite own_none by (by rewrite drop_waiter_net)|rewrite (own_one c _ ob) by (by rewrite drop_waiter_net)]; cbn; lia. }
  destruct (interleaved (SendStartFrame o) env) as [outs s]. split_and!; [done| |done|].
  - intros u ->. destruct Hp as ((rest & Hl & Hr) & _). cbn in Hr. by rewrite Hl, Hr, app_nil_r.
  - intros Hna Hlen. apply Hdone; [done|by split|done|done].
Qed.
End sends.

(** ** Late registration *)

Section late.
Context `{Lru L, !LruLaws L} `{SerdeJson} `{Sha256} `{Nostr}.
Variable config : NostrClientTransportConfig.
Variable server_pubkey version : string.
Variable options : ClientPaymentsOptions.
Implicit Types c : ClientTransport L.

(** A fragmented request is registered only after its end frame was
    published.  A response that the event loop handles in between is dropped, and the
    request is then registered and left waiting, with nothing more to come. *)
Theorem late_registration_loses_response now now' tx content m o end_id req c :
  validate_and_parse content = Some m → terminal_message m = true →
  os_message o = Request req → ClientStore.contains end_id (c_pending c) = false →
  let c1 := handle_plain options now content (Some end_id) c in
  let '(c2, s) := send_step config server_pubkey version now' tx (SendRegister o end_id) c1 in
  c1 = c ∧ s = SendDone (Ok tt) ∧ c_consumer c2 = c_consumer c ∧
  ClientStore.contains end_id (c_pending c2) = true.
Proof.
  intros Hm Ht Ho Hc. cbv zeta. cbn [send_step].
  assert (handle_plain options now content (Some end_id) c = c) as ->
    by (unfold handle_plain, correlated; by rewrite Hc).
  rewrite Ho. split_and!; [done|done| |].
  - unfold drop_waiter. by destruct (os_needs_accept o), (os_discovery_sent o).
  - assert (∀ c0, c_pending (sent_latches (os_discovery_sent o) (os_interaction o) c0) = c_pending c0) as ->
      by (intros c0; by destruct (os_discovery_sent o)).
    cbn. unfold ClientStore.contains, ClientStore.register.
    apply lru_contains_entry. rewrite entry_push_eq. done.
Qed.
End late.

(** ** Witnesses *)

(** A fragmented call of three frames. *)
Definition demo_fragments : OversizedSend :=
  mkOversizedSend demo_tool_call "tok" (create_recipient_tags "serve") (create_recipient_tags "serve")
    GIFT_WRAP_KIND true 0 true None
    (mkBuilt (mkNotification "2.0" NOTIFICATIONS_PROGRESS_METHOD None)
       [mkNotification "2.0" NOTIFICATIONS_PROGRESS_METHOD (Some (VString "data"))]
       (mkNotification "2.0" NOTIFICATIONS_PROGRESS_METHOD (Some (VString "end")))).
Lemma late_registration_loses_response_witness :
  let c := @initial_client list_cache _ demo_client_config in
  let content := ev_content (demo_response "r") in
  let c1 := @handle_plain list_cache _ bits_serde demo_client_options 1 content (Some "event-2") c in
  let '(c2, s) := @send_step list_cache _ bits_serde id_sha256 (demo_nostr (λ _, false)) demo_client_config
                    "serve" "2025" 2 true (SendRegister demo_fragments "event-2") c1 in
  c_consumer c2 = [] ∧ ClientStore.contains "event-2" (c_pending c2) = true.
Proof.
  cbv zeta.
  pose proof (@late_registration_loses_response list_cache _ _ bits_serde id_sha256 (demo_nostr (λ _, false))
    demo_client_config "serve" "2025" demo_client_options 1 2 true (ev_content (demo_response "r"))
    (Response (mkResponse "2.0" (VNumber (PosInt 7)) (VString "done"))) demo_fragments "event-2"
    (mkRequest "2.0" (VNumber (PosInt 7)) "tools/call" (Some (VObject [("name", VString "paint")])))
    (@initial_client list_cache _ demo_client_config)) as Hw.
  cbv zeta in Hw. destruct (send_step _ _ _ _ _ _ _) as [c2 s].
  destruct Hw as (_ & _ & Hcons & Hpend); [by vm_compute|done|done|done|]. by rewrite Hcons.
Defined.
