(* ===== verification/ServerNegotiation.v ===== *)
(** * Server sessions on the wire: negotiation, disclosure and response tags

    The pure parts of [src/transport/server/mod.rs] the transport runs under its
    session lock or on values it has read there: the negotiation of the payment
    interaction mode, the one-shot latches of the first response, the composition
    of response tags, the choice of the gift-wrap kind and the authorization test. *)

From S2P Require Import Prelude Json CoreTypes OversizedFrame Instances SessionStore PaymentTypes BaseTransport.

(** ** Payment interaction *)

Inductive NegotiationOutcome : Type :=
| Proceed
| RejectUnsupported (requested : PaymentInteractionMode).
#[export] Instance NegotiationOutcome_eq_dec : EqDecision NegotiationOutcome.
Proof. solve_decision. Defined.

Definition is_explicit_gating (mode : PaymentInteractionMode) : bool :=
  match mode with ExplicitGating => true | Transparent => false end.

(** The three payment fields of a session. *)
Definition set_payment (requested effective : option PaymentInteractionMode) (disclosed : bool)
    (s : ClientSession) : ClientSession :=
  mkClientSession (is_initialized s) (is_encrypted s) (has_sent_common_tags s)
    (supports_ephemeral_gift_wrap s) (supports_encryption s) (supports_ephemeral_encryption s)
    (supports_oversized_transfer s) (supports_open_stream s) requested effective disclosed
    (last_activity s) (pending_requests s) (event_to_progress_token s).

Definition set_requested (mode : PaymentInteractionMode) (s : ClientSession) : ClientSession :=
  set_payment (Some mode) (effective_payment_interaction s) (has_disclosed_payment_interaction s) s.

Definition apply_effective (s : ClientSession) (prev_effective : option PaymentInteractionMode)
    (next : PaymentInteractionMode) : ClientSession :=
  if bool_decide (Some next = prev_effective) then s
  else set_payment (requested_payment_interaction s) (Some next) false s.

Definition negotiate_payment_interaction (session : ClientSession) (inner_tags : list Tag)
    (method : option string) (is_request supports_explicit_gating : bool)
  : ClientSession * NegotiationOutcome :=
  let session :=
    if is_request && bool_decide (method = Some "initialize")
    then set_payment None None false session else session in
  match extract_payment_interaction inner_tags with
  | None => (session, Proceed)
  | Some raw =>
      let prev_effective := effective_payment_interaction session in
      if String.eqb raw "transparent" || String.eqb raw "explicit_gating" then
        let mode := if String.eqb raw "explicit_gating" then ExplicitGating else Transparent in
        let session := set_requested mode session in
        let unsupported := is_explicit_gating mode && negb supports_explicit_gating in
        let session := if unsupported then apply_effective session prev_effective Transparent else session in
        if unsupported && is_request then (session, RejectUnsupported mode)
        else
          let next := if supports_explicit_gating then mode else Transparent in
          (apply_effective session prev_effective next, Proceed)
      else (apply_effective (set_requested Transparent session) prev_effective Transparent, Proceed)
  end.

Definition unsupported_payment_interaction_error (inbound : JsonRpcMessage)
    (requested : PaymentInteractionMode) : JsonRpcMessage :=
  let id := match inbound with Request req => req_id req | _ => VNull end in
  ErrorResponse (mkErrorResponse "2.0" id
    (mkError UNSUPPORTED_PAYMENT_INTERACTION_ERROR_CODE
       "Unsupported payment_interaction mode: explicit_gating"
       (Some (unsupported_data_to_value (UnsupportedPaymentInteractionData_new requested))))).

Definition take_payment_interaction_disclosure (s : ClientSession)
  : ClientSession * option PaymentInteractionMode :=
  match requested_payment_interaction s, effective_payment_interaction s with
  | Some requested, Some effective =>
      if is_explicit_gating requested && negb (has_disclosed_payment_interaction s)
      then (set_payment (requested_payment_interaction s) (effective_payment_interaction s) true s,
            Some effective)
      else (s, None)
  | _, _ => (s, None)
  end.

(** ** Response tags *)

Definition take_pending_server_discovery_tags (common : list Tag) (s : ClientSession)
  : ClientSession * list Tag :=
  if has_sent_common_tags s then (s, []) else (set_has_sent_common_tags true s, common).

(** [Value::is_array]. *)
Definition is_array (v : Value) : bool := match v with VArray _ => true | _ => false end.

Definition is_capability_list_result (result : Value) : bool :=
  existsb (λ key, match get result key with Some v => is_array v | None => false end)
    ["tools"; "resources"; "resourceTemplates"; "prompts"].

(** Name and value of a tag agree with another's. *)
Definition same_name_value (a b : Tag) : bool :=
  bool_decide (head a = head b) && bool_decide (a !! 1%nat = b !! 1%nat).

Definition compose_response_tags (base_tags discovery : list Tag)
    (disclose : option PaymentInteractionMode) (pricing : list Tag) (response : JsonRpcMessage) : list Tag :=
  let tags := compose_outbound_tags base_tags discovery [] in
  let tags :=
    match disclose with
    | Some effective =>
        let disclosure := payment_interaction_tag effective in
        if existsb (λ tag, same_name_value tag disclosure) tags then tags else tags ++ [disclosure]
    | None => tags
    end in
  match response with
  | Response r => if is_capability_list_result (resp_result r) then tags ++ pricing else tags
  | _ => tags
  end.

(** ** Gift-wrap kinds *)

(** The kind of a mode when nothing is mirrored. *)
Definition mode_default_kind (mode : GiftWrapMode) : Z :=
  match mode with
  | GwPersistent => GIFT_WRAP_KIND
  | GwEphemeral => EPHEMERAL_GIFT_WRAP_KIND
  | GwOptional => GIFT_WRAP_KIND
  end.

Definition select_outbound_gift_wrap_kind (mode : GiftWrapMode) (is_encrypted : bool)
    (mirrored_kind : option Z) : option Z :=
  if negb is_encrypted then None
  else match mirrored_kind with
       | Some kind => if allows_kind mode kind then Some kind else Some (mode_default_kind mode)
       | None => Some (mode_default_kind mode)
       end.

Definition select_outbound_notification_gift_wrap_kind (mode : GiftWrapMode) (is_encrypted : bool)
    (correlated_wrap_kind : option Z) (client_supports_ephemeral : bool) : option Z :=
  let fallback :=
    if client_supports_ephemeral && supports_ephemeral mode then Some EPHEMERAL_GIFT_WRAP_KIND
    else Some (mode_default_kind mode) in
  if negb is_encrypted then None
  else match correlated_wrap_kind with
       | Some kind => if allows_kind mode kind then Some kind else fallback
       | None => fallback
       end.

(** ** Authorization *)

Record CapabilityExclusion : Type := mkExclusion {
  excl_method : string;
  excl_name : option string;
}.

Definition excludes (method : string) (name : option string) (excl : CapabilityExclusion) : bool :=
  if negb (String.eqb (excl_method excl) method) then false
  else match excl_name excl, name with
       | Some excl_name, Some req_name => String.eqb excl_name req_name
       | None, _ => true
       | _, _ => false
       end.

Definition is_capability_excluded (excluded : list CapabilityExclusion) (method : string)
    (name : option string) : bool :=
  if String.eqb method "initialize" || String.eqb method "notifications/initialized" then true
  else existsb (excludes method name) excluded.

(** The name a request is authorized by. *)
Definition capability_name (m : JsonRpcMessage) : option string :=
  match m with
  | Request r => params ← req_params r; n ← get params "name"; as_str n
  | _ => None
  end.

(** The test of the event loop. *)
Definition authorized (allowed_pubkeys : list string) (excluded : list CapabilityExclusion)
    (sender_pubkey : string) (m : JsonRpcMessage) : bool :=
  match allowed_pubkeys with
  | [] => true
  | _ => bool_decide (sender_pubkey ∈ allowed_pubkeys)
         || is_capability_excluded excluded (default "" (msg_method m)) (capability_name m)
  end.

(** ** What a client reads *)

Lemma find_map_app {A B} (f : A → option B) l1 l2 :
  find_map f (l1 ++ l2) = match find_map f l1 with Some y => Some y | None => find_map f l2 end.
Proof. induction l1 as [|x l1 IH]; cbn; [done|]. by destruct (f x). Qed.

Lemma extract_app l1 l2 :
  extract_payment_interaction (l1 ++ l2) =
  match extract_payment_interaction l1 with Some v => Some v | None => extract_payment_interaction l2 end.
Proof. apply find_map_app. Qed.

Lemma extract_response_tags c e : extract_payment_interaction (create_response_tags c e) = None.
Proof. done. Qed.

(** A duplicate of the disclosure among the tags is already read. *)
Lemma same_name_value_extract l mode :
  existsb (λ tag, same_name_value tag (payment_interaction_tag mode)) l = true →
  is_Some (extract_payment_interaction l).
Proof.
  unfold extract_payment_interaction. induction l as [|t l IH]; cbn; [done|].
  destruct (interaction_value t) eqn:Et; [by eauto|].
  intros [Hs|Hs]%orb_true_iff; [|by apply IH]. exfalso. unfold same_name_value in Hs. b2p.
  destruct t as [|n [|v t]]; cbn in *; try done. by simplify_eq.
Qed.

(** What a client reads from a response: the first [payment_interaction]
    value of the server's discovery tags when they ride the response, and
    otherwise the disclosed effective mode; the routing tags and the pricing tags
    (which name no interaction mode) never hide it. *)
Theorem client_reads_disclosure client event_id discovery disclose pricing response :
  extract_payment_interaction pricing = None →
  extract_payment_interaction
    (compose_response_tags (create_response_tags client event_id) discovery disclose pricing response) =
  match extract_payment_interaction discovery with
  | Some advertised => Some advertised
  | None => payment_mode_name <$> disclose
  end.
Proof.
  intros Hp. unfold compose_response_tags, compose_outbound_tags. rewrite app_nil_r.
  set (tags := match disclose with Some _ => _ | None => _ end).
  assert (extract_payment_interaction tags =
          match extract_payment_interaction discovery with
          | Some advertised => Some advertised
          | None => payment_mode_name <$> disclose
          end) as Ht.
  { subst tags. destruct disclose as [mode|]; cbn [fmap option_fmap option_map].
    - destruct (existsb _ _) eqn:Ee.
      + apply same_name_value_extract in Ee. rewrite extract_app, extract_response_tags in *.
        by destruct (extract_payment_interaction discovery); [|destruct Ee].
      + rewrite !extract_app, extract_response_tags.
        destruct (extract_payment_interaction discovery); [done|]. by destruct mode.
    - rewrite extract_app, extract_response_tags. by destruct (extract_payment_interaction discovery). }
  destruct response as [|r| |]; try done.
  destruct (is_capability_list_result (resp_result r)); [|done].
  rewrite extract_app, Ht, Hp.
  by destruct (extract_payment_interaction discovery), disclose.
Qed.

(** ** The negotiated mode *)

(** What happens to a session between two readings: a message is negotiated, or a
    response takes the disclosure. *)
Inductive payment_op : Type :=
| Negotiate (inner_tags : list Tag) (method : option string) (is_request : bool)
| Disclose.

Definition payment_step (supports : bool) (s : ClientSession) (op : payment_op) : ClientSession :=
  match op with
  | Negotiate ts method is_request => (negotiate_payment_interaction s ts method is_request supports).1
  | Disclose => (take_payment_interaction_disclosure s).1
  end.

(** The effective mode is set with the requested one, is the requested one where
    the server supports it, and is transparent where it does not. *)
Record payment_ok (supports : bool) (s : ClientSession) : Prop := {
  po_effective : effective_payment_interaction s =
    (λ mode, if supports then mode else Transparent) <$> requested_payment_interaction s;
  po_disclosed : has_disclosed_payment_interaction s = true →
    is_Some (requested_payment_interaction s);
}.

Lemma apply_effective_fields s prev next :
  prev = effective_payment_interaction s →
  requested_payment_interaction (apply_effective s prev next) = requested_payment_interaction s ∧
  effective_payment_interaction (apply_effective s prev next) = Some next ∧
  has_disclosed_payment_interaction (apply_effective s prev next) =
    bool_decide (Some next = prev) && has_disclosed_payment_interaction s.
Proof. intros ->. unfold apply_effective. by case_bool_decide. Qed.

Lemma apply_effective_idem s prev next :
  apply_effective (apply_effective s prev next) prev next = apply_effective s prev next.
Proof. unfold apply_effective. by case_bool_decide. Qed.

Lemma negotiate_spec s ts method is_request supports :
  let s0 := if is_request && bool_decide (method = Some "initialize")
            then set_payment None None false s else s in
  let '(s', outcome) := negotiate_payment_interaction s ts method is_request supports in
  match extract_payment_interaction ts with
  | None => s' = s0 ∧ outcome = Proceed
  | Some raw =>
      let asked := if String.eqb raw "explicit_gating" then ExplicitGating else Transparent in
      let granted := if supports then asked else Transparent in
      requested_payment_interaction s' = Some asked ∧
      effective_payment_interaction s' = Some granted ∧
      has_disclosed_payment_interaction s' =
        bool_decide (Some granted = effective_payment_interaction s0)
        && has_disclosed_payment_interaction s0 ∧
      outcome = if is_explicit_gating asked && negb supports && is_request
                then RejectUnsupported asked else Proceed
  end.
Proof.
  cbv zeta. unfold negotiate_payment_interaction.
  set (s0 := if is_request && _ then _ else _). clearbody s0.
  destruct (extract_payment_interaction ts) as [raw|]; [|done].
  destruct (String.eqb_spec raw "transparent") as [->|Hnt]; cbn -[apply_effective set_requested].
  - destruct (apply_effective_fields (set_requested Transparent s0) (effective_payment_interaction s0)
      Transparent) as (H1 & H2 & H3); [done|].
    destruct supports; by rewrite H1, H2, H3.
  - destruct (String.eqb_spec raw "explicit_gating") as [->|]; cbn -[apply_effective set_requested].
    + destruct supports; cbn -[apply_effective set_requested].
      * destruct (apply_effective_fields (set_requested ExplicitGating s0)
          (effective_payment_interaction s0) ExplicitGating) as (H1 & H2 & H3); [done|].
        by rewrite H1, H2, H3.
      * destruct (apply_effective_fields (set_requested ExplicitGating s0)
          (effective_payment_interaction s0) Transparent) as (H1 & H2 & H3); [done|].
        destruct is_request; cbn -[apply_effective set_requested]; [by rewrite H1, H2, H3|].
        rewrite apply_effective_idem. by rewrite H1, H2, H3.
    + destruct (apply_effective_fields (set_requested Transparent s0)
        (effective_payment_interaction s0) Transparent) as (H1 & H2 & H3); [done|].
      destruct supports; by rewrite H1, H2, H3.
Qed.

Lemma payment_step_ok supports s op : payment_ok supports s → payment_ok supports (payment_step supports s op).
Proof.
  intros [He Hd]. destruct op as [ts method is_request|]; cbn.
  - pose proof (negotiate_spec s ts method is_request supports) as Hn. cbv zeta in Hn.
    destruct (negotiate_payment_interaction _ _ _ _ _) as [s' outcome]. cbn.
    destruct (extract_payment_interaction ts) as [raw|].
    + destruct Hn as (H1 & H2 & _). split; [by rewrite H1, H2|]. rewrite H1. eauto.
    + destruct Hn as [-> _]. by destruct (is_request && _); split; auto.
  - unfold take_payment_interaction_disclosure.
    destruct (requested_payment_interaction s) as [r|] eqn:Er, (effective_payment_interaction s) as [e|] eqn:Ee;
      try destruct (_ && _); split; cbn; rewrite ?Er, ?Ee; eauto.
Qed.

Definition payment_run (supports : bool) (s : ClientSession) (ops : list payment_op) : ClientSession :=
  foldl (payment_step supports) s ops.

(** (C29) The payment interaction of a session, after any messages and responses
    from its creation: the effective mode is exactly the last requested one where
    the server supports explicit gating and transparent where it does not, so
    explicit gating never takes effect on a server that rejects it.  The next
    message is rejected exactly when it is a request for explicit gating that the
    server does not support; and after a message that asks for explicit gating the
    next response discloses the effective mode unless that mode was disclosed
    before and has not changed since. *)
Theorem negotiation_sound now enc supports ops ts method is_request :
  let s := payment_run supports (ClientSession_new now enc) ops in
  let '(s', outcome) := negotiate_payment_interaction s ts method is_request supports in
  (∀ mode, effective_payment_interaction s = Some mode →
     mode = (if supports then default Transparent (requested_payment_interaction s) else Transparent)) ∧
  (outcome ≠ Proceed ↔
     is_request = true ∧ supports = false ∧
     extract_payment_interaction ts = Some "explicit_gating") ∧
  (extract_payment_interaction ts = Some "explicit_gating" →
     (take_payment_interaction_disclosure s').2 =
       if has_disclosed_payment_interaction s'
       then None else Some (if supports then ExplicitGating else Transparent)) ∧
  (has_disclosed_payment_interaction s' = true →
     effective_payment_interaction s' = effective_payment_interaction s ∧
     has_disclosed_payment_interaction s = true).
Proof.
  cbv zeta. assert (∀ s, payment_ok supports s → payment_ok supports (payment_run supports s ops)) as Hrun.
  { induction ops as [|op ops IH]; intros s Hs; cbn; [done|]. by apply IH, payment_step_ok. }
  specialize (Hrun (ClientSession_new now enc) ltac:(by split)).
  set (s := payment_run supports _ ops) in *. clearbody s. destruct Hrun as [He Hd].
  pose proof (negotiate_spec s ts method is_request supports) as Hn. cbv zeta in Hn.
  destruct (negotiate_payment_interaction _ _ _ _ _) as [s' outcome].
  split_and!.
  - intros mode. rewrite He. destruct (requested_payment_interaction s); cbn; [|done].
    intros [= <-]. by destruct supports.
  - destruct (extract_payment_interaction ts) as [raw|]; [|destruct Hn as [_ ->]; naive_solver].
    destruct Hn as (_ & _ & _ & ->).
    destruct (String.eqb_spec raw "explicit_gating") as [->|]; destruct supports, is_request; cbn; naive_solver.
  - intros Hx. rewrite Hx in Hn. cbn -[negb] in Hn. destruct Hn as (H1 & H2 & _).
    unfold take_payment_interaction_disclosure. rewrite H1, H2. cbn.
    by destruct (has_disclosed_payment_interaction s'), supports.
  - destruct (extract_payment_interaction ts) as [raw|].
    + destruct Hn as (_ & H2 & H3 & _). rewrite H3. intros [Hg Hs]%andb_true_iff. b2p. rewrite H2, Hg.
      by destruct (is_request && _).
    + destruct Hn as [-> _]. by destruct (is_request && _).
Qed.

(** ** Gift-wrap kinds are allowed ones *)

Lemma mode_default_allowed mode : allows_kind mode (mode_default_kind mode) = true.
Proof. by destruct mode. Qed.

Lemma ephemeral_allowed mode :
  supports_ephemeral mode = true → allows_kind mode EPHEMERAL_GIFT_WRAP_KIND = true.
Proof. by destruct mode. Qed.

Lemma select_kind_spec mode enc mirrored :
  match select_outbound_gift_wrap_kind mode enc mirrored with
  | Some k => enc = true ∧ allows_kind mode k = true ∧
              (∀ k', mirrored = Some k' → allows_kind mode k' = true → k = k')
  | None => enc = false
  end.
Proof.
  unfold select_outbound_gift_wrap_kind. destruct enc; cbn; [|done].
  destruct mirrored as [k|]; [destruct (allows_kind mode k) eqn:Ek|]; split_and!; try done;
    try apply mode_default_allowed; intros k' Hk; congruence.
Qed.

Lemma select_notification_kind_spec mode enc mirrored eph :
  match select_outbound_notification_gift_wrap_kind mode enc mirrored eph with
  | Some k => enc = true ∧ allows_kind mode k = true
  | None => enc = false
  end.
Proof.
  unfold select_outbound_notification_gift_wrap_kind. destruct enc; cbn; [|done].
  destruct mirrored as [k|]; [destruct (allows_kind mode k) eqn:Ek; [done|]|];
    (destruct (eph && supports_ephemeral mode) eqn:E; b2p; split;
      [done|by apply ephemeral_allowed|done|apply mode_default_allowed]).
Qed.

(** ** Witnesses *)

Lemma client_reads_disclosure_witness :
  extract_payment_interaction
    (compose_response_tags (create_response_tags "alice" "e1") [["support_encryption"]]
       (Some ExplicitGating) [["cap"; "tool:x"; "10"; "sats"]]
       (Response (mkResponse "2.0" VNull (VObject [("tools", VArray [])])))) = Some "explicit_gating".
Proof. by rewrite client_reads_disclosure. Defined.
