(* ===== verification/ServerState.v ===== *)
(** * The server transport: configuration, state and critical sections

    The state of [NostrServerTransport] ([src/transport/server/mod.rs]) and the
    operations it performs under one lock: session latches, payment route
    snapshots, the deferral of a stream's final response and the terminal hook of
    a writer.  The routes, wrap kinds, writer slots, token index and the consumer
    channel are fields of [World] ([ServerTasks]), which the inbound chains share. *)

From S2P Require Import Prelude Json CoreTypes OversizedFrame OversizedCodec Instances OversizedReceiver Lru RouteStore SessionStore OpenStreamFrame OpenStreamSession OpenStreamRegistry OpenStreamWriter PaymentTypes ServerTasks BaseTransport Announcements ServerNegotiation.

(** ** Configuration *)

Record NostrServerTransportConfig : Type := mkServerConfig {
  cfg_relay_urls : list string;
  cfg_encryption_mode : EncryptionMode;
  cfg_gift_wrap_mode : GiftWrapMode;
  cfg_server_info : option ServerInfo;
  cfg_is_announced_server : bool;
  cfg_allowed_public_keys : list string;
  cfg_excluded_capabilities : list CapabilityExclusion;
  cfg_max_sessions : Z;
  cfg_cleanup_interval : Z;
  cfg_session_timeout : Z;
  cfg_request_timeout : Z;
  cfg_relay_list_urls : option (list string);
  cfg_bootstrap_relay_urls : option (list string);
  cfg_publish_relay_list : bool;
  cfg_profile_metadata : option ProfileMetadata;
  cfg_oversized_transfer : OversizedTransferConfig;
  cfg_open_stream : OpenStreamConfig;
}.

(** [Duration::from_secs]. *)
Definition from_secs (s : Z) : Z := from_millis (s * 1000).

Definition NostrServerTransportConfig_default : NostrServerTransportConfig := {|
  cfg_relay_urls := ["wss://relay.damus.io"];
  cfg_encryption_mode := EncOptional;
  cfg_gift_wrap_mode := GwOptional;
  cfg_server_info := None;
  cfg_is_announced_server := false;
  cfg_allowed_public_keys := [];
  cfg_excluded_capabilities := [];
  cfg_max_sessions := DEFAULT_MAX_SESSIONS;
  cfg_cleanup_interval := from_secs 60;
  cfg_session_timeout := from_secs 300;
  cfg_request_timeout := from_secs 60;
  cfg_relay_list_urls := None;
  cfg_bootstrap_relay_urls := None;
  cfg_publish_relay_list := true;
  cfg_profile_metadata := None;
  cfg_oversized_transfer := OversizedTransferConfig_default;
  cfg_open_stream := OpenStreamConfig_default;
|}.

Definition oversized_support_tags (config : NostrServerTransportConfig) : list Tag :=
  if oc_enabled (cfg_oversized_transfer config)
  then [custom_tag tags.SUPPORT_OVERSIZED_TRANSFER []] else [].
Definition open_stream_support_tags (config : OpenStreamConfig) : list Tag :=
  if sc_enabled config then [custom_tag tags.SUPPORT_OPEN_STREAM []] else [].
Definition internal_common_capability_tags (config : NostrServerTransportConfig) : list Tag :=
  oversized_support_tags config ++ open_stream_support_tags (cfg_open_stream config).

(** ** State *)

Record PaymentRouteSnapshot : Type := mkPaymentSnapshot {
  ps_snapshot : RouteSnapshot;
  ps_expires_at : Z;
}.

Record ResponseTagSources : Type := mkTagSources {
  ts_common : list Tag;
  ts_pricing : list Tag;
}.

(** [t_detached] are the writers whose slot is gone while a tool may still hold
    them, [t_evicted] the calls of the eviction callback, [t_net] the publish
    attempts, [t_trace] the commands the inbound chains have executed; [t_alive] is false once the event loop has panicked. *)
Record Transport (L : Type → Type) : Type := mkTransport {
  t_world : World L;
  t_tasks : list (prog unit);
  t_trace : list event;
  t_sessions : L ClientSession;
  t_evicted : list string;
  t_snapshots : L PaymentRouteSnapshot;
  t_seen : L unit;
  t_oversized : L OversizedTransferReceiver;
  t_readers : L OpenStreamReceiver;
  t_control_progress : Z;
  t_detached : gmap string (RouteSnapshot * OpenStreamWriter);
  t_manager : AnnouncementManager;
  t_net : Net;
  t_alive : bool;
}.
Arguments mkTransport {L}.
Arguments t_world {L}.
Arguments t_tasks {L}.
Arguments t_trace {L}.
Arguments t_sessions {L}.
Arguments t_evicted {L}.
Arguments t_snapshots {L}.
Arguments t_seen {L}.
Arguments t_oversized {L}.
Arguments t_readers {L}.
Arguments t_control_progress {L}.
Arguments t_detached {L}.
Arguments t_manager {L}.
Arguments t_net {L}.
Arguments t_alive {L}.

Section state.
Context {L : Type → Type}.
Implicit Types t : Transport L.

Definition with_world t x := mkTransport x (t_tasks t) (t_trace t) (t_sessions t) (t_evicted t) (t_snapshots t) (t_seen t) (t_oversized t) (t_readers t) (t_control_progress t) (t_detached t) (t_manager t) (t_net t) (t_alive t).
Definition with_tasks t x := mkTransport (t_world t) x (t_trace t) (t_sessions t) (t_evicted t) (t_snapshots t) (t_seen t) (t_oversized t) (t_readers t) (t_control_progress t) (t_detached t) (t_manager t) (t_net t) (t_alive t).
Definition with_trace t x := mkTransport (t_world t) (t_tasks t) x (t_sessions t) (t_evicted t) (t_snapshots t) (t_seen t) (t_oversized t) (t_readers t) (t_control_progress t) (t_detached t) (t_manager t) (t_net t) (t_alive t).
Definition with_sessions t x := mkTransport (t_world t) (t_tasks t) (t_trace t) x (t_evicted t) (t_snapshots t) (t_seen t) (t_oversized t) (t_readers t) (t_control_progress t) (t_detached t) (t_manager t) (t_net t) (t_alive t).
Definition with_evicted t x := mkTransport (t_world t) (t_tasks t) (t_trace t) (t_sessions t) x (t_snapshots t) (t_seen t) (t_oversized t) (t_readers t) (t_control_progress t) (t_detached t) (t_manager t) (t_net t) (t_alive t).
Definition with_snapshots t x := mkTransport (t_world t) (t_tasks t) (t_trace t) (t_sessions t) (t_evicted t) x (t_seen t) (t_oversized t) (t_readers t) (t_control_progress t) (t_detached t) (t_manager t) (t_net t) (t_alive t).
Definition with_seen t x := mkTransport (t_world t) (t_tasks t) (t_trace t) (t_sessions t) (t_evicted t) (t_snapshots t) x (t_oversized t) (t_readers t) (t_control_progress t) (t_detached t) (t_manager t) (t_net t) (t_alive t).
Definition with_oversized t x := mkTransport (t_world t) (t_tasks t) (t_trace t) (t_sessions t) (t_evicted t) (t_snapshots t) (t_seen t) x (t_readers t) (t_control_progress t) (t_detached t) (t_manager t) (t_net t) (t_alive t).
Definition with_readers t x := mkTransport (t_world t) (t_tasks t) (t_trace t) (t_sessions t) (t_evicted t) (t_snapshots t) (t_seen t) (t_oversized t) x (t_control_progress t) (t_detached t) (t_manager t) (t_net t) (t_alive t).
Definition with_control t x := mkTransport (t_world t) (t_tasks t) (t_trace t) (t_sessions t) (t_evicted t) (t_snapshots t) (t_seen t) (t_oversized t) (t_readers t) x (t_detached t) (t_manager t) (t_net t) (t_alive t).
Definition with_detached t x := mkTransport (t_world t) (t_tasks t) (t_trace t) (t_sessions t) (t_evicted t) (t_snapshots t) (t_seen t) (t_oversized t) (t_readers t) (t_control_progress t) x (t_manager t) (t_net t) (t_alive t).
Definition with_manager t x := mkTransport (t_world t) (t_tasks t) (t_trace t) (t_sessions t) (t_evicted t) (t_snapshots t) (t_seen t) (t_oversized t) (t_readers t) (t_control_progress t) (t_detached t) x (t_net t) (t_alive t).
Definition with_net t x := mkTransport (t_world t) (t_tasks t) (t_trace t) (t_sessions t) (t_evicted t) (t_snapshots t) (t_seen t) (t_oversized t) (t_readers t) (t_control_progress t) (t_detached t) (t_manager t) x (t_alive t).
Definition with_alive t x := mkTransport (t_world t) (t_tasks t) (t_trace t) (t_sessions t) (t_evicted t) (t_snapshots t) (t_seen t) (t_oversized t) (t_readers t) (t_control_progress t) (t_detached t) (t_manager t) (t_net t) x.

(** The parts of the world the transport works on. *)
Definition t_routes t : RouteStore L := event_routes (t_world t).
Definition t_wraps t : gmap string (option Z) := request_wrap_kinds (t_world t).
Definition t_slots t : gmap string OpenStreamSlot := slots (t_world t).
Definition t_tokens t : gmap string string := token_to_event (t_world t).
Definition with_event_routes t x := with_world t (set_routes (t_world t) x).
Definition with_wraps t x := with_world t (set_wrap_kinds (t_world t) x).
Definition with_slots t x := with_world t (set_slots (t_world t) x).
Definition with_tokens t x := with_world t (set_tokens (t_world t) x).
End state.

(** ** Sessions *)

Section sessions.
Context `{Lru L}.

(** [sessions.write().get_mut(key)] and what is read and written through it. *)
Definition with_session {A} (key : string) (f : ClientSession → ClientSession * A)
    (sessions : L ClientSession) : L ClientSession * option A :=
  match lru_peek key sessions with
  | Some s => ((lru_get_mut key (λ s, (f s).1) sessions).1, Some (f s).2)
  | None => (sessions, None)
  end.

(** The two latches of the first response: whether the discovery tags are due,
    and the mode to disclose. *)
Definition take_latches (s : ClientSession) : ClientSession * (bool * option PaymentInteractionMode) :=
  let send_discovery := negb (has_sent_common_tags s) in
  let '(s, disclose) := take_payment_interaction_disclosure (set_has_sent_common_tags true s) in
  (s, (send_discovery, disclose)).

(** The compatibility maps of a session. *)
Definition set_pending (pending : gmap string Value) (tokens : gmap string string) (s : ClientSession)
  : ClientSession :=
  mkClientSession (is_initialized s) (is_encrypted s) (has_sent_common_tags s)
    (supports_ephemeral_gift_wrap s) (supports_encryption s) (supports_ephemeral_encryption s)
    (supports_oversized_transfer s) (supports_open_stream s) (requested_payment_interaction s)
    (effective_payment_interaction s) (has_disclosed_payment_interaction s) (last_activity s)
    pending tokens.

(** ** Payment route snapshots *)

Definition take_payment_route_snapshot (event_id : string) (snapshots : L PaymentRouteSnapshot)
  : L PaymentRouteSnapshot * option PaymentRouteSnapshot := lru_pop event_id snapshots.

Definition reinsert_payment_route_snapshot (event_id : string) (entry : PaymentRouteSnapshot)
    (snapshots : L PaymentRouteSnapshot) : L PaymentRouteSnapshot := lru_put event_id entry snapshots.

Definition extend_expiry (expires_at : Z) (e : PaymentRouteSnapshot) : PaymentRouteSnapshot :=
  if ps_expires_at e <? expires_at then mkPaymentSnapshot (ps_snapshot e) expires_at else e.

Definition record_payment_route_snapshot (now : Z) (event_id : string) (snapshot : RouteSnapshot)
    (expires_at : Z) (cache : L PaymentRouteSnapshot) : L PaymentRouteSnapshot :=
  let entry := mkPaymentSnapshot snapshot expires_at in
  if lru_contains event_id cache then lru_peek_mut event_id (extend_expiry expires_at) cache
  else if lru_len cache =? lru_cap cache then
    match List.find (λ ke, ps_expires_at ke.2 <=? now) (lru_iter cache) with
    | Some (key, _) => lru_put event_id entry (lru_pop key cache).1
    | None => cache
    end
  else lru_put event_id entry cache.

(** The purge of the cleanup task. *)
Definition purge_payment_snapshots (now : Z) (snapshots : L PaymentRouteSnapshot)
  : L PaymentRouteSnapshot :=
  foldl (λ c key, (lru_pop key c).1) snapshots
    (List.filter (λ ke, ps_expires_at ke.2 <=? now) (lru_iter snapshots)).*1.

(** ** Oversized receivers *)

(** [sweep_oversized_receivers]: reap, then drop the receivers left empty. *)
Definition sweep_oversized_receivers (now : Z) (receivers : L OversizedTransferReceiver)
  : L OversizedTransferReceiver :=
  let receivers := lru_iter_mut (λ _ r, (remove_expired now r).1) receivers in
  foldl (λ c peer, (lru_pop peer c).1) receivers
    (List.filter (λ pr, active_transfer_count pr.2 =? 0) (lru_iter receivers)).*1.
End sessions.

(** ** Writer slots *)

(** [RouteSnapshot] and the response it delivers. *)
Definition restore_id (id : Value) (m : JsonRpcMessage) : JsonRpcMessage :=
  match m with
  | Response r => Response (mkResponse (resp_jsonrpc r) id (resp_result r))
  | ErrorResponse r => ErrorResponse (mkErrorResponse (eresp_jsonrpc r) id (eresp_error r))
  | _ => m
  end.

Inductive OpenStreamDeferral : Type :=
| Deferred
| SendNow (snapshot : RouteSnapshot) (response : JsonRpcMessage)
| Passthrough (response : JsonRpcMessage).

(** The slots, the token index and the writers without a slot. *)
Record SlotTables : Type := mkTables {
  tab_slots : gmap string OpenStreamSlot;
  tab_tokens : gmap string string;
  tab_detached : gmap string (RouteSnapshot * OpenStreamWriter);
}.

Definition set_slot_response (s : OpenStreamSlot) (pending : option JsonRpcMessage) (terminated : bool)
  : OpenStreamSlot :=
  mkSlot (slot_writer s) (slot_snapshot s) pending terminated (slot_forwarded s) (slot_live_chains s).
Definition set_slot_writer (s : OpenStreamSlot) (w : OpenStreamWriter) : OpenStreamSlot :=
  mkSlot w (slot_snapshot s) (slot_pending_response s) (slot_terminated s) (slot_forwarded s)
    (slot_live_chains s).

Definition slot_token_key (s : OpenStreamSlot) : string :=
  client_token_key (rsnap_client_pubkey (slot_snapshot s)) (Writer.progress_token (slot_writer s)).

(** [slots.remove(event_id)] and the removal of its token; the writer lives on in
    the hands of the tool. *)
Definition release_slot (event_id : string) (slot : OpenStreamSlot) (tb : SlotTables) : SlotTables :=
  mkTables (delete event_id (tab_slots tb)) (delete (slot_token_key slot) (tab_tokens tb))
    (<[event_id := (slot_snapshot slot, slot_writer slot)]> (tab_detached tb)).

Definition try_defer_open_stream_response (event_id : string) (response : JsonRpcMessage) (tb : SlotTables)
  : SlotTables * OpenStreamDeferral :=
  match tab_slots tb !! event_id with
  | None => (tb, Passthrough response)
  | Some slot =>
      if negb (Writer.has_started (slot_writer slot)) then (release_slot event_id slot tb, Passthrough response)
      else if slot_terminated slot then
        (release_slot event_id slot tb, SendNow (slot_snapshot slot) response)
      else (mkTables (<[event_id := set_slot_response slot (Some response) false]> (tab_slots tb))
              (tab_tokens tb) (tab_detached tb), Deferred)
  end.

(** The first critical section of [flush_open_stream_response]: the slot is
    terminal, and its stashed response is taken. *)
Definition flush_mark (event_id : string) (tb : SlotTables)
  : SlotTables * option (OpenStreamSlot * JsonRpcMessage) :=
  match tab_slots tb !! event_id with
  | None => (tb, None)
  | Some slot =>
      (mkTables (<[event_id := set_slot_response slot None true]> (tab_slots tb)) (tab_tokens tb)
         (tab_detached tb),
       (λ response, (slot, response)) <$> slot_pending_response slot)
  end.

(** The second one, when a response was taken. *)
Definition flush_release (event_id : string) (slot : OpenStreamSlot) (tb : SlotTables) : SlotTables :=
  mkTables (delete event_id (tab_slots tb)) (delete (slot_token_key slot) (tab_tokens tb))
    (match tab_slots tb !! event_id with
     | Some s => <[event_id := (slot_snapshot s, slot_writer s)]> (tab_detached tb)
     | None => tab_detached tb
     end).

Definition tables {L} (t : Transport L) : SlotTables := mkTables (t_slots t) (t_tokens t) (t_detached t).
Definition with_tables {L} (t : Transport L) (tb : SlotTables) : Transport L :=
  with_detached (with_tokens (with_slots t (tab_slots tb)) (tab_tokens tb)) (tab_detached tb).

(** The writer of a request, wherever it is held, with the fields its publisher
    captured. *)
Definition writer_of (event_id : string) (tb : SlotTables) : option (RouteSnapshot * OpenStreamWriter) :=
  match tab_slots tb !! event_id with
  | Some s => Some (slot_snapshot s, slot_writer s)
  | None => tab_detached tb !! event_id
  end.
Definition set_writer (event_id : string) (w : OpenStreamWriter) (tb : SlotTables) : SlotTables :=
  if tab_slots tb !! event_id is Some _
  then mkTables (alter (λ s, set_slot_writer s w) event_id (tab_slots tb)) (tab_tokens tb) (tab_detached tb)
  else mkTables (tab_slots tb) (tab_tokens tb) (alter (λ sw, (sw.1, w)) event_id (tab_detached tb)).
