(* ===== verification/ServerOutbound.v ===== *)
(** * The server transport: outbound

    The publishing half of [src/transport/server/mod.rs]: responses in all their
    forms (plain, fragmented, deferred by a stream, from a payment snapshot,
    targeted), notifications, and the frames of server-to-client streams with the
    hooks that end them.  A handler is one step; what the relay pool answers is
    the [Nostr] class. *)

From S2P Require Import Prelude Json CoreTypes OversizedFrame OversizedCodec Instances OversizedReceiver Lru RouteStore SessionStore OpenStreamFrame OpenStreamSession OpenStreamRegistry OpenStreamWriter PaymentTypes ServerTasks BaseTransport Announcements ServerNegotiation ServerState.

Section outbound.
Context `{Lru L} `{SerdeJson} `{Sha256} `{Nostr}.
Variable config : NostrServerTransportConfig.
Implicit Types t : Transport L.

Local Abbreviation mode := (cfg_encryption_mode config).
Local Abbreviation gift_wrap_mode := (cfg_gift_wrap_mode config).

(** [Result::map(|_| ())]. *)
Definition discard {A} (r : result A Error) : result unit Error := let? _ := r in Ok tt.

(** ** Deferred and targeted responses *)

(** [publish_open_stream_deferred_response]. *)
Definition publish_open_stream_deferred_response (event_id : string) (snapshot : RouteSnapshot)
    (response : JsonRpcMessage) (tag_sources : ResponseTagSources) t : Transport L * result unit Error :=
  let response := restore_id (rsnap_original_request_id snapshot) response in
  match event_id_from_hex event_id with
  | Err error => (t, Err (EOther ("Invalid event id for deferred response: " +:+ error)))
  | Ok event_id_parsed =>
      let client_pubkey := rsnap_client_pubkey snapshot in
      let base_tags := create_response_tags client_pubkey event_id_parsed in
      let '(sessions, latches) := with_session client_pubkey take_latches (t_sessions t) in
      let '(send_discovery, disclose_effective) := default (false, None) latches in
      let discovery := if send_discovery then ts_common tag_sources else [] in
      let tags := compose_response_tags base_tags discovery disclose_effective (ts_pricing tag_sources) response in
      let gift_wrap_kind := select_outbound_gift_wrap_kind gift_wrap_mode (rsnap_is_encrypted snapshot)
                              (rsnap_mirrored_wrap_kind snapshot) in
      let '(net, sent) := send_mcp_message mode (t_net t) response client_pubkey CTXVM_MESSAGES_KIND tags
                            (Some (rsnap_is_encrypted snapshot)) gift_wrap_kind in
      (with_net (with_sessions t sessions) net, discard sent)
  end.

(** The tag sources read live. *)
Definition live_tag_sources t : Transport L * ResponseTagSources :=
  let '(m, common) := Manager.get_common_tags (t_manager t) in
  (with_manager t m, mkTagSources common (Manager.get_pricing_tags m)).

Definition send_open_stream_deferred_response (event_id : string) (snapshot : RouteSnapshot)
    (response : JsonRpcMessage) t : Transport L * result unit Error :=
  let '(t, sources) := live_tag_sources t in
  publish_open_stream_deferred_response event_id snapshot response sources t.

Definition publish_targeted_response (tag_sources : ResponseTagSources) (client_pubkey_hex event_id : string)
    (mirrored_wrap_kind : option Z) (response : JsonRpcMessage) t : Transport L * result unit Error :=
  match pubkey_from_hex client_pubkey_hex with
  | Err error => (t, Err (EOther error))
  | Ok client_pubkey =>
  match event_id_from_hex event_id with
  | Err error => (t, Err (EOther error))
  | Ok event_id_parsed =>
      let '(sessions, resolved) :=
        with_session client_pubkey_hex (λ s, let '(s', l) := take_latches s in (s', (is_encrypted s, l)))
          (t_sessions t) in
      match resolved with
      | None => (t, Ok tt)
      | Some (is_encrypted, (send_discovery, disclose_effective)) =>
          let base_tags := create_response_tags client_pubkey event_id_parsed in
          let discovery := if send_discovery then ts_common tag_sources else [] in
          let tags := compose_response_tags base_tags discovery disclose_effective
                        (ts_pricing tag_sources) response in
          let gift_wrap_kind := select_outbound_gift_wrap_kind gift_wrap_mode is_encrypted mirrored_wrap_kind in
          let '(net, sent) := send_mcp_message mode (t_net t) response client_pubkey CTXVM_MESSAGES_KIND tags
                                (Some is_encrypted) gift_wrap_kind in
          (with_net (with_sessions t sessions) net, discard sent)
      end
  end end.

(** The gift-wrap kind recorded for a request. *)
Definition mirrored_wrap_kind (event_id : string) t : option Z := mjoin (t_wraps t !! event_id).

Definition send_targeted_response (client_pubkey_hex event_id : string) (response : JsonRpcMessage) t
  : Transport L * result unit Error :=
  let mirrored := mirrored_wrap_kind event_id t in
  let '(t, sources) := live_tag_sources t in
  publish_targeted_response sources client_pubkey_hex event_id mirrored response t.

(** The closure of [targeted_response_sender], with the tags captured in it. *)
Definition targeted_response_sender (captured : ResponseTagSources) (client_pubkey_hex event_id : string)
    (response : JsonRpcMessage) t : Transport L * result unit Error :=
  publish_targeted_response captured client_pubkey_hex event_id (mirrored_wrap_kind event_id t) response t.

(** ** Fragmented responses *)

(** The frames in order: the first carries [start_tags], the others [base_tags]. *)
Fixpoint publish_frames (recipient : string) (first_tags base_tags : list Tag) (is_encrypted : bool)
    (gift_wrap_kind : option Z) (frames : list JsonRpcNotification) (net : Net) : Net * result unit Error :=
  match frames with
  | [] => (net, Ok tt)
  | frame :: rest =>
      match send_mcp_message mode net (Notification frame) recipient CTXVM_MESSAGES_KIND first_tags
              (Some is_encrypted) gift_wrap_kind with
      | (net, Err e) => (net, Err e)
      | (net, Ok _) => publish_frames recipient base_tags base_tags is_encrypted gift_wrap_kind rest net
      end
  end.

Definition send_oversized_response (serialized progress_token recipient : string) (base_tags start_tags : list Tag)
    (is_encrypted : bool) (gift_wrap_kind : option Z) (net : Net) : Net * result unit Error :=
  let oc := cfg_oversized_transfer config in
  let chunk_size :=
    default 1 (resolve_safe_chunk_size
      (probe_text mode recipient base_tags is_encrypted (default GIFT_WRAP_KIND gift_wrap_kind) net)
      (oc_chunk_size oc) (oc_threshold oc)) in
  match build_oversized_frames serialized (with_chunk_size (OversizedSenderOptions_new progress_token) chunk_size) with
  | Err e => (net, Err (EOversizedTransfer e))
  | Ok built => publish_frames recipient start_tags base_tags is_encrypted gift_wrap_kind (into_ordered built) net
  end.

(** ** Responses *)

(** How a response leaves: split into frames, as the event already built for the
    size check, or as an event to build. *)
Inductive send_plan : Type := Fragment | Reuse (publishable : Event) | Single.

Definition plan_response (response : JsonRpcMessage) (serialized recipient : string) (tags : list Tag)
    (is_encrypted : bool) (gift_wrap_kind : option Z) (eligible : bool) (net : Net) : send_plan :=
  let threshold := oc_threshold (cfg_oversized_transfer config) in
  if negb eligible then Single
  else if threshold <=? str_len serialized then Fragment
  else match prepare_mcp_message mode net response recipient CTXVM_MESSAGES_KIND tags (Some is_encrypted)
               gift_wrap_kind with
       | Ok (_, publishable) =>
           if threshold <? str_len (event_to_json publishable) then Fragment else Reuse publishable
       | Err _ => Fragment
       end.

Definition execute_plan (plan : send_plan) (response : JsonRpcMessage) (serialized : string)
    (progress_token : option string) (recipient : string) (base_tags tags : list Tag)
    (is_encrypted : bool) (gift_wrap_kind : option Z) (net : Net) : Net * result unit Error :=
  match plan with
  | Fragment => send_oversized_response serialized (default "" progress_token) recipient base_tags tags
                  is_encrypted gift_wrap_kind net
  | Reuse publishable =>
      publish_logged net response recipient tags
        (wrapped_kind mode CTXVM_MESSAGES_KIND (Some is_encrypted) gift_wrap_kind) publishable
  | Single =>
      let '(net, sent) := send_mcp_message mode net response recipient CTXVM_MESSAGES_KIND tags
                            (Some is_encrypted) gift_wrap_kind in
      (net, discard sent)
  end.

(** What [send_response] reads and latches under the session lock. *)
Definition response_latches (common : list Tag) (s : ClientSession)
  : ClientSession * (bool * bool * list Tag * option PaymentInteractionMode) :=
  let '(s1, discovery_tags) := take_pending_server_discovery_tags common s in
  let '(s2, disclose) := take_payment_interaction_disclosure s1 in
  (s2, (is_encrypted s, supports_oversized_transfer s, discovery_tags, disclose)).

(** The correlation state a delivered response leaves behind. *)
Definition forget_request (event_id : string) (progress_token : option string) (s : ClientSession)
  : ClientSession :=
  let pending := match progress_token with
                 | Some token => delete token (pending_requests s)
                 | None => pending_requests s
                 end in
  set_pending (delete event_id pending) (delete event_id (event_to_progress_token s)) s.

(** The plain path, once the route was popped. *)
Definition respond_to_route (now : Z) (event_id : string) (response : JsonRpcMessage) (route : RouteEntry) t
  : Transport L * result unit Error :=
  let client_pubkey_hex := route_client_pubkey route in
  let original_request_id := original_request_id route in
  let token := route_progress_token route in
  let '(t, sources) := live_tag_sources t in
  match with_session client_pubkey_hex (response_latches (ts_common sources)) (t_sessions t) with
  | (_, None) => (t, Err (EOther ("No session for client " +:+ client_pubkey_hex)))
  | (sessions, Some (is_encrypted, supports_oversized, discovery_tags, disclose_effective)) =>
      let response := restore_id original_request_id response in
      let serialized := to_string (message_to_value response) in
      let t := with_sessions t sessions in
      let mirrored := mirrored_wrap_kind event_id t in
      match pubkey_from_hex client_pubkey_hex with
      | Err error => (t, Err (EOther error))
      | Ok client_pubkey =>
      match event_id_from_hex event_id with
      | Err error => (t, Err (EOther error))
      | Ok event_id_parsed =>
          let base_tags := create_response_tags client_pubkey event_id_parsed in
          let tags := compose_response_tags base_tags discovery_tags disclose_effective
                        (ts_pricing sources) response in
          let gift_wrap_kind := select_outbound_gift_wrap_kind gift_wrap_mode is_encrypted mirrored in
          let eligible := oc_enabled (cfg_oversized_transfer config)
                          && bool_decide (is_Some token) && supports_oversized in
          let plan := plan_response response serialized client_pubkey tags is_encrypted gift_wrap_kind eligible (t_net t) in
          let '(net, sent) := execute_plan plan response serialized token client_pubkey base_tags tags
                                is_encrypted gift_wrap_kind (t_net t) in
          let t := with_net t net in
          match sent with
          | Err error =>
              (with_event_routes t
                 (register now event_id client_pubkey_hex original_request_id token (t_routes t)), Err error)
          | Ok _ =>
              let t := with_wraps t (delete event_id (t_wraps t)) in
              (with_sessions t (lru_get_mut client_pubkey_hex (forget_request event_id token) (t_sessions t)).1,
               Ok tt)
          end
      end end
  end.

Definition send_response (now : Z) (event_id : string) (response : JsonRpcMessage) t
  : Transport L * result unit Error :=
  let '(snapshots, payment_snapshot) := take_payment_route_snapshot event_id (t_snapshots t) in
  let t := with_snapshots t snapshots in
  let '(t, deferral) :=
    if sc_enabled (cfg_open_stream config)
    then let '(tb, d) := try_defer_open_stream_response event_id response (tables t) in (with_tables t tb, d)
    else (t, Passthrough response) in
  match deferral with
  | Deferred => (t, Ok tt)
  | SendNow snapshot response => send_open_stream_deferred_response event_id snapshot response t
  | Passthrough response =>
      let '(routes, popped) := pop_route event_id (t_routes t) in
      let t := with_event_routes t routes in
      match popped with
      | Some route => respond_to_route now event_id response route t
      | None =>
          match payment_snapshot with
          | Some entry =>
              let '(t, res) := send_open_stream_deferred_response event_id (ps_snapshot entry) response t in
              if is_ok res then (t, res)
              else (with_snapshots t (reinsert_payment_route_snapshot event_id entry (t_snapshots t)), res)
          | None => (t, Err (EOther ("No client found for event " +:+ event_id)))
          end
      end
  end.

(** ** Notifications *)

(** What [publish_payment_notification] reads and latches under the lock. *)
Definition notification_latches (common : list Tag) (s : ClientSession)
  : ClientSession * (bool * bool * list Tag) :=
  let '(s', discovery_tags) := take_pending_server_discovery_tags common s in
  (s', (is_encrypted s, supports_ephemeral_gift_wrap s, discovery_tags)).

Definition publish_payment_notification (correlated_wrap_kind : option Z) (common_tags : list Tag)
    (client_pubkey_hex : string) (correlated_event_id : option string) (notification : JsonRpcMessage) t
  : Transport L * result unit Error :=
  match with_session client_pubkey_hex (notification_latches common_tags) (t_sessions t) with
  | (_, None) => (t, Err (EOther ("No session for " +:+ client_pubkey_hex)))
  | (sessions, Some (is_encrypted, supports_eph, discovery_tags)) =>
      let t := with_sessions t sessions in
      match pubkey_from_hex client_pubkey_hex with
      | Err error => (t, Err (EOther error))
      | Ok client_pubkey =>
          let correlated :=
            match correlated_event_id with
            | Some eid => match event_id_from_hex eid with
                          | Ok id => Ok [event_tag id]
                          | Err error => Err (EOther error)
                          end
            | None => Ok []
            end in
          match correlated with
          | Err error => (t, Err error)
          | Ok e_tags =>
              let tags := compose_outbound_tags (create_recipient_tags client_pubkey ++ e_tags) discovery_tags [] in
              let '(net, sent) :=
                send_mcp_message mode (t_net t) notification client_pubkey CTXVM_MESSAGES_KIND tags
                  (Some is_encrypted)
                  (select_outbound_notification_gift_wrap_kind gift_wrap_mode is_encrypted
                     correlated_wrap_kind supports_eph) in
              (with_net t net, discard sent)
          end
      end
  end.

Definition send_notification (client_pubkey_hex : string) (notification : JsonRpcMessage)
    (correlated_event_id : option string) t : Transport L * result unit Error :=
  let correlated_wrap_kind := eid ← correlated_event_id; mirrored_wrap_kind eid t in
  let '(t, sources) := live_tag_sources t in
  publish_payment_notification correlated_wrap_kind (ts_common sources) client_pubkey_hex
    correlated_event_id notification t.

(** The closure of [payment_notification_sender], with the tags captured in it. *)
Definition capture_snapshot (now snapshot_ttl : Z) (client_pubkey_hex event_id : string)
    (wrap_kind : option Z) t : Transport L :=
  match get_route event_id (t_routes t) with
  | None => t
  | Some route =>
      match pubkey_from_hex client_pubkey_hex, get_session (t_sessions t) client_pubkey_hex with
      | Ok client_pubkey, Some s =>
          with_snapshots t
            (record_payment_route_snapshot now event_id
               (mkRouteSnapshot client_pubkey (original_request_id route) (snap_is_encrypted s) wrap_kind)
               (now + snapshot_ttl) (t_snapshots t))
      | _, _ => t
      end
  end.

Definition payment_notification_sender (now snapshot_ttl : Z) (common_tags : list Tag)
    (client_pubkey_hex event_id : string) (wrap_kind : option Z) (notification : JsonRpcMessage) t
  : Transport L * result unit Error :=
  let t := if bool_decide (msg_method notification = Some PAYMENT_REQUIRED_METHOD)
           then capture_snapshot now snapshot_ttl client_pubkey_hex event_id wrap_kind t else t in
  publish_payment_notification wrap_kind common_tags client_pubkey_hex (Some event_id) notification t.

(** The keys are collected first; a failed send is only logged. *)
Definition broadcast_notification (notification : JsonRpcMessage) t : Transport L :=
  let initialized := (List.filter (λ ks : string * ClientSession, is_initialized ks.2)
                        (lru_iter (t_sessions t))).*1 in
  foldl (λ t pubkey, (send_notification pubkey notification None t).1) t initialized.

(** ** Server-to-client streams *)

(** [flush_open_stream_response], the hook of a writer. *)
Definition flush_open_stream_response (tag_sources : ResponseTagSources) (event_id : string) t : Transport L :=
  let '(tb, ready) := flush_mark event_id (tables t) in
  let t := with_tables t tb in
  match ready with
  | None => t
  | Some (slot, response) =>
      let t := with_tables t (flush_release event_id slot (tables t)) in
      (publish_open_stream_deferred_response event_id (slot_snapshot slot) response tag_sources t).1
  end.

(** The publisher of a writer: every frame is correlated to the request. *)
Definition publish_writer_frame (event_id : string) (snapshot : RouteSnapshot)
    (notification : JsonRpcNotification) (net : Net) : Net * bool :=
  match event_id_from_hex event_id with
  | Err _ => (net, false)
  | Ok event_id_parsed =>
      let '(net, sent) :=
        send_mcp_message mode net (Notification notification) (rsnap_client_pubkey snapshot)
          CTXVM_MESSAGES_KIND (create_response_tags (rsnap_client_pubkey snapshot) event_id_parsed)
          (Some (rsnap_is_encrypted snapshot))
          (select_outbound_gift_wrap_kind gift_wrap_mode (rsnap_is_encrypted snapshot)
             (rsnap_mirrored_wrap_kind snapshot)) in
      (net, is_ok sent)
  end.

(** The next frame of a writer handed to its publisher. *)
Definition send_frame (event_id : string) (snapshot : RouteSnapshot) (w : OpenStreamWriter)
    (f : OpenStreamFrame) (net : Net) : Net * bool :=
  publish_writer_frame event_id snapshot
    (into_progress_notification f (Writer.progress_token w) (u64_add (w_progress w) 1) None) net.
End outbound.
