(* ===== verification/ServerStreams.v ===== *)
(** * The server transport: open streams

    The CEP-41 half of [src/transport/server/mod.rs]: the writers created for
    streaming tool calls and what tools and peers do with them, the server as a
    reader of client streams, and the keepalive sweep. *)

From S2P Require Import Prelude Json CoreTypes OversizedFrame OversizedCodec Instances OversizedReceiver Lru RouteStore SessionStore OpenStreamFrame OpenStreamSession OpenStreamRegistry OpenStreamWriter PaymentTypes ServerTasks BaseTransport Announcements ServerNegotiation ServerState ServerOutbound.

Section streams.
Context `{Lru L} `{SerdeJson} `{Sha256} `{Nostr}.
Variable config : NostrServerTransportConfig.
(** The tag sets captured by the hooks, and whether an eviction callback is set. *)
Variable captured : ResponseTagSources.
Variable on_evicted : bool.
Implicit Types t : Transport L.

Local Abbreviation mode := (cfg_encryption_mode config).
Local Abbreviation gift_wrap_mode := (cfg_gift_wrap_mode config).
Definition stream_policy : OpenStreamRegistryPolicy := registry_policy_of_config (cfg_open_stream config).

(** ** Writers *)

(** [create_open_stream_writer]: the first writer of a request event wins. *)
Definition create_open_stream_writer (now : Z) (event_id client_pubkey_hex progress_token : string)
    (original_request_id : Value) (is_encrypted : bool) (mirrored_wrap_kind : option Z) t : Transport L :=
  match pubkey_from_hex client_pubkey_hex, event_id_from_hex event_id with
  | Ok client_pubkey, Ok _ =>
      let idle := idle_timeout_ms stream_policy in
      let writer := Writer.new now
        (mkWriterOptions progress_token None true true
           (if idle =? 0 then None else Some (from_millis idle))
           (from_millis (probe_timeout_ms stream_policy))) in
      let snapshot := mkRouteSnapshot client_pubkey original_request_id is_encrypted mirrored_wrap_kind in
      if t_slots t !! event_id is Some _ then t
      else with_tokens (with_slots t (<[event_id := mkSlot writer snapshot None false false 0]> (t_slots t)))
             (<[client_token_key client_pubkey_hex progress_token := event_id]> (t_tokens t))
  | _, _ => t
  end.

(** A writer operation that may hand one frame to the publisher: [op ok] is the
    operation given the publisher's answer. *)
Definition writer_publishes (event_id : string) (sends : OpenStreamWriter → option OpenStreamFrame)
    (op : bool → OpenStreamWriter → OpenStreamWriter) t : Transport L :=
  match writer_of event_id (tables t) with
  | None => t
  | Some (snapshot, w) =>
      match sends w with
      | None => with_tables t (set_writer event_id (op true w) (tables t))
      | Some f =>
          let '(net, ok) := send_frame config event_id snapshot w f (t_net t) in
          with_net (with_tables t (set_writer event_id (op ok w) (tables t))) net
      end
  end.

(** The frame of an operation that does nothing on an inactive writer. *)
Definition when_active (f : OpenStreamFrame) (w : OpenStreamWriter) : option OpenStreamFrame :=
  if w_active w then Some f else None.

Definition writer_pong (now : Z) (event_id nonce : string) t : Transport L :=
  writer_publishes event_id (when_active (Pong nonce)) (λ ok w, (Writer.pong now nonce ok w).1.1) t.
Definition writer_send_probe (event_id nonce : string) t : Transport L :=
  writer_publishes event_id (when_active (Ping nonce)) (λ ok w, (Writer.send_probe nonce ok w).1.1) t.
Definition writer_ack_probe (now : Z) (event_id nonce : string) t : Transport L :=
  match writer_of event_id (tables t) with
  | Some (_, w) => with_tables t (set_writer event_id (Writer.ack_probe now nonce w) (tables t))
  | None => t
  end.

(** [abort] of a writer: the frame, then the hook when the writer was live. *)
Definition writer_abort (event_id : string) (reason : option string) t : Transport L :=
  match writer_of event_id (tables t) with
  | None => t
  | Some (_, w) =>
      let t := writer_publishes event_id (when_active (AbortFrame reason))
                 (λ ok w, (Writer.abort reason ok w).1.1.1) t in
      if w_active w then flush_open_stream_response config captured event_id t else t
  end.

(** *** The tool's side *)

(** [start_internal] as the first part of a write or close. *)
Definition tool_start (now : Z) (event_id : string) t : Transport L :=
  writer_publishes event_id
    (λ w, if w_started w || negb (w_active w) then None else Some (Start (wo_content_type (w_options w))))
    (λ ok w, (Writer.start now ok w).1.1) t.

(** Whether the writer would go on to its own frame after [start_internal]. *)
Definition started_and_active (event_id : string) t : bool :=
  match writer_of event_id (tables t) with Some (_, w) => w_started w && w_active w | None => false end.

Definition tool_write (now : Z) (event_id data : string) t : Transport L :=
  let t := tool_start now event_id t in
  if started_and_active event_id t then
    writer_publishes event_id (λ w, Some (Chunk (w_chunk_index w) data))
      (λ ok w, (Writer.write now data true ok w).1.1) t
  else t.

Definition tool_close (now : Z) (event_id : string) t : Transport L :=
  let t := tool_start now event_id t in
  if started_and_active event_id t then
    let t := writer_publishes event_id
               (λ w, Some (Close (if 0 <? w_chunk_index w then Some (w_chunk_index w - 1) else None)))
               (λ ok w, (Writer.close now true ok w).1.1.1) t in
    flush_open_stream_response config captured event_id t
  else t.

(** ** The server as a reader *)

Definition next_control_progress t : Transport L * Z :=
  let p := u64_add (t_control_progress t) 1 in (with_control t p, p).

Definition publish_open_stream_control_frame (frame : OpenStreamFrame) (token recipient_pubkey : string)
    (correlated_event_id : option string) (is_encrypted : bool) (wrap : option Z) t : Transport L :=
  match pubkey_from_hex recipient_pubkey with
  | Err _ => t
  | Ok recipient =>
      let '(t, progress) := next_control_progress t in
      let notification := into_progress_notification frame token progress None in
      let e_tags := match (eid ← correlated_event_id; result_ok (event_id_from_hex eid)) with
                    | Some eid => [event_tag eid]
                    | None => []
                    end in
      let '(net, _) :=
        send_mcp_message mode (t_net t) (Notification notification) recipient CTXVM_MESSAGES_KIND
          (create_recipient_tags recipient ++ e_tags) (Some is_encrypted)
          (select_outbound_gift_wrap_kind gift_wrap_mode is_encrypted wrap) in
      with_net t net
  end.

(** The progress token of a frame. *)
Definition frame_token (n : JsonRpcNotification) : option string :=
  params ← notif_params n; v ← get params "progressToken"; progress_token_string v.

Definition feed_open_stream_reader (now : Z) (notification : JsonRpcNotification)
    (sender_pubkey event_id : string) (is_encrypted : bool) (wrap : option Z) t : Transport L :=
  let store := if lru_contains sender_pubkey (t_readers t) then t_readers t
               else lru_put sender_pubkey (Receiver.with_policy stream_policy) (t_readers t) in
  match lru_peek sender_pubkey store with
  | None => t
  | Some receiver =>
      let '(receiver', outcome, _) := Receiver.process_frame now notification receiver in
      let t := with_readers t (lru_get_mut sender_pubkey (λ _, receiver') store).1 in
      match outcome, frame_token notification with
      | Ok (SendPong nonce), Some token =>
          publish_open_stream_control_frame (Pong nonce) token sender_pubkey (Some event_id) is_encrypted wrap t
      | _, _ => t
      end
  end.

Definition event_id_for_token (client_pubkey_hex token : string) t : option string :=
  t_tokens t !! client_token_key client_pubkey_hex token.

(** [open_stream_frame_from_notification]. *)
Definition stream_frame_of (n : JsonRpcNotification) : option OpenStreamFrame :=
  params ← notif_params n; cvm ← get params "cvm"; from_cvm_value cvm.

Definition handle_open_stream_frame (now : Z) (notification : JsonRpcNotification)
    (sender_pubkey event_id : string) (is_encrypted : bool) (wrap : option Z)
    (client_supports_open_stream : bool) t : Transport L :=
  let token := frame_token notification in
  let writer := tok ← token; eid ← event_id_for_token sender_pubkey tok t;
                _ ← t_slots t !! eid; Some eid in
  let feed := feed_open_stream_reader now notification sender_pubkey event_id is_encrypted wrap in
  match stream_frame_of notification, writer with
  | Some (Ping nonce), Some eid => writer_pong now eid nonce t
  | Some (AbortFrame reason), Some eid => writer_abort eid reason t
  | Some (Pong nonce), Some eid => writer_ack_probe now eid nonce t
  | Some (Start _), _ =>
      let t := feed t in
      match token with
      | Some tok =>
          if client_supports_open_stream
          then publish_open_stream_control_frame Accept tok sender_pubkey (Some event_id) is_encrypted wrap t
          else t
      | None => t
      end
  | _, _ => feed t
  end.

(** ** The keepalive sweep *)

(** The ticks of one reader store: the store, and the actions with their peers. *)
Definition tick_readers (now : Z) (store : L OpenStreamReceiver)
  : L OpenStreamReceiver * list (string * string * KeepaliveAction) :=
  let actions := flat_map (λ pr : string * OpenStreamReceiver,
    map (λ ta : string * KeepaliveAction, (pr.1, ta.1, ta.2)) (Registry.tick_all now (registry pr.2)).2)
    (lru_iter store) in
  let store := lru_iter_mut (λ _ r, OpenStreamRegistry.mkReceiver (Registry.tick_all now (registry r)).1) store in
  (foldl (λ c peer, (lru_pop peer c).1) store
     (List.filter (λ pr, Receiver.active_stream_count pr.2 =? 0) (lru_iter store)).*1, actions).

Definition reader_action (a : string * string * KeepaliveAction) t : Transport L :=
  let '(peer, token, action) := a in
  match action with
  | SendPing nonce =>
      publish_open_stream_control_frame (Ping nonce) token peer (event_id_for_token peer token t)
        (negb (bool_decide (mode = EncDisabled))) None t
  | ActionAbort reason =>
      match event_id_for_token peer token t with
      | Some eid => if t_slots t !! eid is Some _ then writer_abort eid (Some reason) t else t
      | None => t
      end
  | ActionNone => t
  end.

(** [slot.writer.tick(now)] over all slots, under their lock. *)
Definition tick_slots (now : Z) (m : gmap string OpenStreamSlot)
  : gmap string OpenStreamSlot * list (string * string * KeepaliveAction) :=
  ((λ s, set_slot_writer s (Writer.tick now (slot_writer s)).1) <$> m,
   List.filter (λ a, match a.2 with ActionNone => false | _ => true end)
     (map (λ es, (es.1, rsnap_client_pubkey (slot_snapshot es.2), (Writer.tick now (slot_writer es.2)).2))
        (map_to_list m))).

Definition writer_action (a : string * string * KeepaliveAction) t : Transport L :=
  let '(event_id, client_pubkey, action) := a in
  if t_slots t !! event_id is Some _ then
    match action with
    | SendPing nonce => writer_send_probe event_id nonce t
    | ActionAbort reason =>
        let t := writer_abort event_id (Some reason) t in
        let '(sessions, removed) := remove_session (t_sessions t) client_pubkey in
        with_evicted (with_sessions t sessions)
          (t_evicted t ++ if removed && on_evicted then [client_pubkey] else [])
    | ActionNone => t
    end
  else t.

Definition sweep_open_stream_sessions (now : Z) t : Transport L :=
  let '(readers, actions) := tick_readers now (t_readers t) in
  let t := foldl (λ t a, reader_action a t) (with_readers t readers) actions in
  let '(slots, writer_actions) := tick_slots now (t_slots t) in
  foldl (λ t a, writer_action a t) (with_slots t slots) writer_actions.
End streams.
