(* ===== verification/ServerInbound.v ===== *)
(** * The server transport: inbound and life cycle

    The event loop of [src/transport/server/mod.rs]: one relay event from its gift
    wrap to the dispatch, the oversized frames, the periodic sweeps, and the
    construction and closing of the transport.  [transport_step] interleaves the
    event loop, the worker's responses, the tools' streams, the inbound chains and
    the sweeps. *)

From S2P Require Import Prelude Json CoreTypes OversizedFrame OversizedCodec Instances OversizedReceiver Lru Authorization RouteStore SessionStore OpenStreamFrame OpenStreamSession OpenStreamRegistry OpenStreamWriter PaymentTypes ServerTasks BaseTransport Announcements ServerNegotiation ServerState ServerOutbound ServerStreams.

Section inbound.
Context `{Lru L} `{SerdeJson} `{Sha256} `{Nostr}.
Variable config : NostrServerTransportConfig.
(** What [start] captures for the event loop: the middlewares, whether explicit
    gating is supported, the tag sets; and whether an eviction callback is set. *)
Variable chain : list middleware.
Variable supports_explicit_gating : bool.
Variable captured : ResponseTagSources.
Variable tags_snapshot : CommonTagsSnapshot.
Variable on_evicted : bool.
Implicit Types t : Transport L.

Local Abbreviation mode := (cfg_encryption_mode config).
Local Abbreviation gift_wrap_mode := (cfg_gift_wrap_mode config).
Local Abbreviation oversized_enabled := (oc_enabled (cfg_oversized_transfer config)).
Local Abbreviation stream_enabled := (sc_enabled (cfg_open_stream config)).

(** ** From the relay event to the message *)

Definition is_gift_wrap (event : Event) : bool :=
  (ev_kind event =? GIFT_WRAP_KIND) || (ev_kind event =? EPHEMERAL_GIFT_WRAP_KIND).
(** [if is_gift_wrap { Some(outer_kind) } else { None }] *)
Definition wrap_of (event : Event) : option Z := if is_gift_wrap event then Some (ev_kind event) else None.

(** The inner event of an accepted relay event, with its gift-wrap kind. *)
Definition open_event (event : Event) t : Transport L * option Event :=
  if is_gift_wrap event && negb (allows_kind gift_wrap_mode (ev_kind event)) then (t, None)
  else if is_gift_wrap event then
    if bool_decide (mode = EncDisabled) then (t, None)
    else if lru_contains (ev_id event) (t_seen t) then (t, None)
    else
      match pool_signer (length (t_net t)) with
      | Err _ => (t, None)
      | Ok _ =>
          match decrypt_gift_wrap_single_layer event with
          | Err _ => (t, None)
          | Ok decrypted_json =>
              match event_from_json decrypted_json with
              | None => (t, None)
              | Some inner =>
                  if event_verify inner
                  then (with_seen t (lru_put (ev_id event) tt (t_seen t)), Some inner)
                  else (t, None)
              end
          end
      end
  else if bool_decide (mode = EncRequired) then (t, None)
  else if event_verify event then (t, Some event) else (t, None).

(** ** Authorization *)

Definition unauthorized_error (req : JsonRpcRequest) : JsonRpcMessage :=
  ErrorResponse (mkErrorResponse "2.0" (req_id req) (mkError (-32000) "Unauthorized" None)).

(** The reply of an announced server to an unauthorized request. *)
Definition reject_unauthorized (mcp_msg : JsonRpcMessage) (sender_pubkey event_id : string)
    (is_encrypted : bool) (wrap : option Z) t : Transport L :=
  match mcp_msg, pubkey_from_hex sender_pubkey with
  | Request req, Ok client_pk =>
      if cfg_is_announced_server config then
        let event_id_parsed := default EventId_all_zeros (result_ok (event_id_from_hex event_id)) in
        let tags := create_response_tags client_pk event_id_parsed in
        let has_sent := match get_session (t_sessions t) sender_pubkey with
                        | Some s => snap_has_sent_common_tags s
                        | None => false
                        end in
        let '(tags, sessions) :=
          if has_sent then (tags, t_sessions t)
          else (append_common_response_tags tags_snapshot tags,
                (mark_common_tags_sent (t_sessions t) sender_pubkey).1) in
        let '(net, _) :=
          send_mcp_message mode (t_net t) (unauthorized_error req) client_pk CTXVM_MESSAGES_KIND tags
            (Some is_encrypted) (select_outbound_gift_wrap_kind gift_wrap_mode is_encrypted wrap) in
        with_net (with_sessions t sessions) net
      else t
  | _, _ => t
  end.

(** ** Sessions *)

(** The session of the sender, created if needed; [None] when it is gone at once,
    where the code unwraps. *)
Definition ensure_session (now : Z) (sender_pubkey : string) (is_encrypted : bool) t : option (Transport L) :=
  let '(sessions, calls) :=
    if lru_contains sender_pubkey (t_sessions t) then (t_sessions t, [])
    else
      let '(sessions, evicted) := lru_push sender_pubkey (ClientSession_new now is_encrypted) (t_sessions t) in
      handle_eviction now sender_pubkey evicted sessions on_evicted (t_routes t) in
  if lru_contains sender_pubkey sessions
  then Some (with_evicted (with_sessions t sessions) (t_evicted t ++ calls)) else None.

(** The fields a message teaches: activity, encryption, learned capabilities. *)
Definition learn_session (now : Z) (is_encrypted : bool) (wrap : option Z) (d : PeerCapabilities)
    (s : ClientSession) : ClientSession :=
  mkClientSession (is_initialized s) is_encrypted (has_sent_common_tags s)
    (supports_ephemeral_gift_wrap s || bool_decide (wrap = Some EPHEMERAL_GIFT_WRAP_KIND))
    (supports_encryption s || pc_supports_encryption d)
    (supports_ephemeral_encryption s || pc_supports_ephemeral_encryption d)
    (supports_oversized_transfer s || (oversized_enabled && pc_supports_oversized_transfer d))
    (supports_open_stream s || (stream_enabled && pc_supports_open_stream d))
    (requested_payment_interaction s) (effective_payment_interaction s)
    (has_disclosed_payment_interaction s) now (pending_requests s) (event_to_progress_token s).

(** What the event loop keeps of a session once its lock is dropped. *)
Record Received : Type := mkReceived {
  rc_already_supported : bool;
  rc_supports_open_stream : bool;
  rc_negotiation : NegotiationOutcome;
  rc_effective : option PaymentInteractionMode;
}.

Definition receive_session (now : Z) (is_encrypted : bool) (wrap : option Z) (inner_tags : list Tag)
    (mcp_msg : JsonRpcMessage) (s : ClientSession) : ClientSession * Received :=
  let s1 := learn_session now is_encrypted wrap (learn_peer_capabilities inner_tags) s in
  let '(s2, negotiation) := negotiate_payment_interaction s1 inner_tags (msg_method mcp_msg)
                              (is_request mcp_msg) supports_explicit_gating in
  (s2, mkReceived (supports_oversized_transfer s) (supports_open_stream s1) negotiation
         (Some (default Transparent (effective_payment_interaction s2)))).

Definition reject_unsupported (mcp_msg : JsonRpcMessage) (requested : PaymentInteractionMode)
    (sender_pubkey event_id : string) (is_encrypted : bool) (wrap : option Z) t : Transport L :=
  match pubkey_from_hex sender_pubkey with
  | Err _ => t
  | Ok client_pk =>
      let event_id_parsed := default EventId_all_zeros (result_ok (event_id_from_hex event_id)) in
      let '(net, _) :=
        send_mcp_message mode (t_net t) (unsupported_payment_interaction_error mcp_msg requested) client_pk
          CTXVM_MESSAGES_KIND (create_response_tags client_pk event_id_parsed) (Some is_encrypted)
          (select_outbound_gift_wrap_kind gift_wrap_mode is_encrypted wrap) in
      with_net t net
  end.

(** ** Dispatch *)

(** Everything about the carrying event a dispatch needs. *)
Record Carrier : Type := mkCarrier {
  ca_sender : string;
  ca_event_id : string;
  ca_encrypted : bool;
  ca_wrap : option Z;
  ca_pmis : option (list string);
  ca_interaction : option PaymentInteractionMode;
  ca_event : Event;
}.

Definition context_of (c : Carrier) : InboundContext :=
  mkContext (ca_sender c) (ca_event_id c) (ca_encrypted c) (ca_wrap c) (ca_pmis c) (ca_interaction c).

Definition dispatch_message (c : Carrier) (message : JsonRpcMessage) t : Transport L :=
  let '(w, spawned) := dispatch_inbound chain (t_world t) (context_of c) message
                         (Some (VString (event_to_json (ca_event c)))) in
  with_tasks (with_world t w) (t_tasks t ++ spawned).

(** [_meta.progressToken] of a request. *)
Definition request_token (req : JsonRpcRequest) : option string :=
  params ← req_params req; meta ← get params "_meta"; v ← get meta "progressToken"; progress_token_string v.

(** A route is registered and its wrap kind recorded; a streaming tool call gets
    a writer. *)
Definition register_request (now : Z) (c : Carrier) (original_id : Value) (token : option string)
    (writer_token : option string) t : Transport L :=
  let t := with_wraps t (<[ca_event_id c := ca_wrap c]> (t_wraps t)) in
  let t := with_event_routes t (register now (ca_event_id c) (ca_sender c) original_id token (t_routes t)) in
  match writer_token with
  | Some tok =>
      if stream_enabled
      then create_open_stream_writer config now (ca_event_id c) (ca_sender c) tok original_id
             (ca_encrypted c) (ca_wrap c) t
      else t
  | None => t
  end.

(** The compatibility entries of a session. *)
Definition note_request (event_id : string) (original_id : Value) (token : option string) (s : ClientSession)
  : ClientSession :=
  let pending := <[event_id := original_id]> (pending_requests s) in
  match token with
  | Some tok => set_pending (<[tok := VString event_id]> pending)
                  (<[event_id := tok]> (event_to_progress_token s)) s
  | None => set_pending pending (event_to_progress_token s) s
  end.

Definition is_tools_call (req : JsonRpcRequest) : bool := String.eqb (req_method req) "tools/call".

(** ** Oversized frames *)

Definition emit_accept_frame (token sender_pubkey start_event_id : string) (is_encrypted : bool)
    (wrap : option Z) t : Transport L :=
  match pubkey_from_hex sender_pubkey with
  | Err _ => t
  | Ok client_pk =>
      let event_id_parsed := default EventId_all_zeros (result_ok (event_id_from_hex start_event_id)) in
      let accept := OversizedFrame.into_progress_notification OversizedFrame.Accept token ACCEPT_PROGRESS
                      (Some "oversized request accepted") in
      let '(net, _) :=
        send_mcp_message mode (t_net t) (Notification accept) client_pk CTXVM_MESSAGES_KIND
          (create_response_tags client_pk event_id_parsed) (Some is_encrypted)
          (select_outbound_gift_wrap_kind gift_wrap_mode is_encrypted wrap) in
      with_net t net
  end.

Definition is_start_frame (frame : JsonRpcNotification) : bool :=
  match (params ← notif_params frame; cvm ← get params "cvm"; OversizedFrame.from_cvm_value cvm) with
  | Some (OversizedFrame.Start _ _ _ _) => true
  | _ => false
  end.

(** Feeding the frame to the peer's reassembler; after an [accept] was issued the
    receiver is fed one of its own. *)
Definition feed_oversized (now : Z) (frame : JsonRpcNotification) (sender_pubkey : string)
    (issued_accept : option string) (store : L OversizedTransferReceiver)
  : L OversizedTransferReceiver * outcome :=
  let store := if lru_contains sender_pubkey store then store
               else lru_put sender_pubkey
                      (OversizedReceiver.with_policy (policy_of_config (cfg_oversized_transfer config))) store in
  match lru_peek sender_pubkey store with
  | None => (store, Ok None)
  | Some receiver =>
      let '(r1, out) := OversizedReceiver.process_frame now receiver frame in
      let r2 := match issued_accept, out with
                | Some token, Ok None =>
                    (OversizedReceiver.process_frame now r1
                       (OversizedFrame.into_progress_notification OversizedFrame.Accept token ACCEPT_PROGRESS None)).1
                | _, _ => r1
                end in
      ((lru_get_mut sender_pubkey (λ _, r2) store).1, out)
  end.

Definition handle_oversized_frame (now : Z) (frame : JsonRpcNotification) (c : Carrier)
    (client_already_supported : bool) t : Transport L :=
  let token := frame_token frame in
  let issued_accept := if is_start_frame frame && negb client_already_supported then token else None in
  let t := match issued_accept with
           | Some tok => emit_accept_frame tok (ca_sender c) (ca_event_id c) (ca_encrypted c) (ca_wrap c) t
           | None => t
           end in
  let '(store, out) := feed_oversized now frame (ca_sender c) issued_accept (t_oversized t) in
  let t := with_oversized t store in
  match out with
  | Ok (Some message) =>
      let original_id := default VNull (msg_id message) in
      let writer_token := match message with
                          | Request req => if is_tools_call req then request_token req else None
                          | _ => None
                          end in
      dispatch_message c message (register_request now c original_id token writer_token t)
  | _ => t
  end.

(** ** The event loop *)

(** After authorization: the session, then frames, requests and the dispatch. *)
Definition process_message (now : Z) (c0 : Event) (wrap : option Z) (is_encrypted : bool)
    (mcp_msg : JsonRpcMessage) t : Transport L :=
  let sender_pubkey := ev_pubkey c0 in
  let event_id := ev_id c0 in
  match ensure_session now sender_pubkey is_encrypted t with
  | None => with_alive t false
  | Some t =>
      let '(sessions, received) :=
        with_session sender_pubkey (receive_session now is_encrypted wrap (ev_tags c0) mcp_msg) (t_sessions t) in
      match received with
      | None => with_alive t false
      | Some rc =>
          let t := with_sessions t sessions in
          let pmis := extract_pmis (ev_tags c0) in
          let c := mkCarrier sender_pubkey event_id is_encrypted wrap
                     (match pmis with [] => None | _ => Some pmis end) (rc_effective rc) c0 in
          match rc_negotiation rc with
          | RejectUnsupported requested =>
              reject_unsupported mcp_msg requested sender_pubkey event_id is_encrypted wrap t
          | Proceed =>
              match mcp_msg with
              | Notification n =>
                  if oversized_enabled && is_oversized_frame n
                  then handle_oversized_frame now n c (rc_already_supported rc) t
                  else if stream_enabled && Receiver.is_open_stream_frame n
                  then handle_open_stream_frame config captured now n sender_pubkey event_id is_encrypted wrap
                         (rc_supports_open_stream rc) t
                  else
                    let t := if String.eqb (notif_method n) "notifications/initialized"
                             then with_sessions t
                                    (lru_get_mut sender_pubkey (set_is_initialized true) (t_sessions t)).1
                             else t in
                    dispatch_message c mcp_msg t
              | Request req =>
                  let token := request_token req in
                  let t := with_sessions t
                             (lru_get_mut sender_pubkey (note_request event_id (req_id req) token) (t_sessions t)).1 in
                  let t := register_request now c (req_id req) token
                             (if is_tools_call req then token else None) t in
                  dispatch_message c mcp_msg t
              | _ => dispatch_message c mcp_msg t
              end
          end
      end
  end.

Definition handle_event (now : Z) (event : Event) t : Transport L :=
  if negb (t_alive t) then t
  else
    let '(t, opened) := open_event event t in
    match opened with
    | None => t
    | Some inner =>
        let wrap := wrap_of event in
        let is_encrypted := is_gift_wrap event in
        match validate_and_parse (ev_content inner) with
        | None => t
        | Some mcp_msg =>
            if authorized (cfg_allowed_public_keys config) (cfg_excluded_capabilities config)
                 (ev_pubkey inner) mcp_msg
            then process_message now inner wrap is_encrypted mcp_msg t
            else reject_unauthorized mcp_msg (ev_pubkey inner) (ev_id inner) is_encrypted wrap t
        end
    end.

(** ** The cleanup task *)

(** The ids a session keeps routes and wrap kinds for. *)
Definition session_ids (s : ClientSession) : list string :=
  (map_to_list (pending_requests s)).*1 ++ (map_to_list (event_to_progress_token s)).*1.

Definition expired_session (now timeout : Z) (s : ClientSession) : bool := timeout <? now - last_activity s.

Definition cleanup_sessions (now timeout : Z) t : Transport L * Z :=
  let expired := List.filter (λ ks : string * ClientSession, expired_session now timeout ks.2)
                   (lru_iter (t_sessions t)) in
  let stale_event_ids := flat_map (λ ks : string * ClientSession, session_ids ks.2) expired in
  let t := with_sessions t (foldl (λ c key, (lru_pop key c).1) (t_sessions t) expired.*1) in
  let t := with_wraps t (foldl (λ m event_id, delete event_id m) (t_wraps t) stale_event_ids) in
  (with_event_routes t (foldl (λ s event_id, (pop_route event_id s).1) (t_routes t) stale_event_ids),
   Z.of_nat (length expired)).

(** One tick of the cleanup task. *)
Definition cleanup_tick (now : Z) t : Transport L :=
  let '(t, _) := cleanup_sessions now (cfg_session_timeout config) t in
  let '(routes, swept) := sweep_stale_routes now (cfg_request_timeout config) (t_routes t) in
  let t := with_event_routes t routes in
  let t := with_wraps t (foldl (λ m event_id, delete event_id m) (t_wraps t) swept) in
  with_snapshots t (purge_payment_snapshots now (t_snapshots t)).

(** ** Construction and closing *)

Definition transport_new (max_entries max_pending_payments : Z) : Transport L :=
  let m := Manager.set_internal_common_tags (internal_common_capability_tags config)
             (Manager.new (cfg_server_info config) mode gift_wrap_mode (cfg_relay_urls config)
                (cfg_relay_list_urls config) (cfg_bootstrap_relay_urls config)
                (cfg_publish_relay_list config) (cfg_profile_metadata config)) in
  mkTransport
    (mkWorld [] [] (with_max_entries max_entries) (lru_new (nonzero_or_one max_pending_payments))
       RouteStore_new ∅ ∅ ∅ [] [] false)
    [] [] (SessionStore.with_capacity (cfg_max_sessions config)) []
    (lru_new DEFAULT_LRU_SIZE) (lru_new DEFAULT_LRU_SIZE)
    (lru_new (nonzero_or_one (cfg_max_sessions config))) (lru_new (nonzero_or_one (cfg_max_sessions config)))
    0 ∅ m [] true.

(** [close], once the tasks are joined and the relays are disconnected. *)
Definition close_transport t : Transport L :=
  let w := t_world t in
  let w := mkWorld (flags w) (futures w) (auth w) (payments w) (clear_routes (event_routes w))
             (request_wrap_kinds w) ∅ ∅
             (disposed w ++ map (λ es, Writer.dispose (slot_writer es.2)) (map_to_list (slots w)))
             (incoming w) (rx_closed w) in
  mkTransport w (t_tasks t) (t_trace t) (clear_sessions (t_sessions t)) (t_evicted t) (lru_clear (t_snapshots t))
    (t_seen t) (lru_clear (t_oversized t)) (lru_clear (t_readers t)) (t_control_progress t) (t_detached t)
    (Manager.shutdown (t_manager t)) (t_net t) false.

(** ** Interleavings *)

(** What the payment middlewares captured when they were registered: the tags of
    the two senders and the snapshot lifetime. *)
Variable sender_tags : ResponseTagSources.
Variable snapshot_ttl : Z.
Variable spawn_task : Verification → prog unit.

Inductive transport_action : Type :=
| Receive (now : Z) (event : Event)
| SweepOversized (now : Z)
| SweepStreams (now : Z)
| CleanupTick (now : Z)
| SendResponse (now : Z) (event_id : string) (response : JsonRpcMessage)
| SendTargetedResponse (client_pubkey event_id : string) (response : JsonRpcMessage)
| SendNotificationTo (client_pubkey : string) (notification : JsonRpcMessage) (event_id : option string)
| Broadcast (notification : JsonRpcMessage)
| ToolStart (now : Z) (event_id : string)
| ToolWrite (now : Z) (event_id data : string)
| ToolClose (now : Z) (event_id : string)
| ToolAbort (event_id : string) (reason : option string)
| TaskStep (task : nat) (env : ∀ c, answer c)
| SetExtraTags (tags : list Tag)
| SetPricingTags (tags : list Tag)
| WorkerGone.

(** The command of a chain: the two senders are the transport's, everything else
    works on the shared world. *)
Definition exec_command (env : ∀ c, answer c) t (c : cmd) : option (Transport L * answer c) :=
  match c return option (Transport L * answer c) with
  | SendTargeted client event_id message =>
      let '(t, r) := targeted_response_sender config sender_tags client event_id message t in
      Some (t, map_err Error_to_string r)
  | SendNotification client event_id wrap_kind message =>
      let '(t, r) := payment_notification_sender config (env Now) snapshot_ttl (ts_common sender_tags)
                       client event_id wrap_kind message t in
      Some (t, map_err Error_to_string r)
  | c => match exec env (t_world t) c with
         | Some (w, a) => Some (with_world t w, a)
         | None => None
         end
  end.

Definition task_step (i : nat) (env : ∀ c, answer c) t : Transport L :=
  match t_tasks t !! i with
  | Some (Vis c k) =>
      match exec_command env t c with
      | Some (t', a) =>
          with_trace (with_tasks t' (<[i := k a]> (t_tasks t) ++ spawned spawn_task c))
            (t_trace t ++ [existT c a])
      | None => t
      end
  | _ => t
  end.

Definition transport_step t (a : transport_action) : Transport L :=
  match a with
  | Receive now event => handle_event now event t
  | SweepOversized now => with_oversized t (sweep_oversized_receivers now (t_oversized t))
  | SweepStreams now => sweep_open_stream_sessions config captured on_evicted now t
  | CleanupTick now => cleanup_tick now t
  | SendResponse now event_id response => (send_response config now event_id response t).1
  | SendTargetedResponse client event_id response =>
      (send_targeted_response config client event_id response t).1
  | SendNotificationTo client notification event_id =>
      (send_notification config client notification event_id t).1
  | Broadcast notification => broadcast_notification config notification t
  | ToolStart now event_id => tool_start config now event_id t
  | ToolWrite now event_id data => tool_write config now event_id data t
  | ToolClose now event_id => tool_close config captured now event_id t
  | ToolAbort event_id reason => writer_abort config captured event_id reason t
  | TaskStep i env => task_step i env t
  | SetExtraTags tags => with_manager t (Manager.set_extra_common_tags tags (t_manager t))
  | SetPricingTags tags => with_manager t (Manager.set_pricing_tags tags (t_manager t))
  | WorkerGone =>
      let w := t_world t in
      with_world t (mkWorld (flags w) (futures w) (auth w) (payments w) (event_routes w)
        (request_wrap_kinds w) (slots w) (token_to_event w) (disposed w) (incoming w) true)
  end.

Definition transport_run t (actions : list transport_action) : Transport L := foldl transport_step t actions.
End inbound.
