(* ===== verification/ServerRefinement.v ===== *)
(** * The server transport refines the task schedules

    Everything the transport does between two commands of its inbound chains is,
    for the payment lifecycles, a delivery or a change of state the transport
    owns: each run of [transport_step] is a schedule of [ServerTasks], so the
    payment theorems hold of the whole server.  The schedule sets the owned state to
    whatever the transport made of it, so it carries no claim about that state, only
    about the commands of the chains. *)

From S2P Require Import Prelude Json CoreTypes OversizedFrame OversizedCodec Instances OversizedReceiver Lru Authorization RouteStore SessionStore OpenStreamFrame OpenStreamSession OpenStreamRegistry OpenStreamWriter PaymentTypes ServerTasks ServerPayments ServerPaymentsProofs BaseTransport Announcements ServerNegotiation ServerState ServerOutbound ServerStreams ServerInbound.

(** ** Steps that leave the payment state alone *)

Section quiet.
Context `{Lru L}.
Implicit Types t : Transport L.

(** From [t] to [t'] no task moved, nothing was handed to the worker, and the
    state of the payments is the same. *)
Record quiet t t' : Prop := {
  q_tasks : t_tasks t' = t_tasks t;
  q_trace : t_trace t' = t_trace t;
  q_incoming : incoming (t_world t') = incoming (t_world t);
  q_world : set_owned (t_world t) (owned_of (t_world t')) = t_world t';
}.

Lemma set_owned_id (w : World L) : set_owned w (owned_of w) = w.
Proof. by destruct w. Qed.

Lemma quiet_refl t : quiet t t.
Proof. split; [done..|]. apply set_owned_id. Qed.

Lemma quiet_trans t1 t2 t3 : quiet t1 t2 → quiet t2 t3 → quiet t1 t3.
Proof. intros [A1 A2 A3 A4] [B1 B2 B3 B4]. split; [congruence..|]. by rewrite <- B4, <- A4. Qed.

Lemma quiet_step t0 t t' :
  t_tasks t' = t_tasks t → t_trace t' = t_trace t → incoming (t_world t') = incoming (t_world t) →
  set_owned (t_world t) (owned_of (t_world t')) = t_world t' → quiet t0 t → quiet t0 t'.
Proof. intros. eapply quiet_trans; [done|]. by split. Qed.

Lemma quiet_same t0 t t' :
  t_tasks t' = t_tasks t → t_trace t' = t_trace t → t_world t' = t_world t → quiet t0 t → quiet t0 t'.
Proof. intros ? ? Hw. apply quiet_step; [done|done|by rewrite Hw|]. rewrite Hw. apply set_owned_id. Qed.

Lemma quiet_sessions t0 t x : quiet t0 t → quiet t0 (with_sessions t x).
Proof. by apply quiet_same. Qed.
Lemma quiet_evicted t0 t x : quiet t0 t → quiet t0 (with_evicted t x).
Proof. by apply quiet_same. Qed.
Lemma quiet_snapshots t0 t x : quiet t0 t → quiet t0 (with_snapshots t x).
Proof. by apply quiet_same. Qed.
Lemma quiet_seen t0 t x : quiet t0 t → quiet t0 (with_seen t x).
Proof. by apply quiet_same. Qed.
Lemma quiet_oversized t0 t x : quiet t0 t → quiet t0 (with_oversized t x).
Proof. by apply quiet_same. Qed.
Lemma quiet_readers t0 t x : quiet t0 t → quiet t0 (with_readers t x).
Proof. by apply quiet_same. Qed.
Lemma quiet_control t0 t x : quiet t0 t → quiet t0 (with_control t x).
Proof. by apply quiet_same. Qed.
Lemma quiet_detached t0 t x : quiet t0 t → quiet t0 (with_detached t x).
Proof. by apply quiet_same. Qed.
Lemma quiet_manager t0 t x : quiet t0 t → quiet t0 (with_manager t x).
Proof. by apply quiet_same. Qed.
Lemma quiet_net t0 t x : quiet t0 t → quiet t0 (with_net t x).
Proof. by apply quiet_same. Qed.
Lemma quiet_alive t0 t x : quiet t0 t → quiet t0 (with_alive t x).
Proof. by apply quiet_same. Qed.
Lemma quiet_routes t0 t x : quiet t0 t → quiet t0 (with_event_routes t x).
Proof. by apply quiet_step. Qed.
Lemma quiet_wraps t0 t x : quiet t0 t → quiet t0 (with_wraps t x).
Proof. by apply quiet_step. Qed.
Lemma quiet_slots t0 t x : quiet t0 t → quiet t0 (with_slots t x).
Proof. by apply quiet_step. Qed.
Lemma quiet_tokens t0 t x : quiet t0 t → quiet t0 (with_tokens t x).
Proof. by apply quiet_step. Qed.
Lemma quiet_tables t0 t x : quiet t0 t → quiet t0 (with_tables t x).
Proof. by apply quiet_step. Qed.

Lemma quiet_foldl {A} (f : Transport L → A → Transport L) l t0 t :
  (∀ t a, quiet t (f t a)) → quiet t0 t → quiet t0 (foldl f t l).
Proof.
  intros Hf. revert t. induction l as [|a l IH]; intros t Ht; cbn; [done|].
  apply IH. eapply quiet_trans; [done|apply Hf].
Qed.
End quiet.

Create HintDb quiet.
#[export] Hint Resolve quiet_refl quiet_sessions quiet_evicted quiet_snapshots quiet_seen quiet_oversized
  quiet_readers quiet_control quiet_detached quiet_manager quiet_net quiet_alive quiet_routes quiet_wraps
  quiet_slots quiet_tokens quiet_tables : quiet.

(** Unfold a handler into its branches and collect their updates. *)
Ltac quiet := repeat case_match; simplify_eq/=; eauto 20 with quiet.

Section handlers.
Context `{Lru L} `{SerdeJson} `{Sha256} `{Nostr}.
Variable config : NostrServerTransportConfig.
Variable chain : list middleware.
Variable supports_explicit_gating : bool.
Variable captured : ResponseTagSources.
Variable tags_snapshot : CommonTagsSnapshot.
Variable on_evicted : bool.
Implicit Types t : Transport L.

Lemma live_tag_sources_quiet t0 t : quiet t0 t → quiet t0 (live_tag_sources t).1.
Proof. intros. unfold live_tag_sources. quiet. Qed.

Lemma deferred_quiet event_id snapshot response sources t0 t :
  quiet t0 t → quiet t0 (publish_open_stream_deferred_response config event_id snapshot response sources t).1.
Proof. intros. unfold publish_open_stream_deferred_response. quiet. Qed.

Lemma send_deferred_quiet event_id snapshot response t0 t :
  quiet t0 t → quiet t0 (send_open_stream_deferred_response config event_id snapshot response t).1.
Proof.
  intros Ht. unfold send_open_stream_deferred_response. pose proof (live_tag_sources_quiet t0 t Ht).
  destruct (live_tag_sources t). by apply deferred_quiet.
Qed.

Lemma targeted_quiet sources client event_id wrap response t0 t :
  quiet t0 t → quiet t0 (publish_targeted_response config sources client event_id wrap response t).1.
Proof. intros. unfold publish_targeted_response. quiet. Qed.

Lemma respond_to_route_quiet now event_id response route t0 t :
  quiet t0 t → quiet t0 (respond_to_route config now event_id response route t).1.
Proof.
  intros Ht. unfold respond_to_route. pose proof (live_tag_sources_quiet t0 t Ht).
  destruct (live_tag_sources t) as [t1 sources]. cbn in *. quiet.
Qed.

Lemma send_response_quiet now event_id response t : quiet t (send_response config now event_id response t).1.
Proof.
  unfold send_response. destruct (take_payment_route_snapshot _ _) as [snaps entry].
  set (d := if sc_enabled _ then _ else _).
  assert (quiet t d.1) as Hd. { subst d. quiet. }
  destruct d as [t1 deferral]. cbn in Hd. destruct deferral; [done|by apply send_deferred_quiet|].
  destruct (pop_route event_id (t_routes t1)) as [routes popped].
  destruct popped; [apply respond_to_route_quiet; eauto with quiet|].
  destruct entry as [entry|]; [|eauto with quiet].
  pose proof (send_deferred_quiet event_id (ps_snapshot entry) response0 t
    (with_event_routes t1 routes) ltac:(eauto with quiet)) as Hs.
  destruct (send_open_stream_deferred_response _ _ _ _ _) as [t2 r]. cbn in Hs.
  destruct (is_ok r); eauto with quiet.
Qed.

Lemma notification_quiet wrap common client eid n t0 t :
  quiet t0 t → quiet t0 (publish_payment_notification config wrap common client eid n t).1.
Proof. intros. unfold publish_payment_notification. quiet. Qed.

Lemma send_notification_quiet client n eid t0 t :
  quiet t0 t → quiet t0 (send_notification config client n eid t).1.
Proof.
  intros Ht. unfold send_notification. pose proof (live_tag_sources_quiet t0 t Ht).
  destruct (live_tag_sources t). by apply notification_quiet.
Qed.

Lemma payment_sender_quiet now ttl common client eid wrap n t :
  quiet t (payment_notification_sender config now ttl common client eid wrap n t).1.
Proof.
  unfold payment_notification_sender. apply notification_quiet. unfold capture_snapshot. quiet.
Qed.

Lemma flush_quiet sources event_id t0 t :
  quiet t0 t → quiet t0 (flush_open_stream_response config sources event_id t).
Proof.
  intros. unfold flush_open_stream_response. destruct (flush_mark _ _) as [tb [[slot m]|]];
    [apply deferred_quiet|]; eauto with quiet.
Qed.

Lemma writer_publishes_quiet event_id sends op t0 t :
  quiet t0 t → quiet t0 (writer_publishes config event_id sends op t).
Proof. intros. unfold writer_publishes. quiet. Qed.

Lemma writer_abort_quiet event_id reason t0 t :
  quiet t0 t → quiet t0 (writer_abort config captured event_id reason t).
Proof.
  intros. unfold writer_abort. destruct (writer_of _ _) as [[? w]|]; [|done].
  destruct (w_active w); [apply flush_quiet|]; by apply writer_publishes_quiet.
Qed.

Lemma writer_ack_quiet now event_id nonce t0 t : quiet t0 t → quiet t0 (writer_ack_probe now event_id nonce t).
Proof. intros. unfold writer_ack_probe. quiet. Qed.

Lemma control_frame_quiet f token peer eid enc wrap t0 t :
  quiet t0 t → quiet t0 (publish_open_stream_control_frame config f token peer eid enc wrap t).
Proof. intros. unfold publish_open_stream_control_frame, next_control_progress. quiet. Qed.

Lemma feed_reader_quiet now n sender eid enc wrap t0 t :
  quiet t0 t → quiet t0 (feed_open_stream_reader config now n sender eid enc wrap t).
Proof.
  intros. unfold feed_open_stream_reader. repeat case_match; try done;
    try apply control_frame_quiet; eauto with quiet.
Qed.

Lemma stream_frame_quiet now n sender eid enc wrap supports t0 t :
  quiet t0 t → quiet t0 (handle_open_stream_frame config captured now n sender eid enc wrap supports t).
Proof.
  intros. unfold handle_open_stream_frame. repeat case_match;
    try apply control_frame_quiet; try apply feed_reader_quiet; try apply writer_publishes_quiet;
    try apply writer_abort_quiet; try apply writer_ack_quiet; done.
Qed.

Lemma sweep_streams_quiet now t : quiet t (sweep_open_stream_sessions config captured on_evicted now t).
Proof.
  unfold sweep_open_stream_sessions. destruct (tick_readers _ _) as [readers actions].
  set (t1 := foldl _ _ actions). assert (quiet t t1) as Ht1.
  { apply quiet_foldl; [|eauto with quiet]. intros u [[peer token] a]. unfold reader_action.
    repeat case_match; try apply control_frame_quiet; try apply writer_abort_quiet; eauto with quiet. }
  destruct (tick_slots _ _) as [m was]. apply quiet_foldl; [|eauto with quiet].
  intros u [[eid peer] a]. unfold writer_action. destruct (t_slots u !! eid); [|eauto with quiet].
  destruct a; [eauto with quiet| |].
  - by apply writer_publishes_quiet, quiet_refl.
  - destruct (remove_session _ _) as [s removed]. apply quiet_evicted, quiet_sessions.
    by apply writer_abort_quiet, quiet_refl.
Qed.
End handlers.

(** ** Simulation *)

Section simulation.
Context `{Lru L} `{SerdeJson} `{Sha256} `{Nostr}.
Variable config : NostrServerTransportConfig.
Variable chain : list middleware.
Variable supports_explicit_gating : bool.
Variables captured sender_tags : ResponseTagSources.
Variable tags_snapshot : CommonTagsSnapshot.
Variable on_evicted : bool.
Variable snapshot_ttl : Z.
Variable spawn_task : Verification → prog unit.
Implicit Types (t : Transport L) (s : Server L).

(** The schedule's server at a state of the transport. *)
Definition server_of t : Server L := mkServer (t_world t) (t_tasks t) (t_trace t).

Local Abbreviation step := (transport_step config chain supports_explicit_gating captured tags_snapshot
  on_evicted sender_tags snapshot_ttl spawn_task).

Lemma quiet_sim t t' :
  quiet t t' → server_of t' = server_step chain spawn_task (server_of t) (Owns (owned_of (t_world t'))).
Proof. intros [Ht Htr _ Hw]. unfold server_of. cbn. by rewrite Ht, Htr, Hw. Qed.

(** The contexts a received event can be delivered with. *)
Definition delivered_from (sender : string) (a : action L) : Prop :=
  match a with Deliver ctx _ _ => ctx_client_pubkey ctx = sender | _ => True end.

(** A dispatch that follows quiet steps. *)
Lemma dispatch_sim t0 t c m :
  quiet t0 t →
  ∃ acts, server_of (dispatch_message chain c m t) = run chain spawn_task (server_of t0) acts ∧
    Forall (delivered_from (ca_sender c)) acts.
Proof.
  intros Ht. set (e := Some (VString (event_to_json (ca_event c)))).
  exists [Owns (owned_of (t_world t)); Deliver (context_of c) m e].
  split; [|by repeat constructor]. cbn [run foldl]. unfold run. cbn [foldl].
  rewrite <- (quiet_sim t0 t Ht). unfold dispatch_message, server_step. fold e.
  change (world (server_of t)) with (t_world t).
  by destruct (dispatch_inbound chain (t_world t) (context_of c) m e).
Qed.

Lemma quiet_run t t' : quiet t t' → ∃ acts, server_of t' = run chain spawn_task (server_of t) acts ∧
  ∀ sender, Forall (delivered_from sender) acts.
Proof.
  intros Hq. exists [Owns (owned_of (t_world t'))]. split; [by apply quiet_sim|].
  intros sender. by repeat constructor.
Qed.

Lemma register_request_quiet now c id token wt t0 t :
  quiet t0 t → quiet t0 (register_request config now c id token wt t).
Proof. intros. unfold register_request, create_open_stream_writer. quiet. Qed.

Lemma oversized_sim now n c already t0 t :
  quiet t0 t →
  ∃ acts, server_of (handle_oversized_frame config chain now n c already t) =
          run chain spawn_task (server_of t0) acts ∧ Forall (delivered_from (ca_sender c)) acts.
Proof.
  intros Ht. unfold handle_oversized_frame.
  set (t1 := match (if _ && _ then _ else _) with Some _ => _ | None => _ end).
  assert (quiet t0 t1) as Ht1. { subst t1. unfold emit_accept_frame. quiet. }
  destruct (feed_oversized _ _ _ _ _ _) as [store [[m|]|e]].
  - apply dispatch_sim, register_request_quiet. eauto with quiet.
  - destruct (quiet_run t0 (with_oversized t1 store)) as (acts & ? & ?); eauto with quiet.
  - destruct (quiet_run t0 (with_oversized t1 store)) as (acts & ? & ?); eauto with quiet.
Qed.

Lemma process_message_sim now inner wrap enc m t0 t :
  quiet t0 t →
  ∃ acts, server_of (process_message config chain supports_explicit_gating captured on_evicted now inner wrap enc m t) =
          run chain spawn_task (server_of t0) acts ∧ Forall (delivered_from (ev_pubkey inner)) acts.
Proof.
  intros Ht. unfold process_message.
  assert (∀ t', quiet t0 t' → ∃ acts, server_of t' = run chain spawn_task (server_of t0) acts ∧
            Forall (delivered_from (ev_pubkey inner)) acts) as Hquiet.
  { intros t' Hq. destruct (quiet_run t0 t' Hq) as (acts & ? & ?). eauto. }
  destruct (ensure_session _ _ _ _ _) as [t1|] eqn:He; [|eauto with quiet].
  assert (quiet t0 t1) as Ht1. { unfold ensure_session in He. repeat case_match; simplify_eq/=; eauto with quiet. }
  destruct (with_session _ _ _) as [sessions [rc|]]; [|eauto with quiet].
  destruct (rc_negotiation rc).
  2: { apply Hquiet. unfold reject_unsupported. quiet. }
  set (c := mkCarrier _ _ _ _ _ _ _). change (ev_pubkey inner) with (ca_sender c).
  destruct m as [req|r|r|n].
  - apply dispatch_sim, register_request_quiet. eauto with quiet.
  - apply dispatch_sim. eauto with quiet.
  - apply dispatch_sim. eauto with quiet.
  - destruct (_ && is_oversized_frame n); [apply oversized_sim; eauto with quiet|].
    destruct (_ && Receiver.is_open_stream_frame n); [apply Hquiet, stream_frame_quiet; eauto with quiet|].
    apply dispatch_sim. case_match; eauto with quiet.
Qed.

Lemma open_event_quiet event t : quiet t (open_event config event t).1.
Proof. unfold open_event. quiet. Qed.

(** Receiving an event: only verified inner events are delivered. *)
Lemma handle_event_sim now event t :
  ∃ acts, server_of (handle_event config chain supports_explicit_gating captured tags_snapshot on_evicted now event t) =
          run chain spawn_task (server_of t) acts ∧
    ∀ a, a ∈ acts → ∀ ctx m e, a = Deliver ctx m e →
      ∃ inner, event_verify inner = true ∧ ev_pubkey inner = ctx_client_pubkey ctx.
Proof.
  unfold handle_event. destruct (negb (t_alive t)).
  { exists []. split; [done|]. set_solver. }
  pose proof (open_event_quiet event t) as Ho.
  assert (∀ inner, (open_event config event t).2 = Some inner → event_verify inner = true) as Hv.
  { unfold open_event. intros inner. repeat case_match; intros; simplify_eq/=; done. }
  destruct (open_event config event t) as [t1 [inner|]]; cbn in Ho, Hv.
  2: { destruct (quiet_run t t1 Ho) as (acts & Hr & Hd). exists acts. split; [done|].
       intros a Ha ctx m e ->. specialize (Hd (ctx_client_pubkey ctx +:+ "x")).
       rewrite Forall_forall in Hd. specialize (Hd _ Ha). cbn in Hd. exfalso.
       apply (f_equal String.length) in Hd. rewrite length_append in Hd. cbn in Hd. lia. }
  specialize (Hv inner eq_refl).
  assert (∀ t', quiet t t' → ∃ acts, server_of t' = run chain spawn_task (server_of t) acts ∧
            Forall (delivered_from (ev_pubkey inner)) acts) as Hquiet.
  { intros t' Hq. destruct (quiet_run t t' Hq) as (acts & ? & ?). eauto. }
  assert (∀ t', (∃ acts, server_of t' = run chain spawn_task (server_of t) acts ∧
            Forall (delivered_from (ev_pubkey inner)) acts) →
          ∃ acts, server_of t' = run chain spawn_task (server_of t) acts ∧
            ∀ a, a ∈ acts → ∀ ctx m e, a = Deliver ctx m e →
              ∃ inner, event_verify inner = true ∧ ev_pubkey inner = ctx_client_pubkey ctx) as Hwrap.
  { intros t' (acts & Hr & Hd). exists acts. split; [done|]. intros a Ha ctx m e ->.
    rewrite Forall_forall in Hd. specialize (Hd _ Ha). cbn in Hd. eauto. }
  apply Hwrap. destruct (validate_and_parse (ev_content inner)) as [m|]; [|by apply Hquiet].
  destruct (authorized _ _ _ _); [by apply process_message_sim|].
  apply Hquiet. unfold reject_unauthorized. quiet.
Qed.

(** The environment in which the senders answer [r]. *)
Definition senders_answer (r : result unit string) (env : ∀ c, answer c) (c : cmd) : answer c :=
  match c return answer c with
  | SendTargeted _ _ _ => r
  | SendNotification _ _ _ _ => r
  | c => env c
  end.

(** A command that publishes: the transport moves, then the task takes the answer. *)
Lemma sender_sim i env t t' c k a :
  t_tasks t !! i = Some (Vis c k) → quiet t t' →
  exec env (t_world t') c = Some (t_world t', a) →
  server_of (with_trace (with_tasks t' (<[i := k a]> (t_tasks t) ++ spawned spawn_task c))
               (t_trace t ++ [existT c a])) =
  run chain spawn_task (server_of t) [Owns (owned_of (t_world t')); Step i env].
Proof.
  intros Hi Hq Hex. unfold run. cbn [foldl]. rewrite <- (quiet_sim t t' Hq).
  unfold server_step, server_of at 2. cbn. destruct Hq as [-> -> _ _]. by rewrite Hi, Hex.
Qed.

(** One command of a chain. *)
Lemma task_step_sim i env t :
  ∃ acts, server_of (task_step config sender_tags snapshot_ttl spawn_task i env t) =
          run chain spawn_task (server_of t) acts ∧
    ∀ ctx m e, Deliver ctx m e ∉ acts.
Proof.
  unfold task_step. destruct (t_tasks t !! i) as [[| |c k]|] eqn:Hi;
    try (exists []; split; [done|]; intros ? ? ?; apply not_elem_of_nil).
  assert (∀ w a, exec env (t_world t) c = Some (w, a) →
    ∃ acts, server_of (with_trace (with_tasks (with_world t w) (<[i := k a]> (t_tasks t) ++ spawned spawn_task c))
        (t_trace t ++ [existT c a])) = run chain spawn_task (server_of t) acts ∧
      ∀ ctx m e, Deliver ctx m e ∉ acts) as Hworld.
  { intros w a Hex. exists [Step i env]. split; [|set_solver]. unfold run, server_step. cbn. by rewrite Hi, Hex. }
  assert (exec env (t_world t) c = None → ∃ acts, server_of t = run chain spawn_task (server_of t) acts ∧
      ∀ ctx m e, Deliver ctx m e ∉ acts) as Hblocked.
  { intros _. exists []. split; [done|set_solver]. }
  destruct c; try (cbn [exec_command]; destruct (exec _ _ _) as [[w a]|] eqn:Hex; [by apply Hworld|by apply Hblocked]).
  - cbn [exec_command]. pose proof (targeted_quiet config sender_tags client_pubkey event_id
      (mirrored_wrap_kind event_id t) message t t (quiet_refl t)) as Hq.
    unfold targeted_response_sender. destruct (publish_targeted_response _ _ _ _ _ _ _) as [t' r]. cbn in Hq.
    eexists. split; [apply (sender_sim i (senders_answer (map_err Error_to_string r) env)); done|set_solver].
  - cbn [exec_command]. pose proof (payment_sender_quiet config (env Now) snapshot_ttl (ts_common sender_tags)
      client_pubkey event_id wrap_kind message t) as Hq.
    destruct (payment_notification_sender _ _ _ _ _ _ _ _ _) as [t' r]. cbn in Hq.
    eexists. split; [apply (sender_sim i (senders_answer (map_err Error_to_string r) env)); done|set_solver].
Qed.

Lemma quiet_run_nodeliver t t' : quiet t t' → ∃ acts, server_of t' = run chain spawn_task (server_of t) acts ∧
  ∀ ctx m e, Deliver ctx m e ∉ acts.
Proof. intros Hq. exists [Owns (owned_of (t_world t'))]. split; [by apply quiet_sim|set_solver]. Qed.

(** Every action but a reception and a command of a chain is quiet. *)
Lemma transport_step_quiet t a :
  match a with Receive _ _ | TaskStep _ _ => False | _ => True end → quiet t (step t a).
Proof.
  destruct a; cbn [transport_step]; intros Ha; try contradiction.
  - eauto with quiet.
  - apply sweep_streams_quiet.
  - unfold cleanup_tick. destruct (cleanup_sessions _ _ t) as [t1 n] eqn:Hc.
    assert (quiet t t1) as Hq by (unfold cleanup_sessions in Hc; simplify_eq/=; eauto with quiet). quiet.
  - apply send_response_quiet.
  - unfold send_targeted_response. pose proof (live_tag_sources_quiet t t (quiet_refl t)) as Hq.
    destruct (live_tag_sources t) as [t1 sources]. by apply targeted_quiet.
  - apply send_notification_quiet, quiet_refl.
  - unfold broadcast_notification. apply quiet_foldl; [|apply quiet_refl]. intros.
    apply send_notification_quiet, quiet_refl.
  - apply writer_publishes_quiet, quiet_refl.
  - unfold tool_write. assert (quiet t (tool_start config now event_id t)) as Hq
      by apply writer_publishes_quiet, quiet_refl.
    case_match; [by apply writer_publishes_quiet|done].
  - unfold tool_close. assert (quiet t (tool_start config now event_id t)) as Hq
      by apply writer_publishes_quiet, quiet_refl.
    case_match; [by apply flush_quiet, writer_publishes_quiet|done].
  - apply writer_abort_quiet, quiet_refl.
  - eauto with quiet.
  - eauto with quiet.
  - apply (quiet_step t t); [done..|apply quiet_refl].
Qed.

Lemma transport_step_sim t a :
  ∃ acts, server_of (step t a) = run chain spawn_task (server_of t) acts ∧
    ∀ ctx m e, Deliver ctx m e ∈ acts →
      ∃ inner, event_verify inner = true ∧ ev_pubkey inner = ctx_client_pubkey ctx.
Proof.
  assert (∀ t', (∃ acts, server_of t' = run chain spawn_task (server_of t) acts ∧
            ∀ ctx m e, Deliver ctx m e ∉ acts) →
          ∃ acts, server_of t' = run chain spawn_task (server_of t) acts ∧
            ∀ ctx m e, Deliver ctx m e ∈ acts →
              ∃ inner, event_verify inner = true ∧ ev_pubkey inner = ctx_client_pubkey ctx) as Hnone.
  { intros t' (acts & Hr & Hd). exists acts. split; [done|]. intros ctx m e Ha. by destruct (Hd ctx m e). }
  pose proof (transport_step_quiet t a) as Hq.
  destruct a; try (by apply Hnone, quiet_run_nodeliver, Hq).
  - destruct (handle_event_sim now event t) as (acts & Hr & Hd). exists acts. split; [done|].
    intros ctx m e Ha. by eapply Hd.
  - apply Hnone, task_step_sim.
Qed.

Lemma transport_run_sim t acts :
  ∃ sched, server_of (transport_run config chain supports_explicit_gating captured tags_snapshot on_evicted
      sender_tags snapshot_ttl spawn_task t acts) = run chain spawn_task (server_of t) sched ∧
    ∀ ctx m e, Deliver ctx m e ∈ sched →
      ∃ inner, event_verify inner = true ∧ ev_pubkey inner = ctx_client_pubkey ctx.
Proof.
  revert t. induction acts as [|a acts IH]; intros t; [exists []; split; [done|set_solver]|].
  destruct (transport_step_sim t a) as (s1 & H1' & Hd1). destruct (IH (step t a)) as (s2 & H2' & Hd2).
  exists (s1 ++ s2). split.
  - unfold run in *. rewrite foldl_app, <- H1'. exact H2'.
  - intros ctx m e [Ha|Ha]%elem_of_app; eauto.
Qed.
End simulation.

(** ** The payment guarantees of the whole server *)

Section payments.
Context `{Lru L} `{SerdeJson} `{Sha256} `{JsonCanon} `{Nostr}.
Variable config : NostrServerTransportConfig.
Variable options : ServerPaymentsOptions.
Variable supports_explicit_gating : bool.
Variables captured sender_tags : ResponseTagSources.
Variable tags_snapshot : CommonTagsSnapshot.
Variable on_evicted : bool.
Variable max_entries : Z.

(** A server with the payment middlewares, after some actions. *)
Definition paid_server (acts : list transport_action) : Transport L :=
  transport_run config (payments_chain options) supports_explicit_gating captured tags_snapshot on_evicted
    sender_tags (payment_ttl options) verification_task
    (transport_new config max_entries (max_pending_payments options)) acts.

Lemma paid_server_schedule acts :
  ∃ sched, server_of (paid_server acts) =
      run (payments_chain options) verification_task
        (server_start max_entries (max_pending_payments options) : Server L) sched ∧
    ∀ ctx m e, Deliver ctx m e ∈ sched →
      ∃ inner, event_verify inner = true ∧ ev_pubkey inner = ctx_client_pubkey ctx.
Proof. apply transport_run_sim. Qed.
End payments.

(** (C1) No gated invocation runs unpaid on the running server: under every
    interleaving of relay events, redeliveries, responses, tool streams, sweeps
    and chain commands, and whatever relays, processors, pricing and clock answer,
    the priced invocations of one identity forwarded to the handler in gated
    sessions are at most the payments verified for it plus its waivers. *)
Theorem server_gated_forwards_paid `{LruLaws L} `{SerdeJson} `{Sha256} `{JsonCanon} `{Nostr}
    config options gating captured sender_tags tags_snapshot on_evicted max_entries id acts :
  payment_interaction_policy options = PolicyOptional →
  (∀ e, event_verify e = true → str_len (ev_pubkey e) = str_len (client_pubkey id)) →
  let t := paid_server (L := L) config options gating captured sender_tags tags_snapshot on_evicted
             max_entries acts in
  (count (gated_forwards options id) (t_trace t) <=
   count (verified_payments id) (t_trace t) + count (waivers id) (t_trace t))%nat.
Proof.
  intros Hpol Hkey t. destruct (paid_server_schedule config options gating captured sender_tags
    tags_snapshot on_evicted max_entries acts) as (sched & Hs & Hd).
  assert (t_trace t = trace (server_of t)) as -> by done. subst t. rewrite Hs.
  apply gated_forwards_paid; [done|]. apply Forall_forall. intros [ctx m e| | | |] Ha; cbn; try done.
  destruct (Hd ctx m e Ha) as (inner & Hv & <-). by apply Hkey.
Qed.

(** (C7) One request event is charged at most once per payment lifetime on the
    running server: under every interleaving with ordered clock readings, the
    payment requests that reach the client for it are at most one per
    [payment_ttl] elapsed. *)
Theorem server_single_charge `{LruLaws L} `{SerdeJson} `{Sha256} `{JsonCanon} `{Nostr}
    config options gating captured sender_tags tags_snapshot on_evicted max_entries eid acts t0 :
  0 < payment_ttl options →
  let t := paid_server (L := L) config options gating captured sender_tags tags_snapshot on_evicted
             max_entries acts in
  let elapsed := List.last (readings (t_trace t)) t0 - t0 in
  ordered t0 (readings (t_trace t)) = true →
  Z.of_nat (count (charges eid) (t_trace t)) * payment_ttl options ≤ elapsed + payment_ttl options ∧
  (elapsed < payment_ttl options → (count (charges eid) (t_trace t) <= 1)%nat).
Proof.
  intros Httl t. destruct (paid_server_schedule config options gating captured sender_tags
    tags_snapshot on_evicted max_entries acts) as (sched & Hs & _).
  assert (t_trace t = trace (server_of t)) as -> by done. subst t. rewrite Hs.
  intros elapsed Hord. by apply single_charge_per_window.
Qed.

(** (C13) No priced request runs unpaid outside explicit gating on the running server
    either: under every interleaving of relay events, redeliveries, responses, tool
    streams, sweeps and chain commands, and whatever relays, processors and clock
    answer, a priced request event in the transparent lifecycle is handed to the
    handler at most as often as a payment for it was verified or its price was waived. *)
Theorem server_transparent_forwards_paid `{Lru L} `{SerdeJson} `{Sha256} `{JsonCanon} `{Nostr}
    config options gating captured sender_tags tags_snapshot on_evicted max_entries eid acts :
  let t := paid_server (L := L) config options gating captured sender_tags tags_snapshot on_evicted
             max_entries acts in
  (count (charged_forwards options eid) (t_trace t) <= count (settlements eid) (t_trace t))%nat.
Proof.
  intros t. destruct (paid_server_schedule config options gating captured sender_tags
    tags_snapshot on_evicted max_entries acts) as (sched & Hs & _).
  assert (t_trace t = trace (server_of t)) as -> by done. subst t. rewrite Hs.
  apply transparent_forwards_paid.
Qed.

(** ** A server at work *)

Definition paying_event (id : string) (mode : PaymentInteractionMode) : Event :=
  demo_event id "alice" [payment_interaction_tag mode] demo_request.

(** An unpaid gated call is answered with an offer, the payment is verified, and
    the retry reaches the handler. *)
Definition gated_actions : list transport_action :=
  Receive 1 (paying_event "event-a" ExplicitGating) :: replicate 9 (TaskStep 0 (demo_env 1))
  ++ replicate 2 (TaskStep 1 (demo_env 2))
  ++ Receive 3 (paying_event "event-b" ExplicitGating) :: replicate 7 (TaskStep 2 (demo_env 3)).

(** A transparent call is charged once although its event arrives twice. *)
Definition transparent_actions : list transport_action :=
  Receive 1 (paying_event "event-a" Transparent) :: replicate 7 (TaskStep 0 (demo_env 1))
  ++ Receive 2 (paying_event "event-a" Transparent) :: replicate 8 (TaskStep 1 (demo_env 2))
  ++ replicate 9 (TaskStep 0 (demo_env 3)) ++ replicate 5 (TaskStep 1 (demo_env 4)).

Definition demo_tags : ResponseTagSources := mkTagSources [] [].
Definition demo_snapshot : CommonTagsSnapshot := mkTagsSnapshot None [] [] EncOptional GwOptional.

Abbreviation demo_paid acts :=
  (@paid_server list_cache _ bits_serde id_sha256 bits_canon (demo_nostr (λ _, false))
     NostrServerTransportConfig_default demo_options true demo_tags demo_tags demo_snapshot false 10 acts).

Lemma server_gated_forwards_paid_witness :
  let forwards := count (@gated_forwards bits_canon id_sha256 demo_options demo_invocation)
                    (t_trace (demo_paid gated_actions)) in
  forwards = 1%nat ∧
  (forwards <= count (verified_payments demo_invocation) (t_trace (demo_paid gated_actions)) +
               count (@waivers bits_canon id_sha256 demo_invocation) (t_trace (demo_paid gated_actions)))%nat.
Proof.
  split; [by vm_compute|].
  apply (@server_gated_forwards_paid list_cache _ _ bits_serde id_sha256 bits_canon (demo_nostr (λ _, false))
    NostrServerTransportConfig_default demo_options true demo_tags demo_tags demo_snapshot false 10
    demo_invocation gated_actions); [done|].
  intros e. cbn. intros ->%Z.eqb_eq. by vm_compute.
Defined.

Lemma server_single_charge_witness :
  count (charges "event-a") (t_trace (demo_paid transparent_actions)) = 1%nat ∧
  (count (charges "event-a") (t_trace (demo_paid transparent_actions)) <= 1)%nat.
Proof.
  split; [by vm_compute|].
  refine (proj2 (@server_single_charge list_cache _ _ bits_serde id_sha256 bits_canon (demo_nostr (λ _, false))
    NostrServerTransportConfig_default demo_options true demo_tags demo_tags demo_snapshot false 10
    "event-a" transparent_actions 0 _ _) _); vm_compute; reflexivity.
Defined.

(** The transparent call of the demo is paid and handed over once. *)
Example transparent_call_forwarded :
  count (charged_forwards demo_options "event-a") (t_trace (demo_paid transparent_actions)) = 1%nat ∧
  count (settlements "event-a") (t_trace (demo_paid transparent_actions)) = 1%nat.
Proof. by vm_compute. Qed.
