(* ===== verification/ServerDeferral.v ===== *)
(** * The deferred response of a stream

    The final response of a streaming tool call is handed to [send_response] by
    the worker while the stream is closed or aborted by the tool, the client or
    the keepalive sweep.  The two sides meet in the critical sections
    [try_defer_open_stream_response], [flush_mark] and [flush_release], which
    interleave with each other and with everything else that works on the slots,
    [close] included.  Every publish from a snapshot carries its answer: a failure is
    returned to the worker by [send_response] and only logged by the hook. *)

From S2P Require Import Prelude Json CoreTypes OversizedFrame OversizedCodec Instances OversizedReceiver Lru RouteStore SessionStore OpenStreamFrame OpenStreamSession OpenStreamRegistry OpenStreamWriter PaymentTypes ServerTasks BaseTransport Announcements ServerNegotiation ServerState ServerOutbound ServerStreams ServerInbound.

(** ** Interleavings *)

(** The slots, the hooks between their two critical sections, the responses
    published from a snapshot, those whose publish failed, those passed to the plain
    path, those dropped with their slot by [close], and whether [close] drained. *)
Record Deferral : Type := mkDeferral {
  df_tables : SlotTables;
  df_hooks : list (string * OpenStreamSlot * JsonRpcMessage);
  df_published : list (string * RouteSnapshot * JsonRpcMessage);
  df_failed : list (string * RouteSnapshot * JsonRpcMessage);
  df_passed : list (string * JsonRpcMessage);
  df_discarded : list (string * JsonRpcMessage);
  df_closed : bool;
}.

(** [answer] is what the relay pool answers to the publish, where there is one. *)
Inductive deferral_op : Type :=
| DRespond (event_id : string) (response : JsonRpcMessage) (answer : result unit Error)
| DMark (event_id : string)
| DRelease (hook : nat) (answer : result unit Error)
| DClose
| DWriter (event_id : string) (op : writer_op)
| DCreate (event_id token_key : string) (writer : OpenStreamWriter) (snapshot : RouteSnapshot)
| DForwarded (event_id : string)
| DEnterChain (event_id : string)
| DLeaveChain (event_id : string).

Definition with_tab_slots (tb : SlotTables) (m : gmap string OpenStreamSlot) : SlotTables :=
  mkTables m (tab_tokens tb) (tab_detached tb).
Definition with_df_tables (d : Deferral) (tb : SlotTables) : Deferral :=
  mkDeferral tb (df_hooks d) (df_published d) (df_failed d) (df_passed d) (df_discarded d) (df_closed d).
Definition with_df_hooks (d : Deferral) hooks : Deferral :=
  mkDeferral (df_tables d) hooks (df_published d) (df_failed d) (df_passed d) (df_discarded d) (df_closed d).

(** [publish_open_stream_deferred_response], seen from the response. *)
Definition publish_deferred (e : string) (snapshot : RouteSnapshot) (m : JsonRpcMessage)
    (answer : result unit Error) (d : Deferral) : Deferral :=
  let '(published, failed) :=
    match answer with
    | Ok _ => (df_published d ++ [(e, snapshot, m)], df_failed d)
    | Err _ => (df_published d, df_failed d ++ [(e, snapshot, m)])
    end in
  mkDeferral (df_tables d) (df_hooks d) published failed (df_passed d) (df_discarded d) (df_closed d).

(** [close] drains the slots and clears the token index. *)
Definition drain_slots (tb : SlotTables) : SlotTables := mkTables ∅ ∅ (tab_detached tb).
Definition stashed_responses (tb : SlotTables) : list (string * JsonRpcMessage) :=
  omap (λ es : string * OpenStreamSlot, (λ m, (es.1, m)) <$> slot_pending_response es.2)
    (map_to_list (tab_slots tb)).

Definition deferral_step (d : Deferral) (op : deferral_op) : Deferral :=
  let tb := df_tables d in
  match op with
  | DRespond e response answer =>
      match try_defer_open_stream_response e response tb with
      | (tb, Deferred) => with_df_tables d tb
      | (tb, SendNow snapshot m) => publish_deferred e snapshot m answer (with_df_tables d tb)
      | (tb, Passthrough m) =>
          mkDeferral tb (df_hooks d) (df_published d) (df_failed d) (df_passed d ++ [(e, m)]) (df_discarded d)
            (df_closed d)
      end
  | DMark e =>
      let '(tb, ready) := flush_mark e tb in
      with_df_hooks (with_df_tables d tb)
        (df_hooks d ++ match ready with Some (slot, m) => [(e, slot, m)] | None => [] end)
  | DRelease i answer =>
      match df_hooks d !! i with
      | Some (e, slot, m) =>
          publish_deferred e (slot_snapshot slot) m answer
            (with_df_hooks (with_df_tables d (flush_release e slot tb)) (delete i (df_hooks d)))
      | None => d
      end
  | DClose =>
      mkDeferral (drain_slots tb) (df_hooks d) (df_published d) (df_failed d) (df_passed d)
        (df_discarded d ++ stashed_responses tb) true
  | DWriter e op =>
      match writer_of e tb with
      | Some (_, w) => with_df_tables d (set_writer e (writer_step w op).1 tb)
      | None => d
      end
  | DCreate e key w snapshot =>
      (* the event loop, which [close] joined before it drained the slots *)
      if df_closed d then d
      else if tab_slots tb !! e is Some _ then d
      else with_df_tables d
             (mkTables (<[e := mkSlot w snapshot None false false 0]> (tab_slots tb))
                (<[key := e]> (tab_tokens tb)) (tab_detached tb))
  | DForwarded e => with_df_tables d (with_tab_slots tb (mark_forwarded e (tab_slots tb)))
  | DEnterChain e => with_df_tables d (with_tab_slots tb (enter_chain e (tab_slots tb)))
  | DLeaveChain e => with_df_tables d (with_tab_slots tb (leave_chain e (tab_slots tb)).1)
  end.
Definition deferral_run (d : Deferral) (ops : list deferral_op) : Deferral := foldl deferral_step d ops.

(** The drain is the one of [close]. *)
Lemma close_drains_slots `{Lru L} (t : Transport L) : tables (close_transport t) = drain_slots (tables t).
Proof. done. Qed.

Definition publish_fails (op : deferral_op) : bool :=
  match op with DRespond _ _ (Err _) | DRelease _ (Err _) => true | _ => false end.
Definition is_close (op : deferral_op) : bool := match op with DClose => true | _ => false end.

(** What concerns one request event. *)
Definition keyed {A} (e : string) (l : list (string * A)) : list A :=
  omap (λ x : string * A, if String.eqb x.1 e then Some x.2 else None) l.
Definition attempt_of (e : string) (l : list (string * RouteSnapshot * JsonRpcMessage))
  : list (RouteSnapshot * JsonRpcMessage) :=
  omap (λ x : string * RouteSnapshot * JsonRpcMessage, if String.eqb x.1.1 e then Some (x.1.2, x.2) else None) l.
Definition responses_of (e : string) (ops : list deferral_op) : list JsonRpcMessage :=
  omap (λ op, match op with DRespond e' m _ => if String.eqb e' e then Some m else None | _ => None end) ops.
Definition published_of (e : string) (d : Deferral) := attempt_of e (df_published d).
Definition failed_of (e : string) (d : Deferral) := attempt_of e (df_failed d).
Definition passed_of (e : string) (d : Deferral) : list JsonRpcMessage := keyed e (df_passed d).
Definition discarded_of (e : string) (d : Deferral) : list JsonRpcMessage := keyed e (df_discarded d).
Definition hooks_of (e : string) (d : Deferral) : list (RouteSnapshot * JsonRpcMessage) :=
  omap (λ x : string * OpenStreamSlot * JsonRpcMessage,
          if String.eqb x.1.1 e then Some (slot_snapshot x.1.2, x.2) else None) (df_hooks d).
Definition slot_of (e : string) (d : Deferral) : option OpenStreamSlot := tab_slots (df_tables d) !! e.
Definition stash_of (e : string) (d : Deferral) : list JsonRpcMessage :=
  match slot_of e d with Some s => option_list (slot_pending_response s) | None => [] end.

(** ** Lemmas *)

(** A started writer stays started. *)
Lemma writer_step_started w op : w_started w = true → w_started (writer_step w op).1 = true.
Proof.
  intros Hs. destruct op; cbn; unfold Writer.start, Writer.write, Writer.ping, Writer.pong, Writer.send_probe,
    Writer.close, Writer.abort, Writer.start_internal, Writer.tick, Writer.ack_probe, Writer.publish,
    Writer.next_progress, Writer.mint_nonce; rewrite ?Hs; cbn; repeat case_match; simplify_eq/=; done.
Qed.

(** The events of other requests do not show. *)
Lemma slot_set_writer e e' w tb :
  tab_slots (set_writer e' w tb) !! e =
  (if String.eqb e' e then λ s, set_slot_writer s w else id) <$> tab_slots tb !! e.
Proof.
  unfold set_writer. destruct (String.eqb_spec e' e) as [->|Hne].
  - destruct (tab_slots tb !! e) eqn:E; cbn; [|by rewrite E]. by rewrite lookup_alter_eq, E.
  - rewrite option_fmap_id. destruct (tab_slots tb !! e') eqn:E; cbn; [|done]. by rewrite lookup_alter_ne.
Qed.

Lemma slot_leave_chain e e' m s :
  m !! e = Some s → slot_forwarded s = true →
  ∃ s', (leave_chain e' m).1 !! e = Some s' ∧ slot_writer s' = slot_writer s ∧
    slot_snapshot s' = slot_snapshot s ∧ slot_pending_response s' = slot_pending_response s ∧
    slot_terminated s' = slot_terminated s ∧ slot_forwarded s' = true.
Proof.
  intros Hs Hf. unfold leave_chain. destruct (decide (e' = e)) as [->|Hne].
  - rewrite Hs. cbn. rewrite Hf, andb_false_r. cbn. rewrite lookup_insert_eq. eauto 10.
  - destruct (m !! e') as [s'|]; [|eauto 10]. case_match; cbn.
    + rewrite lookup_delete_ne by done. eauto 10.
    + rewrite lookup_insert_ne by done. eauto 10.
Qed.

(** A slot without a stashed response gets none from the chains. *)
Lemma stash_leave_chain e e' m :
  match (leave_chain e' m).1 !! e with
  | Some s => match m !! e with Some s0 => slot_pending_response s = slot_pending_response s0 | None => False end
  | None => True
  end.
Proof.
  unfold leave_chain. destruct (decide (e' = e)) as [->|Hne].
  - destruct (m !! e) as [s|] eqn:E; cbn; [|by rewrite E].
    destruct (_ && _); cbn; [by rewrite lookup_delete_eq|by rewrite lookup_insert_eq].
  - destruct (m !! e') as [s'|]; cbn; [|by destruct (m !! e)]. destruct (_ && _); cbn.
    + rewrite lookup_delete_ne by done. by destruct (m !! e).
    + rewrite lookup_insert_ne by done. by destruct (m !! e).
Qed.

(** Removing one element from a list that is seen through a filter. *)
Lemma omap_delete_None {A B} (f : A → option B) (l : list A) (i : nat) x :
  l !! i = Some x → f x = None → omap f (delete i l) = omap f l.
Proof.
  intros Hi Hx. rewrite <- (take_drop_middle l i x Hi) at 2. rewrite delete_take_drop, !omap_app.
  cbn. by rewrite Hx.
Qed.
Lemma omap_delete_single {A B} (f : A → option B) (l : list A) (i : nat) x y z :
  l !! i = Some x → f x = Some y → omap f l = [z] → y = z ∧ omap f (delete i l) = [].
Proof.
  intros Hi Hx Hl. rewrite <- (take_drop_middle l i x Hi), omap_app in Hl. cbn in Hl. rewrite Hx in Hl.
  rewrite delete_take_drop, omap_app.
  destruct (omap f (take i l)) as [|a [|b l1]]; cbn in Hl; [|done..]. by injection Hl as -> ->.
Qed.
Lemma omap_lookup_nil {A B} (f : A → option B) (l : list A) (i : nat) x : l !! i = Some x → omap f l = [] → f x = None.
Proof.
  intros Hi Hl. rewrite <- (take_drop_middle l i x Hi), omap_app in Hl. cbn in Hl.
  destruct (f x); [|done]. by apply app_eq_nil in Hl as [_ ?].
Qed.

(** The entry of one key in the list of a map. *)
Lemma omap_keyed {A B} (f : A → option B) (l : list (string * A)) (e : string) :
  NoDup l.*1 →
  omap (λ ka : string * A, if String.eqb ka.1 e then f ka.2 else None) l =
  option_list ((list_to_map l : gmap string A) !! e ≫= f).
Proof.
  induction l as [|[k a] l IH]; [done|]. cbn. intros [Hk Hl]%NoDup_cons. rewrite IH by done.
  destruct (String.eqb_spec k e) as [->|Hne].
  - rewrite lookup_insert_eq. rewrite (not_elem_of_list_to_map_1 l e Hk). cbn. by destruct (f a).
  - by rewrite lookup_insert_ne.
Qed.
Lemma omap_map_to_list_key {A B} (f : A → option B) (m : gmap string A) (e : string) :
  omap (λ ka : string * A, if String.eqb ka.1 e then f ka.2 else None) (map_to_list m) = option_list (m !! e ≫= f).
Proof. rewrite omap_keyed by apply NoDup_fst_map_to_list. by rewrite list_to_map_to_list. Qed.
Lemma keyed_app {A} e (l1 l2 : list (string * A)) : keyed e (l1 ++ l2) = keyed e l1 ++ keyed e l2.
Proof. apply omap_app. Qed.
Lemma omap_omap {A B C} (f : B → option C) (g : A → option B) (l : list A) :
  omap f (omap g l) = omap (λ x, g x ≫= f) l.
Proof.
  induction l as [|x l IH]; [done|]. cbn. destruct (g x) as [y|]; cbn; [|done]. destruct (f y); by rewrite IH.
Qed.

(** ** The response is somewhere *)

Section one_request.
Variables (e : string) (snap : RouteSnapshot).

(** The slot of the request before and while its response waits in it. *)
Record slot_live (started : bool) (pending : option JsonRpcMessage) (s : OpenStreamSlot) : Prop := {
  sl_snapshot : slot_snapshot s = snap;
  sl_forwarded : slot_forwarded s = true;
  sl_pending : slot_pending_response s = pending;
  sl_started : started = true → w_started (slot_writer s) = true;
  sl_open : is_Some pending → slot_terminated s = false;
}.

(** Where a response of the request has gone, apart from its slot: in a hook,
    published, failed, passed on, discarded. *)
Definition traces (d : Deferral) :=
  (hooks_of e d, published_of e d, failed_of e d, passed_of e d, discarded_of e d).
Inductive place (m : JsonRpcMessage) :
    list (RouteSnapshot * JsonRpcMessage) * list (RouteSnapshot * JsonRpcMessage) *
    list (RouteSnapshot * JsonRpcMessage) * list JsonRpcMessage * list JsonRpcMessage → Prop :=
| InHook : place m ([(snap, m)], [], [], [], [])
| Published : place m ([], [(snap, m)], [], [], [])
| Failed : place m ([], [], [(snap, m)], [], [])
| Passed : place m ([], [], [], [m], [])
| Discarded : place m ([], [], [], [], [m]).

Inductive where_is (d : Deferral) : list JsonRpcMessage → Prop :=
| NotYet s : slot_of e d = Some s → slot_live false None s → traces d = ([], [], [], [], []) → where_is d []
| NotYetClosed : df_closed d = true → slot_of e d = None → traces d = ([], [], [], [], []) → where_is d []
| Stashed s m :
    slot_of e d = Some s → slot_live true (Some m) s → traces d = ([], [], [], [], []) → where_is d [m]
| Elsewhere m : stash_of e d = [] → place m (traces d) → where_is d [m].
#[local] Hint Constructors place : core.

Lemma traces_eq d h p f q x :
  traces d = (h, p, f, q, x) →
  hooks_of e d = h ∧ published_of e d = p ∧ failed_of e d = f ∧ passed_of e d = q ∧ discarded_of e d = x.
Proof. by intros [= -> -> -> -> ->]. Qed.

Lemma where_is_frame d d' r :
  where_is d r → traces d' = traces d →
  (∀ st p s, slot_of e d = Some s → slot_live st p s → ∃ s', slot_of e d' = Some s' ∧ slot_live st p s') →
  (df_closed d = true → slot_of e d = None → df_closed d' = true ∧ slot_of e d' = None) →
  (stash_of e d = [] → stash_of e d' = []) → where_is d' r.
Proof.
  intros Hw Ht Hslot Hclosed Hstash. destruct Hw as [s Es Hl Hn|Hc Es Hn|s m Es Hl Hn|m Es Hn].
  - destruct (Hslot _ _ _ Es Hl) as (s' & Es' & Hl'). eapply NotYet; eauto; congruence.
  - destruct (Hclosed Hc Es). apply NotYetClosed; congruence.
  - destruct (Hslot _ _ _ Es Hl) as (s' & Es' & Hl'). eapply Stashed; eauto; congruence.
  - apply Elsewhere; [auto|by rewrite Ht].
Qed.

(** An operation on another request. *)
Lemma where_is_other d d' r :
  where_is d r → traces d' = traces d → slot_of e d' = slot_of e d → df_closed d' = df_closed d → where_is d' r.
Proof.
  intros Hw Ht Hslot Hc. eapply where_is_frame; try done.
  - intros st p s Es Hl. rewrite Hslot. eauto.
  - by rewrite Hc, Hslot.
  - unfold stash_of. by rewrite Hslot.
Qed.

Lemma slot_live_writer st p s w :
  slot_live st p s → (w_started (slot_writer s) = true → w_started w = true) →
  slot_live st p (set_slot_writer s w).
Proof. intros [] Hw. split; cbn; auto. Qed.

Lemma slot_live_chain st p s f n : slot_live st p s → f = true → slot_live st p (set_slot_flags s f n).
Proof. intros [] ->. by split. Qed.

(** The operations that neither respond, nor run a hook, nor close. *)
Lemma passive_step d op r :
  match op with DRespond _ _ _ | DMark _ | DRelease _ _ | DClose => False | _ => True end →
  where_is d r → where_is (deferral_step d op) r.
Proof.
  intros Hop Hw. destruct op as [| | | |e' op|e' key w sn|e'|e'|e']; try done; cbn.
  - destruct (writer_of e' (df_tables d)) as [[sn w]|] eqn:Ew; [|done].
    eapply where_is_frame; try done; unfold slot_of, stash_of, slot_of; cbn; rewrite slot_set_writer.
    + intros st p s Es Hl. rewrite Es. cbn. eexists. split; [done|].
      destruct (String.eqb_spec e' e) as [->|]; [|done]. apply slot_live_writer; [done|].
      unfold writer_of in Ew. rewrite Es in Ew. simplify_eq. apply writer_step_started.
    + by intros ? ->.
    + destruct (tab_slots (df_tables d) !! e) as [s|]; cbn; [|done]. by destruct (String.eqb e' e).
  - destruct (df_closed d) eqn:Ec; [done|].
    destruct (tab_slots (df_tables d) !! e') eqn:E; [done|].
    eapply where_is_frame; try done; unfold slot_of, stash_of, slot_of; cbn.
    + intros st p s Es Hl. exists s. split; [|done]. rewrite lookup_insert_ne by congruence. done.
    + congruence.
    + destruct (decide (e' = e)) as [->|]; [by rewrite lookup_insert_eq|by rewrite lookup_insert_ne].
  - eapply where_is_frame; try done; unfold slot_of, stash_of, slot_of; cbn; unfold mark_forwarded.
    + intros st p s Es Hl. destruct (decide (e' = e)) as [->|].
      * rewrite lookup_alter_eq, Es. eexists. split; [done|]. by apply slot_live_chain.
      * rewrite lookup_alter_ne by done. eauto.
    + intros ? Es. split; [done|]. by apply lookup_alter_None.
    + destruct (decide (e' = e)) as [->|]; [|by rewrite lookup_alter_ne].
      rewrite lookup_alter_eq. by destruct (tab_slots (df_tables d) !! e).
  - eapply where_is_frame; try done; unfold slot_of, stash_of, slot_of; cbn; unfold enter_chain.
    + intros st p s Es Hl. destruct (decide (e' = e)) as [->|].
      * rewrite lookup_alter_eq, Es. eexists. split; [done|]. apply slot_live_chain; [done|by destruct Hl].
      * rewrite lookup_alter_ne by done. eauto.
    + intros ? Es. split; [done|]. by apply lookup_alter_None.
    + destruct (decide (e' = e)) as [->|]; [|by rewrite lookup_alter_ne].
      rewrite lookup_alter_eq. by destruct (tab_slots (df_tables d) !! e).
  - pose proof (stash_leave_chain e e' (tab_slots (df_tables d))) as Hst.
    eapply where_is_frame; try done; unfold slot_of, stash_of, slot_of; cbn.
    + intros st p s Es [H1 H2 H3 H4 H5].
      destruct (slot_leave_chain e e' _ s Es H2) as (s' & Es' & K1 & K2 & K3 & K4 & K5).
      exists s'. split; [done|]. split; congruence || (rewrite ?K1, ?K4; auto).
    + intros ? Es. rewrite Es in Hst. by destruct ((leave_chain e' (tab_slots (df_tables d))).1 !! e).
    + destruct ((leave_chain e' (tab_slots (df_tables d))).1 !! e); [|done].
      destruct (tab_slots (df_tables d) !! e); [|done]. by rewrite Hst.
Qed.

(** The hook's first critical section. *)
Lemma mark_step d e' r : where_is d r → where_is (deferral_step d (DMark e')) r.
Proof.
  intros Hw. cbn. unfold flush_mark. destruct (tab_slots (df_tables d) !! e') as [s|] eqn:Es.
  2: { eapply where_is_other; try done. unfold traces, hooks_of. cbn. by rewrite app_nil_r. }
  destruct (decide (e' = e)) as [->|Hne].
  2: { eapply where_is_other; try done; unfold traces, hooks_of, slot_of; cbn; [|by rewrite lookup_insert_ne].
       rewrite omap_app. destruct (slot_pending_response s); cbn; [|by rewrite app_nil_r].
       rewrite (proj2 (String.eqb_neq e' e)) by done. by rewrite app_nil_r. }
  set (d' := with_df_hooks _ _).
  assert (slot_of e d' = Some (set_slot_response s None true)) as Hslot.
  { unfold slot_of, d'. cbn. by rewrite lookup_insert_eq. }
  assert (stash_of e d' = []) as Hstash by (unfold stash_of; by rewrite Hslot).
  assert (hooks_of e d' = hooks_of e d ++ option_list ((λ m, (slot_snapshot s, m)) <$> slot_pending_response s)) as Hhk.
  { unfold hooks_of, d'. cbn. rewrite omap_app. f_equal. destruct (slot_pending_response s); cbn; [|done].
    by rewrite String.eqb_refl. }
  assert (slot_pending_response s = None → traces d' = traces d) as Hsame.
  { intros Hp. unfold traces. rewrite Hhk, Hp. cbn. by rewrite app_nil_r. }
  destruct Hw as [s0 Es0 [H1 H2 H3 H4 H5] Hn|Hc Es0|s0 m Es0 [H1 H2 H3 H4 H5] Hn|m Hst Hn];
    unfold slot_of in *; simplify_eq.
  - eapply NotYet; [apply Hslot|split; cbn; done || by intros []|]. by rewrite Hsame.
  - apply Elsewhere; [done|]. apply traces_eq in Hn as (Hh & Hpu & Hf & Hq & Hx).
    replace (traces d') with (hooks_of e d', published_of e d, failed_of e d, passed_of e d, discarded_of e d)
      by done. rewrite Hhk, Hh, Hpu, Hf, Hq, Hx, H3. cbn. rewrite H1. apply InHook.
  - apply Elsewhere; [done|]. rewrite Hsame; [done|]. unfold stash_of, slot_of in Hst. rewrite Es in Hst.
    by destruct (slot_pending_response s).
Qed.

(** What a publish adds. *)
Lemma publish_deferred_slot sn m answer e' d : slot_of e (publish_deferred e' sn m answer d) = slot_of e d.
Proof. by destruct answer. Qed.
Lemma publish_deferred_closed sn m answer e' d : df_closed (publish_deferred e' sn m answer d) = df_closed d.
Proof. by destruct answer. Qed.
Lemma publish_deferred_other sn m answer e' d : e' ≠ e → traces (publish_deferred e' sn m answer d) = traces d.
Proof.
  intros Hne. destruct answer; unfold traces, published_of, failed_of, attempt_of; cbn; rewrite omap_app; cbn;
    rewrite (proj2 (String.eqb_neq e' e)) by done; by rewrite app_nil_r.
Qed.
Lemma publish_deferred_place m answer d :
  traces d = ([], [], [], [], []) → place m (traces (publish_deferred e snap m answer d)).
Proof.
  intros (Hh & Hpu & Hf & Hq & Hx)%traces_eq.
  replace (traces (publish_deferred e snap m answer d)) with
    (hooks_of e d, published_of e (publish_deferred e snap m answer d), failed_of e (publish_deferred e snap m answer d),
     passed_of e d, discarded_of e d) by by destruct answer.
  rewrite Hh, Hq, Hx. unfold published_of, failed_of, attempt_of in *.
  destruct answer; cbn; rewrite omap_app; cbn; rewrite String.eqb_refl, Hpu, Hf; cbn; auto.
Qed.

(** The hook's second critical section and its publish. *)
Lemma release_step d i answer r : where_is d r → where_is (deferral_step d (DRelease i answer)) r.
Proof.
  intros Hw. cbn. destruct (df_hooks d !! i) as [[[e' s] m]|] eqn:Ei; [|done].
  set (f := λ x : string * OpenStreamSlot * JsonRpcMessage,
        if String.eqb x.1.1 e then Some (slot_snapshot x.1.2, x.2) else None).
  destruct (decide (e' = e)) as [->|Hne].
  2: { eapply where_is_other; [done| | |by rewrite publish_deferred_closed].
       - rewrite publish_deferred_other by done. unfold traces, hooks_of. cbn. fold f. f_equal. f_equal. f_equal. f_equal.
         apply (omap_delete_None f _ _ (e', s, m)); [done|]. subst f. cbn. by rewrite (proj2 (String.eqb_neq e' e)).
       - rewrite publish_deferred_slot. unfold slot_of. cbn. by rewrite lookup_delete_ne. }
  assert (f (e, s, m) = Some (slot_snapshot s, m)) as Hf by (subst f; cbn; by rewrite String.eqb_refl).
  assert (hooks_of e d ≠ []) as Hin.
  { unfold hooks_of. intros Hn. apply (omap_lookup_nil f _ _ _ Ei) in Hn. congruence. }
  destruct Hw as [? ? ? Hn|? ? Hn|? ? ? ? Hn|m' Hs0 Hn]; try (by apply traces_eq in Hn as [Hh _]).
  inversion Hn as [[Hh Hpu Hfa Hq Hx]|[Hh]|[Hh]|[Hh]|[Hh]];
    try (symmetry in Hh; contradiction).
  symmetry in Hh. destruct (omap_delete_single f _ _ _ _ _ Ei Hf Hh) as [[= Hsn ->] Hdel].
  apply Elsewhere.
  - unfold stash_of. rewrite publish_deferred_slot. unfold slot_of. cbn. by rewrite lookup_delete_eq.
  - rewrite Hsn. apply publish_deferred_place.
    transitivity (omap f (delete i (df_hooks d)), published_of e d, failed_of e d, passed_of e d, discarded_of e d);
      [done|]. by rewrite Hdel, <- Hpu, <- Hfa, <- Hq, <- Hx.
Qed.

(** [close] discards a response that waits in the slot. *)
Lemma stashed_responses_of d : keyed e (stashed_responses (df_tables d)) = stash_of e d.
Proof.
  unfold keyed, stashed_responses. rewrite omap_omap. unfold stash_of, slot_of.
  transitivity (omap (λ es : string * OpenStreamSlot,
    if String.eqb es.1 e then slot_pending_response es.2 else None) (map_to_list (tab_slots (df_tables d)))).
  - apply list_omap_ext. apply Forall2_same_length_lookup. split; [done|]. intros i [k s] y Hx Hy. simplify_eq. cbn.
    destruct (slot_pending_response s); cbn; by destruct (String.eqb k e).
  - rewrite omap_map_to_list_key. by destruct (tab_slots (df_tables d) !! e) as [s|].
Qed.

Lemma close_step d r : where_is d r → where_is (deferral_step d DClose) r.
Proof.
  intros Hw. cbn. set (d' := mkDeferral _ _ _ _ _ _ _).
  assert (slot_of e d' = None) as Hslot by (unfold slot_of, d'; cbn; apply lookup_empty).
  assert (discarded_of e d' = discarded_of e d ++ stash_of e d) as Hdis.
  { unfold discarded_of, d'. cbn [df_discarded]. by rewrite keyed_app, stashed_responses_of. }
  assert (traces d' = (hooks_of e d, published_of e d, failed_of e d, passed_of e d, discarded_of e d')) as Ht by done.
  assert (stash_of e d = [] → traces d' = traces d) as Hsame.
  { intros Hs. rewrite Ht, Hdis, Hs, app_nil_r. done. }
  destruct Hw as [s Es [H1 H2 H3 H4 H5] Hn|Hc Es Hn|s m Es [H1 H2 H3 H4 H5] Hn|m Hst Hn].
  - apply NotYetClosed; [done|done|]. rewrite Hsame; [done|]. unfold stash_of. by rewrite Es, H3.
  - apply NotYetClosed; [done|done|]. rewrite Hsame; [done|]. unfold stash_of. by rewrite Es.
  - apply Elsewhere; [unfold stash_of; by rewrite Hslot|].
    apply traces_eq in Hn as (Hh & Hpu & Hf & Hq & Hx). rewrite Ht, Hdis, Hh, Hpu, Hf, Hq, Hx.
    unfold stash_of. rewrite Es, H3. apply Discarded.
  - apply Elsewhere; [unfold stash_of; by rewrite Hslot|]. by rewrite Hsame.
Qed.

(** The response itself. *)
Lemma passed_place d tb m :
  traces d = ([], [], [], [], []) →
  place m (traces (mkDeferral tb (df_hooks d) (df_published d) (df_failed d) (df_passed d ++ [(e, m)])
                     (df_discarded d) (df_closed d))).
Proof.
  intros (Hh & Hpu & Hf & Hq & Hx)%traces_eq.
  match goal with |- place m ?t => replace t with
    (hooks_of e d, published_of e d, failed_of e d, keyed e (df_passed d ++ [(e, m)]), discarded_of e d) by done end.
  rewrite keyed_app, Hh, Hpu, Hf, Hx. unfold passed_of in Hq. rewrite Hq. cbn. rewrite String.eqb_refl. auto.
Qed.

Lemma respond_step d m answer : where_is d [] → where_is (deferral_step d (DRespond e m answer)) [m].
Proof.
  intros Hw. cbn. unfold try_defer_open_stream_response, Writer.has_started.
  inversion Hw as [s Es [H1 H2 H3 _ H5] Hn|Hc Es Hn| |]; clear Hw; unfold slot_of in Es; rewrite Es.
  2: { apply Elsewhere; [unfold stash_of, slot_of; cbn; by rewrite Es|by apply passed_place]. }
  destruct (w_started (slot_writer s)) eqn:Est; cbn.
  2: { apply Elsewhere; [unfold stash_of, slot_of; cbn; by rewrite lookup_delete_eq|by apply passed_place]. }
  destruct (slot_terminated s) eqn:Et.
  - apply Elsewhere.
    + unfold stash_of. rewrite publish_deferred_slot. unfold slot_of. cbn. by rewrite lookup_delete_eq.
    + rewrite H1. by apply publish_deferred_place.
  - eapply Stashed; try done; [unfold slot_of; cbn; by rewrite lookup_insert_eq|by split].
Qed.

Lemma respond_other d e' m answer r :
  e' ≠ e → where_is d r → where_is (deferral_step d (DRespond e' m answer)) r.
Proof.
  intros Hne Hw. cbn. unfold try_defer_open_stream_response. pose proof (proj2 (String.eqb_neq e' e) Hne) as Hb.
  destruct (tab_slots (df_tables d) !! e') as [s|]; [destruct (negb _); [|destruct (slot_terminated s)]|].
  2: { eapply where_is_other; [done|by rewrite publish_deferred_other| |by rewrite publish_deferred_closed].
       rewrite publish_deferred_slot. unfold slot_of. cbn. by rewrite lookup_delete_ne. }
  all: eapply where_is_other; [done| | |done].
  all: try (unfold slot_of; cbn; by rewrite ?lookup_delete_ne, ?lookup_insert_ne).
  all: unfold traces, passed_of; cbn [df_passed]; rewrite keyed_app; cbn; by rewrite Hb, app_nil_r.
Qed.

Lemma deferral_run_where d ops r :
  (length (r ++ responses_of e ops) <= 1)%nat → where_is d r →
  where_is (deferral_run d ops) (r ++ responses_of e ops).
Proof.
  revert d r. induction ops as [|op ops IH]; intros d r Hlen Hw; [by rewrite app_nil_r|].
  change (deferral_run d (op :: ops)) with (deferral_run (deferral_step d op) ops).
  assert (match op with DRespond _ _ _ => False | _ => True end → responses_of e (op :: ops) = responses_of e ops)
    as Hskip by by destruct op.
  destruct op as [e' m answer|e'|i answer| |e' op|e' key w sn|e'|e'|e'];
    try (rewrite Hskip in * by done; apply IH; [done|]);
    try (by apply passive_step); [|by apply mark_step|by apply release_step|by apply close_step].
  destruct (decide (e' = e)) as [->|Hne].
  - assert (responses_of e (DRespond e m answer :: ops) = m :: responses_of e ops) as Hr
      by (unfold responses_of; cbn; by rewrite String.eqb_refl).
    rewrite Hr in *. destruct r as [|m' r]; [|cbn in Hlen; rewrite length_app in Hlen; cbn in Hlen; lia].
    apply (IH _ [m]); [done|]. by apply respond_step.
  - assert (responses_of e (DRespond e' m answer :: ops) = responses_of e ops) as Hr
      by (unfold responses_of; cbn; by rewrite (proj2 (String.eqb_neq e' e))).
    rewrite Hr in *. apply IH; [done|]. by apply respond_other.
Qed.
End one_request.

(** A response is lost only to a failed publish or to [close]. *)
Lemma deferral_run_failed d ops :
  df_failed (deferral_run d ops) ≠ df_failed d → existsb publish_fails ops = true.
Proof.
  revert d. induction ops as [|op ops IH]; intros d Hd; [done|]. cbn. apply orb_true_iff.
  destruct (publish_fails op) eqn:Ef; [by left|right]. apply (IH (deferral_step d op)).
  intros Heq. apply Hd. change (deferral_run d (op :: ops)) with (deferral_run (deferral_step d op) ops). rewrite Heq.
  destruct op as [e' m [[]|]|e'|i [[]|]| |e' op|e' key w sn|e'|e'|e']; try done; cbn; repeat case_match; done.
Qed.

Lemma deferral_run_discarded d ops :
  df_discarded (deferral_run d ops) ≠ df_discarded d → existsb is_close ops = true.
Proof.
  revert d. induction ops as [|op ops IH]; intros d Hd; [done|]. cbn. apply orb_true_iff.
  destruct (is_close op) eqn:Ef; [by left|right]. apply (IH (deferral_step d op)).
  intros Heq. apply Hd. change (deferral_run d (op :: ops)) with (deferral_run (deferral_step d op) ops). rewrite Heq.
  destruct op as [e' m [[]|]|e'|i [[]|]| |e' op|e' key w sn|e'|e'|e']; try done; cbn; repeat case_match; done.
Qed.

(** (C6) What becomes of the final response of a streaming call.  Start from a slot
    whose request reached the handler, with no response yet; let the worker hand in one
    response while, in any interleaving, the stream is written, closed or aborted,
    hooks run their two critical sections, publishes succeed or fail, chains of
    redeliveries come and go, the transport is closed and other requests do anything.
    Then the response is in exactly one place: published once, from the route snapshot
    of the slot; tried once from that snapshot with a publish that failed (the worker
    is told by [send_response], the hook only logs it); passed once to the plain path
    (the tool never streamed, or the slot is gone); in a hook on its way to be
    published; stashed in a slot; or discarded when [close] drained the slots.  It is
    lost only where a publish failed or the transport was closed, and it does not
    remain in the slot once that is terminal: with no hook running, no failed publish
    and no [close], it has then been published or passed on. *)
Theorem deferred_response_exactly_once e slot response d ops :
  slot_of e d = Some slot → slot_pending_response slot = None → slot_forwarded slot = true →
  traces e d = ([], [], [], [], []) →
  responses_of e ops = [response] →
  let d' := deferral_run d ops in
  (published_of e d').*2 ++ (failed_of e d').*2 ++ passed_of e d' ++ (hooks_of e d').*2 ++ stash_of e d' ++
    discarded_of e d' = [response] ∧
  Forall (λ x, x.1 = slot_snapshot slot) (published_of e d' ++ failed_of e d' ++ hooks_of e d') ∧
  (failed_of e d' ≠ [] → existsb publish_fails ops = true) ∧
  (discarded_of e d' ≠ [] → existsb is_close ops = true) ∧
  (hooks_of e d' = [] → (∀ s, slot_of e d' = Some s → slot_terminated s = true) →
     existsb publish_fails ops = false → existsb is_close ops = false →
     (published_of e d').*2 ++ passed_of e d' = [response]).
Proof.
  intros Es Hpend Hfwd Hn Hr. cbv zeta.
  pose proof (deferral_run_where e (slot_snapshot slot) d ops []) as Hw. cbn [app] in Hw.
  rewrite Hr in Hw. specialize (Hw ltac:(done)). ospecialize (Hw _).
  { by eapply NotYet. }
  apply traces_eq in Hn as (_ & _ & Hf0 & _ & Hx0).
  assert (failed_of e (deferral_run d ops) ≠ [] → existsb publish_fails ops = true) as Hf.
  { intros Hne. apply (deferral_run_failed d). intros Heq. apply Hne. unfold failed_of in *. by rewrite Heq. }
  assert (discarded_of e (deferral_run d ops) ≠ [] → existsb is_close ops = true) as Hx.
  { intros Hne. apply (deferral_run_discarded d). intros Heq. apply Hne. unfold discarded_of in *. by rewrite Heq. }
  inversion Hw as [| |s m Es' [K1 K2 K3 K4 K5] Ht|m Hst Hp]; subst m.
  - apply traces_eq in Ht as (Hh' & Hp' & Hf' & Hq' & Hx'). rewrite Hh', Hp', Hf', Hq', Hx' in *.
    unfold stash_of. rewrite Es', K3. split_and!; [done|constructor|done|done|].
    intros _ Ht. specialize (Ht s eq_refl). rewrite K5 in Ht by eauto. done.
  - inversion Hp as [[Hh' Hp' Hf' Hq' Hx']|[Hh' Hp' Hf' Hq' Hx']|[Hh' Hp' Hf' Hq' Hx']|[Hh' Hp' Hf' Hq' Hx']|[Hh' Hp' Hf' Hq' Hx']];
      rewrite <- Hf' in Hf; rewrite <- Hx' in Hx; rewrite Hst; cbn;
      (split_and!; [done|by repeat constructor|done|done|]); intros Hh'' _ Hnf Hnc; try done.
    + by rewrite Hf in Hnf.
    + by rewrite Hx in Hnc.
Qed.

(** A stream that is written and closed by its tool; the worker's response comes
    between the two critical sections of another request's hook, and before the
    hook of its own. *)
Definition demo_slot_snapshot : RouteSnapshot := mkRouteSnapshot "alice" (VNumber (PosInt 1)) true (Some 21059).
Definition demo_deferral : Deferral :=
  deferral_run (mkDeferral (mkTables ∅ ∅ ∅) [] [] [] [] [] false)
    [DCreate "event-a" "alice:tok" (Writer.new 0 demo_writer_options) demo_slot_snapshot;
     DCreate "event-b" "bob:tok" (Writer.new 0 demo_writer_options) demo_slot_snapshot;
     DForwarded "event-a"; DForwarded "event-b"].
Definition demo_response : JsonRpcMessage := Response (mkResponse "2.0" (VNumber (PosInt 1)) VNull).
Definition demo_streamed : list deferral_op :=
  [DWriter "event-b" (WWrite 1 "x" true true); DRespond "event-b" demo_response (Ok tt); DMark "event-b";
   DWriter "event-a" (WWrite 1 "x" true true); DWriter "event-a" (WClose 2 true true);
   DRespond "event-a" demo_response (Ok tt)].
Definition demo_race : list deferral_op :=
  demo_streamed ++ [DRelease 0 (Ok tt); DMark "event-a"; DMark "event-a"; DRelease 0 (Ok tt); DRelease 0 (Ok tt)].

(** The publish of the hook fails, and the transport is closed before the hook. *)
Example deferred_response_lost :
  let failed := deferral_run demo_deferral (demo_streamed ++ [DMark "event-a"; DRelease 1 (Err (EOther "down"))]) in
  let closed := deferral_run demo_deferral (demo_streamed ++ [DClose; DMark "event-a"]) in
  (published_of "event-a" failed, (failed_of "event-a" failed).*2) = ([], [demo_response]) ∧
  (published_of "event-a" closed, discarded_of "event-a" closed) = ([], [demo_response]).
Proof. by vm_compute. Qed.

Lemma deferred_response_exactly_once_witness :
  let d := deferral_run demo_deferral demo_race in
  (published_of "event-a" d).*2 ++ passed_of "event-a" d = [demo_response] ∧
  Forall (λ x, x.1 = demo_slot_snapshot) (published_of "event-a" d ++ failed_of "event-a" d ++ hooks_of "event-a" d).
Proof.
  destruct (slot_of "event-a" demo_deferral) as [slot|] eqn:Es; [|by vm_compute in Es].
  assert (slot_snapshot slot = demo_slot_snapshot ∧ slot_pending_response slot = None ∧
          slot_forwarded slot = true) as (Hsn & Hp & Hf) by (vm_compute in Es; by injection Es as <-).
  rewrite <- Hsn.
  assert (traces "event-a" demo_deferral = ([], [], [], [], [])) as Ht by by vm_compute.
  assert (responses_of "event-a" demo_race = [demo_response]) as Hr by by vm_compute.
  destruct (deferred_response_exactly_once "event-a" slot demo_response demo_deferral demo_race
              Es Hp Hf Ht Hr) as (_ & Hsnap & _ & _ & Hdone).
  split; [|exact Hsnap]. apply Hdone; [by vm_compute| |done|done]. intros s Es'.
  assert (slot_of "event-a" (deferral_run demo_deferral demo_race) = None) as Hn by by vm_compute.
  discriminate (eq_trans (eq_sym Hn) Es').
Defined.
