(* ===== verification/ServerPolicy.v ===== *)
(** * The encryption policy of the server transport

    Whatever the clients, the relays, the tools and the payment chains do, the
    server publishes messages to clients only in the form its [EncryptionMode] and
    [GiftWrapMode] allow.  The invariant behind it: every record the server later
    answers from (a session, a payment snapshot, the slot of a stream, the writer
    a tool still holds) remembers an encryption flag the mode accepts. *)

From S2P Require Import Prelude Json CoreTypes OversizedFrame OversizedCodec Instances OversizedReceiver Lru Authorization RouteStore SessionStore OpenStreamFrame OpenStreamSession OpenStreamRegistry OpenStreamWriter PaymentTypes ServerTasks ServerPaymentsProofs BaseTransport Announcements ServerNegotiation ServerState ServerOutbound ServerStreams ServerInbound ServerRefinement ServerDeferral.

Section policy.
Context `{LruLaws L} `{SerdeJson} `{Sha256} `{NostrLaws}.
Variable config : NostrServerTransportConfig.
Implicit Types (t : Transport L) (net : Net).

Local Abbreviation mode := (cfg_encryption_mode config).
Local Abbreviation gift_wrap_mode := (cfg_gift_wrap_mode config).

(** ** The policy *)

(** A publish attempt in a form the configuration allows: a plain message unless
    encryption is required, or, unless it is disabled, an event of an allowed
    gift-wrap kind whose content is a text encrypted to the recipient. *)
Definition policy (o : Outbound) : Prop :=
  (mode ≠ EncRequired ∧ ev_kind (ob_event o) = CTXVM_MESSAGES_KIND) ∨
  (mode ≠ EncDisabled ∧ allows_kind gift_wrap_mode (ev_kind (ob_event o)) = true ∧
   ∃ n text, encrypt_nip44 n (ob_recipient o) text = Ok (ev_content (ob_event o))).

(** An encryption flag the mode accepts, and a gift-wrap kind chosen for it. *)
Definition flag_ok (b : bool) : Prop := mode = EncRequired → b = true.
Definition kind_ok (b : bool) (kind : option Z) : Prop :=
  match kind with
  | Some k => b = true ∧ allows_kind gift_wrap_mode k = true
  | None => b = false
  end.

Lemma kind_ok_response b w : kind_ok b (select_outbound_gift_wrap_kind gift_wrap_mode b w).
Proof.
  pose proof (select_kind_spec gift_wrap_mode b w) as Hs. unfold kind_ok.
  destruct (select_outbound_gift_wrap_kind _ _ _); [|done]. by destruct Hs as (? & ? & _).
Qed.
Lemma kind_ok_notification b w e :
  kind_ok b (select_outbound_notification_gift_wrap_kind gift_wrap_mode b w e).
Proof. apply select_notification_kind_spec. Qed.

(** The event of a gift wrap. *)
Lemma wrap_event_fields n ev recipient k ev' :
  wrap_event n ev recipient k = Ok ev' →
  ev_kind ev' = default GIFT_WRAP_KIND k ∧ ∃ text, encrypt_nip44 n recipient text = Ok (ev_content ev').
Proof.
  unfold wrap_event, gift_wrap_single_layer_with_kind. intros Hw.
  destruct (pool_signer n); cbn in Hw; [|done]. destruct (_ && _); [done|].
  destruct (encrypt_nip44 n recipient (event_to_json ev)) as [c|] eqn:Ec; cbn in Hw; [|done].
  destruct (ephemeral_sign n _) as [e|] eqn:Es; cbn in Hw; [|done]. simplify_eq.
  apply ephemeral_sign_fields in Es as [Hk Hc]. cbn in Hk, Hc. split; [done|]. exists (event_to_json ev).
  by rewrite Hc.
Qed.

(** Whether and in which kind a message is wrapped. *)
Lemma should_encrypt_policy b :
  flag_ok b →
  if should_encrypt mode CTXVM_MESSAGES_KIND (Some b) then b = true ∨ mode = EncRequired else mode ≠ EncRequired.
Proof. intros Hb. unfold should_encrypt. destruct mode; cbn; [destruct b; [by left|done]|by right|done]. Qed.

Lemma send_policy net m r ts b kind :
  flag_ok b → kind_ok b kind → Forall policy net →
  Forall policy (send_mcp_message mode net m r CTXVM_MESSAGES_KIND ts (Some b) kind).1.
Proof.
  intros Hb Hk Hn. unfold send_mcp_message, create_signed_event.
  destruct (pool_sign _ _) as [ev|] eqn:Es; [|done]. apply pool_sign_fields in Es as [Hkind _]. cbn in Hkind.
  pose proof (should_encrypt_policy b Hb) as Hp.
  destruct (should_encrypt mode CTXVM_MESSAGES_KIND (Some b)) eqn:Ee; cbn.
  2: { apply Forall_app. split; [done|]. apply Forall_singleton. by left. }
  destruct (wrap_event _ _ _ _) as [ev'|] eqn:Ew; [|done]. cbn.
  apply Forall_app. split; [done|]. apply Forall_singleton. right. cbn.
  apply wrap_event_fields in Ew as [-> [text Ht]].
  assert (b = true) as -> by (destruct Hp; auto). destruct kind as [k|]; [|done]. destruct Hk as [_ Hk]. cbn.
  split_and!; [|done|eauto]. intros Hd. unfold should_encrypt in Ee. by rewrite Hd in Ee.
Qed.

(** ** The invariant *)

Definition session_ok (s : ClientSession) : Prop := flag_ok (is_encrypted s).
Definition sessions_ok (c : L ClientSession) : Prop :=
  all_entries session_ok c ∧ lru_cap c = nonzero_or_one (cfg_max_sessions config).
Definition snapshot_ok (s : RouteSnapshot) : Prop := flag_ok (rsnap_is_encrypted s).
Definition slots_ok (m : gmap string OpenStreamSlot) : Prop := map_Forall (λ _ s, snapshot_ok (slot_snapshot s)) m.
Definition tables_ok (tb : SlotTables) : Prop :=
  slots_ok (tab_slots tb) ∧ map_Forall (λ _ sw, snapshot_ok sw.1) (tab_detached tb).

Record guarded t : Prop := {
  g_net : Forall policy (t_net t);
  g_sessions : sessions_ok (t_sessions t);
  g_snapshots : all_entries (λ e, snapshot_ok (ps_snapshot e)) (t_snapshots t);
  g_tables : tables_ok (tables t);
  g_alive : 2 ≤ cfg_max_sessions config → t_alive t = true;
}.

(** The updates a handler is made of. *)
Lemma guarded_same t t' :
  t_net t' = t_net t → t_sessions t' = t_sessions t → t_snapshots t' = t_snapshots t →
  t_slots t' = t_slots t → t_detached t' = t_detached t → t_alive t' = t_alive t → guarded t → guarded t'.
Proof.
  intros Hn Hs Hp Hsl Hd Ha [G1 G2 G3 [G4 G5] G6]. cbn in G4, G5.
  split; rewrite ?Hn, ?Hs, ?Hp, ?Ha; try done. split; cbn; by rewrite ?Hsl, ?Hd.
Qed.
Lemma guarded_tasks t x : guarded t → guarded (with_tasks t x).
Proof. by apply guarded_same. Qed.
Lemma guarded_trace t x : guarded t → guarded (with_trace t x).
Proof. by apply guarded_same. Qed.
Lemma guarded_evicted t x : guarded t → guarded (with_evicted t x).
Proof. by apply guarded_same. Qed.
Lemma guarded_seen t x : guarded t → guarded (with_seen t x).
Proof. by apply guarded_same. Qed.
Lemma guarded_oversized t x : guarded t → guarded (with_oversized t x).
Proof. by apply guarded_same. Qed.
Lemma guarded_readers t x : guarded t → guarded (with_readers t x).
Proof. by apply guarded_same. Qed.
Lemma guarded_control t x : guarded t → guarded (with_control t x).
Proof. by apply guarded_same. Qed.
Lemma guarded_manager t x : guarded t → guarded (with_manager t x).
Proof. by apply guarded_same. Qed.
Lemma guarded_panic t : cfg_max_sessions config < 2 → guarded t → guarded (with_alive t false).
Proof. intros ? []. split; try done. cbn. lia. Qed.
Lemma guarded_routes t x : guarded t → guarded (with_event_routes t x).
Proof. by apply guarded_same. Qed.
Lemma guarded_wraps t x : guarded t → guarded (with_wraps t x).
Proof. by apply guarded_same. Qed.
Lemma guarded_tokens t x : guarded t → guarded (with_tokens t x).
Proof. by apply guarded_same. Qed.
Lemma guarded_net t x : Forall policy x → guarded t → guarded (with_net t x).
Proof. intros ? []. by split. Qed.
Lemma guarded_sessions t x : sessions_ok x → guarded t → guarded (with_sessions t x).
Proof. intros ? []. by split. Qed.
Lemma guarded_snapshots t x :
  all_entries (λ e, snapshot_ok (ps_snapshot e)) x → guarded t → guarded (with_snapshots t x).
Proof. intros ? []. by split. Qed.
Lemma guarded_slots t x : slots_ok x → guarded t → guarded (with_slots t x).
Proof. intros ? [? ? ? [? ?] ?]. by split. Qed.
Lemma guarded_tables t x : tables_ok x → guarded t → guarded (with_tables t x).
Proof. intros ? []. by split. Qed.

Lemma guarded_foldl {A} (f : Transport L → A → Transport L) l t :
  (∀ t a, guarded t → guarded (f t a)) → guarded t → guarded (foldl f t l).
Proof. intros Hf. revert t. induction l; cbn; eauto. Qed.

(** ** Sessions and tables *)

Lemma sessions_get_mut key f c :
  (∀ s, session_ok s → session_ok (f s)) → sessions_ok c → sessions_ok (lru_get_mut key f c).1.
Proof. intros Hf [? ?]. split; [by apply all_entries_get_mut|by rewrite lru_get_mut_cap]. Qed.
Lemma sessions_push key s c : session_ok s → sessions_ok c → sessions_ok (lru_push key s c).1.
Proof. intros ? [? ?]. split; [by apply all_entries_push|by rewrite lru_push_cap]. Qed.
Lemma sessions_pop key c : sessions_ok c → sessions_ok (lru_pop key c).1.
Proof. intros [? ?]. split; [by apply all_entries_pop|by rewrite lru_pop_cap]. Qed.
Lemma sessions_pops keys c : sessions_ok c → sessions_ok (foldl (λ c key, (lru_pop key c).1) c keys).
Proof. revert c. induction keys as [|k keys IH]; intros c Hc; cbn; [done|]. by apply IH, sessions_pop. Qed.
Lemma sessions_peek key s c : sessions_ok c → lru_peek key c = Some s → session_ok s.
Proof. intros [? _]. by apply all_entries_peek. Qed.

Lemma with_session_ok {A} key (f : ClientSession → ClientSession * A) sessions :
  (∀ s, is_encrypted (f s).1 = is_encrypted s) → sessions_ok sessions →
  sessions_ok (with_session key f sessions).1.
Proof.
  intros Hf Hs. unfold with_session. destruct (lru_peek key sessions); cbn; [|done].
  apply sessions_get_mut; [|done]. intros v. unfold session_ok. by rewrite Hf.
Qed.

Lemma with_session_read {A} key (f : ClientSession → ClientSession * A) sessions a :
  sessions_ok sessions → (with_session key f sessions).2 = Some a →
  ∃ s, session_ok s ∧ a = (f s).2.
Proof.
  intros Hs. unfold with_session. destruct (lru_peek key sessions) as [s|] eqn:E; cbn; [|done].
  intros [= <-]. exists s. split; [|done]. by eapply sessions_peek.
Qed.

Lemma release_slot_ok event_id slot tb :
  snapshot_ok (slot_snapshot slot) → tables_ok tb → tables_ok (release_slot event_id slot tb).
Proof. intros ? []. split; cbn; [by apply map_Forall_delete|by apply map_Forall_insert_2]. Qed.

Lemma slots_ok_lookup m event_id slot : slots_ok m → m !! event_id = Some slot → snapshot_ok (slot_snapshot slot).
Proof. intros Hm. apply Hm. Qed.

Lemma slots_ok_alter m event_id f :
  (∀ s, slot_snapshot (f s) = slot_snapshot s) → slots_ok m → slots_ok (alter f event_id m).
Proof.
  intros Hf Hm k s. rewrite lookup_alter_Some. intros [(-> & s' & Hs & ->)|[_ Hs]]; [rewrite Hf|]; by eapply Hm.
Qed.

Lemma try_defer_ok event_id response tb :
  tables_ok tb →
  tables_ok (try_defer_open_stream_response event_id response tb).1 ∧
  match (try_defer_open_stream_response event_id response tb).2 with SendNow s _ => snapshot_ok s | _ => True end.
Proof.
  intros Ht. unfold try_defer_open_stream_response. destruct (tab_slots tb !! event_id) as [slot|] eqn:E; [|done].
  pose proof (slots_ok_lookup _ _ _ (proj1 Ht) E) as Hs.
  destruct (negb _); [split; [by apply release_slot_ok|done]|].
  destruct (slot_terminated slot); [split; [by apply release_slot_ok|done]|]. split; [|done].
  destruct Ht. split; cbn; [by apply map_Forall_insert_2|done].
Qed.

Lemma flush_mark_ok event_id tb :
  tables_ok tb →
  tables_ok (flush_mark event_id tb).1 ∧
  match (flush_mark event_id tb).2 with Some (s, _) => snapshot_ok (slot_snapshot s) | None => True end.
Proof.
  intros Ht. unfold flush_mark. destruct (tab_slots tb !! event_id) as [slot|] eqn:E; [|done].
  pose proof (slots_ok_lookup _ _ _ (proj1 Ht) E) as Hs. split; [|by destruct (slot_pending_response slot)].
  destruct Ht. split; cbn; [by apply map_Forall_insert_2|done].
Qed.

Lemma flush_release_ok event_id slot tb : tables_ok tb → tables_ok (flush_release event_id slot tb).
Proof.
  intros [Hs Hd]. split; cbn; [by apply map_Forall_delete|]. destruct (tab_slots tb !! event_id) eqn:E; [|done].
  apply map_Forall_insert_2; [by eapply Hs|done].
Qed.

Lemma set_writer_ok event_id w tb : tables_ok tb → tables_ok (set_writer event_id w tb).
Proof.
  intros [Hs Hd]. unfold set_writer. destruct (tab_slots tb !! event_id); split; cbn; try done.
  - by apply slots_ok_alter.
  - intros k sw. rewrite lookup_alter_Some. intros [(-> & s' & Hk & ->)|[_ Hk]]; [|by eapply Hd].
    exact (Hd _ _ Hk).
Qed.

Lemma writer_of_ok event_id tb s w : tables_ok tb → writer_of event_id tb = Some (s, w) → snapshot_ok s.
Proof.
  intros [Hs Hd]. unfold writer_of. destruct (tab_slots tb !! event_id) eqn:E; intros; simplify_eq.
  - by eapply Hs.
  - by eapply (Hd _ (_, _)).
Qed.
End policy.

Create HintDb policy.
#[export] Hint Resolve guarded_tasks guarded_trace guarded_evicted guarded_seen guarded_oversized guarded_readers
  guarded_control guarded_manager guarded_panic guarded_routes guarded_wraps guarded_tokens guarded_net
  guarded_sessions guarded_snapshots guarded_slots guarded_tables g_net g_sessions g_snapshots g_tables
  kind_ok_response kind_ok_notification with_session_ok release_slot_ok flush_release_ok set_writer_ok : policy.

(** ** The handlers *)

Section handlers.
Context `{LruLaws L} `{SerdeJson} `{Sha256} `{NostrLaws}.
Variable config : NostrServerTransportConfig.
Variable chain : list middleware.
Variable supports_explicit_gating : bool.
Variables captured sender_tags : ResponseTagSources.
Variable tags_snapshot : CommonTagsSnapshot.
Variable on_evicted : bool.
Variable snapshot_ttl : Z.
Variable spawn_task : Verification → prog unit.
Implicit Types t : Transport L.

Local Abbreviation guarded := (guarded config).
Local Abbreviation flag_ok := (flag_ok config).
Local Abbreviation mode := (cfg_encryption_mode config).
Local Abbreviation gift_wrap_mode := (cfg_gift_wrap_mode config).

(** A message sent with a flag the mode accepts. *)
Lemma guarded_send t m r ts b kind :
  flag_ok b → kind_ok config b kind → guarded t →
  guarded (with_net t (send_mcp_message mode (t_net t) m r CTXVM_MESSAGES_KIND ts (Some b) kind).1).
Proof. intros. apply guarded_net; [|done]. apply send_policy; eauto with policy. Qed.

Lemma take_latches_encrypted s : is_encrypted (take_latches s).1 = is_encrypted s.
Proof. unfold take_latches, take_payment_interaction_disclosure. repeat case_match; by simplify_eq/=. Qed.

Lemma response_latches_encrypted common s :
  is_encrypted (response_latches common s).1 = is_encrypted s ∧
  (response_latches common s).2.1.1.1 = is_encrypted s.
Proof.
  unfold response_latches, take_pending_server_discovery_tags, take_payment_interaction_disclosure.
  repeat case_match; by simplify_eq/=.
Qed.

Lemma notification_latches_encrypted common s :
  is_encrypted (notification_latches common s).1 = is_encrypted s ∧
  (notification_latches common s).2.1.1 = is_encrypted s.
Proof. unfold notification_latches, take_pending_server_discovery_tags. repeat case_match; by simplify_eq/=. Qed.

Lemma live_tag_sources_guarded t : guarded t → guarded (live_tag_sources t).1.
Proof. intros. unfold live_tag_sources. repeat case_match. eauto with policy. Qed.

Lemma deferred_guarded event_id snapshot response sources t :
  snapshot_ok config snapshot → guarded t →
  guarded (publish_open_stream_deferred_response config event_id snapshot response sources t).1.
Proof.
  intros Hs Ht. unfold publish_open_stream_deferred_response.
  destruct (event_id_from_hex event_id) as [id|]; [|done].
  pose proof (with_session_ok config (rsnap_client_pubkey snapshot) take_latches (t_sessions t)
    take_latches_encrypted (g_sessions _ _ Ht)) as Hss.
  destruct (with_session _ _ _) as [sessions latches]. cbn in Hss.
  destruct (default _ latches) as [send_discovery disclose].
  set (sent := send_mcp_message _ _ _ _ _ _ _ _) in |- *.
  assert (guarded (with_net (with_sessions t sessions) sent.1)) as Hg
    by (apply (guarded_send (with_sessions t sessions)); eauto with policy).
  by destruct sent.
Qed.

Lemma send_deferred_guarded event_id snapshot response t :
  snapshot_ok config snapshot → guarded t →
  guarded (send_open_stream_deferred_response config event_id snapshot response t).1.
Proof.
  intros Hs Ht. unfold send_open_stream_deferred_response. pose proof (live_tag_sources_guarded t Ht).
  destruct (live_tag_sources t). by apply deferred_guarded.
Qed.

Lemma targeted_guarded sources client event_id wrap response t :
  guarded t → guarded (publish_targeted_response config sources client event_id wrap response t).1.
Proof.
  intros Ht. unfold publish_targeted_response. destruct (pubkey_from_hex client) as [pk|]; [|done].
  destruct (event_id_from_hex event_id) as [id|]; [|done].
  set (f := λ s : ClientSession, _).
  pose proof (with_session_ok config client f (t_sessions t)) as Hss.
  pose proof (λ a, with_session_read config client f (t_sessions t) a (g_sessions _ _ Ht)) as Hr.
  destruct (with_session client f (t_sessions t)) as [sessions [[enc [disc disclose]]|]]; [|done]. cbn in Hss, Hr.
  destruct (Hr _ eq_refl) as (s & Hs & Hf).
  assert (enc = is_encrypted s) as -> by (subst f; cbn in Hf; destruct (take_latches s); cbn in Hf; congruence).
  set (sent := send_mcp_message _ _ _ _ _ _ _ _).
  assert (guarded (with_net (with_sessions t sessions) sent.1)) as Hg.
  { apply (guarded_send (with_sessions t sessions)); eauto with policy. apply guarded_sessions; [|done].
    apply Hss; [|eauto with policy]. intros s'. subst f. cbn. pose proof (take_latches_encrypted s').
    by destruct (take_latches s'). }
  by destruct sent.
Qed.

(** *** Responses *)

Lemma publish_frames_policy recipient frames first_tags base_tags b kind net :
  flag_ok b → kind_ok config b kind → Forall (policy config) net →
  Forall (policy config) (publish_frames config recipient first_tags base_tags b kind frames net).1.
Proof.
  intros Hb Hk. revert first_tags net. induction frames as [|f frames IH]; intros first_tags net Hn; cbn; [done|].
  pose proof (send_policy config net (Notification f) recipient first_tags b kind Hb Hk Hn) as Hs.
  destruct (send_mcp_message _ _ _ _ _ _ _ _) as [net' [id|e]]; cbn in *; [by apply IH|done].
Qed.

Lemma oversized_response_policy serialized token recipient base_tags start_tags b kind net :
  flag_ok b → kind_ok config b kind → Forall (policy config) net →
  Forall (policy config)
    (send_oversized_response config serialized token recipient base_tags start_tags b kind net).1.
Proof.
  intros. unfold send_oversized_response. destruct (build_oversized_frames _ _); [|done].
  by apply publish_frames_policy.
Qed.

(** An event prepared for the size check is published as a send would. *)
Lemma execute_plan_policy response serialized token recipient base_tags tags b kind eligible net :
  flag_ok b → kind_ok config b kind → Forall (policy config) net →
  Forall (policy config)
    (execute_plan config (plan_response config response serialized recipient tags b kind eligible net)
       response serialized token recipient base_tags tags b kind net).1.
Proof.
  intros Hb Hk Hn. pose proof (send_policy config net response recipient tags b kind Hb Hk Hn) as Hs.
  assert (Forall (policy config) (execute_plan config Fragment response serialized token recipient base_tags tags
            b kind net).1) as Hf by by apply oversized_response_policy.
  unfold plan_response. destruct (negb eligible).
  { cbn. by destruct (send_mcp_message _ _ _ _ _ _ _ _). }
  destruct (_ <=? _); [done|].
  destruct (prepare_mcp_message _ _ _ _ _ _ _ _) as [[id ev]|] eqn:Ep; [|done].
  destruct (_ <? _); [done|]. apply prepare_send in Ep. rewrite Ep in Hs. cbn in Hs |- *. done.
Qed.

Lemma respond_to_route_guarded now event_id response route t :
  guarded t → guarded (respond_to_route config now event_id response route t).1.
Proof.
  intros Ht. unfold respond_to_route. pose proof (live_tag_sources_guarded t Ht) as Ht1. clear Ht.
  destruct (live_tag_sources t) as [t1 sources]. cbn in Ht1. clear t.
  set (f := response_latches (ts_common sources)). set (client := route_client_pubkey route).
  pose proof (with_session_ok config client f (t_sessions t1)
    (λ s, proj1 (response_latches_encrypted (ts_common sources) s)) (g_sessions _ _ Ht1)) as Hss.
  pose proof (λ a, with_session_read config client f (t_sessions t1) a (g_sessions _ _ Ht1)) as Hr.
  destruct (with_session client f (t_sessions t1)) as [sessions [[[[enc over] disc] disclose]|]]; [|done].
  cbn in Hss, Hr. destruct (Hr _ eq_refl) as (s & Hs & Hf).
  assert (enc = is_encrypted s) as ->.
  { pose proof (proj2 (response_latches_encrypted (ts_common sources) s)) as He.
    subst f. rewrite <- Hf in He. done. }
  assert (guarded (with_sessions t1 sessions)) as Ht2 by eauto with policy.
  destruct (pubkey_from_hex client) as [pk|]; [|done]. destruct (event_id_from_hex event_id) as [id|]; [|done].
  set (sent := execute_plan _ _ _ _ _ _ _ _ _ _ _).
  assert (Forall (policy config) sent.1) as Hsent by (apply execute_plan_policy; eauto with policy).
  destruct sent as [net [u|error]]; cbn in Hsent |- *; [|eauto with policy].
  apply guarded_sessions; [|eauto with policy]. cbn. by apply sessions_get_mut.
Qed.

Lemma send_response_guarded now event_id response t :
  guarded t → guarded (send_response config now event_id response t).1.
Proof.
  intros Ht. unfold send_response, take_payment_route_snapshot.
  pose proof (all_entries_pop _ event_id _ (g_snapshots _ _ Ht)) as Hp.
  pose proof (λ v, all_entries_popped _ event_id v _ (g_snapshots _ _ Ht)) as He.
  destruct (lru_pop event_id (t_snapshots t)) as [snaps entry]. cbn in Hp, He.
  set (d := if sc_enabled _ then _ else _).
  assert (guarded d.1 ∧ match d.2 with SendNow s _ => snapshot_ok config s | _ => True end) as [Hd Hsn].
  { subst d. destruct (sc_enabled _); [|cbn; eauto 7 with policy].
    pose proof (try_defer_ok config event_id response (tables (with_snapshots t snaps)) (g_tables _ _ Ht)) as Htd.
    destruct (try_defer_open_stream_response _ _ _) as [tb df]. destruct Htd. cbn in *. eauto with policy. }
  destruct d as [t1 [|s m|m]]; cbn in Hd, Hsn; [done|by apply send_deferred_guarded|].
  destruct (pop_route event_id (t_routes t1)) as [routes [route|]];
    [apply respond_to_route_guarded; eauto with policy|].
  destruct entry as [entry|]; [|cbn; eauto with policy]. specialize (He _ eq_refl).
  pose proof (send_deferred_guarded event_id (ps_snapshot entry) m (with_event_routes t1 routes) He
    ltac:(eauto with policy)) as Hs.
  destruct (send_open_stream_deferred_response _ _ _ _ _) as [t2 r]. cbn in Hs.
  destruct (is_ok r); [done|]. apply guarded_snapshots; [|done]. apply all_entries_put; eauto with policy.
Qed.

(** *** Notifications *)

Lemma notification_guarded wrap common client eid n t :
  guarded t → guarded (publish_payment_notification config wrap common client eid n t).1.
Proof.
  intros Ht. unfold publish_payment_notification. set (f := notification_latches common).
  pose proof (with_session_ok config client f (t_sessions t)
    (λ s, proj1 (notification_latches_encrypted common s)) (g_sessions _ _ Ht)) as Hss.
  pose proof (λ a, with_session_read config client f (t_sessions t) a (g_sessions _ _ Ht)) as Hr.
  destruct (with_session client f (t_sessions t)) as [sessions [[[enc eph] disc]|]]; [|done].
  cbn in Hss, Hr. destruct (Hr _ eq_refl) as (s & Hs & Hf).
  assert (enc = is_encrypted s) as ->.
  { pose proof (proj2 (notification_latches_encrypted common s)) as He. subst f. rewrite <- Hf in He. done. }
  assert (guarded (with_sessions t sessions)) as Ht2 by eauto with policy.
  destruct (pubkey_from_hex client) as [pk|]; [|done].
  destruct (match eid with Some _ => _ | None => _ end) as [ets|]; [|done].
  set (sent := send_mcp_message _ _ _ _ _ _ _ _).
  assert (guarded (with_net (with_sessions t sessions) sent.1)) as Hg
    by (apply guarded_send; eauto with policy).
  by destruct sent.
Qed.

Lemma send_notification_guarded client n eid t :
  guarded t → guarded (send_notification config client n eid t).1.
Proof.
  intros Ht. unfold send_notification. pose proof (live_tag_sources_guarded t Ht).
  destruct (live_tag_sources t). by apply notification_guarded.
Qed.

Lemma record_snapshot_ok now event_id snapshot expires cache :
  snapshot_ok config snapshot → all_entries (λ e, snapshot_ok config (ps_snapshot e)) cache →
  all_entries (λ e, snapshot_ok config (ps_snapshot e))
    (record_payment_route_snapshot now event_id snapshot expires cache : L PaymentRouteSnapshot).
Proof.
  intros Hs Hc. unfold record_payment_route_snapshot. destruct (lru_contains event_id cache).
  - apply all_entries_iter_mut; [|done]. intros k v Hv. case_match; [|done]. unfold extend_expiry. by case_match.
  - destruct (_ =? _); [|by apply all_entries_put].
    destruct (List.find _ _) as [[key e]|]; [|done]. apply all_entries_put; [done|]. by apply all_entries_pop.
Qed.

Lemma payment_sender_guarded now ttl common client eid wrap n t :
  guarded t → guarded (payment_notification_sender config now ttl common client eid wrap n t).1.
Proof.
  intros Ht. unfold payment_notification_sender. apply notification_guarded. case_match; [|done].
  unfold capture_snapshot, get_session. destruct (get_route eid (t_routes t)) as [route|]; [|done].
  destruct (pubkey_from_hex client) as [pk|]; [|done].
  destruct (lru_peek client (t_sessions t)) as [s|] eqn:Es; [|done]. cbn.
  apply guarded_snapshots; [|done]. apply record_snapshot_ok; [|eauto with policy].
  exact (sessions_peek _ _ _ _ (g_sessions _ _ Ht) Es).
Qed.

(** *** Streams *)

Lemma flush_guarded sources event_id t :
  guarded t → guarded (flush_open_stream_response config sources event_id t).
Proof.
  intros Ht. unfold flush_open_stream_response. pose proof (flush_mark_ok config event_id _ (g_tables _ _ Ht)) as Hf.
  destruct (flush_mark _ _) as [tb [[slot m]|]]; destruct Hf as [Htb Hs]; cbn in Htb; [|eauto with policy].
  apply deferred_guarded; [done|]. apply guarded_tables; eauto with policy.
Qed.

Lemma writer_publishes_guarded event_id sends op t :
  guarded t → guarded (writer_publishes config event_id sends op t).
Proof.
  intros Ht. unfold writer_publishes. destruct (writer_of event_id (tables t)) as [[s w]|] eqn:Ew; [|done].
  pose proof (writer_of_ok config _ _ _ _ (g_tables _ _ Ht) Ew) as Hs.
  destruct (sends w) as [f|]; [|eauto with policy]. unfold send_frame, publish_writer_frame.
  destruct (event_id_from_hex event_id) as [id|]; [|cbn; eauto 7 with policy].
  set (n := Notification _). set (ts := create_response_tags _ _).
  pose proof (send_policy config (t_net t) n (rsnap_client_pubkey s) ts _ _ Hs
    (kind_ok_response config _ (rsnap_mirrored_wrap_kind s)) (g_net _ _ Ht)) as Hn.
  destruct (send_mcp_message _ _ _ _ _ _ _ _) as [net sent]. cbn in Hn |- *. eauto 7 with policy.
Qed.

Lemma writer_abort_guarded event_id reason t :
  guarded t → guarded (writer_abort config captured event_id reason t).
Proof.
  intros. unfold writer_abort. destruct (writer_of _ _) as [[? w]|]; [|done].
  destruct (w_active w); [apply flush_guarded|]; by apply writer_publishes_guarded.
Qed.

Lemma writer_ack_guarded now event_id nonce t : guarded t → guarded (writer_ack_probe now event_id nonce t).
Proof. intros. unfold writer_ack_probe. repeat case_match; eauto with policy. Qed.

Lemma control_frame_guarded f token peer eid b wrap t :
  flag_ok b → guarded t → guarded (publish_open_stream_control_frame config f token peer eid b wrap t).
Proof.
  intros Hb Ht. unfold publish_open_stream_control_frame, next_control_progress.
  destruct (pubkey_from_hex peer) as [pk|]; [|done].
  set (t1 := with_control _ _). assert (guarded t1) as Ht1 by (subst t1; eauto with policy).
  set (sent := send_mcp_message _ _ _ _ _ _ _ _).
  assert (guarded (with_net t1 sent.1)) as Hg by (apply guarded_send; eauto with policy).
  by destruct sent.
Qed.

Lemma feed_reader_guarded now n sender eid b wrap t :
  flag_ok b → guarded t → guarded (feed_open_stream_reader config now n sender eid b wrap t).
Proof.
  intros. unfold feed_open_stream_reader. repeat case_match; try done;
    try apply control_frame_guarded; eauto with policy.
Qed.

Lemma stream_frame_guarded now n sender eid b wrap supports t :
  flag_ok b → guarded t →
  guarded (handle_open_stream_frame config captured now n sender eid b wrap supports t).
Proof.
  intros. unfold handle_open_stream_frame. repeat case_match;
    try apply control_frame_guarded; try apply feed_reader_guarded; try apply writer_publishes_guarded;
    try apply writer_abort_guarded; try apply writer_ack_guarded; done.
Qed.

Lemma sweep_streams_guarded now t :
  guarded t → guarded (sweep_open_stream_sessions config captured on_evicted now t).
Proof.
  intros Ht. unfold sweep_open_stream_sessions. destruct (tick_readers _ _) as [readers actions].
  set (t1 := foldl _ _ actions). assert (guarded t1) as Ht1.
  { apply guarded_foldl; [|eauto with policy]. intros u [[peer token] a] Hu. unfold reader_action.
    repeat case_match; try done; [apply control_frame_guarded; [|done]|by apply writer_abort_guarded].
    intros Hm. by rewrite bool_decide_false by (rewrite Hm; done). }
  assert (slots_ok config (tick_slots now (t_slots t1)).1) as Hsl.
  { intros k s. cbn. rewrite lookup_fmap_Some. intros (s' & <- & Hk). exact (proj1 (g_tables _ _ Ht1) _ _ Hk). }
  destruct (tick_slots _ _) as [m was]. apply guarded_foldl; [|eauto with policy].
  intros u [[eid peer] a] Hu. unfold writer_action. destruct (t_slots u !! eid); [|done].
  destruct a; [done|by apply writer_publishes_guarded|].
  unfold remove_session. destruct (lru_pop peer _) as [ss removed] eqn:Ep.
  pose proof (writer_abort_guarded eid (Some reason) u Hu) as Ha.
  apply guarded_evicted, guarded_sessions; [|done].
  pose proof (sessions_pop _ peer _ (g_sessions _ _ Ha)) as Hp. by rewrite Ep in Hp.
Qed.

(** *** Inbound *)

(** An event that is opened at all carries a flag the mode accepts. *)
Lemma open_event_ok event t :
  guarded t → guarded (open_event config event t).1 ∧
  (is_Some (open_event config event t).2 → flag_ok (is_gift_wrap event)).
Proof.
  intros Ht. unfold open_event, flag_ok. destruct (is_gift_wrap event); cbn.
  - split; [|done]. repeat case_match; simplify_eq/=; eauto with policy.
  - destruct (bool_decide (mode = EncRequired)) eqn:E; b2p; [by split; [|intros []]|].
    split; [|done]. by case_match.
Qed.

Lemma reject_unauthorized_guarded m sender eid b wrap t :
  flag_ok b → guarded t → guarded (reject_unauthorized config tags_snapshot m sender eid b wrap t).
Proof.
  intros Hb Ht. unfold reject_unauthorized. destruct m; try done.
  destruct (pubkey_from_hex sender) as [pk|]; [|done]. case_match; [|done].
  assert (∀ ts ss, sessions_ok config ss →
    guarded (let '(net, _) := send_mcp_message mode (t_net t) (unauthorized_error r) pk CTXVM_MESSAGES_KIND ts
               (Some b) (select_outbound_gift_wrap_kind gift_wrap_mode b wrap) in
             with_net (with_sessions t ss) net)) as Hsend.
  { intros ts ss Hss. set (kind := select_outbound_gift_wrap_kind _ _ _).
    pose proof (guarded_send (with_sessions t ss) (unauthorized_error r) pk ts b kind Hb) as Hg.
    cbn [with_sessions t_net] in Hg. destruct (send_mcp_message _ _ _ _ _ _ _ _).
    apply Hg; subst kind; eauto with policy. }
  destruct (match get_session _ _ with Some _ => _ | None => _ end); apply Hsend; [eauto with policy|].
  apply sessions_get_mut; [done|eauto with policy].
Qed.

Lemma handle_eviction_ok now key evicted sessions ev (routes : RouteStore L) :
  sessions_ok config sessions →
  (∀ k s, evicted = Some (k, s) → session_ok config s) →
  sessions_ok config (handle_eviction now key evicted sessions ev routes).1.
Proof.
  intros Hs He. unfold handle_eviction. destruct evicted as [[k s]|]; [|done].
  destruct (String.eqb k key); [done|]. destruct (has_active_routes_for_client _ _); [|done].
  apply sessions_push; [|done]. exact (He _ _ eq_refl).
Qed.

Lemma ensure_session_guarded now sender b t t' :
  flag_ok b → guarded t → ensure_session on_evicted now sender b t = Some t' → guarded t'.
Proof.
  intros Hb Ht. unfold ensure_session.
  set (p := if lru_contains sender (t_sessions t) then _ else _).
  assert (sessions_ok config p.1) as Hp.
  { subst p. destruct (lru_contains sender (t_sessions t)); [cbn; eauto with policy|].
    pose proof (sessions_push _ sender (ClientSession_new now b) _ Hb (g_sessions _ _ Ht)) as Hpush.
    destruct (lru_push sender _ _) as [ss evicted] eqn:Ep. apply handle_eviction_ok; [done|].
    intros k s ->. apply (f_equal snd) in Ep. cbn in Ep.
    pose proof (push_evicted_entry _ _ _ _ _ Ep) as [Hk _]. exact (proj1 (g_sessions _ _ Ht) _ _ Hk). }
  destruct p as [ss calls]. cbn in Hp. destruct (lru_contains sender ss); [|done].
  intros [= <-]. eauto with policy.
Qed.

(** With room for two sessions the sender's session is there, so that the event
    loop does not panic. *)
Lemma ensure_session_there now sender b t :
  2 ≤ cfg_max_sessions config → guarded t →
  ∃ t' s, ensure_session on_evicted now sender b t = Some t' ∧ lru_peek sender (t_sessions t') = Some s.
Proof.
  intros Hmax Ht. unfold ensure_session.
  set (p := if lru_contains sender (t_sessions t) then _ else _).
  assert (is_Some (entry p.1 sender)) as Hp.
  { subst p. destruct (lru_contains sender (t_sessions t)) eqn:Ec; [by apply lru_contains_entry|].
    assert (entry (t_sessions t) sender = None) as Hn.
    { destruct (entry (t_sessions t) sender) eqn:E; [|done].
      by rewrite (proj2 (lru_contains_entry sender (t_sessions t))) in Ec by eauto. }
    assert (2 ≤ lru_cap (t_sessions t)) as Hcap.
    { rewrite (proj2 (g_sessions _ _ Ht)). unfold nonzero_or_one. case_match; lia. }
    destruct (lru_push sender _ _) as [ss evicted] eqn:Ep.
    destruct (create_evict _ _ _ _ _ Hn Ep) as (Hnew & _ & _ & Hne).
    opose proof* (handle_eviction_spec now sender evicted ss on_evicted (t_routes t)) as Hh; [done| |].
    { intros ek es ->. destruct (Hne ek es eq_refl). split; [done|].
      pose proof (push_evicts_head (t_sessions t) sender (ClientSession_new now b) ek es) as Hh.
      rewrite Ep in Hh. by apply Hh. }
    destruct (handle_eviction _ _ _ _ _ _). destruct Hh as [Hh _]. cbn. eauto. }
  destruct p as [ss calls]. cbn in Hp. rewrite (proj2 (lru_contains_entry _ _) Hp). destruct Hp as [s Hs].
  eexists _, s. split; [done|]. cbn. by rewrite lru_peek_value.
Qed.

Lemma negotiate_encrypted s ts method req supports :
  is_encrypted (negotiate_payment_interaction s ts method req supports).1 = is_encrypted s.
Proof.
  assert (∀ s p n, is_encrypted (apply_effective s p n) = is_encrypted s) as Ha
    by (intros; unfold apply_effective; by repeat case_match).
  unfold negotiate_payment_interaction. repeat case_match; simplify_eq/=; by rewrite ?Ha.
Qed.

Lemma receive_session_ok now b wrap ts m s :
  flag_ok b → session_ok config (receive_session config supports_explicit_gating now b wrap ts m s).1.
Proof.
  intros Hb. unfold receive_session, session_ok. set (s1 := learn_session _ _ _ _ _ _).
  pose proof (negotiate_encrypted s1 ts (msg_method m) (is_request m) supports_explicit_gating) as He.
  destruct (negotiate_payment_interaction _ _ _ _ _). cbn in *. by rewrite He.
Qed.

Lemma dispatch_guarded c m t : guarded t → guarded (dispatch_message chain c m t).
Proof.
  intros Ht. unfold dispatch_message, dispatch_inbound. destruct chain as [|mw rest].
  - apply guarded_tasks. destruct (rx_closed _); by apply (guarded_same _ t).
  - apply guarded_tasks. destruct Ht as [G1 G2 G3 [G4 G5] G6]. split; cbn; try done.
    split; [|done]. by apply slots_ok_alter.
Qed.

Lemma register_request_guarded now c id token wt t :
  flag_ok (ca_encrypted c) → guarded t → guarded (register_request config now c id token wt t).
Proof.
  intros Hb Ht. unfold register_request, create_open_stream_writer.
  destruct wt as [tok|]; [|eauto with policy]. case_match; [|eauto with policy].
  destruct (pubkey_from_hex _) as [pk|]; [|eauto with policy].
  destruct (event_id_from_hex _) as [eid|]; [|eauto with policy].
  case_match; [eauto with policy|]. apply guarded_tokens, guarded_slots; [|eauto with policy].
  apply map_Forall_insert_2; [done|]. exact (proj1 (g_tables _ _ Ht)).
Qed.

Lemma oversized_guarded now n c already t :
  flag_ok (ca_encrypted c) → guarded t → guarded (handle_oversized_frame config chain now n c already t).
Proof.
  intros Hb Ht. unfold handle_oversized_frame.
  set (t1 := match (if _ && _ then _ else _) with Some _ => _ | None => _ end).
  assert (guarded t1) as Ht1.
  { subst t1. case_match; [|done]. unfold emit_accept_frame.
    destruct (pubkey_from_hex (ca_sender c)) as [pk|]; [|done].
    set (sent := send_mcp_message _ _ _ _ _ _ _ _).
    assert (guarded (with_net t sent.1)) as Hg by (apply guarded_send; eauto with policy). by destruct sent. }
  destruct (feed_oversized _ _ _ _ _ _) as [store [[m|]|e]]; [|eauto with policy..].
  apply dispatch_guarded, register_request_guarded; eauto with policy.
Qed.

Lemma process_message_guarded now inner wrap b m t :
  flag_ok b → guarded t →
  guarded (process_message config chain supports_explicit_gating captured on_evicted now inner wrap b m t).
Proof.
  intros Hb Ht. unfold process_message.
  assert (2 ≤ cfg_max_sessions config → ∃ t' s, ensure_session on_evicted now (ev_pubkey inner) b t = Some t' ∧
    lru_peek (ev_pubkey inner) (t_sessions t') = Some s) as Hthere by (intros; by apply ensure_session_there).
  destruct (ensure_session _ _ _ _ _) as [t1|] eqn:He.
  2: { apply guarded_panic; [|done]. apply Z.nle_gt. intros Hm. by destruct (Hthere Hm) as (? & ? & ? & _). }
  pose proof (ensure_session_guarded _ _ _ _ _ Hb Ht He) as Ht1. unfold with_session.
  destruct (lru_peek _ _) as [s|] eqn:Epk.
  2: { apply guarded_panic; [|done]. apply Z.nle_gt. intros Hm. destruct (Hthere Hm) as (? & ? & ? & ?). congruence. } set (f := receive_session _ _ _ _ _ _ _).
  set (t2 := with_sessions t1 _). assert (guarded t2) as Ht2.
  { apply guarded_sessions; [|done]. apply sessions_get_mut; [|eauto with policy].
    intros v _. by apply receive_session_ok. }
  clearbody t2. destruct (rc_negotiation _).
  2: { unfold reject_unsupported. destruct (pubkey_from_hex _) as [pk|]; [|done].
       set (sent := send_mcp_message _ _ _ _ _ _ _ _).
       assert (guarded (with_net t2 sent.1)) as Hg by (apply guarded_send; eauto with policy). by destruct sent. }
  destruct m as [req|r|r|n]; try (by apply dispatch_guarded).
  - apply dispatch_guarded, register_request_guarded; [done|]. apply guarded_sessions; [|done].
    apply sessions_get_mut; [|eauto with policy]. intros v. unfold note_request. by case_match.
  - destruct (_ && is_oversized_frame n); [by apply oversized_guarded|].
    destruct (_ && Receiver.is_open_stream_frame n); [by apply stream_frame_guarded|].
    apply dispatch_guarded. case_match; [|done]. apply guarded_sessions; [|done].
    apply sessions_get_mut; [done|eauto with policy].
Qed.

Lemma handle_event_guarded now event t :
  guarded t →
  guarded (handle_event config chain supports_explicit_gating captured tags_snapshot on_evicted now event t).
Proof.
  intros Ht. unfold handle_event. destruct (negb (t_alive t)); [done|].
  destruct (open_event_ok event t Ht) as [Ho Hf]. destruct (open_event config event t) as [t1 [inner|]]; [|done].
  specialize (Hf ltac:(eauto)). cbn in Ho. destruct (validate_and_parse _) as [m|]; [|done].
  destruct (authorized _ _ _ _); [by apply process_message_guarded|by apply reject_unauthorized_guarded].
Qed.

Lemma cleanup_tick_guarded now t : guarded t → guarded (cleanup_tick config now t).
Proof.
  intros Ht. unfold cleanup_tick, cleanup_sessions. destruct (sweep_stale_routes _ _ _) as [routes swept].
  apply guarded_snapshots; [apply all_entries_pops; cbn; eauto with policy|].
  apply guarded_wraps, guarded_routes, guarded_routes, guarded_wraps, guarded_sessions; [|done].
  apply sessions_pops. eauto with policy.
Qed.

(** *** The inbound chains *)

Lemma exec_slots_ok env (w w' : World L) c a :
  slots_ok config (slots w) → exec env w c = Some (w', a) → slots_ok config (slots w').
Proof.
  intros Hs He. destruct c; cbn in He; repeat case_match; simplify_eq/=; try done.
  - by apply slots_ok_alter.
  - unfold leave_chain in *. repeat case_match; simplify_eq/=; [by apply map_Forall_delete| |done].
    apply map_Forall_insert_2; [|done].
    match goal with Hl : slots w !! _ = Some _ |- _ => exact (Hs _ _ Hl) end.
Qed.

Lemma task_step_guarded i env t :
  guarded t → guarded (task_step config sender_tags snapshot_ttl spawn_task i env t).
Proof.
  intros Ht. unfold task_step. destruct (t_tasks t !! i) as [[| |c k]|]; try done.
  assert (∀ w a, exec env (t_world t) c = Some (w, a) → guarded (with_world t w)) as Hworld.
  { intros w a He. destruct Ht as [G1 G2 G3 [G4 G5] G6]. split; [done..| |done]. split; [|done].
    exact (exec_slots_ok env _ _ _ a G4 He). }
  destruct c; cbn [exec_command];
    try (destruct (exec _ _ _) as [[w a]|] eqn:He; [|done]; eauto with policy).
  - pose proof (targeted_guarded sender_tags client_pubkey event_id (mirrored_wrap_kind event_id t) message t Ht) as Hg.
    unfold targeted_response_sender. destruct (publish_targeted_response _ _ _ _ _ _ _). eauto with policy.
  - pose proof (payment_sender_guarded (env Now) snapshot_ttl (ts_common sender_tags) client_pubkey event_id
      wrap_kind message t Ht) as Hg.
    destruct (payment_notification_sender _ _ _ _ _ _ _ _ _). eauto with policy.
Qed.

Lemma transport_step_guarded t a :
  guarded t →
  guarded (transport_step config chain supports_explicit_gating captured tags_snapshot on_evicted sender_tags
             snapshot_ttl spawn_task t a).
Proof.
  intros Ht. destruct a; cbn [transport_step].
  - by apply handle_event_guarded.
  - eauto with policy.
  - by apply sweep_streams_guarded.
  - by apply cleanup_tick_guarded.
  - by apply send_response_guarded.
  - unfold send_targeted_response. pose proof (live_tag_sources_guarded t Ht).
    destruct (live_tag_sources t) as [t1 sources]. by apply targeted_guarded.
  - by apply send_notification_guarded.
  - apply guarded_foldl; [|done]. intros. by apply send_notification_guarded.
  - by apply writer_publishes_guarded.
  - unfold tool_write. assert (guarded (tool_start config now event_id t)) by by apply writer_publishes_guarded.
    case_match; [by apply writer_publishes_guarded|done].
  - unfold tool_close. assert (guarded (tool_start config now event_id t)) by by apply writer_publishes_guarded.
    case_match; [by apply flush_guarded, writer_publishes_guarded|done].
  - by apply writer_abort_guarded.
  - by apply task_step_guarded.
  - eauto with policy.
  - eauto with policy.
  - by apply (guarded_same _ t).
Qed.

Lemma transport_new_guarded max_entries max_pending :
  0 ≤ cfg_max_sessions config → guarded (transport_new config max_entries max_pending).
Proof.
  intros Hmax. split; cbn; [constructor| |apply all_entries_new|split; apply map_Forall_empty|done].
  split; [apply all_entries_new|]. apply lru_new_cap. unfold nonzero_or_one. case_match; b2p; lia.
Qed.

Lemma transport_run_guarded t actions :
  guarded t →
  guarded (transport_run config chain supports_explicit_gating captured tags_snapshot on_evicted sender_tags
             snapshot_ttl spawn_task t actions).
Proof.
  revert t. induction actions as [|a actions IH]; intros t Ht; [done|]. by apply IH, transport_step_guarded.
Qed.
End handlers.

(** ** The theorem *)

(** (C4) Every message a running server publishes to a client obeys the
    configured encryption policy, in every interleaving of received events,
    worker responses, tool streams, payment chains and sweeps and for every
    answer of the relays: with encryption required it is an event of a gift-wrap
    kind the gift-wrap mode allows whose content is encrypted to the recipient,
    with encryption disabled it is a plain message, and with optional encryption
    it is one of the two. *)
Theorem encryption_policy_enforced `{LruLaws L} `{SerdeJson} `{Sha256} `{NostrLaws}
    config chain gating captured sender_tags tags_snapshot on_evicted ttl spawn max_entries max_pending
    (actions : list transport_action) (o : Outbound) :
  0 ≤ cfg_max_sessions config →
  o ∈ t_net (transport_run config chain gating captured tags_snapshot on_evicted sender_tags ttl spawn
               (transport_new config max_entries max_pending : Transport L) actions) →
  let sealed := allows_kind (cfg_gift_wrap_mode config) (ev_kind (ob_event o)) = true ∧
                ∃ n text, encrypt_nip44 n (ob_recipient o) text = Ok (ev_content (ob_event o)) in
  let plain := ev_kind (ob_event o) = CTXVM_MESSAGES_KIND in
  match cfg_encryption_mode config with
  | EncRequired => sealed
  | EncDisabled => plain
  | EncOptional => sealed ∨ plain
  end.
Proof.
  intros Hmax Ho. cbv zeta.
  pose proof (transport_run_guarded config chain gating captured sender_tags tags_snapshot on_evicted ttl spawn
    _ actions (transport_new_guarded (L := L) config max_entries max_pending Hmax)) as Ht.
  pose proof (proj1 (Forall_forall _ _) (g_net _ _ Ht) o Ho) as Hp. unfold policy in Hp.
  destruct (cfg_encryption_mode config); naive_solver.
Qed.

(** (C17) A server with room for at least two sessions never loses its event loop:
    no sequence of events, responses, streams, chains and sweeps makes the session
    of a sender disappear between its creation and its use, where the loop
    unwraps. *)
Theorem event_loop_survives `{LruLaws L} `{SerdeJson} `{Sha256} `{NostrLaws}
    config chain gating captured sender_tags tags_snapshot on_evicted ttl spawn max_entries max_pending
    (actions : list transport_action) :
  2 ≤ cfg_max_sessions config →
  t_alive (transport_run config chain gating captured tags_snapshot on_evicted sender_tags ttl spawn
             (transport_new config max_entries max_pending : Transport L) actions) = true.
Proof.
  intros Hmax. assert (0 ≤ cfg_max_sessions config) as H0' by lia.
  exact (g_alive _ _ (transport_run_guarded config chain gating captured sender_tags tags_snapshot on_evicted ttl
    spawn _ actions (transport_new_guarded (L := L) config max_entries max_pending H0')) Hmax).
Qed.

(** A server that requires encryption answers a call made through an ephemeral
    gift wrap. *)
Definition config_with (mode : EncryptionMode) (max_sessions : Z) : NostrServerTransportConfig :=
  let c := NostrServerTransportConfig_default in
  mkServerConfig (cfg_relay_urls c) mode (cfg_gift_wrap_mode c) (cfg_server_info c) (cfg_is_announced_server c)
    (cfg_allowed_public_keys c) (cfg_excluded_capabilities c) max_sessions (cfg_cleanup_interval c)
    (cfg_session_timeout c) (cfg_request_timeout c) (cfg_relay_list_urls c) (cfg_bootstrap_relay_urls c)
    (cfg_publish_relay_list c) (cfg_profile_metadata c) (cfg_oversized_transfer c) (cfg_open_stream c).

Abbreviation demo_server rejects config acts :=
  (@transport_run list_cache _ bits_serde id_sha256 (demo_nostr rejects) config [] false demo_tags demo_snapshot
     false demo_tags 0 (λ _, Ret tt) (transport_new config 10 10) acts).

Definition sealed_call : list transport_action :=
  [Receive 1 (demo_wrap "wrap-a" EPHEMERAL_GIFT_WRAP_KIND (demo_event "event-a" "alice" [] demo_request));
   SendResponse 2 "event-a" demo_response].

Lemma encryption_policy_enforced_witness :
  let net := t_net (demo_server (λ _, false) (config_with EncRequired 5) sealed_call) in
  map (λ o, ev_kind (ob_event o)) net = [EPHEMERAL_GIFT_WRAP_KIND] ∧
  Forall (λ o, allows_kind GwOptional (ev_kind (ob_event o)) = true) net.
Proof.
  split; [by vm_compute|]. apply Forall_forall. intros o Ho.
  apply (@encryption_policy_enforced list_cache _ _ bits_serde id_sha256 (demo_nostr (λ _, false)) _
    (config_with EncRequired 5) [] false demo_tags demo_tags demo_snapshot false 0 (λ _, Ret tt) 10 10
    sealed_call o); [|done]. cbn. lia.
Defined.

(** Three clients on a server with room for two, each with a request in flight. *)
Definition crowd : list transport_action :=
  [Receive 1 (demo_event "event-a" "alice" [] demo_request); Receive 2 (demo_event "event-b" "bobby" [] demo_request);
   Receive 3 (demo_event "event-c" "carol" [] demo_request)].

Lemma event_loop_survives_witness :
  let t := demo_server (λ _, false) (config_with EncOptional 2) crowd in
  t_alive t = true ∧ length (incoming (t_world t)) = 3%nat.
Proof.
  split; [|by vm_compute].
  apply (@event_loop_survives list_cache _ _ bits_serde id_sha256 (demo_nostr (λ _, false)) _
    (config_with EncOptional 2) [] false demo_tags demo_tags demo_snapshot false 0 (λ _, Ret tt) 10 10 crowd).
  cbn. lia.
Defined.

(** With room for one session only, the event loop of the server dies when a
    second client writes while the first has a request in flight: the eviction of
    the first is vetoed, its session is pushed back in place of the new one, and
    the session the loop then unwraps is gone. *)
Theorem single_session_server_dies :
  let t := demo_server (λ _, false) (config_with EncOptional 1) (take 2 crowd) in
  t_alive t = false ∧ length (incoming (t_world t)) = 1%nat.
Proof. by vm_compute. Qed.
