(* ===== verification/ServerResponses.v ===== *)
(** * The responses of the server transport

    What [send_response] guarantees to the client that made the request, to a
    worker that has to try again after a relay failure, and to a client that has
    paid. *)

From S2P Require Import Prelude Json CoreTypes OversizedFrame OversizedCodec Instances OversizedReceiver OversizedProofs Lru Authorization RouteStore SessionStore OpenStreamFrame OpenStreamSession OpenStreamRegistry OpenStreamWriter PaymentTypes ServerTasks ServerPaymentsProofs BaseTransport Announcements ServerNegotiation ServerState ServerOutbound ServerStreams ServerInbound ServerRefinement ServerDeferral ServerPolicy.

(** ** A reading client *)

Section reader.
Context `{SerdeJson} `{Sha256}.

(** The messages a client surfaces from what it receives: frames of an oversized
    transfer go through its reassembler, anything else surfaces as it is. *)
Fixpoint client_reads (now : Z) (r : OversizedTransferReceiver) (ms : list JsonRpcMessage)
  : OversizedTransferReceiver * list JsonRpcMessage :=
  match ms with
  | [] => (r, [])
  | m :: rest =>
      let '(r1, out) :=
        match m with
        | Notification n =>
            if is_oversized_frame n then
              match process_frame now r n with
              | (r1, Ok (Some m')) => (r1, [m'])
              | (r1, _) => (r1, [])
              end
            else (r, [m])
        | _ => (r, [m])
        end in
      let '(r2, out2) := client_reads now r1 rest in (r2, out ++ out2)
  end.

Definition surfaced (o : outcome) : option JsonRpcMessage := match o with Ok (Some m) => Some m | _ => None end.

Lemma surfaced_none n : omap surfaced (replicate n (Ok None)) = [].
Proof. by induction n. Qed.

Lemma client_reads_frames now ns r :
  Forall (λ n, is_oversized_frame n = true) ns →
  client_reads now r (map Notification ns) =
  (let '(r', os) := process_frames r (map (pair now) ns) in (r', omap surfaced os)).
Proof.
  intros Hns. revert r. induction Hns as [|n ns Hn _ IH]; intros r; cbn; [done|]. rewrite Hn.
  destruct (process_frame now r n) as [r1 o].
  destruct o as [[m|]|e]; rewrite IH; by destruct (process_frames r1 (map (pair now) ns)) as [r2 os].
Qed.

Lemma progress_notification_is_frame f token progress message :
  is_oversized_frame (OversizedFrame.into_progress_notification f token progress message) = true.
Proof.
  destruct (OversizedFrame.notification_params f token progress message) as (params & E & Hcvm & _).
  unfold is_oversized_frame. rewrite E. cbn [mbind option_bind get]. rewrite Hcvm.
  unfold OversizedFrame.is_frame_value.
  rewrite OversizedFrame.get_cvm_type, OversizedFrame.get_cvm_field by done. done.
Qed.

Lemma built_frames_are_frames serialized o b :
  build_oversized_frames serialized o = Ok b → Forall (λ n, is_oversized_frame n = true) (into_ordered b).
Proof.
  intros (cs & _ & ->)%build_inv. unfold into_ordered. cbn.
  constructor; [apply progress_notification_is_frame|]. apply Forall_app. split.
  - apply Forall_forall. intros x (i & c & -> & _)%elem_of_lookup_imap_1. apply progress_notification_is_frame.
  - apply Forall_singleton, progress_notification_is_frame.
Qed.
End reader.

(** A client's reassembler has room for a message of [n] published events under
    the token [token]. *)
Record admits (r : OversizedTransferReceiver) (token : option string) (serialized : string) (n : nat) : Prop := {
  ad_token : ∀ tok, token = Some tok → tok ≠ "" ∧ transfers r !! tok = None;
  ad_bytes : str_len serialized ≤ max_transfer_bytes (r_policy r);
  ad_chunks : Z.of_nat n ≤ max_transfer_chunks (r_policy r) + 2;
  ad_room : active_transfer_count r < max_concurrent_transfers (r_policy r);
  ad_window : 0 ≤ max_out_of_order_window (r_policy r);
  ad_width : str_len serialized + 4 < u64_modulus;
}.

Section fragments.
Context `{SerdeJson} `{Sha256} `{!SerdeJsonLaws}.

(** A fragmented message comes together again. *)
Lemma client_reads_built now r m tok size b :
  let serialized := to_string (message_to_value m) in
  message_ok m = true → (json_depth (message_to_value m) <= RECURSION_LIMIT)%nat →
  build_oversized_frames serialized (with_chunk_size (OversizedSenderOptions_new tok) size) = Ok b →
  admits r (Some tok) serialized (length (into_ordered b)) →
  client_reads now r (map Notification (into_ordered b)) = (r, [m]).
Proof.
  intros serialized Hm Hd Hb [Ht Hbytes Hch Hroom Hwin Hu].
  destruct (Ht tok eq_refl) as [Hne Hfresh].
  rewrite client_reads_frames by by eapply built_frames_are_frames.
  set (o := with_chunk_size _ _) in *. destruct (build_inv _ _ _ Hb) as (cs & Hcs & Hbuilt).
  assert (length (built_chunks b) = length cs) as Hlen by (rewrite Hbuilt; cbn; by rewrite length_imap).
  assert (Z.of_nat (length cs) ≤ max_transfer_chunks (r_policy r)) as Hch'.
  { unfold into_ordered in Hch. rewrite !length_app in Hch. cbn in Hch. lia. }
  pose proof (in_order serialized o b r cs now now Hcs Hb Hne Hfresh Hbytes Hch' Hroom Hwin Hu
    (replicate (length cs) now) now) as Hio.
  rewrite length_replicate in Hio. specialize (Hio eq_refl).
  assert (map (pair now) (into_ordered b) =
    ((now, built_start b) :: handshake_frames o now) ++
      zip (replicate (length cs) now) (built_chunks b) ++ [(now, built_end b)]) as ->.
  { unfold into_ordered. rewrite !map_app. cbn. do 2 f_equal. rewrite <- Hlen.
    clear. induction (built_chunks b) as [|c l IH]; cbn; [done|]. by rewrite IH. }
  rewrite Hio. cbn [length handshake_frames].
  unfold validate_and_parse_oversized. rewrite (proj2 (Z.ltb_ge _ _)) by done.
  unfold serialized. rewrite parse_message_text by done.
  by rewrite omap_app, surfaced_none.
Qed.
End fragments.

(** ** What a successful send publishes *)

Section sent.
Context `{SerdeJson} `{Sha256} `{Nostr}.
Variable config : NostrServerTransportConfig.
Implicit Types net : Net.

Local Abbreviation mode := (cfg_encryption_mode config).

(** An accepted event for [recipient], about the request [eid], that carries the
    logged message. *)
Record delivered_to (recipient eid : string) (o : Outbound) : Prop := {
  dl_recipient : ob_recipient o = recipient;
  dl_accepted : ob_ok o = true;
  dl_about : get_tag_value (ob_tags o) "e" = Some eid;
  dl_event : ∃ net id is_encrypted gift_wrap_kind,
    prepare_mcp_message mode net (ob_message o) recipient CTXVM_MESSAGES_KIND (ob_tags o)
      is_encrypted gift_wrap_kind = Ok (id, ob_event o) ∧
    ob_wrapped o = wrapped_kind mode CTXVM_MESSAGES_KIND is_encrypted gift_wrap_kind;
}.

Lemma publish_logged_sent eid net m r ts enc gw id ev net' :
  get_tag_value ts "e" = Some eid →
  prepare_mcp_message mode net m r CTXVM_MESSAGES_KIND ts enc gw = Ok (id, ev) →
  publish_logged net m r ts (wrapped_kind mode CTXVM_MESSAGES_KIND enc gw) ev = (net', Ok tt) →
  ∃ o, net' = net ++ [o] ∧ ob_message o = m ∧ delivered_to r eid o.
Proof.
  intros Hts Hp. unfold publish_logged. destruct (pool_publish_event _ _); cbn; [|done]. intros [= <-].
  eexists. split_and!; [done|done|]. split; [done|done|done|]. cbn. eauto 10.
Qed.

Lemma send_mcp_message_sent eid net m r ts enc gw net' id :
  get_tag_value ts "e" = Some eid →
  send_mcp_message mode net m r CTXVM_MESSAGES_KIND ts enc gw = (net', Ok id) →
  ∃ o, net' = net ++ [o] ∧ ob_message o = m ∧ delivered_to r eid o.
Proof.
  intros Hts Hs. destruct (prepare_mcp_message mode net m r CTXVM_MESSAGES_KIND ts enc gw) as [[id' ev]|e] eqn:Ep.
  - rewrite (prepare_send _ _ _ _ _ _ _ _ _ _ Ep) in Hs.
    destruct (publish_logged _ _ _ _ _ _) as [net1 [[]|e]] eqn:El; [|done]. injection Hs as -> _.
    by eapply publish_logged_sent.
  - revert Ep Hs. unfold prepare_mcp_message, send_mcp_message.
    destruct (create_signed_event _ _ _ _); cbn; [|done]. destruct (should_encrypt _ _ _); [|done].
    by destruct (wrap_event _ _ _ _).
Qed.

Lemma publish_frames_sent recipient eid frames first_tags base_tags b kind net net' :
  get_tag_value first_tags "e" = Some eid → get_tag_value base_tags "e" = Some eid →
  publish_frames config recipient first_tags base_tags b kind frames net = (net', Ok tt) →
  ∃ sent, net' = net ++ sent ∧ map ob_message sent = map Notification frames ∧
    Forall (delivered_to recipient eid) sent.
Proof.
  intros Hf Hb. revert first_tags net Hf. induction frames as [|f frames IH]; intros first_tags net Hf; cbn.
  { intros [= <-]. exists []. by rewrite app_nil_r. }
  destruct (send_mcp_message _ _ _ _ _ _ _ _) as [net1 [id|e]] eqn:Es; [|done].
  eapply send_mcp_message_sent in Es as (o & -> & Hm & Hd); [|done]. intros (sent & -> & Hms & Hds)%IH; [|done].
  exists (o :: sent). rewrite <- app_assoc. cbn. rewrite Hm, Hms. split_and!; [done|done|by constructor].
Qed.

(** Either one event with the message, or the frames of the message. *)
Lemma execute_plan_sent eid response serialized token recipient base_tags tags b kind eligible net net' :
  get_tag_value tags "e" = Some eid → get_tag_value base_tags "e" = Some eid →
  (eligible = true → is_Some token) →
  execute_plan config (plan_response config response serialized recipient tags b kind eligible net)
    response serialized token recipient base_tags tags b kind net = (net', Ok tt) →
  ∃ sent, net' = net ++ sent ∧ Forall (delivered_to recipient eid) sent ∧
    (map ob_message sent = [response] ∨
     ∃ tok size built, token = Some tok ∧
       build_oversized_frames serialized (with_chunk_size (OversizedSenderOptions_new tok) size) = Ok built ∧
       map ob_message sent = map Notification (into_ordered built)).
Proof.
  intros Hts Hbs Htok. unfold plan_response. destruct eligible; cbn [negb].
  2: { cbn. destruct (send_mcp_message _ _ _ _ _ _ _ _) as [net1 [id|e]] eqn:Es; [|done].
       intros [= <-]. eapply send_mcp_message_sent in Es as (o & -> & <- & Hd); [|done].
       exists [o]. split_and!; [done|by apply Forall_singleton|by left]. }
  destruct (Htok eq_refl) as [tok ->].
  assert (∀ net', execute_plan config Fragment response serialized (Some tok) recipient base_tags tags b kind net =
      (net', Ok tt) →
    ∃ sent, net' = net ++ sent ∧ Forall (delivered_to recipient eid) sent ∧
      (map ob_message sent = [response] ∨ ∃ tok' size built, Some tok = Some tok' ∧
        build_oversized_frames serialized (with_chunk_size (OversizedSenderOptions_new tok') size) = Ok built ∧
        map ob_message sent = map Notification (into_ordered built))) as Hf.
  { intros net1. cbn. unfold send_oversized_response.
    destruct (build_oversized_frames _ _) as [built|] eqn:Eb; [|done].
    intros (sent & -> & Hm & Hd)%(publish_frames_sent _ eid); [|done..]. exists sent. eauto 10. }
  destruct (_ <=? _); [by apply Hf|].
  destruct (prepare_mcp_message _ _ _ _ _ _ _ _) as [[id ev]|] eqn:Ep; [|by apply Hf].
  destruct (_ <? _); [by apply Hf|]. cbn. intros (o & -> & <- & Hd)%(publish_logged_sent eid _ _ _ _ _ _ id); [|done..].
  exists [o]. split_and!; [done|by apply Forall_singleton|by left].
Qed.
End sent.

(** ** The contract of [send_response] *)

Section responses.
Context `{LruLaws L} `{SerdeJson} `{Sha256} `{Nostr}.
Variable config : NostrServerTransportConfig.
Implicit Types t : Transport L.

(** The plain path: no stream holds the request. *)
Lemma send_response_plain now event_id response t :
  t_slots t !! event_id = None →
  send_response config now event_id response t =
  (let t1 := with_snapshots t (lru_pop event_id (t_snapshots t)).1 in
   let t2 := with_event_routes t1 (remove_route event_id (t_routes t)).1 in
   match entry (routes (t_routes t)) event_id with
   | Some route => respond_to_route config now event_id response route t2
   | None =>
       match entry (t_snapshots t) event_id with
       | Some ent =>
           let '(t', res) := send_open_stream_deferred_response config event_id (ps_snapshot ent) response t2 in
           if is_ok res then (t', res)
           else (with_snapshots t' (reinsert_payment_route_snapshot event_id ent (t_snapshots t')), res)
       | None => (t2, Err (EOther ("No client found for event " +:+ event_id)))
       end
   end).
Proof.
  intros Hslot. unfold send_response, take_payment_route_snapshot. rewrite (lru_pop_eta event_id (t_snapshots t)).
  set (t1 := with_snapshots t _).
  assert (∃ t1', (if sc_enabled (cfg_open_stream config)
     then let '(tb, d) := try_defer_open_stream_response event_id response (tables t1) in (with_tables t1 tb, d)
     else (t1, Passthrough response)) = (t1', Passthrough response) ∧ t1' = t1) as (t1' & -> & ->).
  { destruct (sc_enabled _); [|by eexists]. unfold try_defer_open_stream_response.
    change (tab_slots (tables t1)) with (t_slots t). rewrite Hslot. eexists. split; [done|]. subst t1. by destruct t as [[]]. }
  unfold pop_route. pose proof (remove_route_result event_id (t_routes t)) as Hr. cbn zeta.
  change (t_routes t1) with (t_routes t).
  destruct (remove_route event_id (t_routes t)) as [rs popped]. cbn in Hr. by rewrite Hr.
Qed.

(** Once the route and the snapshot are gone, nothing is sent. *)
Lemma send_response_unknown now event_id response t :
  t_slots t !! event_id = None → entry (routes (t_routes t)) event_id = None →
  entry (t_snapshots t) event_id = None →
  (send_response config now event_id response t).2 = Err (EOther ("No client found for event " +:+ event_id)) ∧
  t_net (send_response config now event_id response t).1 = t_net t.
Proof. intros Hs Hr Hp. rewrite send_response_plain by done. cbv zeta. by rewrite Hr, Hp. Qed.

Lemma live_tag_sources_frame t :
  t_net (live_tag_sources t).1 = t_net t ∧ t_world (live_tag_sources t).1 = t_world t ∧
  t_sessions (live_tag_sources t).1 = t_sessions t ∧ t_snapshots (live_tag_sources t).1 = t_snapshots t.
Proof. unfold live_tag_sources. by destruct (Manager.get_common_tags _). Qed.

Lemma with_session_found {A} key (f : ClientSession → ClientSession * A) (sessions : L ClientSession) :
  (with_session key f sessions).2 = (λ s, (f s).2) <$> entry sessions key.
Proof. unfold with_session. rewrite lru_peek_value. unfold entry. by destruct (al_get key (lru_iter sessions)). Qed.

(** A response names its request first. *)
Lemma response_tags_about pk eid discovery disclose pricing response :
  get_tag_value (compose_response_tags (create_response_tags pk eid) discovery disclose pricing response) "e" = Some eid.
Proof.
  unfold compose_response_tags, compose_outbound_tags.
  destruct disclose as [mode|]; [destruct (existsb _ _)|];
    (destruct response; [|destruct (is_capability_list_result _)|..]); done.
Qed.

(** What the plain path leaves, by its outcome. *)
Lemma respond_to_route_spec now event_id response route t :
  is_Some (entry (t_sessions t) (route_client_pubkey route)) →
  ∀ client_pk eid, pubkey_from_hex (route_client_pubkey route) = Ok client_pk → event_id_from_hex event_id = Ok eid →
  let m := restore_id (original_request_id route) response in
  let '(t', res) := respond_to_route config now event_id response route t in
  t_slots t' = t_slots t ∧ t_snapshots t' = t_snapshots t ∧
  match res with
  | Ok _ =>
      t_routes t' = t_routes t ∧ t_wraps t' = delete event_id (t_wraps t) ∧
      ∃ sent, t_net t' = t_net t ++ sent ∧ Forall (delivered_to config client_pk eid) sent ∧
        (map ob_message sent = [m] ∨
         ∃ tok size built, route_progress_token route = Some tok ∧
           build_oversized_frames (to_string (message_to_value m))
             (with_chunk_size (OversizedSenderOptions_new tok) size) = Ok built ∧
           map ob_message sent = map Notification (into_ordered built))
  | Err _ =>
      t_routes t' = register now event_id (route_client_pubkey route) (original_request_id route)
                      (route_progress_token route) (t_routes t) ∧
      t_wraps t' = t_wraps t
  end.
Proof.
  intros [s Hs] pk eid Hpk Heid m. unfold respond_to_route.
  destruct (live_tag_sources_frame t) as (Hn & Hw & Hss & Hsn).
  destruct (live_tag_sources t) as [t1 sources]. cbn in Hn, Hw, Hss, Hsn.
  pose proof (with_session_found (route_client_pubkey route) (response_latches (ts_common sources)) (t_sessions t1)) as Hf.
  rewrite Hss, Hs in Hf. rewrite Hss.
  destruct (with_session _ _ _) as [sessions [[[[enc over] disc] disclose]|]]; [|done]. clear Hf.
  rewrite Hpk, Heid. fold m. change (t_net (with_sessions t1 sessions)) with (t_net t1).
  set (elig := _ && _ && over). set (tags := compose_response_tags _ _ _ _ _). set (kind := select_outbound_gift_wrap_kind _ _ _).
  pose proof (execute_plan_sent config eid m (to_string (message_to_value m)) (route_progress_token route) pk
    (create_response_tags pk eid) tags enc kind elig (t_net t1)) as Hx.
  destruct (execute_plan _ _ _ _ _ _ _ _ _ _ _) as [net [[]|error]].
  - specialize (Hx net). destruct Hx as (sent & -> & Hd & Hms); [apply response_tags_about|done| |done|].
    { subst elig. intros. by b2p. }
    unfold t_slots, t_wraps, t_routes. cbn. rewrite Hw, Hsn, Hn. split_and!; [done..|]. eauto.
  - unfold t_slots, t_wraps, t_routes. cbn. by rewrite Hw, Hsn.
Qed.

(** A deferred response: one event to the client of the snapshot, or none. *)
Lemma deferred_spec event_id eid snapshot response sources t :
  event_id_from_hex event_id = Ok eid →
  let '(t', res) := publish_open_stream_deferred_response config event_id snapshot response sources t in
  t_world t' = t_world t ∧ t_snapshots t' = t_snapshots t ∧
  (is_ok res = true → ∃ o, t_net t' = t_net t ++ [o] ∧ delivered_to config (rsnap_client_pubkey snapshot) eid o ∧
     ob_message o = restore_id (rsnap_original_request_id snapshot) response).
Proof.
  intros He. unfold publish_open_stream_deferred_response. rewrite He.
  destruct (with_session _ _ _) as [sessions latches]. destruct (default _ latches) as [disc disclose].
  destruct (send_mcp_message _ _ _ _ _ _ _ _) as [net [id|e]] eqn:Es; cbn; [|done].
  eapply send_mcp_message_sent in Es as (o & -> & Hm & Hd); [|apply response_tags_about]. split_and!; [done..|]. eauto.
Qed.

Lemma send_deferred_spec event_id eid snapshot response t :
  event_id_from_hex event_id = Ok eid →
  let '(t', res) := send_open_stream_deferred_response config event_id snapshot response t in
  t_world t' = t_world t ∧ t_snapshots t' = t_snapshots t ∧
  (is_ok res = true → ∃ o, t_net t' = t_net t ++ [o] ∧ delivered_to config (rsnap_client_pubkey snapshot) eid o ∧
     ob_message o = restore_id (rsnap_original_request_id snapshot) response).
Proof.
  intros He. unfold send_open_stream_deferred_response. destruct (live_tag_sources_frame t) as (Hn & Hw & _ & Hsn).
  destruct (live_tag_sources t) as [t1 sources]. cbn in Hn, Hw, Hsn.
  pose proof (deferred_spec event_id eid snapshot response sources t1 He) as Hd.
  destruct (publish_open_stream_deferred_response _ _ _ _ _ _). by rewrite Hw, Hsn, Hn in Hd.
Qed.
End responses.

(** What a successful [send_response] for a live route publishes. *)
Lemma send_response_sent `{LruLaws L} `{SerdeJson} `{Sha256} `{Nostr} config now
    event_id response route (t t' : Transport L) client_pk eid :
  t_slots t !! event_id = None → entry (routes (t_routes t)) event_id = Some route →
  is_Some (entry (t_sessions t) (route_client_pubkey route)) →
  pubkey_from_hex (route_client_pubkey route) = Ok client_pk → event_id_from_hex event_id = Ok eid →
  send_response config now event_id response t = (t', Ok tt) →
  let m := restore_id (original_request_id route) response in
  (∃ sent, t_net t' = t_net t ++ sent ∧ Forall (delivered_to config client_pk eid) sent ∧
     (map ob_message sent = [m] ∨
      ∃ tok size built, route_progress_token route = Some tok ∧
        build_oversized_frames (to_string (message_to_value m))
          (with_chunk_size (OversizedSenderOptions_new tok) size) = Ok built ∧
        map ob_message sent = map Notification (into_ordered built))) ∧
  t_slots t' = t_slots t ∧ entry (routes (t_routes t')) event_id = None ∧
  entry (t_snapshots t') event_id = None ∧ t_wraps t' !! event_id = None.
Proof.
  intros Hslot Hroute Hsess Hpk Heid Hsend m. rewrite send_response_plain in Hsend by done. cbv zeta in Hsend.
  rewrite Hroute in Hsend. set (t2 := with_event_routes _ _) in Hsend.
  pose proof (respond_to_route_spec config now event_id response route t2 Hsess _ _ Hpk Heid) as Hspec.
  cbv zeta in Hspec. rewrite Hsend in Hspec. fold m in Hspec.
  destruct Hspec as (Hsl & Hsn & Hrt & Hwr & sent & Hnet & Hd & Hms). split_and!.
  - exists sent. by split_and!.
  - by rewrite Hsl.
  - rewrite Hrt. subst t2. unfold t_routes. cbn. by rewrite remove_route_entry, upd_eq.
  - rewrite Hsn. subst t2. cbn. by rewrite entry_pop, String.eqb_refl.
  - by rewrite Hwr, lookup_delete_eq.
Qed.

(** (C5) A response reaches its client, once.  Take a request with a live route and
    no stream, whose client has a session and a well-formed key.  If
    [send_response] returns [Ok], every event it published went to that client and
    was accepted, and the client, its reassembler having room, reads from them
    exactly one message: the response carrying the client's original request id,
    whether it was sent whole or in fragments.  The route, the recorded wrap kind
    and the payment snapshot are released, so a second response to the same event
    publishes nothing and is refused. *)
Theorem response_reaches_client `{LruLaws L} `{SerdeJson} `{!SerdeJsonLaws} `{Sha256} `{Nostr} config now
    event_id response route (t t' : Transport L) client_pk eid :
  t_slots t !! event_id = None → entry (routes (t_routes t)) event_id = Some route →
  is_Some (entry (t_sessions t) (route_client_pubkey route)) →
  pubkey_from_hex (route_client_pubkey route) = Ok client_pk → event_id_from_hex event_id = Ok eid →
  send_response config now event_id response t = (t', Ok tt) →
  let m := restore_id (original_request_id route) response in
  (∃ sent, t_net t' = t_net t ++ sent ∧ Forall (delivered_to config client_pk eid) sent ∧
     (message_ok m = true → is_response m = true →
      (json_depth (message_to_value m) <= RECURSION_LIMIT)%nat → ∀ at_time r,
      admits r (route_progress_token route) (to_string (message_to_value m)) (length sent) →
      client_reads at_time r (map ob_message sent) = (r, [m]))) ∧
  t_wraps t' !! event_id = None ∧
  ∀ now' response',
    (send_response config now' event_id response' t').2 = Err (EOther ("No client found for event " +:+ event_id)) ∧
    t_net (send_response config now' event_id response' t').1 = t_net t'.
Proof.
  intros Hslot Hroute Hsess Hpk Heid Hsend m.
  destruct (send_response_sent config now event_id response route t t' client_pk eid Hslot Hroute Hsess Hpk Heid Hsend)
    as ((sent & Hnet & Hd & Hms) & Hsl & Hrt & Hsn & Hwr). fold m in Hms. split_and!.
  - exists sent. split; [done|]. split; [done|]. intros Hm Hresp Hdepth now' r Had.
    destruct Hms as [Hms|(tok & size & built & Htok & Hb & Hms)]; rewrite Hms.
    + cbn. destruct m; done.
    + eapply client_reads_built; [done|done|done|]. rewrite <- Htok.
      assert (length sent = length (into_ordered built)) as <-; [|done].
      apply (f_equal length) in Hms. by rewrite !length_map in Hms.
  - done.
  - intros now' response'. apply send_response_unknown; [by rewrite Hsl|done|done].
Qed.

(** A failed response can be tried again.  If [send_response] fails for such
    a request, its route is live again, with the same client, original id and
    token, and its wrap kind is still recorded; the next call responds to the same
    client. *)
Theorem failed_response_retryable `{LruLaws L} `{SerdeJson} `{Sha256} `{Nostr} config now
    event_id response route (t t' : Transport L) client_pk eid e :
  t_slots t !! event_id = None → entry (routes (t_routes t)) event_id = Some route →
  is_Some (entry (t_sessions t) (route_client_pubkey route)) →
  pubkey_from_hex (route_client_pubkey route) = Ok client_pk → event_id_from_hex event_id = Ok eid →
  send_response config now event_id response t = (t', Err e) →
  t_slots t' !! event_id = None ∧ t_wraps t' = t_wraps t ∧
  entry (routes (t_routes t')) event_id =
    Some (mkRoute (route_client_pubkey route) (original_request_id route) (route_progress_token route) None now).
Proof.
  intros Hslot Hroute Hsess Hpk Heid Hsend. rewrite send_response_plain in Hsend by done. cbv zeta in Hsend.
  rewrite Hroute in Hsend. set (t2 := with_event_routes _ _) in Hsend.
  pose proof (respond_to_route_spec config now event_id response route t2 Hsess _ _ Hpk Heid) as Hspec.
  cbv zeta in Hspec. rewrite Hsend in Hspec. destruct Hspec as (Hsl & _ & Hrt & Hwr). split_and!.
  - by rewrite Hsl.
  - by rewrite Hwr.
  - by rewrite Hrt, register_entry, entry_push_eq.
Qed.

(** (C18) A paid response survives the loss of its route.  When the route of a
    payment-gated request was swept while the client paid, [send_response] answers
    from the snapshot taken when the payment was requested: on success the
    snapshot's client was sent exactly the response with its original id, and the
    snapshot is spent; on failure the snapshot is kept, with its expiry, for the
    next attempt. *)
Theorem paid_response_survives_route_loss `{LruLaws L} `{SerdeJson} `{Sha256} `{Nostr} config now
    event_id response (t : Transport L) paid eid :
  t_slots t !! event_id = None → entry (routes (t_routes t)) event_id = None →
  entry (t_snapshots t) event_id = Some paid → event_id_from_hex event_id = Ok eid →
  let '(t', res) := send_response config now event_id response t in
  match res with
  | Ok _ =>
      entry (t_snapshots t') event_id = None ∧
      ∃ o, t_net t' = t_net t ++ [o] ∧ delivered_to config (rsnap_client_pubkey (ps_snapshot paid)) eid o ∧
        ob_message o = restore_id (rsnap_original_request_id (ps_snapshot paid)) response
  | Err _ => entry (t_snapshots t') event_id = Some paid
  end.
Proof.
  intros Hslot Hroute Hpaid Heid. rewrite send_response_plain by done. cbv zeta. rewrite Hroute, Hpaid.
  set (t2 := with_event_routes _ _).
  pose proof (send_deferred_spec config event_id eid (ps_snapshot paid) response t2 Heid) as Hd.
  destruct (send_open_stream_deferred_response _ _ _ _ _) as [t3 [u|e]]; destruct Hd as (Hw & Hsn & Hok); cbn.
  - destruct (Hok eq_refl) as (o & Hn & ? & ?). split; [|by exists o].
    rewrite Hsn. cbn. by rewrite entry_pop, String.eqb_refl.
  - apply entry_put_eq.
Qed.

(** ** Witnesses *)

(** A server that fragments early. *)
Definition config_small : NostrServerTransportConfig :=
  let c := NostrServerTransportConfig_default in
  mkServerConfig (cfg_relay_urls c) EncOptional (cfg_gift_wrap_mode c) (cfg_server_info c) (cfg_is_announced_server c)
    (cfg_allowed_public_keys c) (cfg_excluded_capabilities c) 5 (cfg_cleanup_interval c)
    (cfg_session_timeout c) (cfg_request_timeout c) (cfg_relay_list_urls c) (cfg_bootstrap_relay_urls c)
    (cfg_publish_relay_list c) (cfg_profile_metadata c)
    (mkOversizedConfig true 700 200 1000000 10000 10 1000 10 10 1000) (cfg_open_stream c).

Definition token_request : JsonRpcMessage :=
  Request (mkRequest "2.0" (VNumber (PosInt 7)) "prompts/get"
    (Some (VObject [("_meta", VObject [("progressToken", VString "tok")])]))).
Definition long_response : JsonRpcMessage :=
  Response (mkResponse "2.0" (VNumber (PosInt 0)) (VString "a long enough result")).
Definition long_response_7 : JsonRpcMessage :=
  Response (mkResponse "2.0" (VNumber (PosInt 7)) (VString "a long enough result")).

Lemma pair_snd {A B} (p : A * B) b : p.2 = b → p = (p.1, b).
Proof. by intros <-; destruct p. Qed.

(** The server after alice's request, and its answer, through relays that refuse
    the publish attempts [rejects] names. *)
Definition asked (rejects : nat → bool) : Transport list_cache :=
  demo_server rejects config_small
    [Receive 1 (demo_event "event-a" "alice" [[tags.SUPPORT_OVERSIZED_TRANSFER]] token_request)].
Abbreviation demo_respond rejects t :=
  (@send_response list_cache _ bits_serde id_sha256 (demo_nostr rejects) config_small 2 "event-a" long_response t).
Definition asked_route : RouteEntry := mkRoute "alice" (VNumber (PosInt 7)) (Some "tok") None 1.

Lemma asked_facts rejects :
  t_slots (asked rejects) !! "event-a" = None ∧
  entry (routes (t_routes (asked rejects))) "event-a" = Some asked_route ∧
  is_Some (entry (t_sessions (asked rejects)) "alice").
Proof. split_and!; [by vm_compute..|]. by apply lru_contains_entry. Qed.

Lemma response_reaches_client_witness :
  let t' := (demo_respond (λ _, false) (asked (λ _, false))).1 in
  (length (t_net t') > 100)%nat ∧
  @client_reads bits_serde id_sha256 5 receiver_new (map ob_message (t_net t')) = (receiver_new, [long_response_7]).
Proof.
  set (x := demo_respond (λ _, false) (asked (λ _, false))). cbv zeta.
  assert (length (t_net x.1) = 712%nat) as Hlen by by vm_compute.
  split; [rewrite Hlen; lia|]. destruct (asked_facts (λ _, false)) as (Hs & Hr & Hss).
  assert (x.2 = Ok tt) as Hok by by vm_compute.
  assert (t_net (asked (λ _, false)) = []) as Hnil by by vm_compute.
  destruct (@response_reaches_client list_cache _ _ bits_serde bits_serde_laws id_sha256 (demo_nostr (λ _, false))
    config_small 2 "event-a" long_response asked_route (asked (λ _, false)) x.1 "alice" "event-a")
    as [(sent & Hn & _ & Hread) _]; [exact Hs|exact Hr|exact Hss|done|done|exact (pair_snd x (Ok tt) Hok)|].
  rewrite Hnil in Hn. cbn [app] in Hn. rewrite Hn. rewrite Hn in Hlen.
  apply Hread; [done|done|vm_compute; repeat constructor|].
  rewrite Hlen. split; [intros ? [= <-]; by split| | | | |].
  - apply Z.leb_le. by vm_compute.
  - apply Z.leb_le. by vm_compute.
  - apply Z.ltb_lt. by vm_compute.
  - apply Z.leb_le. by vm_compute.
  - apply Z.ltb_lt. by vm_compute.
Defined.

Lemma failed_response_retryable_witness :
  let refuse n := Nat.eqb n 2 in
  let t' := (demo_respond refuse (asked refuse)).1 in
  entry (routes (t_routes t')) "event-a" = Some (mkRoute "alice" (VNumber (PosInt 7)) (Some "tok") None 2).
Proof.
  set (refuse n := Nat.eqb n 2). set (x := demo_respond refuse (asked refuse)). cbv zeta.
  destruct (asked_facts refuse) as (Hs & Hr & Hss).
  assert (x.2 = Err (ETransport "no relay")) as Hok by by vm_compute.
  exact (proj2 (proj2 (@failed_response_retryable list_cache _ _ bits_serde id_sha256 (demo_nostr refuse)
    config_small 2 "event-a" long_response asked_route (asked refuse) x.1 "alice" "event-a" _
    Hs Hr Hss eq_refl eq_refl (pair_snd x _ Hok)))).
Defined.

(** The same server after the snapshot of a payment was taken and the route was
    swept. *)
Definition paid_snapshot : PaymentRouteSnapshot :=
  mkPaymentSnapshot (mkRouteSnapshot "alice" (VNumber (PosInt 7)) false None) 100.
Definition paid_and_swept (rejects : nat → bool) : Transport list_cache :=
  let t := asked rejects in
  let t := with_snapshots t
             (record_payment_route_snapshot 1 "event-a" (ps_snapshot paid_snapshot) 100 (t_snapshots t)) in
  with_event_routes t (pop_route "event-a" (t_routes t)).1.

Lemma paid_response_survives_route_loss_witness :
  let t' := (demo_respond (λ _, false) (paid_and_swept (λ _, false))).1 in
  map ob_message (t_net t') = [long_response_7] ∧ entry (t_snapshots t') "event-a" = None.
Proof.
  set (x := demo_respond (λ _, false) (paid_and_swept (λ _, false))). cbv zeta.
  assert (x.2 = Ok tt) as Hok by by vm_compute.
  assert (t_slots (paid_and_swept (λ _, false)) !! "event-a" = None) as Hs by by vm_compute.
  assert (entry (routes (t_routes (paid_and_swept (λ _, false)))) "event-a" = None) as Hr by by vm_compute.
  assert (entry (t_snapshots (paid_and_swept (λ _, false))) "event-a" = Some paid_snapshot) as Hp by by vm_compute.
  assert (t_net (paid_and_swept (λ _, false)) = []) as Hnil by by vm_compute.
  pose proof (@paid_response_survives_route_loss list_cache _ _ bits_serde id_sha256 (demo_nostr (λ _, false))
    config_small 2 "event-a" long_response (paid_and_swept (λ _, false)) paid_snapshot "event-a"
    Hs Hr Hp eq_refl) as Hw.
  fold x in Hw. rewrite (pair_snd x _ Hok) in Hw. destruct Hw as (Hsn & o & Hn & _ & Hm).
  split; [|exact Hsn]. rewrite Hn, Hnil. cbn [app map]. by rewrite Hm.
Defined.

(** A paid response can be lost although its snapshot would deliver it.  When
    the route of a request is still there but the session of its client is gone,
    [send_response] spends both the route and the payment snapshot before it
    notices, and fails: the second attempt finds neither, and the wrap kind
    recorded for the request stays behind. *)
Theorem sessionless_response_lost :
  let t := asked (λ _, false) in
  let t := with_snapshots t
             (record_payment_route_snapshot 1 "event-a" (ps_snapshot paid_snapshot) 100 (t_snapshots t)) in
  let t := with_sessions t (remove_session (t_sessions t) "alice").1 in
  let first := demo_respond (λ _, false) t in
  let second := demo_respond (λ _, false) first.1 in
  first.2 = Err (EOther "No session for client alice") ∧
  second.2 = Err (EOther "No client found for event event-a") ∧
  length (t_net second.1) = 0%nat ∧ t_wraps second.1 !! "event-a" = Some None ∧
  (demo_respond (λ _, false) (with_sessions (paid_and_swept (λ _, false)) (t_sessions t))).2 = Ok tt.
Proof. by vm_compute. Qed.
