(* ===== verification/ServerAdmission.v ===== *)
(** * What the server transport lets in

    Which relay events reach the handler (or the middlewares in front of it), as
    whom and with what; the replay guard of gift wraps; and the sessions the
    cleanup task removes. *)

From S2P Require Import Prelude Json CoreTypes OversizedFrame OversizedCodec Instances OversizedReceiver Lru Authorization RouteStore SessionStore OpenStreamFrame OpenStreamSession OpenStreamRegistry OpenStreamWriter PaymentTypes ServerTasks ServerPaymentsProofs BaseTransport Announcements ServerNegotiation ServerState ServerOutbound ServerStreams ServerInbound ServerRefinement ServerDeferral ServerPolicy.

Section admission.
Context `{Lru L} `{SerdeJson} `{Sha256} `{Nostr}.
Variable config : NostrServerTransportConfig.
Variable chain : list middleware.
Variable supports_explicit_gating : bool.
Variable captured : ResponseTagSources.
Variable tags_snapshot : CommonTagsSnapshot.
Variable on_evicted : bool.
Implicit Types t : Transport L.

(** [inner] is the signed event a relay event stands for, where the policy lets it
    in: itself, or what its gift wrap decrypts to. *)
Definition opens (event inner : Event) : Prop :=
  event_verify inner = true ∧
  if is_gift_wrap event then
    cfg_encryption_mode config ≠ EncDisabled ∧ allows_kind (cfg_gift_wrap_mode config) (ev_kind event) = true ∧
    ∃ json, decrypt_gift_wrap_single_layer event = Ok json ∧ event_from_json json = Some inner
  else cfg_encryption_mode config ≠ EncRequired ∧ inner = event.

(** Nothing went to the worker; or one message did, directly or through the
    middlewares. *)
Definition holds_back t t' : Prop :=
  t_tasks t' = t_tasks t ∧ incoming (t_world t') = incoming (t_world t).
Definition hands_over t t' (ctx : InboundContext) (m : JsonRpcMessage) (event : option Value) : Prop :=
  match chain with
  | [] => t_tasks t' = t_tasks t ∧ incoming (t_world t') = incoming (t_world t) ++ [incoming_of ctx m event]
  | _ => t_tasks t' = t_tasks t ++ [run_inbound_chain chain ctx m event] ∧
         incoming (t_world t') = incoming (t_world t)
  end.

Lemma quiet_holds_back t t' : quiet t t' → holds_back t t'.
Proof. by intros []. Qed.

(** ** Opening an event *)

Lemma open_event_spec event t :
  match open_event config event t with
  | (t', Some inner) =>
      opens event inner ∧
      (is_gift_wrap event = true → lru_contains (ev_id event) (t_seen t) = false ∧
         t_seen t' = lru_put (ev_id event) tt (t_seen t)) ∧
      t_alive t' = t_alive t
  | (t', None) => t' = t
  end.
Proof.
  unfold open_event, opens. destruct (is_gift_wrap event) eqn:Eg; cbn.
  - destruct (allows_kind _ _) eqn:Ea; cbn; [|done]. destruct (bool_decide _) eqn:Em; [done|].
    destruct (lru_contains _ _) eqn:Ec; [done|]. destruct (pool_signer _); [|done].
    destruct (decrypt_gift_wrap_single_layer event) as [json|] eqn:Ed; [|done].
    destruct (event_from_json json) as [inner|] eqn:Ej; [|done].
    destruct (event_verify inner) eqn:Ev; [|done]. b2p. split_and!; try done. by exists json.
  - destruct (bool_decide _) eqn:Em; [done|]. destruct (event_verify event) eqn:Ev; [|done]. by b2p.
Qed.

(** ** Handing a message over *)

(** What a carrier's message is handed over with. *)
Definition carried (inner : Event) (wrap : option Z) (encrypted : bool) (ctx : InboundContext) : Prop :=
  ctx_client_pubkey ctx = ev_pubkey inner ∧ ctx_request_event_id ctx = ev_id inner ∧
  ctx_is_encrypted ctx = encrypted ∧ ctx_mirrored_wrap_kind ctx = wrap.

Lemma dispatch_hands_over t0 t c m :
  quiet t0 t →
  holds_back t0 (dispatch_message chain c m t) ∨
  hands_over t0 (dispatch_message chain c m t) (context_of c) m (Some (VString (event_to_json (ca_event c)))).
Proof.
  intros [Ht _ Hi _]. unfold dispatch_message, dispatch_inbound, holds_back, hands_over.
  destruct chain as [|mw rest]; cbn.
  - destruct (rx_closed _); cbn; rewrite Ht, Hi, app_nil_r; auto.
  - rewrite Ht, Hi. auto.
Qed.

Lemma oversized_hands_over now n c already t0 t :
  quiet t0 t →
  let t' := handle_oversized_frame config chain now n c already t in
  holds_back t0 t' ∨ ∃ m, hands_over t0 t' (context_of c) m (Some (VString (event_to_json (ca_event c)))).
Proof.
  intros Ht. cbv zeta. unfold handle_oversized_frame.
  set (t1 := match (if _ && _ then _ else _) with Some _ => _ | None => _ end).
  assert (quiet t0 t1) as Ht1. { subst t1. unfold emit_accept_frame. quiet. }
  destruct (feed_oversized _ _ _ _ _ _) as [store [[m|]|e]];
    [|left; apply quiet_holds_back; eauto with quiet..].
  set (wt := match m with Request _ => _ | _ => _ end).
  destruct (dispatch_hands_over t0 (register_request config now c (default VNull (msg_id m)) (frame_token n) wt
    (with_oversized t1 store)) c m); [|by left|by right; exists m].
  apply register_request_quiet. eauto with quiet.
Qed.

Lemma process_message_hands_over now inner wrap enc m t0 t :
  quiet t0 t →
  let t' := process_message config chain supports_explicit_gating captured on_evicted now inner wrap enc m t in
  holds_back t0 t' ∨
  ∃ m' ctx, carried inner wrap enc ctx ∧
    (m' = m ∨ ∃ n, m = Notification n ∧ is_oversized_frame n = true ∧ oc_enabled (cfg_oversized_transfer config) = true) ∧
    hands_over t0 t' ctx m' (Some (VString (event_to_json inner))).
Proof.
  intros Ht. cbv zeta. unfold process_message.
  destruct (ensure_session _ _ _ _ _) as [t1|] eqn:He; [|left; apply quiet_holds_back; eauto with quiet].
  assert (quiet t0 t1) as Ht1. { unfold ensure_session in He. repeat case_match; simplify_eq/=; eauto with quiet. }
  destruct (with_session _ _ _) as [sessions [rc|]]; [|left; apply quiet_holds_back; eauto with quiet].
  destruct (rc_negotiation rc).
  2: { left. apply quiet_holds_back. unfold reject_unsupported. quiet. }
  set (c := mkCarrier _ _ _ _ _ _ _).
  assert (∀ t2, quiet t0 t2 → holds_back t0 (dispatch_message chain c m t2) ∨
    ∃ m' ctx, carried inner wrap enc ctx ∧ (m' = m ∨ ∃ n, m = Notification n ∧ is_oversized_frame n = true ∧
        oc_enabled (cfg_oversized_transfer config) = true) ∧
      hands_over t0 (dispatch_message chain c m t2) ctx m' (Some (VString (event_to_json inner)))) as Hdispatch.
  { intros t2 Hq. destruct (dispatch_hands_over t0 t2 c m Hq) as [|Hh]; [by left|].
    right. exists m, (context_of c). split_and!; [done|by left|exact Hh]. }
  destruct m as [req|r|r|n]; try (apply Hdispatch; eauto with quiet).
  - by apply register_request_quiet; eauto with quiet.
  - destruct (_ && is_oversized_frame n) eqn:Eo.
    { destruct (oversized_hands_over now n c (rc_already_supported rc) t0 (with_sessions t1 sessions)) as [|[m Hh]];
        [eauto with quiet|by left|]. b2p. right. exists m, (context_of c). split_and!; [done|eauto|exact Hh]. }
    destruct (_ && Receiver.is_open_stream_frame n).
    { left. apply quiet_holds_back, stream_frame_quiet. eauto with quiet. }
    apply Hdispatch. case_match; eauto with quiet.
Qed.
End admission.

(** (C8) Admission control.  A relay event makes the server hand over at most one
    message, to its worker or to the payment chain in front of it, and only if the
    event passes every check: it is a gift wrap of an allowed kind that decrypts
    to an event (encryption not being disabled) or a plain event (encryption not
    being required); that event's signature verifies and its content is a valid
    JSON-RPC message; the sender is authorized for it; and a gift wrap was not
    seen before.  The message is handed over in the name of the signer, under the
    id of the signed event, and is the content of the event, unless that is a
    frame of an oversized transfer. *)
Theorem handle_event_admission `{Lru L} `{SerdeJson} `{Sha256} `{Nostr} config chain gating captured
    tags_snapshot on_evicted now event (t : Transport L) :
  let t' := handle_event config chain gating captured tags_snapshot on_evicted now event t in
  holds_back t t' ∨
  ∃ inner m m' ctx,
    opens config event inner ∧ validate_and_parse (ev_content inner) = Some m ∧
    authorized (cfg_allowed_public_keys config) (cfg_excluded_capabilities config) (ev_pubkey inner) m = true ∧
    (is_gift_wrap event = true → lru_contains (ev_id event) (t_seen t) = false) ∧
    carried inner (wrap_of event) (is_gift_wrap event) ctx ∧
    (m' = m ∨ ∃ n, m = Notification n ∧ is_oversized_frame n = true ∧
                   oc_enabled (cfg_oversized_transfer config) = true) ∧
    hands_over chain t t' ctx m' (Some (VString (event_to_json inner))).
Proof.
  cbv zeta. unfold handle_event. destruct (negb (t_alive t)); [left; apply quiet_holds_back, quiet_refl|].
  pose proof (open_event_quiet config event t) as Hq. pose proof (open_event_spec config event t) as Hspec.
  destruct (open_event config event t) as [t1 [inner|]]; cbn in Hq; [|left; by apply quiet_holds_back].
  destruct Hspec as (Ho & Hseen & _).
  destruct (validate_and_parse (ev_content inner)) as [m|] eqn:Em; [|left; by apply quiet_holds_back].
  destruct (authorized _ _ _ _) eqn:Ea.
  2: { left. apply quiet_holds_back. unfold reject_unauthorized. quiet. }
  destruct (process_message_hands_over config chain gating captured on_evicted now inner (wrap_of event)
    (is_gift_wrap event) m t t1 Hq) as [|(m' & ctx & Hc & Hm & Hh)]; [by left|].
  right. exists inner, m, m', ctx. split_and!; try done. intros Hg. by apply Hseen.
Qed.

(** ** The cleanup task *)

Section cleanup.
Context `{LruLaws L}.
Implicit Types t : Transport L.

Lemma delete_all_lookup {V} (l : list string) (m : gmap string V) k :
  foldl (λ m key, delete key m) m l !! k = if decide (k ∈ l) then None else m !! k.
Proof.
  revert m. induction l as [|k0 l IH]; intros m; cbn; [done|]. rewrite IH.
  destruct (decide (k = k0)) as [->|]; repeat case_decide; try set_solver; by rewrite ?lookup_delete_eq, ?lookup_delete_ne.
Qed.

(** The ids the expired sessions kept. *)
Definition stale_ids (now timeout : Z) t : list string :=
  flat_map (λ ks : string * ClientSession, session_ids ks.2)
    (List.filter (λ ks : string * ClientSession, expired_session now timeout ks.2) (lru_iter (t_sessions t))).

Lemma elem_of_stale_ids now timeout t e :
  e ∈ stale_ids now timeout t ↔
  ∃ client s, entry (t_sessions t) client = Some s ∧ timeout < now - last_activity s ∧ e ∈ session_ids s.
Proof.
  unfold stale_ids. rewrite list_elem_of_In, in_flat_map. split.
  - intros ([client s] & Hin & He). apply filter_In in Hin as [Hin Hx]. exists client, s. split_and!.
    + apply al_elem_get; [apply lru_nodup|by apply list_elem_of_In].
    + by apply Z.ltb_lt.
    + by apply list_elem_of_In.
  - intros (client & s & Hs & Hx & He). exists (client, s). split; [|by apply list_elem_of_In].
    apply filter_In. split; [by apply list_elem_of_In, al_get_elem|]. unfold expired_session. cbn. by apply Z.ltb_lt.
Qed.
End cleanup.

(** A cleanup removes exactly the sessions idle for longer than the timeout
    and reports their number; it drops the route and the wrap kind of every id
    these sessions kept, and no other. *)
Theorem cleanup_sessions_exact `{LruLaws L} now timeout (t : Transport L) :
  let '(t', n) := cleanup_sessions now timeout t in
  n = lru_len (t_sessions t) - lru_len (t_sessions t') ∧
  (∀ client, entry (t_sessions t') client =
     s ← entry (t_sessions t) client; if timeout <? now - last_activity s then None else Some s) ∧
  (∀ e, (∃ client s, entry (t_sessions t) client = Some s ∧ timeout < now - last_activity s ∧ e ∈ session_ids s) →
     entry (routes (t_routes t')) e = None ∧ t_wraps t' !! e = None) ∧
  (∀ e, ¬ (∃ client s, entry (t_sessions t) client = Some s ∧ timeout < now - last_activity s ∧ e ∈ session_ids s) →
     entry (routes (t_routes t')) e = entry (routes (t_routes t)) e ∧ t_wraps t' !! e = t_wraps t !! e).
Proof.
  unfold cleanup_sessions. cbv zeta. fold (stale_ids now timeout t).
  unfold t_routes, t_wraps. cbn.
  assert (∀ e, entry (routes (foldl (λ s event_id, (pop_route event_id s).1) (event_routes (t_world t))
      (stale_ids now timeout t))) e =
    if decide (e ∈ stale_ids now timeout t) then None else entry (routes (event_routes (t_world t))) e) as Hr.
  { intros e. apply remove_routes_entry. }
  split_and!.
  - pose proof (pop_filter_len (expired_session now timeout) (t_sessions t)) as Hl. lia.
  - intros client. rewrite (pop_filter_entry (expired_session now timeout)). done.
  - intros e He%elem_of_stale_ids. rewrite Hr, delete_all_lookup, !decide_True by done. done.
  - intros e He. rewrite Hr, delete_all_lookup, !decide_False by by rewrite elem_of_stale_ids. done.
Qed.

(** ** Witnesses and findings *)

(** Mallory's request carries bob's event id as its progress token; bob's request
    is in flight and his session is fresh. *)
Definition token_of (tok : string) : JsonRpcMessage :=
  Request (mkRequest "2.0" (VNumber (PosInt 1)) "prompts/get"
    (Some (VObject [("_meta", VObject [("progressToken", VString tok)])]))).
Definition collision : list transport_action :=
  [Receive 1 (demo_event "event-m" "mally" [] (token_of "event-b"));
   Receive 9 (demo_event "event-b" "bobby" [] demo_request)].
Definition collided : Transport list_cache := demo_server (λ _, false) (config_with EncOptional 5) collision.

Lemma cleanup_sessions_exact_witness :
  let '(t', n) := cleanup_sessions 12 5 collided in
  n = 1 ∧ entry (t_sessions t') "mally" = None ∧ entry (routes (t_routes t')) "event-m" = None.
Proof.
  pose proof (@cleanup_sessions_exact list_cache _ _ 12 5 collided) as Hw.
  assert ((cleanup_sessions 12 5 collided).2 = 1) as Hn by by vm_compute.
  destruct (entry (t_sessions collided) "mally") as [s|] eqn:Es; [|by vm_compute in Es].
  assert ((5 <? 12 - last_activity s) = true ∧ "event-m" ∈ session_ids s) as [Hx Hi].
  { split; [|apply (bool_decide_unpack _)]; vm_compute in Es; injection Es as <-; by vm_compute. }
  destruct (cleanup_sessions 12 5 collided) as [t' n]. cbn in Hn. destruct Hw as (_ & Hsess & Hdrop & _).
  split_and!; [done| |].
  - rewrite Hsess, Es. cbn [mbind option_bind]. by rewrite Hx.
  - apply Hdrop. exists "mally", s. split_and!; [done|by apply Z.ltb_lt|done].
Defined.

(** The cleanup of one client's session can drop another client's request.
    The ids it pops routes for include the progress tokens the expired session
    used, which its client chose: a token equal to the event id of a request in
    flight takes that request's route away, and its response is refused. *)
Theorem cleanup_drops_foreign_route :
  let t' := (cleanup_sessions 12 5 collided).1 in
  lru_contains "bobby" (t_sessions t') = true ∧
  entry (routes (t_routes t')) "event-b" = None ∧
  is_ok (@send_response _ _ bits_serde id_sha256 (demo_nostr (λ _, false)) (config_with EncOptional 5) 13 "event-b"
           demo_response collided).2 = true ∧
  (@send_response _ _ bits_serde id_sha256 (demo_nostr (λ _, false)) (config_with EncOptional 5) 13 "event-b"
     demo_response t').2 = Err (EOther "No client found for event event-b").
Proof. by vm_compute. Qed.

(** A server for alice only, whose progress notifications are open to everyone. *)
Definition config_private : NostrServerTransportConfig :=
  let c := NostrServerTransportConfig_default in
  mkServerConfig (cfg_relay_urls c) (cfg_encryption_mode c) (cfg_gift_wrap_mode c) (cfg_server_info c)
    (cfg_is_announced_server c) ["alice"] [mkExclusion NOTIFICATIONS_PROGRESS_METHOD None] 5
    (cfg_cleanup_interval c) (cfg_session_timeout c) (cfg_request_timeout c) (cfg_relay_list_urls c)
    (cfg_bootstrap_relay_urls c) (cfg_publish_relay_list c) (cfg_profile_metadata c) (cfg_oversized_transfer c)
    (cfg_open_stream c).

(** The frames of a request, each in an event of its own. *)
Definition framed (client : string) (m : JsonRpcMessage) : list transport_action :=
  match @build_oversized_frames id_sha256 (@to_string bits_serde (message_to_value m))
          (mkSenderOptions "tok" 5000 true) with
  | Ok b => imap (λ i f, Receive (Z.of_nat i) (demo_event ("frame-" +:+ show_Z (Z.of_nat i)) client [] (Notification f)))
              (into_ordered b)
  | Err _ => []
  end.

(** Excluding progress notifications from the allow list opens every method.
    Authorization is applied to the frames of an oversized transfer, not to the
    request they assemble: a client that is not allowed, whose plain request is
    dropped, gets the same request to the worker in fragments. *)
Theorem fragments_bypass_authorization :
  let server acts := demo_server (λ _, false) config_private acts in
  incoming (t_world (server [Receive 1 (demo_event "event-m" "mally" [] demo_request)])) = [] ∧
  map inc_message (incoming (t_world (server (framed "mally" demo_request)))) = [demo_request] ∧
  map inc_client_pubkey (incoming (t_world (server (framed "mally" demo_request)))) = ["mally"].
Proof. by vm_compute. Qed.
