(* ===== verification/EndToEnd.v ===== *)
(** * The server and the client together

    The responses the server transport publishes, received by the client
    transport: the composition of [ServerOutbound] and [ClientInbound]. *)

From S2P Require Import Prelude Json CoreTypes OversizedFrame OversizedCodec Instances OversizedReceiver OversizedProofs Lru RouteStore OpenStreamFrame OpenStreamSession OpenStreamRegistry PaymentTypes ServerTasks BaseTransport Announcements Discovery ServerNegotiation ServerState ServerOutbound ServerStreams ServerInbound ServerPolicy ServerResponses ClientPayments ClientState ClientOutbound ClientInbound ClientRuns ClientAdmission.

(** ** Frames on the wire *)

Section frames.
Context `{SerdeJson} `{!SerdeJsonLaws} `{Sha256}.

(** The numbers of a frame are in range. *)
Definition frame_in_range (f : OversizedFrame) : Prop :=
  match f with OversizedFrame.Start _ _ b n => in_u64 b = true ∧ in_u64 n = true | _ => True end.

Lemma frame_message_ok f token progress message :
  frame_in_range f → in_u64 progress = true →
  message_ok (Notification (OversizedFrame.into_progress_notification f token progress message)) = true ∧
  (json_depth (message_to_value (Notification (OversizedFrame.into_progress_notification f token progress message)))
     <= RECURSION_LIMIT)%nat.
Proof.
  intros Hf Hp. unfold message_ok, opt_payload_ok, OversizedFrame.into_progress_notification. cbn [notif_jsonrpc notif_params].
  rewrite !andb_true_iff, negb_true_iff, payload_ok_spec, bool_decide_eq_false.
  destruct f as [[] d b n| | | |[r|]]; cbn in Hf; destruct message as [msg|].
  all: split; [split_and!; [done| |reflexivity|done]|apply Nat.leb_le; reflexivity].
  all: cbv -[in_u64]; rewrite ?Hp; first [reflexivity|destruct Hf as [Hb Hn]; rewrite ?Hb, ?Hn; reflexivity].
Qed.

Lemma notification_text n :
  message_ok (Notification n) = true → (json_depth (message_to_value (Notification n)) <= RECURSION_LIMIT)%nat →
  from_str (to_string (message_to_value (Notification n))) ≫= de_notification = Some n.
Proof.
  intros Hm Hd. rewrite from_str_to_string by (by apply message_to_value_exact || done). cbn [mbind option_bind].
  destruct n as [j me o]. cbn in Hm. apply andb_true_iff in Hm as [Hj Ho]. apply String.eqb_eq in Hj. subst j.
  apply opt_payload_ok_spec in Ho as [-> | (v & -> & ? & Hv & Hn)];
    unfold de_notification; cbn [ser_opt app map fst snd json_norm]; rewrite ?obj_get_of_list by done; cbn;
    rewrite ?obj_get_of_list by done; cbn; [done|]. rewrite Hv. by rewrite de_option_id.
Qed.

(** How the client sees a frame the server sent. *)
Record frame_notification (n : JsonRpcNotification) : Prop := {
  fn_text : from_str (to_string (message_to_value (Notification n))) ≫= de_notification = Some n;
  fn_method : notif_method n = NOTIFICATIONS_PROGRESS_METHOD;
  fn_stream : Receiver.is_open_stream_frame n = false;
  fn_oversized : is_oversized_frame n = true;
  fn_accept : is_accept n = false;
}.

Lemma frame_is_notification f token progress message :
  f ≠ OversizedFrame.Accept → frame_in_range f → in_u64 progress = true →
  frame_notification (OversizedFrame.into_progress_notification f token progress message).
Proof.
  intros Ha Hf Hp. destruct (frame_message_ok f token progress message Hf Hp) as [Hm Hd]. split.
  - by apply notification_text.
  - done.
  - destruct f as [[]| | | |[]], message; reflexivity.
  - apply progress_notification_is_frame.
  - destruct f as [[] d b n| | | |[]]; [|done|..]; destruct message; try reflexivity;
      unfold is_accept; cbv -[in_u64]; destruct (in_u64 b), (in_u64 n); reflexivity.
Qed.

Lemma built_frame_notifications serialized o b :
  str_len serialized + 4 < u64_modulus → build_oversized_frames serialized o = Ok b →
  Forall frame_notification (into_ordered b).
Proof.
  intros Hlen (cs & Hcs & ->)%build_inv. unfold into_ordered. cbn.
  assert (∀ x y, in_u64 (u64_add x y) = true) as Hadd.
  { intros x y. apply in_u64_spec. unfold u64_add. apply Z.mod_pos_bound. done. }
  constructor; [|apply Forall_app; split].
  - apply frame_is_notification; [done| |done]. pose proof (split_length_le serialized o cs Hcs) as Hn. split; apply in_u64_spec; lia.
  - apply Forall_forall. intros x (i & d & -> & _)%elem_of_lookup_imap_1. by apply frame_is_notification.
  - apply Forall_singleton, frame_is_notification; done.
Qed.
End frames.

(** ** The client's side *)

Section receiving.
Context `{Lru L, !LruLaws L} `{SerdeJson} `{!SerdeJsonLaws} `{Sha256} `{Nostr}.
Variable config : NostrClientTransportConfig.
Variable server_pubkey : string.
Variable options : ClientPaymentsOptions.
Implicit Types c : ClientTransport L.

Local Abbreviation handle := (handle_notification config server_pubkey options).

Definition receive_all (now : Z) (events : list Event) c : ClientTransport L :=
  foldl (λ c event, handle now event c) c events.

(** An event that, once, opens to the message [m] of the server about the request [event_id]. *)
Definition carries (event_id : string) (event : Event) (m : JsonRpcMessage) : Prop :=
  ∃ inner, (∀ c, lru_contains (ev_id event) (c_seen c) = false → (open_event config event c).2 = Some inner) ∧
    ev_pubkey inner = server_pubkey ∧ ev_content inner = to_string (message_to_value m) ∧
    get_tag_value (ev_tags inner) "e" = Some event_id.

Definition is_progress (m : JsonRpcMessage) : Prop :=
  match m with Notification n => notif_method n = NOTIFICATIONS_PROGRESS_METHOD | _ => False end.

(** The part of the state that receiving a response works on. *)
Definition same_inbox c c' : Prop :=
  c_pending c' = c_pending c ∧ c_oversized c' = c_oversized c ∧ c_engine c' = c_engine c ∧
  c_consumer c' = c_consumer c.

Lemma opened_inbox event inner c :
  same_inbox c (learn server_pubkey event inner (open_event config event c).1).
Proof.
  destruct (open_event_state config event c) as [seen ->]. unfold learn, learn_server_discovery.
  destruct (discovery_tags _); by destruct (should_learn_ephemeral_support _ _ _ _).
Qed.

(** What is left of an event once it is opened. *)
Lemma handle_carried now event_id event m c :
  carries event_id event m → lru_contains (ev_id event) (c_seen c) = false →
  ∃ c1, same_inbox c c1 ∧
    handle now event c = handle_content config server_pubkey options now (to_string (message_to_value m)) (Some event_id) c1 ∧
    (∀ id, id ≠ ev_id event → lru_contains id (c_seen c) = false → lru_contains id (c_seen (handle now event c)) = false).
Proof.
  intros (inner & Hopen & Hpk & Hcontent & Htag) Hseen. specialize (Hopen c Hseen).
  exists (learn server_pubkey event inner (open_event config event c).1). split; [apply opened_inbox|]. split.
  - unfold handle_notification. destruct (open_event config event c) as [c1 o]. cbn in Hopen. subst o.
    by rewrite Hpk, String.eqb_refl, Hcontent, Htag.
  - intros id Hne Hid.
    rewrite (lf_seen _ _ _ _ (handle_notification_frame config server_pubkey options now event c)).
    destruct (open_event_admissible config event inner c Hopen) as [[_ Ha] Hput].
    destruct (is_gift_wrap_kind (ev_kind event)) eqn:Eg.
    + rewrite (Hput eq_refl). cbn. destruct (lru_contains id (lru_put _ _ _)) eqn:E; [|done].
      apply lru_contains_entry in E. rewrite entry_put_None in E; [by destruct E|done|].
      destruct (entry (c_seen c) id) eqn:E'; [|done].
      assert (lru_contains id (c_seen c) = true) by (apply lru_contains_entry; eauto). congruence.
    + unfold open_event. rewrite Eg. by destruct (violates_encryption_policy _ _).
Qed.

(** A forwarded progress is all a consumed frame shows. *)
Lemma forward_progress_noise n token c :
  c_pending (forward_progress n token c) = c_pending c ∧ c_oversized (forward_progress n token c) = c_oversized c ∧
  c_engine (forward_progress n token c) = c_engine c ∧
  ∃ noise, c_consumer (forward_progress n token c) = c_consumer c ++ noise ∧ Forall is_progress noise.
Proof.
  assert (∀ c', c_pending c' = c_pending c → c_oversized c' = c_oversized c → c_engine c' = c_engine c →
    c_consumer c' = c_consumer c → c_pending c' = c_pending c ∧ c_oversized c' = c_oversized c ∧
    c_engine c' = c_engine c ∧ ∃ noise, c_consumer c' = c_consumer c ++ noise ∧ Forall is_progress noise) as Hsame.
  { intros c' ? ? ? ->. split_and!; [done..|]. exists []. by rewrite app_nil_r. }
  destruct token as [token|]; cbn; [|by apply Hsame]. unfold forward_stripped_progress, original_progress_token.
  destruct (notif_params n) as [params|]; [|by apply Hsame].
  assert (∀ v, Forall is_progress (option_list (stripped_progress_notification params v))) as Hnoise.
  { intros v. unfold stripped_progress_notification. destruct (get params "progress"); cbn; [|constructor].
    by apply Forall_singleton. }
  destruct (lru_get _ _) as [os [v|]].
  - split_and!; [done..|]. eexists. split; [done|apply Hnoise].
  - destruct (get params "progressToken"); [|by apply Hsame]. split_and!; [done..|]. eexists. split; [done|apply Hnoise].
Qed.

Lemma remove_contains id id' (s : L PendingRequest) :
  ClientStore.contains id (ClientStore.remove id' s).1 = if String.eqb id id' then false else ClientStore.contains id s.
Proof.
  unfold ClientStore.contains, ClientStore.remove, lru_contains. rewrite !lru_peek_value, lru_pop_iter, al_get_del.
  by destruct (String.eqb id id').
Qed.

Lemma touch_contains now id id' (s : L PendingRequest) :
  ClientStore.contains id (ClientStore.touch now id' s).1 = ClientStore.contains id s.
Proof.
  unfold ClientStore.contains, ClientStore.touch. apply eq_true_iff_eq. rewrite !lru_contains_entry, entry_get_mut.
  destruct (String.eqb_spec id id') as [->|]; [|done]. by rewrite fmap_is_Some.
Qed.

(** One frame of a response. *)
Lemma receive_frame now event_id event n c :
  frame_notification n → carries event_id event (Notification n) → lru_contains (ev_id event) (c_seen c) = false →
  c_engine c = None →
  let '(r, o) := OversizedReceiver.process_frame now (c_oversized c) n in
  let c' := handle now event c in
  c_oversized c' = r ∧ c_engine c' = None ∧
  (∀ id, id ≠ ev_id event → lru_contains id (c_seen c) = false → lru_contains id (c_seen c') = false) ∧
  (∃ noise, c_consumer c' = c_consumer c ++ noise ++ option_list (surfaced o) ∧ Forall is_progress noise) ∧
  (ClientStore.contains event_id (c_pending c) = false → ClientStore.contains event_id (c_pending c') = false) ∧
  (∀ m, surfaced o = Some m → terminal_message m = true → ClientStore.contains event_id (c_pending c') = false).
Proof.
  intros [Htext Hmethod Hstream Hover Hacc] Hcar Hseen Heng.
  destruct (handle_carried now event_id event _ c Hcar Hseen) as (c1 & (Hp & Ho & He & Hc) & Hh & Hs).
  destruct (OversizedReceiver.process_frame now (c_oversized c) n) as [r o] eqn:Ef. cbv zeta.
  rewrite Hh in Hs |- *. revert Hs. unfold handle_content, progress_frame. rewrite Htext. cbn [mbind option_bind].
  rewrite Hmethod, String.eqb_refl, Hstream, Hover. cbn [andb].
  replace (if sc_enabled (cc_open_stream config) then None else None : option JsonRpcNotification)
    with (@None JsonRpcNotification) by by destruct (sc_enabled _).
  unfold handle_oversized_frame. rewrite Hacc.
  set (c2 := touch_correlated now (Some event_id) c1).
  assert (c_oversized c2 = c_oversized c) as -> by done. rewrite Ef.
  set (c3 := set_oversized c2 r).
  assert (c_engine c3 = None) as He3 by (cbn; congruence).
  assert (c_consumer c3 = c_consumer c) as Hc3 by done.
  assert (ClientStore.contains event_id (c_pending c3) = ClientStore.contains event_id (c_pending c)) as Hp3.
  { cbn. rewrite touch_contains. by rewrite Hp. }
  intros Hs. destruct o as [[m|]|e]; cbn [surfaced option_list].
  - set (c4 := remove_original_progress_token (frame_token n) c3) in *.
    assert (c_engine c4 = None ∧ c_consumer c4 = c_consumer c ∧ c_oversized c4 = r ∧ c_pending c4 = c_pending c3)
      as (He4 & Hc4 & Ho4 & Hp4) by (subst c4; by destruct (frame_token n)).
    pose proof (deliver_terminal_pending options (Some event_id) m c4) as Hpd.
    assert (c_oversized (deliver_terminal options (Some event_id) m c4) = r ∧
            c_engine (deliver_terminal options (Some event_id) m c4) = None ∧
            c_consumer (deliver_terminal options (Some event_id) m c4) = c_consumer c ++ [m]) as (Hd1 & Hd2 & Hd3).
    { unfold deliver_terminal, consume_terminal_response.
      destruct (terminal_message m); [destruct (ClientStore.remove _ _)|]; cbn; rewrite He4; cbn; by rewrite Hc4. }
    split_and!; [done|done|done|exists []; by rewrite Hd3| |].
    + intros Hn. rewrite Hpd. destruct (terminal_message m); [by rewrite remove_contains, String.eqb_refl|].
      by rewrite Hp4, Hp3.
    + intros m' [= <-] Ht. rewrite Hpd, Ht. by rewrite remove_contains, String.eqb_refl.
  - set (tracked := match frame_token n with Some _ => _ | None => _ end) in *. clearbody tracked.
    destruct (forward_progress_noise n (frame_token n) c3) as (Hf1 & Hf2 & Hf3 & noise & Hf4 & Hf5).
    destruct tracked.
    + split_and!; [by rewrite Hf2|by rewrite Hf3|done| |by rewrite Hf1, Hp3|done].
      exists noise. rewrite Hf4, Hc3, app_nil_r. done.
    + split_and!; [done|done|done| |by rewrite Hp3|done]. exists []. by rewrite Hc3, !app_nil_r.
  - assert (c_engine (remove_original_progress_token (frame_token n) c3) = None ∧
            c_consumer (remove_original_progress_token (frame_token n) c3) = c_consumer c ∧
            c_oversized (remove_original_progress_token (frame_token n) c3) = r ∧
            c_pending (remove_original_progress_token (frame_token n) c3) = c_pending c3) as (H4 & H5 & H6 & H7)
      by (by destruct (frame_token n)).
    split_and!; [done|done|done| |by rewrite H7, Hp3|done]. exists []. by rewrite H5, !app_nil_r.
Qed.

(** [l] shows the messages [out], among progress notifications. *)
Inductive shows : list JsonRpcMessage → list JsonRpcMessage → Prop :=
| shows_nil : shows [] []
| shows_noise m l out : is_progress m → shows l out → shows (m :: l) out
| shows_message m l out : shows l out → shows (m :: l) (m :: out).

Lemma shows_none l : shows l [] → Forall is_progress l.
Proof.
  remember [] as out eqn:Eo. induction 1; [done| |done]. constructor; auto.
Qed.
Lemma shows_one l m :
  shows l [m] → ∃ before after, l = before ++ m :: after ∧ Forall is_progress before ∧ Forall is_progress after.
Proof.
  remember [m] as out eqn:Eo. induction 1 as [|m' l out Hm _ IH|m' l out Hl _]; [done| |].
  - destruct (IH Eo) as (before & after & -> & Hb & Ha). exists (m' :: before), after. auto.
  - injection Eo as -> ->. exists [], l. split_and!; [done|done|by apply shows_none].
Qed.
Lemma shows_noises noise l out : Forall is_progress noise → shows l out → shows (noise ++ l) out.
Proof. induction 1; cbn; [done|]. intros. apply shows_noise; auto. Qed.

(** The frames of a response, in the order they were sent. *)
Lemma receive_frames now event_id events ns c :
  Forall2 (λ event n, frame_notification n ∧ carries event_id event (Notification n)) events ns →
  NoDup (ev_id <$> events) → (∀ event, event ∈ events → lru_contains (ev_id event) (c_seen c) = false) →
  c_engine c = None →
  let '(r, os) := process_frames (c_oversized c) (map (pair now) ns) in
  let c' := receive_all now events c in
  c_oversized c' = r ∧ (∃ l, c_consumer c' = c_consumer c ++ l ∧ shows l (omap surfaced os)) ∧
  (ClientStore.contains event_id (c_pending c) = false → ClientStore.contains event_id (c_pending c') = false) ∧
  (∀ m, m ∈ omap surfaced os → terminal_message m = true → ClientStore.contains event_id (c_pending c') = false).
Proof.
  intros Hall. revert c. induction Hall as [|event n events ns [Hn Hcar] Hall IH]; intros c Hnd Hseen He; cbn.
  { split_and!; [done|exists []; rewrite app_nil_r; by repeat constructor|done|set_solver]. }
  apply NoDup_cons in Hnd as [Hni Hnd].
  pose proof (receive_frame now event_id event n c Hn Hcar (Hseen event ltac:(set_solver)) He) as Hf.
  destruct (OversizedReceiver.process_frame now (c_oversized c) n) as [r o].
  destruct Hf as (Hr & He' & Hs & (noise & Hc & Hnoise) & Hmono & Hterm).
  specialize (IH (handle now event c) Hnd). rewrite Hr in IH.
  destruct (process_frames r (map (pair now) ns)) as [r2 os].
  destruct IH as (Hr2 & (l & Hl & Hsh) & Hmono2 & Hterm2); [|done|].
  { intros e Hin. apply Hs; [|apply Hseen; set_solver]. intros Heq. apply Hni. rewrite <- Heq.
    apply list_elem_of_fmap. by exists e. }
  unfold receive_all in *. cbn. split_and!; [done| |auto|].
  - exists (noise ++ option_list (surfaced o) ++ l). rewrite Hl, Hc, <- !app_assoc. split; [done|].
    apply shows_noises; [done|]. destruct (surfaced o) as [m|] eqn:Eo; cbn; rewrite ?Eo; [by apply shows_message|done].
  - intros m Hm Ht. destruct (surfaced o) as [m'|] eqn:Eo; [|by apply (Hterm2 m)].
    apply elem_of_cons in Hm as [->|Hm]; [by apply Hmono2, (Hterm m')|by apply (Hterm2 m)].
Qed.

Lemma response_not_frame f r :
  message_ok (Response r) = true → (json_depth (message_to_value (Response r)) <= RECURSION_LIMIT)%nat →
  progress_frame f (to_string (message_to_value (Response r))) = None.
Proof.
  intros Hm Hd. unfold progress_frame. rewrite from_str_to_string by (by apply message_to_value_exact || done).
  cbn [mbind option_bind]. destruct r as [j i x]. unfold de_notification.
  cbn [message_to_value json_norm map fst snd resp_jsonrpc resp_id resp_result].
  rewrite !obj_get_of_list by done. cbn. done.
Qed.

(** A response in one event. *)
Lemma receive_response now event_id event r c :
  let m := Response r in
  carries event_id event m → lru_contains (ev_id event) (c_seen c) = false → c_engine c = None →
  message_ok m = true → (json_depth (message_to_value m) <= RECURSION_LIMIT)%nat →
  str_len (to_string (message_to_value m)) ≤ MAX_MESSAGE_SIZE →
  ClientStore.contains event_id (c_pending c) = true →
  let c' := handle now event c in
  c_oversized c' = c_oversized c ∧ c_consumer c' = c_consumer c ++ [m] ∧
  ClientStore.contains event_id (c_pending c') = false.
Proof.
  intros m Hcar Hseen He Hm Hd Hlen Hp.
  destruct (handle_carried now event_id event m c Hcar Hseen) as (c1 & (Hp1 & Ho1 & He1 & Hc1) & Hh & _).
  cbv zeta. rewrite Hh. unfold handle_content, m. rewrite !response_not_frame by done.
  replace (if sc_enabled (cc_open_stream config) then None else None : option JsonRpcNotification)
    with (@None JsonRpcNotification) by by destruct (sc_enabled _).
  unfold handle_plain, correlated. rewrite Hp1, Hp. cbn [negb]. fold m.
  assert (validate_and_parse (to_string (message_to_value m)) = Some m) as ->.
  { unfold validate_and_parse, validate_message_size. rewrite (proj2 (Z.leb_le _ _)) by done. by apply parse_message_text. }
  assert (terminal_message m = true) as Ht by done. subst m. cbn iota. rewrite deliver_terminal_pending, Ht. rewrite remove_contains, String.eqb_refl.
  unfold deliver_terminal, consume_terminal_response. rewrite Ht.
  destruct (ClientStore.remove _ _). cbn. rewrite He1, He. cbn. by rewrite Hc1, Ho1.
Qed.
End receiving.

(** ** The channel between the two *)

(** What the client's keys and codec make of the events of the server: a signed
    event is of the server, verifies and survives its JSON; a wrap for the client
    decrypts to the text that was wrapped. *)
Record channel (server client : Nostr) (server_pubkey client_pk : string) : Prop := {
  ch_signed n b e : @pool_sign server n b = Ok e →
    ev_pubkey e = server_pubkey ∧ ev_kind e = eb_kind b ∧ ev_tags e = eb_tags b ∧ ev_content e = eb_content b ∧
    @event_verify client e = true ∧ @event_from_json client (@event_to_json server e) = Some e;
  ch_wrapped n text cipher kind w : @ephemeral_encrypt server n client_pk text = Ok cipher →
    @ephemeral_sign server n (mkBuilder kind cipher [public_key_tag client_pk]) = Ok w →
    ev_kind w = kind ∧ @nip44_decrypt client (ev_pubkey w) (ev_content w) = Ok text;
  ch_signer n : is_ok (@pool_signer client n) = true;
}.

(** The client's policy lets such a wrap, or no wrap, in. *)
Definition accepts_wrap (config : NostrClientTransportConfig) (wrapped : option Z) : Prop :=
  match wrapped with
  | None => cc_encryption_mode config ≠ EncRequired
  | Some kind => cc_encryption_mode config ≠ EncDisabled ∧ allows_kind (cc_gift_wrap_mode config) kind = true
  end.

Lemma delivered_carries `{Lru L} `{SerdeJson} (server client : Nostr) sconfig config server_pubkey client_pk eid o :
  channel server client server_pubkey client_pk → accepts_wrap config (ob_wrapped o) →
  @delivered_to _ server sconfig client_pk eid o →
  @carries L _ _ client config server_pubkey eid (ob_event o) (ob_message o).
Proof.
  intros [Hsigned Hwrapped Hsigner] Hacc [_ _ Habout (net & id & enc & gw & Hp & Hw)]. revert Hp. rewrite Hw in Hacc.
  unfold prepare_mcp_message, create_signed_event. destruct (pool_sign _ _) as [e|] eqn:Es; cbn; [|done].
  destruct (Hsigned _ _ _ Es) as (Hpk & Hk & Ht & Hc & Hv & Hj). cbn in Hk, Ht, Hc.
  unfold wrapped_kind in Hacc. destruct (should_encrypt _ _ _); cbn in Hacc.
  - unfold wrap_event. destruct (@pool_signer server _); cbn; [|done].
    unfold gift_wrap_single_layer_with_kind. destruct (negb _ && negb _); cbn; [done|].
    unfold encrypt_nip44. destruct (ephemeral_encrypt _ _ _) as [cipher|] eqn:Ee; cbn; [|done].
    destruct (ephemeral_sign _ _) as [w|] eqn:Ew; cbn; [|done]. intros [= _ <-].
    destruct (Hwrapped _ _ _ _ _ Ee Ew) as [Hwk Hd]. destruct Hacc as [Hmode Hallow].
    exists e. split_and!; [|done|done|by rewrite Ht]. intros c Hseen. unfold open_event.
    assert (is_gift_wrap_kind (default GIFT_WRAP_KIND gw) = true) as Hg
      by (revert Hallow; unfold allows_kind, is_gift_wrap_kind; destruct (cc_gift_wrap_mode config); intros; b2p; lia).
    rewrite Hwk, Hallow, Hseen, Hg. unfold violates_encryption_policy. rewrite Hg.
    replace (bool_decide (cc_encryption_mode config = EncDisabled)) with false by (symmetry; by apply bool_decide_eq_false).
    cbn. specialize (Hsigner (length (c_net c))). destruct (pool_signer _); cbn in Hsigner |- *; [|done].
    unfold decrypt_gift_wrap_single_layer, decrypt_nip44. rewrite Hd. cbn. by rewrite Hj, Hv.
  - intros [= _ <-]. exists e. split_and!; [|done|done|by rewrite Ht]. intros c _.
    unfold open_event, violates_encryption_policy. rewrite Hk. by destruct (cc_encryption_mode config).
Qed.

(** ** From the handler of the server to the consumer of the client *)

Section end_to_end.
Context `{Lru LS, !LruLaws LS} `{Lru LC, !LruLaws LC} `{SerdeJson} `{!SerdeJsonLaws} `{Sha256}.
Variable server client : Nostr.
Variable config : NostrClientTransportConfig.
Variable server_pubkey : string.
Variable options : ClientPaymentsOptions.
Implicit Types c : ClientTransport LC.

(** A client that waits for the answer to [eid] and has not seen these events. *)
Record awaits (eid : string) (token : option string) (m : JsonRpcMessage) (sent : list Outbound) c : Prop := {
  aw_engine : c_engine c = None;
  aw_pending : ClientStore.contains eid (c_pending c) = true;
  aw_room : admits (c_oversized c) token (to_string (message_to_value m)) (length sent);
  aw_whole : length sent = 1%nat → str_len (to_string (message_to_value m)) ≤ MAX_MESSAGE_SIZE;
  aw_wraps : Forall (λ o, accepts_wrap config (ob_wrapped o)) sent;
  aw_ids : NoDup (ev_id ∘ ob_event <$> sent);
  aw_unseen o : o ∈ sent → lru_contains (ev_id (ob_event o)) (c_seen c) = false;
}.

Local Abbreviation receive := (@receive_all LC _ _ _ client config server_pubkey options).

Lemma receive_sent_response eid token m sent c now :
  message_ok m = true → is_response m = true → (json_depth (message_to_value m) <= RECURSION_LIMIT)%nat →
  awaits eid token m sent c → Forall (λ o, @carries LC _ _ client config server_pubkey eid (ob_event o) (ob_message o)) sent →
  (map ob_message sent = [m] ∨
   ∃ tok size built, token = Some tok ∧
     build_oversized_frames (to_string (message_to_value m))
       (with_chunk_size (OversizedSenderOptions_new tok) size) = Ok built ∧
     map ob_message sent = map Notification (into_ordered built)) →
  let c' := receive now (map ob_event sent) c in
  (∃ l, c_consumer c' = c_consumer c ++ l ∧ shows l [m]) ∧ c_oversized c' = c_oversized c ∧
  ClientStore.contains eid (c_pending c') = false.
Proof.
  intros Hm Hresp Hd [He Hp Hroom Hwhole _ Hids Huns] Hcar [Hms|(tok & size & built & -> & Hb & Hms)] c'; subst c'.
  - destruct sent as [|o [|]]; try done. injection Hms as Hom. rewrite Forall_singleton, Hom in Hcar.
    destruct m as [|r| |]; try done. cbn.
    destruct (receive_response config server_pubkey options now eid (ob_event o) r c) as (Ho & Hc & Hpd); auto.
    { apply Huns. set_solver. }
    split_and!; [|done|done]. exists [Response r]. split; [done|]. apply shows_message, shows_nil.
  - assert (length sent = length (into_ordered built)) as Hlen
      by (apply (f_equal length) in Hms; by rewrite !length_map in Hms).
    rewrite Hlen in Hroom.
    pose proof (client_reads_built now (c_oversized c) m tok size built Hm Hd Hb Hroom) as Hread.
    rewrite client_reads_frames in Hread by by eapply built_frames_are_frames.
    pose proof (receive_frames config server_pubkey options now eid (map ob_event sent) (into_ordered built) c) as Hf.
    destruct (process_frames (c_oversized c) (map (pair now) (into_ordered built))) as [r os].
    injection Hread as -> Hos. rewrite Hos in Hf.
    destruct Hf as (Ho & Hl & _ & Hpd).
    + pose proof (built_frame_notifications _ _ _ (ad_width _ _ _ _ Hroom) Hb) as Hfn. revert Hms Hcar Hfn. clear.
      generalize (into_ordered built). induction sent as [|o sent IH]; intros [|n ns]; cbn; try done.
      intros [= Ho Hms] [Hco Hcar]%Forall_cons [Hn Hfn]%Forall_cons. constructor; [|by apply IH]. by rewrite <- Ho.
    + by rewrite <- list_fmap_compose.
    + intros e (o & -> & Hin)%list_elem_of_fmap. by apply Huns.
    + done.
    + split_and!; [done|done|]. apply (Hpd m); [set_solver|by destruct m].
Qed.

(** A response travels from the handler of the server to the consumer of the
    client.  Take a request with a live route, no stream, a client with a session,
    and a handler whose [send_response] returns [Ok]; take a client that waits for
    that request, whose reassembler has room, whose policy lets the published
    wraps in and which has not seen them.  Once the client's event loop has
    handled the published events in order, its consumer has received the response,
    with the id the client's request had, exactly once (among progress
    notifications, when the response was fragmented), the request is no longer
    pending, and the reassembler is as it was. *)
Theorem response_end_to_end sconfig now now' event_id response route (t t' : Transport LS) client_pk eid :
  channel server client server_pubkey client_pk →
  t_slots t !! event_id = None → entry (routes (t_routes t)) event_id = Some route →
  is_Some (entry (t_sessions t) (route_client_pubkey route)) →
  @pubkey_from_hex server (route_client_pubkey route) = Ok client_pk → @event_id_from_hex server event_id = Ok eid →
  @send_response LS _ _ _ server sconfig now event_id response t = (t', Ok tt) →
  let m := restore_id (original_request_id route) response in
  message_ok m = true → is_response m = true → (json_depth (message_to_value m) <= RECURSION_LIMIT)%nat →
  ∃ sent, t_net t' = t_net t ++ sent ∧
    ∀ c, awaits eid (route_progress_token route) m sent c →
      let c' := receive now' (map ob_event sent) c in
      (∃ l, c_consumer c' = c_consumer c ++ l ∧ shows l [m]) ∧ c_oversized c' = c_oversized c ∧
      ClientStore.contains eid (c_pending c') = false.
Proof.
  intros Hch Hslot Hroute Hsess Hpk Heid Hsend m Hm Hresp Hd.
  destruct (@send_response_sent LS _ _ _ _ server sconfig now event_id response route t t' client_pk eid Hslot Hroute Hsess Hpk Heid Hsend)
    as ((sent & Hnet & Hdel & Hms) & _). exists sent. split; [done|]. intros c Haw.
  eapply receive_sent_response; [done|done|done|done| |done].
  apply Forall_forall. intros o Hin. rewrite Forall_forall in Hdel.
  pose proof (aw_wraps _ _ _ _ _ Haw) as Hw. rewrite Forall_forall in Hw.
  exact (delivered_carries server client sconfig config server_pubkey client_pk eid o Hch (Hw o Hin) (Hdel o Hin)).
Qed.
End end_to_end.

(** ** A concrete exchange *)

(** alice, whose request is ["event-a"]. *)
Definition alice_nostr : Nostr :=
  let n := demo_nostr (λ _, false) in {|
  pubkey_from_hex := @pubkey_from_hex n; event_id_from_hex := @event_id_from_hex n;
  event_verify := @event_verify n; event_to_json := @event_to_json n; event_from_json := @event_from_json n;
  pool_sign _ b := Ok (mkEvent "event-a" "alice" (eb_kind b) (eb_tags b) (eb_content b));
  pool_signer := @pool_signer n; pool_publish_event := @pool_publish_event n;
  ephemeral_encrypt := @ephemeral_encrypt n; ephemeral_sign := @ephemeral_sign n; nip44_decrypt := @nip44_decrypt n;
|}.
Definition plain_config : NostrClientTransportConfig :=
  let c := demo_client_config in
  mkClientConfig (cc_relay_urls c) (cc_server_pubkey c) EncDisabled (cc_gift_wrap_mode c) (cc_is_stateless c)
    (cc_timeout c) (cc_discovery_relay_urls c) (cc_fallback_operational_relay_urls c) (cc_oversized_transfer c)
    (cc_open_stream c) (cc_payment_interaction c) (cc_pmis c).
Definition alice : ClientTransport list_cache :=
  @client_run list_cache list_lru bits_serde id_sha256 alice_nostr plain_config "serve" "2025"
    demo_client_options (@initial_client list_cache list_lru plain_config)
    [StartTransport 0 demo_start; SendMessage token_request; run_first_task 1 0; run_first_task 1 0].

Lemma value_event_value e : @from_str bits_serde (@to_string bits_serde (event_value e)) ≫= value_event = Some e.
Proof.
  cbn [from_str to_string bits_serde]. rewrite text_pos_text, decode_encode. cbn [mbind option_bind].
  rewrite tree_value_tree. destruct e as [id pk k ts content]. unfold event_value, value_event.
  cbn [ev_id ev_pubkey ev_kind ev_tags ev_content json_norm map]. rewrite map_map.
  assert (mapM (λ t, match t with VArray l => mapM as_str l | _ => None end)
    (map (λ t, json_norm (VArray (map VString t))) ts) = Some ts) as ->; [|done].
  induction ts as [|t ts IH]; [done|]. cbn [map mapM]. rewrite IH. cbn [json_norm]. rewrite map_map. cbn [json_norm].
  assert (mapM as_str (map (λ x, VString x) t) = Some t) as ->; [|done].
  clear. induction t as [|x t IH]; [done|]. cbn [map mapM]. by rewrite IH.
Qed.

Lemma demo_channel : channel (demo_nostr (λ _, false)) alice_nostr "serve" "alice".
Proof.
  split.
  - intros n b e [= <-]. split_and!; try done. apply value_event_value.
  - by intros n text cipher kind w [= <-] [= <-].
  - done.
Qed.

(** The relay pool numbers its events. *)
Lemma numbered_ids_nodup (sent : list Outbound) (n : nat) :
  bool_decide (map (ev_id ∘ ob_event) sent = map (λ i, "event-" +:+ show_Z (Z.of_nat i)) (seq 0 n)) = true →
  NoDup (ev_id ∘ ob_event <$> sent).
Proof.
  intros Hids%bool_decide_eq_true. change (NoDup (map (ev_id ∘ ob_event) sent)). rewrite Hids.
  apply (NoDup_fmap_2 _), NoDup_seq.
Qed.

(** The server that heard alice's event, and its answer. *)
Definition heard : Transport list_cache :=
  demo_server (λ _, false) config_small (map (λ o, ServerInbound.Receive 1 (ob_event o)) (c_net alice)).
Abbreviation answered := (demo_respond (λ _, false) heard).

Lemma response_end_to_end_witness :
  let c' := @receive_all list_cache _ bits_serde id_sha256 alice_nostr plain_config "serve" demo_client_options 5
              (map ob_event (t_net answered.1)) alice in
  (length (t_net answered.1) > 100)%nat ∧
  (∃ l, c_consumer c' = l ∧ shows l [long_response_7]) ∧ ClientStore.contains "event-a" (c_pending c') = false.
Proof.
  set (x := answered). cbv zeta.
  assert (length (t_net x.1) = 712%nat) as Hlen by by vm_compute.
  split; [rewrite Hlen; lia|].
  assert (x.2 = Ok tt) as Hok by by vm_compute.
  assert (t_net heard = []) as Hnil by by vm_compute.
  assert (c_consumer alice = []) as Hc by by vm_compute.
  destruct (@response_end_to_end list_cache _ _ list_cache _ _ bits_serde bits_serde_laws id_sha256 (demo_nostr (λ _, false))
    alice_nostr plain_config "serve" demo_client_options config_small 2 5 "event-a" long_response asked_route heard x.1
    "alice" "event-a" demo_channel) as (sent & Hn & Hread);
    [by vm_compute|by vm_compute|by apply lru_contains_entry|done|done|exact (pair_snd x (Ok tt) Hok)|done|done
    |vm_compute; repeat constructor|].
  rewrite Hnil in Hn. cbn [app] in Hn. rewrite Hn. rewrite Hn in Hlen.
  destruct (Hread alice) as ((l & Hl & Hs) & _ & Hp).
  - split.
    + by vm_compute.
    + by vm_compute.
    + rewrite Hlen. split; [intros ? [= <-]; by split|..].
      * apply Z.leb_le. by vm_compute.
      * apply Z.leb_le. by vm_compute.
      * apply Z.ltb_lt. by vm_compute.
      * apply Z.leb_le. by vm_compute.
      * apply Z.ltb_lt. by vm_compute.
    + by rewrite Hlen.
    + rewrite <- Hn. apply Forall_forall. intros o Ho.
      assert (forallb (λ o, match ob_wrapped o with None => true | _ => false end) (t_net x.1) = true) as Hw by by vm_compute.
      rewrite forallb_forall in Hw. apply list_elem_of_In in Ho. specialize (Hw o Ho). clear Ho.
      destruct (ob_wrapped o); [discriminate Hw|discriminate].
    + rewrite <- Hn. apply (numbered_ids_nodup _ 712). by vm_compute.
    + intros o _. reflexivity.
  - split; [|exact Hp]. exists l. split; [|exact Hs]. rewrite Hl, Hc. reflexivity.
Defined.
