(* ===== verification/Lifecycle.v ===== *)
(** * Starting and stopping

    The life cycle of the two transports as their owners see it: construction,
    registration of payments, [start], the message receiver and [close] of
    [src/transport/server/mod.rs] and [src/transport/client/mod.rs], and the two
    facades on top of them, [src/gateway/mod.rs] and [src/proxy/mod.rs].  The facades
    are proved against the interface [LifecycleTransport], which both transports
    implement. *)

From S2P Require Import Prelude Json CoreTypes OversizedFrame OversizedCodec Instances OversizedReceiver Lru Authorization RouteStore SessionStore OpenStreamFrame OpenStreamSession OpenStreamRegistry OpenStreamWriter PaymentTypes ServerTasks ServerPayments BaseTransport Announcements Discovery ServerNegotiation ServerState ServerOutbound ServerStreams ServerInbound ClientPayments ClientState ClientOutbound ClientInbound.

(** ** The server transport *)

Module Server.

(** What [start] hands to the event loop. *)
Record Captured : Type := mkCaptured {
  cap_middlewares : list middleware;
  cap_supports_explicit_gating : bool;
  cap_tag_sources : ResponseTagSources;
  cap_common_tags : CommonTagsSnapshot;
}.

(** The tasks behind [task_handles]. *)
Inductive background : Type :=
| EventLoop (captured : Captured)
| CleanupTask
| AnnouncementTask
| DiscoverabilityTask (events : list (list string * EventBuilder)).

(** The fields of [NostrServerTransport] outside [Transport]: [message_tx] and
    [message_rx] are whether the ends of the channel are still held. *)
Record NostrServerTransport (L : Type → Type) : Type := mkServerTransport {
  transport : Transport L;
  is_connected : bool;
  supported_payment_interaction : option PaymentInteractionPolicy;
  inbound_middlewares : list middleware;
  message_tx : bool;
  message_rx : bool;
  task_handles : list background;
}.
Arguments mkServerTransport {L}.
Arguments transport {L}.
Arguments is_connected {L}.
Arguments supported_payment_interaction {L}.
Arguments inbound_middlewares {L}.
Arguments message_tx {L}.
Arguments message_rx {L}.
Arguments task_handles {L}.

(** What the relay pool answers to [start]. *)
Record start_answers : Type := mkStartAnswers {
  sa_connect : result unit Error;
  sa_public_key : result string Error;
  sa_subscribe : result unit Error;
}.

Section server.
Context `{Lru L} `{SerdeJson} `{JsonCanon} `{Sha256} `{Nostr}.
Variable config : NostrServerTransportConfig.
Implicit Types s : NostrServerTransport L.

Definition set_transport s (t : Transport L) : NostrServerTransport L :=
  mkServerTransport t (is_connected s) (supported_payment_interaction s) (inbound_middlewares s) (message_tx s)
    (message_rx s) (task_handles s).
Definition set_connected s b : NostrServerTransport L :=
  mkServerTransport (transport s) b (supported_payment_interaction s) (inbound_middlewares s) (message_tx s)
    (message_rx s) (task_handles s).
Definition set_middlewares s ms : NostrServerTransport L :=
  mkServerTransport (transport s) (is_connected s) (supported_payment_interaction s) ms (message_tx s)
    (message_rx s) (task_handles s).
Definition set_channel s tx rx : NostrServerTransport L :=
  mkServerTransport (transport s) (is_connected s) (supported_payment_interaction s) (inbound_middlewares s) tx rx
    (task_handles s).
Definition set_tasks s hs : NostrServerTransport L :=
  mkServerTransport (transport s) (is_connected s) (supported_payment_interaction s) (inbound_middlewares s)
    (message_tx s) (message_rx s) hs.

(** [with_relay_pool]; the bounds are those of the payment stores. *)
Definition with_relay_pool (max_entries max_pending_payments : Z) : NostrServerTransport L :=
  mkServerTransport (transport_new config max_entries max_pending_payments) false None [] true true [].

(** [new] builds the relay pool first. *)
Definition new `{NostrClient} (max_entries max_pending_payments : Z) : result (NostrServerTransport L) Error :=
  let? _ := RelayPool.new in
  Ok (with_relay_pool max_entries max_pending_payments).

Definition is_started s : bool := negb (bool_decide (length (task_handles s) = 0%nat)).

Definition add_inbound_middleware (m : middleware) s : NostrServerTransport L :=
  set_middlewares s (inbound_middlewares s ++ [m]).
Definition set_supported_payment_interaction (policy : PaymentInteractionPolicy) s : NostrServerTransport L :=
  mkServerTransport (transport s) (is_connected s) (Some policy) (inbound_middlewares s) (message_tx s)
    (message_rx s) (task_handles s).

(** [with_server_payments] on the whole transport. *)
Definition with_payments (options : ServerPaymentsOptions) s : result (NostrServerTransport L) Error :=
  let m := t_manager (transport s) in
  match with_server_payments
          (mkPaymentsTransport (is_started s) (supported_payment_interaction s) (am_extra_common_tags m)
             (am_pricing_tags m) (inbound_middlewares s)) options with
  | Err e => Err (EOther e)
  | Ok p =>
      let m := Manager.set_pricing_tags (announcement_pricing_tags p)
                 (Manager.set_extra_common_tags (announcement_extra_tags p) m) in
      Ok (mkServerTransport (with_manager (transport s) m) (is_connected s)
            (ServerPayments.supported_payment_interaction p) (ServerPayments.inbound_middlewares p)
            (message_tx s) (message_rx s) (task_handles s))
  end.

(** What the event loop is started with. *)
Definition capture s : NostrServerTransport L * Captured :=
  let t := transport s in
  let snapshot := common_tags_snapshot (t_manager t) in
  let '(m, common) := Manager.get_common_tags (t_manager t) in
  let captured :=
    mkCaptured (inbound_middlewares s)
      (bool_decide (supported_payment_interaction s = Some PolicyOptional))
      (mkTagSources common (Manager.get_pricing_tags m)) snapshot in
  (set_middlewares (set_transport s (with_manager t m)) [], captured).

(** [start]: the state, the subscription and the result; the [expect] on
    [message_tx] is the only panic. *)
Definition start (now : Z) (sa : start_answers) s
  : NostrServerTransport L * list InboxFilter * call (result unit Error) :=
  let '(connected, _, res) := connect (is_connected s) (sa_connect sa) in
  let s := set_connected s connected in
  match (let? _ := res in sa_public_key sa) with
  | Err e => (s, [], Returned (Err e))
  | Ok pubkey =>
      let filters := subscribe_for_pubkey now pubkey in
      match sa_subscribe sa with
      | Err e => (s, filters, Returned (Err e))
      | Ok _ =>
          if negb (message_tx s) then (s, filters, Panicked)
          else
            let '(s, captured) := capture s in
            (set_tasks s (task_handles s ++ [EventLoop captured; CleanupTask]), filters, Returned (Ok tt))
      end
  end.

Definition spawn_discoverability_publication s : NostrServerTransport L :=
  set_tasks s (task_handles s
    ++ [DiscoverabilityTask (Manager.spawn_publish_discoverability (t_manager (transport s)))]).

(** [spawn_announcements]; spawning the announcement task panics when the manager
    has dropped its sender. *)
Definition spawn_announcements s : call (NostrServerTransport L) :=
  if cfg_is_announced_server config then
    if am_dispatch_fn (t_manager (transport s))
    then Returned (spawn_discoverability_publication (set_tasks s (task_handles s ++ [AnnouncementTask])))
    else Panicked
  else Returned (spawn_discoverability_publication s).

Definition take_message_receiver s : NostrServerTransport L * bool :=
  (set_channel s (message_tx s) false, message_rx s).

(** [close], once the tasks were joined: an error of the relay pool leaves the
    stores as they are. *)
Definition close (answer : result unit Error) s : NostrServerTransport L * result unit Error :=
  let t := transport s in
  let t := with_alive (with_manager t (Manager.shutdown (t_manager t))) false in
  let s := set_channel (set_tasks (set_transport s t) []) false (message_rx s) in
  let '(connected, _, res) := disconnect (is_connected s) answer in
  let s := set_connected s connected in
  match res with
  | Err e => (s, Err e)
  | Ok _ => (set_transport s (close_transport t), Ok tt)
  end.
End server.
End Server.
Abbreviation NostrServerTransport := Server.NostrServerTransport.

(** ** The client transport *)

Module Client.

(** [receiver] is whether [message_rx] is still there. *)
Record NostrClientTransport (L : Type → Type) : Type := mkClientTransport {
  transport : ClientTransport L;
  receiver : bool;
}.
Arguments mkClientTransport {L}.
Arguments transport {L}.
Arguments receiver {L}.

Section client.
Context `{Lru L} `{Nostr}.
Implicit Types s : NostrClientTransport L.

(** [start] of any transport: without a sender it panics once it is subscribed. *)
Definition start (now : Z) (sa : start_answers) s
  : NostrClientTransport L * list InboxFilter * call (result unit Error) :=
  let c := transport s in
  let '(started, filters, res) := ClientInbound.start now sa c in
  match res with
  | Err e => (mkClientTransport started (receiver s), filters, Returned (Err e))
  | Ok _ =>
      if c_open c then (mkClientTransport started (receiver s), filters, Returned (Ok tt))
      else (mkClientTransport (set_connected c (c_connected started)) (receiver s), filters, Panicked)
  end.

Definition take_message_receiver s : NostrClientTransport L * bool :=
  (mkClientTransport (transport s) false, receiver s).

(** [close], from the disposal of the engine to the end, the event loop having ended
    when it was joined. *)
Definition close (answer : result unit Error) s : NostrClientTransport L * result unit Error :=
  let '(c, res) := close_finish answer (set_running (close_begin (transport s)) false) in
  (mkClientTransport c (receiver s), res).
End client.
End Client.
Abbreviation NostrClientTransport := Client.NostrClientTransport.

(** ** The interface of the facades *)

Class LifecycleTransport (T A : Type) : Type := {
  lt_start : A → T → T * call (result unit Error);
  lt_take_message_receiver : T → T * bool;
  lt_close : result unit Error → T → T * result unit Error;
  lt_sender : T → bool;
  lt_receiver : T → bool;
  lt_accepts : A → T → bool;
}.

(** A start that succeeds needs the sender, a start that panics is for the want of it
    and a start that fails was refused; no start takes the receiver or the sender;
    closing drops the sender for good, and fails only when the pool does. *)
Class LifecycleLaws (T A : Type) `{LifecycleTransport T A} : Prop := {
  lt_start_law a t :
    let '(t', res) := lt_start a t in
    lt_sender t' = lt_sender t ∧ lt_receiver t' = lt_receiver t ∧
    match res with
    | Returned (Ok _) => lt_sender t = true
    | Returned (Err _) => lt_accepts a t = false
    | Panicked => lt_sender t = false
    end;
  lt_take_law t :
    let '(t', taken) := lt_take_message_receiver t in
    taken = lt_receiver t ∧ lt_sender t' = lt_sender t ∧ lt_receiver t' = false;
  lt_close_law answer t :
    let '(t', res) := lt_close answer t in
    lt_sender t' = false ∧ lt_receiver t' = lt_receiver t ∧ (is_ok res = false → is_ok answer = false);
}.

(** ** The facades *)

Record Facade (T : Type) : Type := mkFacade {
  fa_transport : T;
  is_running : bool;
}.
Arguments mkFacade {T}.
Arguments fa_transport {T}.
Arguments is_running {T}.

Section facade.
Context `{LifecycleTransport T A}.
(** ["Gateway"] or ["Proxy"]. *)
Variable name : string.

(** [start]; [Ok] stands for the receiver. *)
Definition facade_start (a : A) (f : Facade T) : Facade T * call (result unit Error) :=
  if is_running f then (f, Returned (Err (EOther (name +:+ " already running"))))
  else
    match lt_start a (fa_transport f) with
    | (t, Panicked) => (mkFacade t false, Panicked)
    | (t, Returned (Err e)) => (mkFacade t false, Returned (Err e))
    | (t, Returned (Ok _)) =>
        let '(t, taken) := lt_take_message_receiver t in
        (mkFacade t true, Returned (if taken then Ok tt else Err (EOther "Message receiver already taken")))
    end.

Definition facade_stop (answer : result unit Error) (f : Facade T) : Facade T * result unit Error :=
  if negb (is_running f) then (f, Ok tt)
  else
    let '(t, res) := lt_close answer (fa_transport f) in
    match res with
    | Err e => (mkFacade t true, Err e)
    | Ok _ => (mkFacade t false, Ok tt)
    end.

Inductive facade_op : Type :=
| StartFacade (a : A)
| StopFacade (answer : result unit Error).

Inductive outcome : Type :=
| GotReceiver
| Stopped
| Failed (e : Error)
| Panics.

Definition facade_step (f : Facade T) (op : facade_op) : Facade T * outcome :=
  match op with
  | StartFacade a =>
      let '(f, res) := facade_start a f in
      (f, match res with Returned (Ok _) => GotReceiver | Returned (Err e) => Failed e | Panicked => Panics end)
  | StopFacade answer =>
      let '(f, res) := facade_stop answer f in
      (f, match res with Ok _ => Stopped | Err e => Failed e end)
  end.

Fixpoint facade_run (f : Facade T) (ops : list facade_op) : Facade T * list outcome :=
  match ops with
  | [] => (f, [])
  | op :: ops =>
      let '(f, o) := facade_step f op in
      let '(f, os) := facade_run f ops in (f, o :: os)
  end.

(** ** What they promise *)

(** Not started, started and not stopped, stopped for good. *)
Inductive phase : Type := Fresh | Running | Over.

Inductive life : phase → facade_op → outcome → phase → Prop :=
| life_start a : life Fresh (StartFacade a) GotReceiver Running
| life_start_fails p a e : p ≠ Running → life p (StartFacade a) (Failed e) p
| life_start_twice a : life Running (StartFacade a) (Failed (EOther (name +:+ " already running"))) Running
| life_start_over a : life Over (StartFacade a) Panics Over
| life_stop_idle p answer : p ≠ Running → life p (StopFacade answer) Stopped p
| life_stop answer : life Running (StopFacade answer) Stopped Over
| life_stop_fails answer e : is_ok answer = false → life Running (StopFacade answer) (Failed e) Running.

Inductive lives : phase → list facade_op → list outcome → phase → Prop :=
| lives_nil p : lives p [] [] p
| lives_cons p op o p1 ops os p2 : life p op o p1 → lives p1 ops os p2 → lives p (op :: ops) (o :: os) p2.

Definition in_phase (f : Facade T) (p : phase) : Prop :=
  match p with
  | Fresh => is_running f = false ∧ lt_sender (fa_transport f) = true ∧ lt_receiver (fa_transport f) = true
  | Running => is_running f = true
  | Over => is_running f = false ∧ lt_sender (fa_transport f) = false
  end.

Definition got_receiver (o : outcome) : bool := match o with GotReceiver => true | _ => false end.

(** The receiver is handed out once, and only to a facade that was not started. *)
Lemma lives_receiver_once p ops os p' :
  lives p ops os p' → (length (List.filter got_receiver os) <= match p with Fresh => 1 | _ => 0 end)%nat.
Proof.
  induction 1 as [p|p op o p1 ops os p2 Hl _ IH]; cbn; [destruct p; lia|].
  destruct Hl as [| [] | | | [] | |]; cbn in *; lia.
Qed.

Context `{!LifecycleLaws T A}.

Lemma facade_step_life f op p :
  in_phase f p → ∃ p', life p op (facade_step f op).2 p' ∧ in_phase (facade_step f op).1 p'.
Proof.
  destruct f as [t running]. destruct op as [a|answer]; cbn; unfold facade_start, facade_stop; cbn.
  - destruct running; [intros Hp|].
    { destruct p; cbn in Hp; try (by destruct Hp). exists Running. split; [apply life_start_twice|done]. }
    pose proof (lt_start_law a t) as Hs. destruct (lt_start a t) as [t1 [[[]|e]|]]; destruct Hs as (Hs1 & Hs2 & Hs3); intros Hp.
    + pose proof (lt_take_law t1) as Ht. destruct (lt_take_message_receiver t1) as [t2 taken].
      destruct Ht as (-> & Ht2 & Ht3). destruct p; cbn in Hp; [|done|destruct Hp as [_ Hp]; congruence].
      destruct Hp as (_ & _ & Hr). rewrite Hs2, Hr. exists Running. split; [apply life_start|done].
    + exists p. destruct p; cbn in Hp |- *; [|done|]; rewrite Hs1, ?Hs2; (split; [by apply life_start_fails|done]).
    + destruct p; cbn in Hp; [destruct Hp as (_ & Hp & _); congruence|done|]. exists Over. split; [apply life_start_over|].
      cbn. by rewrite Hs1.
  - destruct running; cbn.
    + pose proof (lt_close_law answer t) as Hc. destruct (lt_close answer t) as [t1 [[]|e]]; destruct Hc as (Hc1 & _ & Hc3).
      * intros Hp. exists Over. destruct p; cbn in Hp; try (by destruct Hp). split; [apply life_stop|done].
      * intros Hp. exists Running. destruct p; cbn in Hp; try (by destruct Hp). split; [apply life_stop_fails; by apply Hc3|done].
    + intros Hp. exists p. split; [|done]. apply life_stop_idle. by intros ->.
Qed.

(** A start the relays accept is decided by the phase alone. *)
Lemma facade_start_accepted f a p :
  in_phase f p → lt_accepts a (fa_transport f) = true →
  (facade_step f (StartFacade a)).2 =
  match p with
  | Fresh => GotReceiver
  | Running => Failed (EOther (name +:+ " already running"))
  | Over => Panics
  end.
Proof.
  destruct f as [t running]. cbn. unfold facade_start. cbn. intros Hp Ha. destruct running.
  { destruct p; cbn in Hp; [by destruct Hp|done|by destruct Hp]. }
  pose proof (lt_start_law a t) as Hs. destruct (lt_start a t) as [t1 [[[]|e]|]]; destruct Hs as (Hs1 & Hs2 & Hs3).
  - pose proof (lt_take_law t1) as Ht. destruct (lt_take_message_receiver t1) as [t2 taken].
    destruct Ht as (-> & _). destruct p; cbn in Hp; [|done|destruct Hp as [_ Hp]; congruence].
    destruct Hp as (_ & _ & Hr). by rewrite Hs2, Hr.
  - congruence.
  - destruct p; cbn in Hp; [destruct Hp as (_ & Hp & _); congruence|done..].
Qed.

Lemma facade_run_lives f ops p :
  in_phase f p → ∃ p', lives p ops (facade_run f ops).2 p' ∧ in_phase (facade_run f ops).1 p'.
Proof.
  revert f p. induction ops as [|op ops IH]; intros f p Hp; cbn; [eauto using lives_nil|].
  destruct (facade_step_life f op p Hp) as (p1 & Hl & Hp1). destruct (facade_step f op) as [f1 o]. cbn in Hl, Hp1.
  destruct (IH f1 p1 Hp1) as (p2 & Hls & Hp2). destruct (facade_run f1 ops) as [f2 os].
  exists p2. eauto using lives_cons.
Qed.
End facade.

(** ** The gateway ([gateway/mod.rs]) *)

Module Gateway.

Record GatewayConfig : Type := mkGatewayConfig {
  nostr_config : NostrServerTransportConfig;
  payment_options : option ServerPaymentsOptions;
}.
Definition config_new (nostr_config : NostrServerTransportConfig) : GatewayConfig := mkGatewayConfig nostr_config None.
Definition with_payment_options (payment_options : ServerPaymentsOptions) (config : GatewayConfig) : GatewayConfig :=
  mkGatewayConfig (nostr_config config) (Some payment_options).

Section gateway.
Context `{Lru L} `{SerdeJson} `{JsonCanon} `{Sha256} `{Nostr}.

(** The transport of [start] with the publication the gateway adds to it. *)
#[global] Instance gateway_transport : LifecycleTransport (NostrServerTransport L) (Z * Server.start_answers) := {|
  lt_start a s :=
    let '(s, _, res) := Server.start a.1 a.2 s in
    (if res is Returned (Ok _) then Server.spawn_discoverability_publication s else s, res);
  lt_take_message_receiver := Server.take_message_receiver;
  lt_close := Server.close;
  lt_sender := Server.message_tx;
  lt_receiver := Server.message_rx;
  lt_accepts a _ := is_ok (Server.sa_connect a.2) && is_ok (Server.sa_public_key a.2) && is_ok (Server.sa_subscribe a.2);
|}.

Definition NostrMCPGateway : Type := Facade (NostrServerTransport L).

(** The transport [new] and [serve_handler] build. *)
Definition build `{NostrClient} (max_entries max_pending_payments : Z) (config : GatewayConfig)
  : result (NostrServerTransport L) Error :=
  let? s := Server.new (nostr_config config) max_entries max_pending_payments in
  match payment_options config with
  | Some options => Server.with_payments options s
  | None => Ok s
  end.
Definition new `{NostrClient} (max_entries max_pending_payments : Z) (config : GatewayConfig)
  : result NostrMCPGateway Error :=
  let? s := build max_entries max_pending_payments config in Ok (mkFacade s false).

Definition start (now : Z) (sa : Server.start_answers) (g : NostrMCPGateway)
  : NostrMCPGateway * call (result unit Error) := facade_start "Gateway" (now, sa) g.
Definition stop (answer : result unit Error) (g : NostrMCPGateway) : NostrMCPGateway * result unit Error :=
  facade_stop answer g.
Definition is_active (g : NostrMCPGateway) : bool := is_running g.

Definition send_response (config : NostrServerTransportConfig) (now : Z) (event_id : string)
    (response : JsonRpcMessage) (g : NostrMCPGateway) : NostrMCPGateway * result unit Error :=
  let s := fa_transport g in
  let '(t, res) := ServerOutbound.send_response config now event_id response (Server.transport s) in
  (mkFacade (Server.set_transport s t) (is_running g), res).
Definition announce (publish : EventBuilder → result string Error) (g : NostrMCPGateway)
  : NostrMCPGateway * list EventBuilder * result string Error :=
  let s := fa_transport g in
  let t := Server.transport s in
  let '(m, published, res) := Manager.announce publish (t_manager t) in
  (mkFacade (Server.set_transport s (with_manager t m)) (is_running g), published, res).

Lemma disconnect_ok b answer :
  is_ok answer = true → is_ok (disconnect b answer).2 = true.
Proof. destruct b; [by destruct answer|done]. Qed.

#[global] Instance gateway_laws : LifecycleLaws (NostrServerTransport L) (Z * Server.start_answers).
Proof.
  split.
  - intros [now [ac ap asub]] s. cbn. unfold Server.start. cbn.
    destruct (Server.is_connected s), ac as [[]|e], ap as [pk|e'], asub as [[]|e'']; cbn; try (by split_and!).
    all: destruct (Server.message_tx s) eqn:Etx; cbn; unfold Server.capture; cbn;
      try (destruct (Manager.get_common_tags _)); cbn; by split_and!.
  - intros s. cbn. by split_and!.
  - intros answer s. cbn. unfold Server.close. cbn.
    destruct (disconnect (Server.is_connected s) answer) as [[b c] [[]|e]] eqn:Ed; cbn; split_and!; try done.
    intros _. destruct answer as [[]|]; [|done].
    pose proof (disconnect_ok (Server.is_connected s) (Ok tt) eq_refl) as Hd. by rewrite Ed in Hd.
Qed.
End gateway.
End Gateway.

(** ** The proxy ([proxy/mod.rs]) *)

Module Proxy.

Record ProxyConfig : Type := mkProxyConfig {
  nostr_config : NostrClientTransportConfig;
  payment_options : option ClientPaymentsOptions;
}.
Definition config_new (nostr_config : NostrClientTransportConfig) : ProxyConfig := mkProxyConfig nostr_config None.
Definition with_payment_options (options : ClientPaymentsOptions) (config : ProxyConfig) : ProxyConfig :=
  mkProxyConfig (nostr_config config) (Some options).

Section proxy.
Context `{Lru L} `{SerdeJson} `{Sha256} `{Nostr}.

#[global] Instance proxy_transport : LifecycleTransport (NostrClientTransport L) (Z * ClientInbound.start_answers) := {|
  lt_start a s := let '(s, _, res) := Client.start a.1 a.2 s in (s, res);
  lt_take_message_receiver := Client.take_message_receiver;
  lt_close := Client.close;
  lt_sender s := c_open (Client.transport s);
  lt_receiver := Client.receiver;
  lt_accepts a s :=
    is_ok (pool_signer (length (c_net (Client.transport s)))) && is_ok (ClientInbound.sa_connect a.2)
    && is_ok (ClientInbound.sa_public_key a.2) && is_ok (ClientInbound.sa_subscribe a.2);
|}.

Definition NostrMCPProxy : Type := Facade (NostrClientTransport L).

Definition build `{NostrClient} (config : ProxyConfig) : result (ClientSetup * NostrClientTransport L) Error :=
  let? made := client_new (nostr_config config) in
  let '(setup, c) := made in
  match payment_options config with
  | Some options =>
      let '(c, res) := with_client_payments options c in
      let? _ := res in Ok (setup, Client.mkClientTransport c true)
  | None => Ok (setup, Client.mkClientTransport c true)
  end.
Definition new `{NostrClient} (config : ProxyConfig) : result (ClientSetup * NostrMCPProxy) Error :=
  let? built := build config in Ok (built.1, mkFacade built.2 false).

Definition start (now : Z) (sa : ClientInbound.start_answers) (p : NostrMCPProxy)
  : NostrMCPProxy * call (result unit Error) := facade_start "Proxy" (now, sa) p.
Definition stop (answer : result unit Error) (p : NostrMCPProxy) : NostrMCPProxy * result unit Error :=
  facade_stop answer p.
Definition is_active (p : NostrMCPProxy) : bool := is_running p.
Definition send (message : JsonRpcMessage) (p : NostrMCPProxy) : NostrMCPProxy :=
  let s := fa_transport p in
  mkFacade (Client.mkClientTransport (ClientOutbound.send message (Client.transport s)) (Client.receiver s)) (is_running p).

#[global] Instance proxy_laws : LifecycleLaws (NostrClientTransport L) (Z * ClientInbound.start_answers).
Proof.
  split.
  - intros [now [b1 b2 ac ap asub]] s. cbn. unfold Client.start, ClientInbound.start. cbn.
    destruct (pool_signer _) as [[]|]; cbn; [|by split_and!].
    destruct (c_connected (Client.transport s)), ac as [[]|e], ap as [pk|e'], asub as [[]|e'']; cbn; try (by split_and!).
    all: destruct (c_open (Client.transport s)) eqn:Eo; cbn; by split_and!.
  - intros s. cbn. by split_and!.
  - intros answer s. cbn. unfold Client.close, close_finish.
    match goal with |- context [disconnect ?b answer] =>
      pose proof (Gateway.disconnect_ok b answer) as Hd; destruct (disconnect b answer) as [[? ?] res] end.
    cbn in Hd |- *. split_and!; [done|done|]. intros Hr. destruct (is_ok answer); [|done]. by rewrite Hd in Hr.
Qed.
End proxy.
End Proxy.

(** ** Every life of a gateway and of a proxy *)

Section lives.
Context `{Lru L} `{SerdeJson} `{JsonCanon} `{Sha256} `{Nostr} `{NostrClient}.

Lemma gateway_is_fresh max_entries max_pending config (g : Gateway.NostrMCPGateway (L := L)) :
  Gateway.new max_entries max_pending config = Ok g → in_phase g Fresh.
Proof.
  unfold Gateway.new, Gateway.build, Server.new, RelayPool.new. cbn.
  destruct (Gateway.payment_options config) as [options|]; cbn; [|by intros [= <-]].
  unfold Server.with_payments, with_server_payments. cbn. by intros [= <-].
Qed.

Lemma proxy_is_fresh config setup (p : Proxy.NostrMCPProxy (L := L)) :
  Proxy.new config = Ok (setup, p) → in_phase p Fresh.
Proof.
  unfold Proxy.new, Proxy.build, client_new, with_relay_pool. cbn.
  destruct (parse_server_identity _) as [identity|]; cbn; [|done].
  destruct (Proxy.payment_options config) as [options|]; cbn; [|by intros [= _ <-]].
  intros [= _ <-]. cbn. by destruct (opt_payment_interaction options).
Qed.

(** (C35) A gateway and a proxy live once.  Whatever the sequence of [start] and
    [stop] calls and whatever the relays answer, the calls on a new facade follow
    [life]: the message receiver is handed out once, a second [start] is refused while
    the facade runs, a failed [start] or [stop] can be repeated, [stop] of an idle
    facade does nothing, and a facade that was stopped never runs again, a [start]
    that gets as far as the subscription then panicking.  A [start] that the relays
    accept is decided by this phase alone. *)
Theorem facades_live_once max_entries max_pending gconfig g pconfig setup p gops pops :
  Gateway.new max_entries max_pending gconfig = Ok g → Proxy.new pconfig = Ok (setup, p) →
  let '(g', gos) := facade_run (T := NostrServerTransport L) "Gateway" g gops in
  let '(p', pos) := facade_run (T := NostrClientTransport L) "Proxy" p pops in
  (∃ ph, lives "Gateway" Fresh gops gos ph ∧ in_phase g' ph ∧ (length (List.filter got_receiver gos) <= 1)%nat ∧
     ∀ a, lt_accepts a (fa_transport g') = true →
       (facade_step "Gateway" g' (StartFacade a)).2 =
       match ph with Fresh => GotReceiver | Running => Failed (EOther "Gateway already running") | Over => Panics end) ∧
  (∃ ph, lives "Proxy" Fresh pops pos ph ∧ in_phase p' ph ∧ (length (List.filter got_receiver pos) <= 1)%nat ∧
     ∀ a, lt_accepts a (fa_transport p') = true →
       (facade_step "Proxy" p' (StartFacade a)).2 =
       match ph with Fresh => GotReceiver | Running => Failed (EOther "Proxy already running") | Over => Panics end).
Proof.
  intros Hg%gateway_is_fresh Hp%proxy_is_fresh.
  destruct (facade_run_lives "Gateway" g gops Fresh Hg) as (gp & Hgl & Hgp).
  destruct (facade_run_lives "Proxy" p pops Fresh Hp) as (pp & Hpl & Hpp).
  destruct (facade_run "Gateway" g gops) as [g' gos]. destruct (facade_run "Proxy" p pops) as [p' pos].
  split; [exists gp|exists pp]; (split_and!; [done|done|by eapply lives_receiver_once in Hgl + eapply lives_receiver_once in Hpl|]); intros a Ha.
  - by rewrite (facade_start_accepted "Gateway" g' a gp Hgp Ha); destruct gp.
  - by rewrite (facade_start_accepted "Proxy" p' a pp Hpp Ha); destruct pp.
Qed.
End lives.

(** ** A concrete gateway and a concrete proxy *)

#[local] Existing Instances bits_serde bits_canon id_sha256.
#[local] Instance demo_relays : Nostr := demo_nostr (λ _, false).
#[local] Instance demo_pool : NostrClient := demo_client [].

Definition demo_gateway_config : Gateway.GatewayConfig :=
  Gateway.with_payment_options (ServerPaymentsOptions_new [] []) (Gateway.config_new NostrServerTransportConfig_default).
Definition demo_proxy_config : Proxy.ProxyConfig :=
  let c := demo_client_config in
  Proxy.with_payment_options demo_client_options (Proxy.config_new
    (mkClientConfig (cc_relay_urls c) "serve" (cc_encryption_mode c) (cc_gift_wrap_mode c) (cc_is_stateless c)
      (cc_timeout c) (cc_discovery_relay_urls c) (cc_fallback_operational_relay_urls c) (cc_oversized_transfer c)
      (cc_open_stream c) (cc_payment_interaction c) (cc_pmis c))).
Definition demo_accepts : Server.start_answers := Server.mkStartAnswers (Ok tt) (Ok "serve") (Ok tt).

(** Started twice, stopped, and started again. *)
Lemma facades_live_once_witness :
  match Gateway.new (L := list_cache) 10 10 demo_gateway_config, Proxy.new (L := list_cache) demo_proxy_config with
  | Ok g, Ok (_, p) =>
      (facade_run "Gateway" g [StartFacade (1, demo_accepts); StartFacade (2, demo_accepts); StopFacade (Ok tt)]).2 =
        [GotReceiver; Failed (EOther "Gateway already running"); Stopped] ∧
      (facade_step "Gateway" (facade_run "Gateway" g [StartFacade (1, demo_accepts); StopFacade (Ok tt)]).1
         (StartFacade (3, demo_accepts))).2 = Panics ∧
      (facade_run "Proxy" p [StartFacade (1, demo_start); StopFacade (Err (ETransport "lost")); StopFacade (Ok tt)]).2 =
        [GotReceiver; Failed (ETransport "lost"); Stopped]
  | _, _ => False
  end.
Proof.
  destruct (Gateway.new 10 10 demo_gateway_config) as [g|e] eqn:Eg; [|discriminate Eg].
  destruct (Proxy.new demo_proxy_config) as [[setup p]|e] eqn:Ep; [|discriminate Ep].
  pose proof (facades_live_once 10 10 demo_gateway_config g demo_proxy_config setup p
    [StartFacade (1, demo_accepts); StopFacade (Ok tt)] [] Eg Ep) as Hw.
  split_and!.
  - injection Eg as <-. by vm_compute.
  - destruct (facade_run "Gateway" g [StartFacade (1, demo_accepts); StopFacade (Ok tt)]) as [g' gos] eqn:Er.
    cbn [facade_run] in Hw. destruct Hw as [(ph & _ & Hph & _ & Ha) _].
    cbn [fst]. rewrite (Ha (3, demo_accepts)) by done.
    injection Eg as <-. apply (f_equal fst) in Er. cbn [fst] in Er.
    destruct ph; [exfalso|exfalso|done]; revert Hph; rewrite <- Er; vm_compute; [intros (_ & [=] & _)|intros [=]].
  - injection Ep as _ <-. by vm_compute.
Defined.
