(* ===== verification/RmcpBridge.v ===== *)
(** * The bridge to rmcp

    [src/rmcp_transport]: the conversion between the SDK's JSON-RPC messages and the
    types of the crate [rmcp] ([convert.rs]), the workers that drive a transport for
    an rmcp service ([worker.rs]), and the request options of [progress.rs] and
    [open_stream.rs].  [worker_step] interleaves the server worker with everything
    the transport does on its own. *)

From S2P Require Import Prelude Json CoreTypes OversizedFrame OversizedCodec Instances OversizedReceiver OversizedProofs Lru Authorization RouteStore SessionStore OpenStreamFrame OpenStreamSession OpenStreamRegistry OpenStreamWriter PaymentTypes ServerTasks ServerPayments BaseTransport Announcements Discovery ServerNegotiation ServerState ServerOutbound ServerStreams ServerInbound ServerRefinement ServerPolicy ServerResponses ServerAdmission ClientPayments ClientState ClientOutbound ClientInbound ClientRuns ClientAdmission EndToEnd Lifecycle.

(** ** The types of rmcp *)

(** The four message types with their serde conversions, and whether a message the
    server receives is a request. *)
Class Rmcp : Type := {
  ServerRx : Type;
  ServerTx : Type;
  ClientRx : Type;
  ClientTx : Type;
  server_rx_from_value : Value → option ServerRx;
  client_rx_from_value : Value → option ClientRx;
  server_tx_to_value : ServerTx → option Value;
  client_tx_to_value : ClientTx → option Value;
  server_rx_is_request : ServerRx → bool;
}.

(** ** Conversions ([convert.rs]) *)

Section convert.
Context `{Rmcp}.

Definition internal_to_rmcp_server_rx (msg : JsonRpcMessage) : option ServerRx :=
  server_rx_from_value (message_to_value msg).
Definition internal_to_rmcp_client_rx (msg : JsonRpcMessage) : option ClientRx :=
  client_rx_from_value (message_to_value msg).
Definition rmcp_server_tx_to_internal (msg : ServerTx) : option JsonRpcMessage :=
  value ← server_tx_to_value msg; message_from_value value.
Definition rmcp_client_tx_to_internal (msg : ClientTx) : option JsonRpcMessage :=
  value ← client_tx_to_value msg; message_from_value value.
End convert.

(** ** Workers ([worker.rs]) *)

Definition STATELESS_SYNTHETIC_EVENT_ID : string := "contextvm-stateless-init".

Definition synthetic_initialize_message (version : string) : JsonRpcMessage :=
  Request (mkRequest "2.0" (VString STATELESS_SYNTHETIC_EVENT_ID) "initialize"
    (Some (VObject [("protocolVersion", VString version); ("capabilities", VObject []);
                    ("clientInfo", VObject [("name", VString "contextvm-stateless-client");
                                            ("version", VString "0.1.0")])]))).
Definition synthetic_initialized_notification : JsonRpcMessage :=
  Notification (mkNotification "2.0" "notifications/initialized" None).

(** [WorkerQuitReason]. *)
Inductive quit_reason : Type :=
| Fatal (error : Error) (context : string)
| Cancelled
| TransportClosed
| HandlerTerminated.

(** What the handler finds in the extensions of a request. *)
Record Extensions : Type := mkExtensions {
  ext_client_pubkey : option string;
  ext_inbound_event : option Value;
  ext_writer : option OpenStreamWriter;
}.
Definition no_extensions : Extensions := mkExtensions None None None.

Module ServerWorker.

(** [read] counts the messages taken from the channel, [to_handler] are those given to
    the service, [results] the answers to its outbound messages, [announced] the events
    of the announcement manager, [orchestrator] the announcement task. *)
Record t `{Rmcp} (L : Type → Type) : Type := mk {
  server : NostrServerTransport L;
  read : nat;
  to_handler : list (ServerRx * Extensions);
  results : list (result unit Error);
  announced : list EventBuilder;
  orchestrator : Announcements.orchestrator;
  quit : option quit_reason;
}.
Arguments mk {_ L}.
Arguments server {_ L}.
Arguments read {_ L}.
Arguments to_handler {_ L}.
Arguments results {_ L}.
Arguments announced {_ L}.
Arguments orchestrator {_ L}.
Arguments quit {_ L}.

Section worker.
Context `{Rmcp} `{Lru L} `{SerdeJson} `{Sha256} `{Nostr}.
Variable config : NostrServerTransportConfig.
Variable version : string.
(** What the senders of the payment middlewares captured, and the task of a
    verification; whether an eviction callback is set. *)
Variable sender_tags : ResponseTagSources.
Variable snapshot_ttl : Z.
Variable spawn_task : Verification → prog unit.
Variable on_evicted : bool.
(** What the relay pool answers to the final disconnect. *)
Variable disconnect_answer : result unit Error.
Implicit Types (s : NostrServerTransport L) (w : t L).

(** *** Inbound *)

Definition get_open_stream_writer (event_id : string) s : option OpenStreamWriter :=
  if negb (sc_enabled (cfg_open_stream config)) then None
  else slot_writer <$> t_slots (Server.transport s) !! event_id.

(** A request takes the id of its event. *)
Definition rewrite_id (inc : IncomingRequest) : JsonRpcMessage :=
  match inc_message inc with
  | Request req => Request (mkRequest (req_jsonrpc req) (VString (inc_event_id inc)) (req_method req) (req_params req))
  | message => message
  end.

Definition caller (inc : IncomingRequest) : option string :=
  if String.eqb (inc_client_pubkey inc) ANNOUNCEMENT_REQUEST_ID then None else Some (inc_client_pubkey inc).

Definition ingest (inc : IncomingRequest) s : option (ServerRx * Extensions) :=
  rmcp_msg ← internal_to_rmcp_server_rx (rewrite_id inc);
  Some (rmcp_msg,
        if server_rx_is_request rmcp_msg
        then mkExtensions (caller inc) (inc_event inc) (get_open_stream_writer (inc_event_id inc) s)
        else no_extensions).

(** *** Outbound *)

Definition push_incoming (sent : list IncomingRequest) (x : Transport L) : Transport L :=
  with_world x (set_incoming (t_world x) (incoming (t_world x) ++ sent)).

(** [handle_announcement_response] of the transport. *)
Definition announcement_response (response : JsonRpcMessage) (x : Transport L) : Transport L * list EventBuilder :=
  let '(m, published, sent) := Manager.handle_announcement_response response (t_manager x) in
  (push_incoming sent (with_manager x m), published).

(** A response of the handler, by the id it carries. *)
Definition forward_response (now : Z) (what : string) (id : Value) (response : JsonRpcMessage) (x : Transport L)
  : Transport L * list EventBuilder * result unit Error :=
  match as_str id with
  | None => (x, [], Err (EValidation ("rmcp server " +:+ what +:+ " id is not a string event_id")))
  | Some event_id =>
      if String.eqb event_id ANNOUNCEMENT_REQUEST_ID then
        let '(x, published) := announcement_response response x in (x, published, Ok tt)
      else if String.eqb event_id STATELESS_SYNTHETIC_EVENT_ID then (x, [], Ok tt)
      else let '(x, res) := send_response config now event_id response x in (x, [], res)
  end.

Definition forward_server_internal (now : Z) (message : JsonRpcMessage) (x : Transport L)
  : Transport L * list EventBuilder * result unit Error :=
  match message with
  | Response resp => forward_response now "response" (resp_id resp) message x
  | ErrorResponse resp => forward_response now "error response" (eresp_id resp) message x
  | Notification _ | Request _ => (broadcast_notification config message x, [], Ok tt)
  end.

(** *** The run *)

Definition set_server w s : t L := mk s (read w) (to_handler w) (results w) (announced w) (orchestrator w) (quit w).
Definition quit_with (reason : quit_reason) w : t L :=
  mk (server w) (read w) (to_handler w) (results w) (announced w) (orchestrator w) (Some reason).

(** The close-on-exit path. *)
Definition shut_down (reason : quit_reason) w : t L :=
  quit_with reason (set_server w (Server.close disconnect_answer (server w)).1).

Definition give (msg : ServerRx * Extensions) w : t L :=
  mk (server w) (read w) (to_handler w ++ [msg]) (results w) (announced w) (orchestrator w) (quit w).

(** One synthetic message of the handshake; [open] is whether the service still
    listens. *)
Definition handshake (message : JsonRpcMessage) (what : string) (open : bool) w : t L :=
  if quit w is Some _ then w
  else
    match internal_to_rmcp_server_rx message with
    | None =>
        shut_down (Fatal (EValidation ("failed converting synthetic " +:+ what +:+ " to rmcp format"))
                     ("converting synthetic " +:+ what)) w
    | Some msg => if open then give (msg, no_extensions) w else shut_down HandlerTerminated w
    end.

(** From [start] to the loop. *)
Definition startup (now : Z) (sa : Server.start_answers) (open_init open_initialized : bool) s : call (t L) :=
  match Server.start now sa s with
  | (s, _, Panicked) => Panicked
  | (s, _, Returned (Err e)) =>
      Returned (quit_with (Fatal e "starting server transport") (mk s 0 [] [] [] Idle None))
  | (s, _, Returned (Ok _)) =>
      match Server.spawn_announcements config s with
      | Panicked => Panicked
      | Returned s =>
          let '(s, taken) := Server.take_message_receiver s in
          let w := mk s 0 [] [] [] Idle None in
          if negb taken then
            Returned (quit_with (Fatal (EOther "server message receiver already taken")
                                   "taking server message receiver") w)
          else
            let w := handshake (synthetic_initialize_message version) "initialize request" open_init w in
            Returned (handshake synthetic_initialized_notification "initialized notification" open_initialized w)
      end
  end.

(** What can happen next: the transport's own work (relay events, timers, chains,
    tools), the announcement task, the branches of the loop. *)
Inductive action : Type :=
| Background (a : transport_action)
| Announcing (op : flow_op)
| CancelToken
| TakeIncoming (open : bool)
| ChannelClosed
| TakeOutbound (now : Z) (message : ServerTx)
| ServiceGone (reason : quit_reason).

(** The arguments of the event loop are those [start] captured. *)
Definition background_step (a : transport_action) s : NostrServerTransport L :=
  match Server.task_handles s with
  | Server.EventLoop c :: _ =>
      Server.set_transport s
        (transport_step config (Server.cap_middlewares c) (Server.cap_supports_explicit_gating c)
           (Server.cap_tag_sources c) (Server.cap_common_tags c) on_evicted sender_tags snapshot_ttl spawn_task
           (Server.transport s) a)
  | _ => s
  end.

(** The announcement task exists when the transport spawned it; its responses come
    through the loop. *)
Definition announcement_spawned s : bool :=
  existsb (λ h, match h with Server.AnnouncementTask => true | _ => false end) (Server.task_handles s).
Definition announcing_step (op : flow_op) w : t L :=
  if negb (announcement_spawned (server w)) then w
  else
    match op with
    | Respond _ => w
    | _ =>
        let x := Server.transport (server w) in
        let f := flow_step (mkFlow (t_manager x) (orchestrator w) (incoming (t_world x))) op in
        mk (Server.set_transport (server w)
              (with_world (with_manager x (flow_manager f)) (set_incoming (t_world x) (flow_channel f))))
          (read w) (to_handler w) (results w) (announced w) (flow_task f) (quit w)
    end.

Definition take_incoming (open : bool) w : t L :=
  match incoming (t_world (Server.transport (server w))) !! read w with
  | None => w
  | Some inc =>
      let w := mk (server w) (S (read w)) (to_handler w) (results w) (announced w) (orchestrator w) (quit w) in
      match ingest inc (server w) with
      | None => w
      | Some msg => if open then give msg w else shut_down HandlerTerminated w
      end
  end.

Definition take_outbound (now : Z) (message : ServerTx) w : t L :=
  match rmcp_server_tx_to_internal message with
  | None =>
      mk (server w) (read w) (to_handler w)
        (results w ++ [Err (EValidation "failed converting rmcp server message to internal JSON-RPC")])
        (announced w) (orchestrator w) (quit w)
  | Some internal_msg =>
      let '(x, published, res) := forward_server_internal now internal_msg (Server.transport (server w)) in
      mk (Server.set_transport (server w) x) (read w) (to_handler w) (results w ++ [res])
        (announced w ++ published) (orchestrator w) (quit w)
  end.

Definition worker_step w (a : action) : t L :=
  if quit w is Some _ then w
  else
    match a with
    | Background a => set_server w (background_step a (server w))
    | Announcing op => announcing_step op w
    | CancelToken => shut_down Cancelled w
    | TakeIncoming open => take_incoming open w
    | ChannelClosed => shut_down TransportClosed w
    | TakeOutbound now message => take_outbound now message w
    | ServiceGone reason => shut_down reason w
    end.
Definition worker_run w (actions : list action) : t L := foldl worker_step w actions.
End worker.
End ServerWorker.

(** ** The channel of the server only grows *)

Section channel.
Context `{Lru L} `{SerdeJson} `{Sha256} `{Nostr}.
Implicit Types t : Transport L.

Local Abbreviation grows t t' := (incoming (t_world t) `prefix_of` incoming (t_world t')).

Lemma quiet_grows t t' : quiet t t' → grows t t'.
Proof. by intros [_ _ -> _]. Qed.

Lemma exec_incoming env (w w' : World L) c a :
  exec env w c = Some (w', a) → incoming w `prefix_of` incoming w'.
Proof.
  destruct c; cbn; repeat case_match; intros [= <- _]; try done. by apply prefix_app_r.
Qed.

Lemma task_step_incoming config sender_tags snapshot_ttl spawn_task i env t :
  grows t (task_step config sender_tags snapshot_ttl spawn_task i env t).
Proof.
  unfold task_step. destruct (t_tasks t !! i) as [[| |c k]|]; try done.
  destruct (exec_command _ _ _ _ _ _) as [[t' a]|] eqn:He; [|done]. cbn. revert He.
  destruct c; cbn [exec_command];
    try (destruct (exec _ _ _) as [[w' a']|] eqn:Hex; [|done]; intros Ht; apply (f_equal (fmap fst)) in Ht;
         injection Ht as <-; by apply exec_incoming in Hex).
  - pose proof (targeted_quiet config sender_tags client_pubkey event_id
      (mirrored_wrap_kind event_id t) message t t (quiet_refl t)) as Hq.
    unfold targeted_response_sender. destruct (publish_targeted_response _ _ _ _ _ _ _) as [t1 r].
    intros [= <- _]. by apply quiet_grows.
  - pose proof (payment_sender_quiet config (env Now) snapshot_ttl (ts_common sender_tags)
      client_pubkey event_id wrap_kind message t) as Hq.
    destruct (payment_notification_sender _ _ _ _ _ _ _ _ _) as [t1 r]. intros [= <- _]. by apply quiet_grows.
Qed.

Lemma handle_event_incoming config chain gating captured tags on_evicted now event t :
  grows t (handle_event config chain gating captured tags on_evicted now event t).
Proof.
  unfold handle_event. destruct (t_alive t); cbn; [|done].
  destruct (ServerInbound.open_event config event t) as [t1 [inner|]] eqn:Eo;
    (assert (quiet t t1) as Hq by (pose proof (ServerRefinement.open_event_quiet config event t) as Hq; by rewrite Eo in Hq));
    [|by apply quiet_grows].
  destruct (validate_and_parse _) as [m|]; [|by apply quiet_grows].
  destruct (authorized _ _ _ _).
  - destruct (process_message_hands_over config chain gating captured on_evicted now inner (wrap_of event)
      (is_gift_wrap event) m t t1 Hq) as [[_ Hi]|(m' & ctx & _ & _ & Hh)]; [by rewrite Hi|].
    revert Hh. unfold hands_over. destruct chain; intros [_ ->]; [by apply prefix_app_r|done].
  - apply quiet_grows. unfold reject_unauthorized. quiet.
Qed.

Lemma transport_step_incoming config chain gating captured tags on_evicted sender_tags snapshot_ttl spawn_task t a :
  grows t (transport_step config chain gating captured tags on_evicted sender_tags snapshot_ttl spawn_task t a).
Proof.
  pose proof (transport_step_quiet config chain gating captured sender_tags tags on_evicted snapshot_ttl spawn_task t a) as Hq.
  destruct a; try (by apply quiet_grows, Hq); [apply handle_event_incoming|apply task_step_incoming].
Qed.
End channel.

(** ** What the handler of the server sees *)

Section handler.
Context `{Rmcp} `{Lru L} `{SerdeJson} `{Sha256} `{Nostr}.
Variable config : NostrServerTransportConfig.
Variable version : string.
Variable sender_tags : ResponseTagSources.
Variable snapshot_ttl : Z.
Variable spawn_task : Verification → prog unit.
Variable on_evicted : bool.
Variable disconnect_answer : result unit Error.
Import ServerWorker.
Implicit Types w : ServerWorker.t L.

Local Abbreviation startup := (startup config version disconnect_answer).
Local Abbreviation worker_step := (worker_step config sender_tags snapshot_ttl spawn_task on_evicted disconnect_answer).
Local Abbreviation worker_run := (worker_run config sender_tags snapshot_ttl spawn_task on_evicted disconnect_answer).

(** A message as the handler sees it, its writer aside. *)
Definition seen (msg : ServerRx * Extensions) : ServerRx * option string * option Value :=
  (msg.1, ext_client_pubkey msg.2, ext_inbound_event msg.2).

(** What a message of the channel becomes: a request under the id of its event, with
    the key and the event of its caller. *)
Definition given (inc : IncomingRequest) : option (ServerRx * option string * option Value) :=
  msg ← internal_to_rmcp_server_rx
          match inc_message inc with
          | Request (mkRequest version _ method params) =>
              Request (mkRequest version (VString (inc_event_id inc)) method params)
          | message => message
          end;
  Some (if server_rx_is_request msg
        then (msg, if decide (inc_client_pubkey inc = ANNOUNCEMENT_REQUEST_ID) then None else Some (inc_client_pubkey inc),
              inc_event inc)
        else (msg, None, None)).

Lemma given_ingest inc :
  given inc =
  (msg ← internal_to_rmcp_server_rx (rewrite_id inc);
   Some (if server_rx_is_request msg then (msg, caller inc, inc_event inc) else (msg, None, None))).
Proof.
  unfold given, rewrite_id, caller.
  replace (if decide _ then _ else _)
    with (if inc_client_pubkey inc =? ANNOUNCEMENT_REQUEST_ID then None else Some (inc_client_pubkey inc))%string
    by (destruct (String.eqb_spec (inc_client_pubkey inc) ANNOUNCEMENT_REQUEST_ID); by case_decide).
  by destruct (inc_message inc) as [[]| | |].
Qed.

Definition handshake_seen : list (ServerRx * option string * option Value) :=
  omap (λ m, (λ msg, (msg, None, None)) <$> internal_to_rmcp_server_rx m)
    [synthetic_initialize_message version; synthetic_initialized_notification].

Definition channel_of w : list IncomingRequest := incoming (t_world (Server.transport (server w))).

(** The handler has the handshake and the messages taken so far; only the message that
    ended the worker may be missing. *)
Record in_order w : Prop := {
  io_read : (read w <= length (channel_of w))%nat;
  io_seen : map seen (to_handler w) `prefix_of` handshake_seen ++ omap given (take (read w) (channel_of w));
  io_all : quit w = None → map seen (to_handler w) = handshake_seen ++ omap given (take (read w) (channel_of w));
}.

(** The channel grew; the rest is the same. *)
Lemma in_order_grows w w' :
  in_order w → read w' = read w → to_handler w' = to_handler w → channel_of w `prefix_of` channel_of w' →
  (quit w' = None → quit w = None) → in_order w'.
Proof.
  intros [Hr Hs Ha] Er Et [more Hm] Hq.
  assert (take (read w) (channel_of w') = take (read w) (channel_of w)) as Htake.
  { rewrite Hm. by rewrite take_app_le. }
  split; rewrite ?Er, ?Et, ?Htake; [|done|auto]. rewrite Hm, length_app. lia.
Qed.

Lemma close_channel answer (s : NostrServerTransport L) :
  incoming (t_world (Server.transport (Server.close answer s).1)) = incoming (t_world (Server.transport s)).
Proof. unfold Server.close. by destruct (disconnect _ _) as [[? ?] [[]|]]. Qed.

Lemma shut_down_in_order reason w : in_order w → in_order (shut_down disconnect_answer reason w).
Proof.
  intros Hw. apply (in_order_grows w); try done. unfold channel_of. cbn. by rewrite close_channel.
Qed.

Lemma forward_channel now m (x : Transport L) :
  incoming (t_world x) `prefix_of` incoming (t_world (forward_server_internal config now m x).1.1).
Proof.
  assert (∀ what id, incoming (t_world x) `prefix_of`
    incoming (t_world (forward_response config now what id m x).1.1)) as Hresp.
  { intros what id. unfold forward_response. destruct (as_str id) as [event_id|]; [|done].
    destruct (String.eqb _ _).
    - unfold announcement_response. destruct (Manager.handle_announcement_response _ _) as [[mm published] sent].
      cbn. by apply prefix_app_r.
    - destruct (String.eqb _ _); [done|].
      pose proof (send_response_quiet config now event_id m x) as Hq.
      destruct (send_response _ _ _ _ _). by apply quiet_grows in Hq. }
  destruct m; cbn; try apply Hresp; apply (quiet_grows x); unfold broadcast_notification;
    apply quiet_foldl; (apply quiet_refl || (intros; apply send_notification_quiet, quiet_refl)).
Qed.

Lemma announcing_channel op f :
  flow_channel f `prefix_of` flow_channel (flow_step f op).
Proof.
  destruct op, (flow_task f) eqn:Ef; cbn; rewrite ?Ef; try done; try by apply prefix_app_r.
  all: try (destruct (Manager.handle_announcement_response _ _) as [[mm published] sent]; cbn; by apply prefix_app_r).
  destruct (am_init_permit _); [by apply prefix_app_r|done].
Qed.

Lemma take_incoming_in_order open w : quit w = None → in_order w → in_order (take_incoming config disconnect_answer open w).
Proof.
  intros Hquit [Hr Hs Ha]. unfold take_incoming. fold (channel_of w).
  destruct (channel_of w !! read w) as [inc|] eqn:El; [|by split].
  set (w1 := mk _ (S (read w)) _ _ _ _ _).
  assert (take (S (read w)) (channel_of w) = take (read w) (channel_of w) ++ [inc]) as Htake
    by by apply take_S_r.
  assert (channel_of w1 = channel_of w) as Hc by done.
  assert (S (read w) <= length (channel_of w))%nat as Hlen by by apply lookup_lt_Some in El.
  specialize (Ha Hquit).
  destruct (ingest config inc (server w1)) as [[msg ext]|] eqn:Ei; unfold ingest in Ei;
    destruct (internal_to_rmcp_server_rx (rewrite_id inc)) as [msg'|] eqn:Em; cbn in Ei; simplify_eq.
  - assert (given inc = Some (seen (msg, if server_rx_is_request msg
      then mkExtensions (caller inc) (inc_event inc) (get_open_stream_writer config (inc_event_id inc) (server w))
      else no_extensions))) as Hg.
    { rewrite given_ingest, Em. cbn. by destruct (server_rx_is_request msg). }
    destruct open.
    + assert (map seen (to_handler w1 ++ [(msg, if server_rx_is_request msg
        then mkExtensions (caller inc) (inc_event inc) (get_open_stream_writer config (inc_event_id inc) (server w1))
        else no_extensions)]) = handshake_seen ++ omap given (take (S (read w)) (channel_of w))) as Heq.
      { rewrite map_app, Htake, omap_app. cbn. rewrite Hg, app_assoc. f_equal. done. }
      split; [done| |intros _; exact Heq]. exists []. rewrite app_nil_r. symmetry. exact Heq.
    + assert (map seen (to_handler w) `prefix_of` handshake_seen ++ omap given (take (S (read w)) (channel_of w))) as Hpre.
      { rewrite Htake, omap_app, Ha, app_assoc. by apply prefix_app_r. }
      by split; unfold channel_of; cbn; rewrite ?close_channel.
  - assert (given inc = None) as Hg by (rewrite given_ingest; by rewrite Em).
    assert (omap given (take (S (read w)) (channel_of w)) = omap given (take (read w) (channel_of w))) as Heq.
    { rewrite Htake, omap_app. cbn. by rewrite Hg, app_nil_r. }
    rewrite <- Heq in Hs, Ha. by split.
Qed.

Lemma startup_in_order now sa open1 open2 s w : startup now sa open1 open2 s = Returned w → in_order w.
Proof.
  unfold ServerWorker.startup. destruct (Server.start now sa s) as [[s1 filters] [[[]|e]|]]; [|intros [= <-]|done].
  2: { split; cbn; [lia|apply prefix_nil|done]. }
  destruct (Server.spawn_announcements config s1) as [s2|]; [|done]. cbn. destruct (Server.message_rx s2); cbn.
  2: { intros [= <-]. split; cbn; [lia|apply prefix_nil|done]. }
  intros [= <-]. unfold handshake. cbn.
  destruct (internal_to_rmcp_server_rx (synthetic_initialize_message version)) as [m1|] eqn:E1; cbn.
  2: { split; cbn; [lia|apply prefix_nil|done]. }
  destruct open1; cbn; [|split; cbn; [lia|apply prefix_nil|done]].
  assert (handshake_seen = seen (m1, no_extensions) ::
    option_list ((λ msg, (msg, None, None)) <$> internal_to_rmcp_server_rx synthetic_initialized_notification)) as Hh.
  { unfold handshake_seen. cbn. rewrite E1. by destruct (internal_to_rmcp_server_rx synthetic_initialized_notification). }
  destruct (internal_to_rmcp_server_rx synthetic_initialized_notification) as [m2|]; cbn in Hh; [destruct open2|].
  all: split; cbn; [lia|rewrite Hh; cbn; try done|try done; by rewrite Hh].
  all: apply prefix_cons, prefix_nil.
Qed.

Lemma worker_step_in_order w a : in_order w → in_order (worker_step w a).
Proof.
  intros Hw. unfold ServerWorker.worker_step. destruct (quit w) eqn:Hq; [done|].
  destruct a as [a|op| |open| |now msg|reason]; try by apply shut_down_in_order.
  - apply (in_order_grows w); try done. unfold channel_of, background_step. cbn.
    destruct (Server.task_handles (server w)) as [|[c| | |]]; try done. apply transport_step_incoming.
  - unfold announcing_step. destruct (announcement_spawned _); cbn; [|done].
    pose proof (announcing_channel op (mkFlow (t_manager (Server.transport (server w))) (orchestrator w) (channel_of w))) as Hf.
    destruct op; try done; by apply (in_order_grows w).
  - by apply take_incoming_in_order.
  - unfold take_outbound. destruct (rmcp_server_tx_to_internal msg) as [m|]; [|by apply (in_order_grows w)].
    pose proof (forward_channel now m (Server.transport (server w))) as Hf.
    destruct (forward_server_internal config now m (Server.transport (server w))) as [[x published] res].
    by apply (in_order_grows w).
Qed.

(** (C36) What the handler of an rmcp server receives, in every run of the worker with
    anything the transport does in between: first the synthetic [initialize] request
    and [initialized] notification, before anything of a relay; then exactly the
    messages of the channel, once each and in their order, every request under the id
    of its event and with the key and the event of its caller, the transport's own
    announcement requests without a caller.  Messages rmcp cannot represent are
    skipped; only the message whose hand-over failed, which ends the worker, may be
    missing at the end. *)
Theorem handler_receives_in_order now sa open1 open2 s w0 actions :
  startup now sa open1 open2 s = Returned w0 →
  let w := worker_run w0 actions in
  (read w <= length (channel_of w))%nat ∧
  map seen (to_handler w) `prefix_of` handshake_seen ++ omap given (take (read w) (channel_of w)) ∧
  (quit w = None → map seen (to_handler w) = handshake_seen ++ omap given (take (read w) (channel_of w))).
Proof.
  intros Hs%startup_in_order w.
  assert (in_order w) as [? ? ?]; [|done]. subst w. revert w0 Hs.
  induction actions as [|a actions IH]; intros w0 Hs; [done|]. by apply IH, worker_step_in_order.
Qed.

(** *** The end of a worker *)

Definition closed (s : NostrServerTransport L) : Prop :=
  Server.message_tx s = false ∧ Server.task_handles s = [] ∧ t_alive (Server.transport s) = false.

Lemma close_closed answer (s : NostrServerTransport L) : closed (Server.close answer s).1.
Proof. unfold closed, Server.close. by destruct (disconnect _ _) as [[? ?] [[]|]]. Qed.

(** How a worker that has not entered its loop ended. *)
Definition left_before_loop (s : NostrServerTransport L) w reason : Prop :=
  (∃ e, reason = Fatal e "starting server transport" ∧ Server.task_handles (server w) = Server.task_handles s) ∨
  (reason = Fatal (EOther "server message receiver already taken") "taking server message receiver" ∧
   Server.message_rx s = false).

Definition ended_well (s : NostrServerTransport L) w : Prop :=
  match quit w with None => True | Some reason => closed (server w) ∨ left_before_loop s w reason end.

Lemma shut_down_ended s reason w : ended_well s (shut_down disconnect_answer reason w).
Proof. left. apply close_closed. Qed.

Lemma worker_step_ended s w a : ended_well s w → ended_well s (worker_step w a).
Proof.
  unfold ended_well at 1, ServerWorker.worker_step. destruct (quit w) as [reason|] eqn:Hq.
  { intros Hw. unfold ended_well. by rewrite Hq. }
  intros _. destruct a as [a|op| |open| |now msg|reason]; try apply shut_down_ended.
  - unfold ended_well. cbn. by rewrite Hq.
  - unfold ended_well, announcing_step. destruct (announcement_spawned _); cbn; [destruct op; cbn|]; by rewrite Hq.
  - unfold take_incoming. destruct (_ !! _) as [inc|]; [|unfold ended_well; by rewrite Hq].
    destruct (ingest _ _ _); [destruct open; [|apply shut_down_ended]|]; unfold ended_well; cbn; by rewrite Hq.
  - unfold take_outbound. destruct (rmcp_server_tx_to_internal msg) as [m|];
      [destruct (forward_server_internal _ _ _ _) as [[? ?] ?]|]; unfold ended_well; cbn; by rewrite Hq.
Qed.

Lemma start_handles now sa (s : NostrServerTransport L) :
  let '(s', _, res) := Server.start now sa s in
  Server.message_rx s' = Server.message_rx s ∧
  match res with
  | Returned (Err _) => Server.task_handles s' = Server.task_handles s
  | Returned (Ok _) =>
      (∃ c, Server.task_handles s' = Server.task_handles s ++ [Server.EventLoop c; Server.CleanupTask]) ∧
      Server.message_tx s' = true
  | Panicked => True
  end.
Proof.
  unfold Server.start. destruct (connect _ _) as [[connected called] [[]|e]]; cbn; [|done].
  destruct (Server.sa_public_key sa); cbn; [|done]. destruct (Server.sa_subscribe sa); [|done].
  destruct (Server.message_tx s) eqn:Etx; cbn; [|done]. unfold Server.capture.
  destruct (Manager.get_common_tags _). cbn. eauto.
Qed.

Lemma startup_ended now sa open1 open2 s w : startup now sa open1 open2 s = Returned w → ended_well s w.
Proof.
  unfold ServerWorker.startup. pose proof (start_handles now sa s) as Hh.
  destruct (Server.start now sa s) as [[s1 filters] [[[]|e]|]]; [|intros [= <-]|done].
  2: { right. left. destruct Hh as [_ Hh]. eauto. }
  destruct (Server.spawn_announcements config s1) as [s2|] eqn:Es; [|done].
  assert (Server.message_rx s2 = Server.message_rx s) as Hrx.
  { destruct Hh as [<- _]. revert Es. unfold Server.spawn_announcements.
    destruct (cfg_is_announced_server config); [destruct (am_dispatch_fn _)|]; by intros [= <-]. }
  cbn. destruct (Server.message_rx s2) eqn:Er; cbn.
  2: { intros [= <-]. right. right. by rewrite <- Hrx. }
  intros [= <-]. unfold handshake. cbn.
  destruct (internal_to_rmcp_server_rx (synthetic_initialize_message version)) as [m1|]; cbn;
    [destruct open1; cbn|]; try (left; apply close_closed).
  destruct (internal_to_rmcp_server_rx synthetic_initialized_notification) as [m2|]; [destruct open2|]; try done;
    left; apply close_closed.
Qed.

(** A server worker that ends has closed its transport: its tasks are joined, its
    channel is dropped and its event loop is over, however the worker ended
    (cancellation, the handler gone at any point, a failed handshake), with two
    exceptions: a transport that could not be started is left as it was, and a worker
    that finds the message receiver taken returns without closing. *)
Theorem worker_closes_transport now sa open1 open2 s w0 actions reason :
  startup now sa open1 open2 s = Returned w0 →
  let w := worker_run w0 actions in
  quit w = Some reason → closed (server w) ∨ left_before_loop s w reason.
Proof.
  intros Hs%startup_ended w Hq.
  assert (ended_well s w) as Hw.
  { subst w. clear Hq. revert w0 Hs. induction actions as [|a actions IH]; intros w0 Hs; [done|].
    by apply IH, worker_step_ended. }
  unfold ended_well in Hw. by rewrite Hq in Hw.
Qed.

(** The worker that finds the receiver taken leaves the event loop and the cleanup task
    it started running. *)
Theorem taken_receiver_leaks_tasks now sa open1 open2 s w0 :
  startup now sa open1 open2 s = Returned w0 → Server.message_rx s = false →
  (∃ e, quit w0 = Some (Fatal e "starting server transport")) ∨
  (is_Some (quit w0) ∧ Server.message_tx (server w0) = true ∧
   ∃ c, Server.EventLoop c ∈ Server.task_handles (server w0) ∧ Server.CleanupTask ∈ Server.task_handles (server w0)).
Proof.
  unfold ServerWorker.startup. pose proof (start_handles now sa s) as Hh.
  destruct (Server.start now sa s) as [[s1 filters] [[[]|e]|]]; [|intros [= <-]|done].
  2: { intros _. left. cbn. eauto. }
  destruct Hh as (Hrx & [c Hc] & Htx). intros Hw Hs. right. revert Hw. unfold Server.spawn_announcements.
  destruct (cfg_is_announced_server config); [destruct (am_dispatch_fn _); [|done]|]; cbn;
    rewrite Hrx, Hs; cbn; intros [= <-]; cbn; rewrite Hc, Htx; (split_and!; [eauto|done|exists c; set_solver]).
Qed.
End handler.

(** ** The client worker *)

Module ClientWorker.

(** [sending] is the task of the send the loop is waiting for. *)
Record t `{Rmcp} (L : Type → Type) : Type := mk {
  client : NostrClientTransport L;
  read : nat;
  to_handler : list ClientRx;
  results : list (result unit Error);
  sending : option nat;
  quit : option quit_reason;
}.
Arguments mk {_ L}.
Arguments client {_ L}.
Arguments read {_ L}.
Arguments to_handler {_ L}.
Arguments results {_ L}.
Arguments sending {_ L}.
Arguments quit {_ L}.

Section worker.
Context `{Rmcp} `{Lru L} `{SerdeJson} `{Sha256} `{Nostr}.
Variable config : NostrClientTransportConfig.
Variables server_pubkey version : string.
Variable options : ClientPaymentsOptions.
Variable disconnect_answer : result unit Error.
Implicit Types (s : NostrClientTransport L) (w : t L).

Definition set_client w s : t L := mk s (read w) (to_handler w) (results w) (sending w) (quit w).
Definition quit_with (reason : quit_reason) w : t L :=
  mk (client w) (read w) (to_handler w) (results w) (sending w) (Some reason).
Definition shut_down (reason : quit_reason) w : t L :=
  quit_with reason (set_client w (Client.close disconnect_answer (client w)).1).

Definition startup (now : Z) (sa : ClientInbound.start_answers) s : call (t L) :=
  match Client.start now sa s with
  | (s, _, Panicked) => Panicked
  | (s, _, Returned (Err e)) =>
      Returned (quit_with (Fatal e "starting client transport") (mk s 0 [] [] None None))
  | (s, _, Returned (Ok _)) =>
      let '(s, taken) := Client.take_message_receiver s in
      let w := mk s 0 [] [] None None in
      Returned (if taken then w
                else quit_with (Fatal (EOther "client message receiver already taken")
                                  "taking client message receiver") w)
  end.

Inductive action : Type :=
| Background (a : client_action)
| CancelToken
| TakeIncoming (open : bool)
| ChannelClosed
| TakeOutbound (message : ClientTx)
| SendFinished
| ServiceGone (reason : quit_reason).

(** The worker owns the transport: nobody else starts or closes it. *)
Definition is_background (a : client_action) : bool :=
  match a with
  | Install | SetInteraction _ | SetPmis _ | StartTransport _ _ | CloseBegin | CloseFinish _ => false
  | _ => true
  end.

Definition take_incoming (open : bool) w : t L :=
  match c_consumer (Client.transport (client w)) !! read w with
  | None => w
  | Some incoming =>
      let w := mk (client w) (S (read w)) (to_handler w) (results w) (sending w) (quit w) in
      match internal_to_rmcp_client_rx incoming with
      | None => w
      | Some msg =>
          if open then mk (client w) (read w) (to_handler w ++ [msg]) (results w) (sending w) (quit w)
          else shut_down HandlerTerminated w
      end
  end.

Definition take_outbound (message : ClientTx) w : t L :=
  match rmcp_client_tx_to_internal message with
  | None =>
      mk (client w) (read w) (to_handler w)
        (results w ++ [Err (EValidation "failed converting rmcp client message to internal JSON-RPC")]) None (quit w)
  | Some internal_msg =>
      let c := Client.transport (client w) in
      mk (Client.mkClientTransport (ClientOutbound.send internal_msg c) (Client.receiver (client w))) (read w)
        (to_handler w) (results w) (Some (length (c_tasks c))) (quit w)
  end.

Definition send_finished w : t L :=
  match sending w ≫= λ i, c_tasks (Client.transport (client w)) !! i with
  | Some (SendTask _ (SendDone res)) =>
      mk (client w) (read w) (to_handler w) (results w ++ [res]) None (quit w)
  | _ => w
  end.

Definition worker_step w (a : action) : t L :=
  if quit w is Some _ then w
  else
    match a, sending w with
    | Background a, _ =>
        if is_background a
        then set_client w (Client.mkClientTransport
               (client_step config server_pubkey version options (Client.transport (client w)) a)
               (Client.receiver (client w)))
        else w
    | SendFinished, Some _ => send_finished w
    | CancelToken, None => shut_down Cancelled w
    | TakeIncoming open, None => take_incoming open w
    | ChannelClosed, None => shut_down TransportClosed w
    | TakeOutbound message, None => take_outbound message w
    | ServiceGone reason, None => shut_down reason w
    | _, _ => w
    end.
Definition worker_run w (actions : list action) : t L := foldl worker_step w actions.

(** Handing everything in the channel to the service. *)
Definition drain w : t L :=
  worker_run w (replicate (length (c_consumer (Client.transport (client w))) - read w) (TakeIncoming true)).

Lemma drain_client w : client (drain w) = client w.
Proof.
  unfold drain. generalize (length (c_consumer (Client.transport (client w))) - read w)%nat. intros n. revert w.
  induction n as [|n IH]; intros w; [done|]. cbn. rewrite IH. unfold worker_step. destruct (quit w); [done|].
  destruct (sending w); [done|]. unfold take_incoming. destruct (_ !! _) as [m|]; [|done].
  by destruct (internal_to_rmcp_client_rx m).
Qed.

Lemma drain_to_handler w :
  quit w = None → sending w = None →
  to_handler (drain w) =
  to_handler w ++ omap internal_to_rmcp_client_rx (drop (read w) (c_consumer (Client.transport (client w)))).
Proof.
  intros Hq Hs. unfold drain. remember (length _ - read w)%nat as n eqn:Hn.
  revert w Hq Hs Hn. induction n as [|n IH]; intros w Hq Hs Hn; cbn.
  { rewrite drop_ge by lia. cbn. by rewrite app_nil_r. }
  unfold worker_step at 2. rewrite Hq, Hs. unfold take_incoming.
  destruct (lookup_lt_is_Some_2 (c_consumer (Client.transport (client w))) (read w)) as [m Hm]; [lia|].
  rewrite Hm, (drop_S _ _ _ Hm). cbn.
  destruct (internal_to_rmcp_client_rx m) as [msg|]; cbn.
  - rewrite IH; [|done|done|cbn; lia]. cbn. by rewrite <- app_assoc.
  - rewrite IH; [done|done|done|cbn; lia].
Qed.
End worker.
End ClientWorker.

(** ** From one handler to the other *)

Section handlers.
Context `{Rmcp} `{Lru LS, !LruLaws LS} `{Lru LC, !LruLaws LC} `{SerdeJson} `{!SerdeJsonLaws} `{Sha256}.
Variable server client : Nostr.
Variable sconfig : NostrServerTransportConfig.
Variables (sender_tags : ResponseTagSources) (snapshot_ttl : Z) (spawn_task : Verification → prog unit).
Variables (on_evicted : bool) (server_disconnects client_disconnects : result unit Error).
Variable cconfig : NostrClientTransportConfig.
Variables server_pubkey version : string.
Variable options : ClientPaymentsOptions.

Local Abbreviation server_step :=
  (@ServerWorker.worker_step _ LS _ _ _ server sconfig sender_tags snapshot_ttl spawn_task on_evicted server_disconnects).
Local Abbreviation client_drain :=
  (@ClientWorker.drain _ LC _ _ _ client cconfig server_pubkey version options client_disconnects).

(** The event loop of the client handles events while its worker waits. *)
Definition client_hears (now : Z) (events : list Event) (v : ClientWorker.t LC) : ClientWorker.t LC :=
  ClientWorker.set_client v (Client.mkClientTransport
    (@receive_all LC _ _ _ client cconfig server_pubkey options now events (Client.transport (ClientWorker.client v)))
    (Client.receiver (ClientWorker.client v))).

Lemma outbound_response w now tx r event_id :
  ServerWorker.quit w = None → rmcp_server_tx_to_internal tx = Some (Response r) → resp_id r = VString event_id →
  event_id ≠ ANNOUNCEMENT_REQUEST_ID → event_id ≠ STATELESS_SYNTHETIC_EVENT_ID →
  let '(x, res) := @send_response LS _ _ _ server sconfig now event_id (Response r)
                     (Server.transport (ServerWorker.server w)) in
  let w' := server_step w (ServerWorker.TakeOutbound now tx) in
  Server.transport (ServerWorker.server w') = x ∧ ServerWorker.results w' = ServerWorker.results w ++ [res].
Proof.
  intros Hq Htx Hid Hann Hsyn. destruct (send_response _ _ _ _ _) as [x res] eqn:Es. cbv zeta.
  unfold ServerWorker.worker_step. rewrite Hq. unfold ServerWorker.take_outbound. rewrite Htx.
  unfold ServerWorker.forward_server_internal, ServerWorker.forward_response. rewrite Hid. cbn [as_str].
  rewrite (proj2 (String.eqb_neq _ _) Hann), (proj2 (String.eqb_neq _ _) Hsyn), Es. done.
Qed.

(** (C2) From the rmcp handler of the server to the rmcp handler of the client.  The
    server's handler answers a request it knows under the id of its event, whose route
    and session are live and which has no stream slot, and the worker reports the
    answer as sent.  Under its restored id the answer is one rmcp can read as [rx].
    The client's transport has no payments engine; it waits for that request, its
    reassembler has room for the answer, it accepts the wrapping used and has not seen
    the events before.  Once its event loop has handled the published events in order
    and its worker has emptied the channel, its handler has received what it had
    received before, then [rx] once, and before and after [rx] only the progress
    notifications of the transfer that rmcp can read; the request no longer waits. *)
Theorem rmcp_response_end_to_end w now now' tx r event_id route client_pk eid rx :
  ServerWorker.quit w = None → rmcp_server_tx_to_internal tx = Some (Response r) → resp_id r = VString event_id →
  event_id ≠ ANNOUNCEMENT_REQUEST_ID → event_id ≠ STATELESS_SYNTHETIC_EVENT_ID →
  channel server client server_pubkey client_pk →
  let t := Server.transport (ServerWorker.server w) in
  t_slots t !! event_id = None → entry (routes (t_routes t)) event_id = Some route →
  is_Some (entry (t_sessions t) (route_client_pubkey route)) →
  @pubkey_from_hex server (route_client_pubkey route) = Ok client_pk → @event_id_from_hex server event_id = Ok eid →
  let w' := server_step w (ServerWorker.TakeOutbound now tx) in
  last (ServerWorker.results w') = Some (Ok tt) →
  let m := restore_id (original_request_id route) (Response r) in
  message_ok m = true → (json_depth (message_to_value m) <= RECURSION_LIMIT)%nat →
  internal_to_rmcp_client_rx m = Some rx →
  ∃ sent, t_net (Server.transport (ServerWorker.server w')) = t_net t ++ sent ∧
    ∀ v, ClientWorker.quit v = None → ClientWorker.sending v = None →
      let c := Client.transport (ClientWorker.client v) in
      ClientWorker.read v = length (c_consumer c) →
      awaits cconfig eid (route_progress_token route) m sent c →
      let v' := client_drain (client_hears now' (map ob_event sent) v) in
      (∃ before after, Forall is_progress before ∧ Forall is_progress after ∧
         ClientWorker.to_handler v' = ClientWorker.to_handler v ++ omap internal_to_rmcp_client_rx before ++
           rx :: omap internal_to_rmcp_client_rx after) ∧
      ClientStore.contains eid (c_pending (Client.transport (ClientWorker.client v'))) = false.
Proof.
  intros Hq Htx Hid Hann Hsyn Hch t Hslot Hroute Hsess Hpk Heid w' Hres m Hm Hd Hrx.
  pose proof (outbound_response w now tx r event_id Hq Htx Hid Hann Hsyn) as Ho. fold t in Ho.
  destruct (send_response _ _ _ _ _) as [x res] eqn:Es. destruct Ho as [Hx Hr]. fold w' in Hx, Hr.
  rewrite Hr, last_snoc in Hres. injection Hres as ->.
  destruct (@send_response_sent LS _ _ _ _ server sconfig now event_id (Response r) route t x client_pk eid
    Hslot Hroute Hsess Hpk Heid Es) as ((sent & Hnet & Hdel & Hms) & _).
  exists sent. rewrite Hx. split; [done|]. intros v Hvq Hvs c Hread Haw.
  destruct (receive_sent_response client cconfig server_pubkey options eid (route_progress_token route) m sent c now')
    as ((l & Hl & Hsh) & _ & Hgone); [done|done|done|done| |done|].
  { apply Forall_forall. intros o Hin. rewrite Forall_forall in Hdel.
    pose proof (aw_wraps _ _ _ _ _ _ Haw) as Hw. rewrite Forall_forall in Hw.
    exact (delivered_carries server client sconfig cconfig server_pubkey client_pk eid o Hch (Hw o Hin) (Hdel o Hin)). }
  cbv zeta. rewrite ClientWorker.drain_client. split; [|done].
  destruct (shows_one l m Hsh) as (before & after & -> & Hb & Ha). exists before, after. split_and!; [done|done|].
  rewrite ClientWorker.drain_to_handler by done. cbn. fold c.
  rewrite Hl, Hread, drop_app_length, omap_app.
  change (omap internal_to_rmcp_client_rx (m :: after)) with
    (match internal_to_rmcp_client_rx m with
     | Some x => x :: omap internal_to_rmcp_client_rx after
     | None => omap internal_to_rmcp_client_rx after
     end). by rewrite Hrx.
Qed.
End handlers.

(** ** A concrete bridge *)

(** An rmcp whose types are the messages themselves. *)
#[local] Instance demo_rmcp : Rmcp := {|
  ServerRx := JsonRpcMessage; ServerTx := JsonRpcMessage; ClientRx := JsonRpcMessage; ClientTx := JsonRpcMessage;
  server_rx_from_value := message_from_value; client_rx_from_value := message_from_value;
  server_tx_to_value m := Some (message_to_value m); client_tx_to_value m := Some (message_to_value m);
  server_rx_is_request := is_request;
|}.
#[local] Existing Instances bits_serde id_sha256.
#[local] Instance demo_server_nostr : Nostr := demo_nostr (λ _, false).

Abbreviation demo_startup s :=
  (ServerWorker.startup config_small "2025" (Ok tt) 0 demo_accepts true true s).
Abbreviation demo_worker_run w actions :=
  (ServerWorker.worker_run config_small (mkTagSources [] []) 0 (λ _, Ret tt) false (Ok tt) w actions).
Definition demo_transport : NostrServerTransport list_cache := Server.with_relay_pool config_small 10 10.
Definition demo_worker : ServerWorker.t list_cache :=
  match demo_startup demo_transport with
  | Returned w => w
  | Panicked => ServerWorker.mk demo_transport 0 [] [] [] Idle None
  end.
Lemma demo_worker_starts : demo_startup demo_transport = Returned demo_worker.
Proof.
  unfold demo_worker. destruct (demo_startup demo_transport) as [w|] eqn:E; [reflexivity|].
  apply (f_equal (λ r : call (ServerWorker.t list_cache), match r with Returned _ => true | Panicked => false end)) in E.
  by vm_compute in E.
Qed.
Definition alice_calls : list ServerWorker.action :=
  map (λ o, ServerWorker.Background (ServerInbound.Receive 1 (ob_event o))) (c_net alice)
  ++ [ServerWorker.TakeIncoming true].

Lemma handler_receives_in_order_witness :
  ServerWorker.quit (demo_worker_run demo_worker alice_calls) = None ∧
  map (λ x, (msg_id x.1.1, x.1.2)) (map seen (ServerWorker.to_handler (demo_worker_run demo_worker alice_calls))) =
    [(Some (VString "contextvm-stateless-init"), None); (None, None); (Some (VString "event-a"), Some "alice")].
Proof.
  pose proof (@handler_receives_in_order demo_rmcp list_cache _ _ _ _ config_small "2025" (mkTagSources [] []) 0 (λ _, Ret tt)
    false (Ok tt) 0 demo_accepts true true demo_transport demo_worker alice_calls demo_worker_starts) as Hall.
  cbv zeta in Hall. destruct Hall as (_ & _ & Hall).
  assert (ServerWorker.quit (demo_worker_run demo_worker alice_calls) = None) as Hq by by vm_compute.
  split; [exact Hq|]. rewrite (Hall Hq). by vm_compute.
Defined.

Lemma worker_closes_transport_witness :
  let w := demo_worker_run demo_worker (alice_calls ++ [ServerWorker.CancelToken]) in
  ServerWorker.quit w = Some Cancelled ∧ closed (ServerWorker.server w).
Proof.
  cbv zeta. set (w := demo_worker_run demo_worker (alice_calls ++ [ServerWorker.CancelToken])).
  assert (ServerWorker.quit w = Some Cancelled) as Hq by by vm_compute. split; [exact Hq|].
  destruct (@worker_closes_transport demo_rmcp list_cache _ _ _ _ config_small "2025" (mkTagSources [] []) 0 (λ _, Ret tt)
    false (Ok tt) 0 demo_accepts true true demo_transport demo_worker (alice_calls ++ [ServerWorker.CancelToken]) Cancelled)
    as [Hc|[(e & He & _)|(He & _)]]; [exact demo_worker_starts|exact Hq|exact Hc|discriminate He|discriminate He].
Defined.

(** The handler's answer to alice, and alice's own worker. *)
Definition handler_answer : JsonRpcMessage :=
  Response (mkResponse "2.0" (VString "event-a") (VString "a long enough result")).
Definition alice_worker : ClientWorker.t list_cache :=
  ClientWorker.mk (Client.mkClientTransport alice false) 0 [] [] None None.
Abbreviation busy_worker := (demo_worker_run demo_worker alice_calls).
Abbreviation answered_worker :=
  (ServerWorker.worker_step config_small (mkTagSources [] []) 0 (λ _, Ret tt) false (Ok tt) busy_worker
     (ServerWorker.TakeOutbound 2 handler_answer)).

Lemma rmcp_response_end_to_end_witness :
  let sent := t_net (Server.transport (ServerWorker.server answered_worker)) in
  (length sent > 100)%nat ∧
  ∃ before after, Forall is_progress before ∧ Forall is_progress after ∧
    ClientWorker.to_handler (@ClientWorker.drain demo_rmcp list_cache _ _ _ alice_nostr plain_config "serve" "2025"
      demo_client_options (Ok tt) (@client_hears demo_rmcp list_cache _ _ _ alice_nostr plain_config "serve"
        demo_client_options 5 (map ob_event sent) alice_worker)) =
    omap internal_to_rmcp_client_rx before ++ long_response_7 :: omap internal_to_rmcp_client_rx after.
Proof.
  cbv zeta.
  assert (length (t_net (Server.transport (ServerWorker.server answered_worker))) = 712%nat) as Hlen by by vm_compute.
  assert (t_net (Server.transport (ServerWorker.server busy_worker)) = []) as Hnil by by vm_compute.
  assert (c_consumer alice = []) as Hc by by vm_compute.
  destruct (@rmcp_response_end_to_end demo_rmcp list_cache _ _ list_cache _ _ bits_serde bits_serde_laws id_sha256
    demo_server_nostr alice_nostr config_small (mkTagSources [] []) 0 (λ _, Ret tt) false (Ok tt) (Ok tt)
    plain_config "serve" "2025" demo_client_options busy_worker 2 5 handler_answer
    (mkResponse "2.0" (VString "event-a") (VString "a long enough result")) "event-a" asked_route "alice" "event-a" long_response_7)
    as (sent & Hn & Hread);
    [by vm_compute|by vm_compute|done|done|done|exact demo_channel|by vm_compute|by vm_compute
    |by apply lru_contains_entry; vm_compute|done|done|by vm_compute|done|vm_compute; repeat constructor|by vm_compute|].
  rewrite Hnil in Hn. cbn [app] in Hn. rewrite Hn. rewrite Hn in Hlen.
  split; [rewrite Hlen; lia|].
  destruct (Hread alice_worker eq_refl eq_refl) as [(before & after & Hb & Ha & Hd) _];
    [exact (eq_sym (f_equal (@length _) Hc))| |exists before, after; split_and!; [exact Hb|exact Ha|exact Hd]].
  split.
  - by vm_compute.
  - by vm_compute.
  - rewrite Hlen. split; [intros ? [= <-]; by split|..].
    + apply Z.leb_le. by vm_compute.
    + apply Z.leb_le. by vm_compute.
    + apply Z.ltb_lt. by vm_compute.
    + apply Z.leb_le. by vm_compute.
    + apply Z.ltb_lt. by vm_compute.
  - by rewrite Hlen.
  - rewrite <- Hn. apply Forall_forall. intros o Ho.
    assert (forallb (λ o, match ob_wrapped o with None => true | _ => false end)
      (t_net (Server.transport (ServerWorker.server answered_worker))) = true) as Hw by by vm_compute.
    rewrite forallb_forall in Hw. apply list_elem_of_In in Ho. specialize (Hw o Ho). clear Ho.
    destruct (ob_wrapped o); [discriminate Hw|discriminate].
  - rewrite <- Hn. apply (numbered_ids_nodup _ 712). by vm_compute.
  - intros o _. reflexivity.
Defined.
