(* ===== verification/RmcpStreams.v ===== *)
(** * Tool calls with a stream

    [src/rmcp_transport/progress.rs] and [open_stream.rs]: the request options, and
    [call_tool_stream], which pushes a placeholder and waits for the transport to bind
    it to the token of its request.  Any number of calls run at once; [streams_step]
    interleaves them with the publication of their requests. *)

From S2P Require Import Prelude Json CoreTypes OversizedFrame OversizedCodec Instances OversizedReceiver Lru RouteStore OpenStreamFrame OpenStreamSession OpenStreamRegistry PaymentTypes ServerTasks BaseTransport Announcements Discovery ClientPayments ClientState ClientOutbound ClientInbound.

(** ** Request options ([progress.rs]) *)

(** [PeerRequestOptions]; durations in milliseconds. *)
Record PeerRequestOptions : Type := mkRequestOptions {
  ro_timeout : option Z;
  ro_reset_timeout_on_progress : bool;
  ro_max_total_timeout : option Z;
}.

Definition DEFAULT_OVERSIZED_IDLE_TIMEOUT : Z := 60000.
Definition DEFAULT_OVERSIZED_MAX_TOTAL_TIMEOUT : Z := 300000.

Definition progress_aware_options (idle max_total : Z) : PeerRequestOptions :=
  mkRequestOptions (Some idle) true (Some max_total).

(** [ServiceError]: what rmcp reports, and an answer of the wrong type. *)
Inductive service_error : Type :=
| ServiceFailed (message : string)
| UnexpectedResponse.

(** [ServerResult]. *)
Inductive server_result (R : Type) : Type :=
| CallToolResult (result : R)
| OtherResult.
Arguments CallToolResult {R}.
Arguments OtherResult {R}.

(** [call_tool_with_options], from the answer of the peer. *)
Definition call_tool_with_options {R} (answer : result (server_result R) service_error) : result R service_error :=
  let? res := answer in
  match res with
  | CallToolResult result => Ok result
  | OtherResult => Err UnexpectedResponse
  end.

(** ** Calls with a stream ([open_stream.rs]) *)

Definition u64_saturating_add (x y : Z) : Z := Z.min u64_max (x + y).

Definition open_stream_request_options (config : OpenStreamConfig) : PeerRequestOptions :=
  let idle_ms :=
    Z.max 1 (u64_saturating_add (u64_saturating_add (sc_idle_timeout_ms config) (sc_probe_timeout_ms config))
               (sc_close_grace_period_ms config)) in
  mkRequestOptions (Some idle_ms) true (sc_max_total_timeout_ms config).

(** [flatten_call_result]; the outer error is that of the task, [text] how rmcp prints
    its errors. *)
Definition flatten_call_result {R} (text : service_error → string)
    (settled : result (result R service_error) string) : result R Error :=
  match settled with
  | Ok (Ok result) => Ok result
  | Ok (Err service_error) => Err (ETransport (text service_error))
  | Err join_error => Err (EOther ("call_tool_stream task failed: " +:+ join_error))
  end.

(** A call: waiting for the bind lock, waiting for its placeholder, with its stream
    (the token and the session), or failed. *)
Inductive stream_call : Type :=
| AwaitLock
| AwaitBind (placeholder : nat)
| Streaming (token : string) (session : nat)
| NoStream (e : Error).

Record Streams (L : Type → Type) : Type := mkStreams {
  st_client : ClientTransport L;
  st_lock : option nat;
  st_calls : list stream_call;
  st_published : list nat;
}.
Arguments mkStreams {L}.
Arguments st_client {L}.
Arguments st_lock {L}.
Arguments st_calls {L}.
Arguments st_published {L}.

(** The [i]-th call takes the lock and pushes its placeholder, its request reaches the
    transport, its placeholder resolves or was dropped, the call itself ends first;
    somebody else's request reaches the transport; the transport is closed; a new
    call begins. *)
Inductive streams_action : Type :=
| Begin
| Acquire (i : nat)
| PublishCall (now : Z) (i : nat)
| PublishOther (now : Z) (message : JsonRpcMessage)
| Resolve (i : nat)
| Dropped (i : nat)
| Settled (i : nat) (e : option Error)
| CloseTransport.

Section streams.
Context `{Lru L} `{SerdeJson} `{Sha256} `{Nostr}.
Variable config : NostrClientTransportConfig.
(** The request rmcp makes of the [i]-th call. *)
Variable request : nat → JsonRpcMessage.
Implicit Types σ : Streams L.

Definition set_call (i : nat) (s : stream_call) σ : Streams L :=
  mkStreams (st_client σ) (st_lock σ) (<[i := s]> (st_calls σ)) (st_published σ).
Definition release_lock σ : Streams L := mkStreams (st_client σ) None (st_calls σ) (st_published σ).
Definition with_client c σ : Streams L := mkStreams c (st_lock σ) (st_calls σ) (st_published σ).

(** What a placeholder was resolved with. *)
Definition resolution (placeholder : nat) (c : ClientTransport L) : option (result (string * nat) Error) :=
  find_map (λ b : nat * result (string * nat) Error, if Nat.eqb b.1 placeholder then Some b.2 else None) (c_bound c).

Definition waits (placeholder : nat) (c : ClientTransport L) : bool :=
  bool_decide (resolution placeholder c = None) && bool_decide (placeholder ∈ c_placeholders c).

Definition streams_step σ (a : streams_action) : Streams L :=
  let c := st_client σ in
  match a with
  | Begin => mkStreams c (st_lock σ) (st_calls σ ++ [AwaitLock]) (st_published σ)
  | Acquire i =>
      match st_calls σ !! i, st_lock σ with
      | Some AwaitLock, None =>
          let '(c, placeholder) := prepare_outbound c in
          mkStreams c (Some i) (<[i := AwaitBind placeholder]> (st_calls σ)) (st_published σ)
      | _, _ => σ
      end
  | PublishCall now i =>
      match st_calls σ !! i with
      | None | Some AwaitLock => σ
      | _ =>
          if bool_decide (i ∈ st_published σ) then σ
          else mkStreams (bind_stream config now (request i) c) (st_lock σ) (st_calls σ) (st_published σ ++ [i])
      end
  | PublishOther now message => with_client (bind_stream config now message c) σ
  | Resolve i =>
      match st_calls σ !! i with
      | Some (AwaitBind placeholder) =>
          match resolution placeholder c with
          | Some (Ok (token, session)) => release_lock (set_call i (Streaming token session) σ)
          | Some (Err e) => release_lock (set_call i (NoStream e) σ)
          | None => σ
          end
      | _ => σ
      end
  | Dropped i =>
      match st_calls σ !! i with
      | Some (AwaitBind placeholder) =>
          if bool_decide (resolution placeholder c = None) && negb (bool_decide (placeholder ∈ c_placeholders c))
          then release_lock (set_call i
                 (NoStream (ETransport "transport closed before the outbound open-stream session was bound")) σ)
          else σ
      | _ => σ
      end
  | Settled i e =>
      match st_calls σ !! i with
      | Some (AwaitBind placeholder) =>
          if waits placeholder c
          then release_lock (set_call i
                 (NoStream (default (EOther "open-stream tool call completed without establishing a stream") e))
                 (with_client (cancel_outbound c) σ))
          else σ
      | _ => σ
      end
  | CloseTransport => with_client (set_placeholders c []) σ
  end.
Definition streams_run σ (actions : list streams_action) : Streams L := foldl streams_step σ actions.

(** ** No stream is crossed *)

(** The token a message would bind a placeholder to. *)
Definition stream_token (message : JsonRpcMessage) : option string :=
  match message with
  | Request req =>
      if sc_enabled (cc_open_stream config) && String.eqb (req_method req) "tools/call"
      then request_progress_token req ≫= progress_token_string else None
  | _ => None
  end.

(** No request of a call that already failed is published, and no other tool call
    while a placeholder waits. *)
Definition orderly σ (a : streams_action) : bool :=
  match a with
  | PublishCall _ i => match st_calls σ !! i with Some (NoStream _) => false | _ => true end
  | PublishOther _ message =>
      bool_decide (stream_token message = None) || bool_decide (c_placeholders (st_client σ) = [])
  | _ => true
  end.
Fixpoint orderly_run σ (actions : list streams_action) : bool :=
  match actions with
  | [] => true
  | a :: rest => orderly σ a && orderly_run (streams_step σ a) rest
  end.

Lemma bind_stream_spec now m (c : ClientTransport L) :
  match stream_token m, c_placeholders c with
  | Some token, placeholder :: rest =>
      ∃ res, c_placeholders (bind_stream config now m c) = rest ∧
        c_bound (bind_stream config now m c) = c_bound c ++ [(placeholder, res)] ∧
        c_next_ref (bind_stream config now m c) = c_next_ref c ∧
        ∀ token' session, res = Ok (token', session) → token' = token
  | _, _ => bind_stream config now m c = c
  end.
Proof.
  unfold bind_stream, stream_token. destruct m as [req| | |]; try done. destruct (_ && _); [|done].
  destruct (request_progress_token req) as [original|]; [|done]. cbn.
  destruct (progress_token_string original) as [token|]; [|done].
  unfold bind_pending_outbound_open_stream. destruct (c_placeholders c) as [|w rest] eqn:Ep; [done|].
  unfold create_outbound_open_stream_session.
  destruct (Registry.get_session _ _) as [existing|]; [|destruct (Registry.create_session_with _ _ _ _ _) as [registry [ref|e]]].
  all: eexists; split_and!; [done|done|done|]; try by intros ? ? [= <- _].
Qed.

Lemma resolution_app p c bound extra :
  c_bound c = bound ++ extra →
  resolution p c =
  match find_map (λ b : nat * result (string * nat) Error, if Nat.eqb b.1 p then Some b.2 else None) bound with
  | Some r => Some r
  | None => find_map (λ b : nat * result (string * nat) Error, if Nat.eqb b.1 p then Some b.2 else None) extra
  end.
Proof.
  unfold resolution. intros ->. induction bound as [|b bound IH]; cbn; [done|]. by destruct (Nat.eqb b.1 p).
Qed.

(** How the holder of the lock stands: its placeholder waits and its own request has
    not claimed it, or it was taken, and then by its own request. *)
Definition holder_ok σ (i placeholder : nat) : Prop :=
  (c_placeholders (st_client σ) = [placeholder] ∧ resolution placeholder (st_client σ) = None ∧
   (is_Some (stream_token (request i)) → i ∉ st_published σ)) ∨
  (c_placeholders (st_client σ) = [] ∧
   ∀ res, resolution placeholder (st_client σ) = Some res →
     i ∈ st_published σ ∧ ∀ token session, res = Ok (token, session) → stream_token (request i) = Some token).

Record streams_ok σ : Prop := {
  so_free : st_lock σ = None → c_placeholders (st_client σ) = [];
  so_holder i : st_lock σ = Some i → ∃ p, st_calls σ !! i = Some (AwaitBind p) ∧ holder_ok σ i p;
  so_await i p : st_calls σ !! i = Some (AwaitBind p) → st_lock σ = Some i;
  so_stream i token session : st_calls σ !! i = Some (Streaming token session) →
    stream_token (request i) = Some token ∧ i ∈ st_published σ;
  so_lock_published i : i ∈ st_published σ → is_Some (st_calls σ !! i) ∧ st_calls σ !! i ≠ Some AwaitLock;
  so_fresh p res : (p, res) ∈ c_bound (st_client σ) → (p < c_next_ref (st_client σ))%nat;
  so_waiting p : p ∈ c_placeholders (st_client σ) → (p < c_next_ref (st_client σ))%nat;
}.

Lemma resolution_none p c :
  (∀ res, (p, res) ∉ c_bound c) → resolution p c = None.
Proof.
  unfold resolution. induction (c_bound c) as [|[q r] bound IH]; cbn; intros Hn; [done|].
  destruct (Nat.eqb_spec q p) as [->|]; [by destruct (Hn r); left|]. apply IH. intros res Hin. destruct (Hn res). by right.
Qed.

(** Publishing [m]: a call is published by its own request only, and no other request
    claims the placeholder that waits. *)
Lemma publish_ok σ σ' now m :
  streams_ok σ → st_client σ' = bind_stream config now m (st_client σ) → st_lock σ' = st_lock σ →
  st_calls σ' = st_calls σ →
  (∀ i, i ∈ st_published σ → i ∈ st_published σ') →
  (∀ i, i ∈ st_published σ' → i ∈ st_published σ ∨
     m = request i ∧ is_Some (st_calls σ !! i) ∧ st_calls σ !! i ≠ Some AwaitLock) →
  (∀ i, st_lock σ = Some i → c_placeholders (st_client σ) ≠ [] → is_Some (stream_token m) →
     m = request i ∧ i ∈ st_published σ') →
  streams_ok σ'.
Proof.
  intros [H1' H2' H3' H4' H5' H6' H7'] Hc Hl Hcalls Hmono Hpub Hclaim.
  pose proof (bind_stream_spec now m (st_client σ)) as Hspec. rewrite <- Hc in Hspec.
  assert (∀ i token session, st_calls σ !! i = Some (Streaming token session) →
    stream_token (request i) = Some token ∧ i ∈ st_published σ') as H4.
  { intros i token session [? ?]%H4'. auto. }
  assert (∀ i, i ∈ st_published σ' → is_Some (st_calls σ !! i) ∧ st_calls σ !! i ≠ Some AwaitLock) as H5.
  { intros i [Hi|(_ & ? & ?)]%Hpub; auto. }
  assert (stream_token m = None ∨ c_placeholders (st_client σ) = [] → st_client σ' = st_client σ) as Hsame.
  { intros [E|E]; rewrite E in Hspec; [done|]. by destruct (stream_token m). }
  destruct (decide (stream_token m = None ∨ c_placeholders (st_client σ) = [])) as [Hn|Hn].
  - specialize (Hsame Hn). split; rewrite ?Hsame, ?Hl, ?Hcalls; auto.
    intros i Hi. destruct (H2' i Hi) as (p & Hcall & Hh). exists p. split; [done|]. unfold holder_ok. rewrite Hsame.
    destruct Hh as [(Hpl & Hr & Hnp)|(Hpl & Hr)]; [left|right].
    + split_and!; [done|done|]. intros Hs [Hin|(-> & _)]%Hpub; [by apply Hnp|].
      destruct Hn as [Hn|Hn]; [destruct Hs; congruence|by rewrite Hpl in Hn].
    + split; [done|]. intros res Hres. destruct (Hr res Hres). auto.
  - destruct (stream_token m) as [token|] eqn:Et; [|tauto].
    destruct (c_placeholders (st_client σ)) as [|w rest] eqn:Ep; [tauto|].
    destruct Hspec as (res & Hp & Hb & Hnext & Hres).
    destruct (st_lock σ) as [i|] eqn:El; [|discriminate (H1' eq_refl)].
    destruct (H2' i eq_refl) as (p & Hcall & [(Hpl & Hr & Hnp)|(Hpl & _)]); [|congruence].
    rewrite Hpl in Ep. injection Ep as <- <-.
    destruct (Hclaim i eq_refl) as [-> Hin]; [done|eauto|].
    split; rewrite ?Hl, ?Hcalls; auto.
    + intros j [= <-]. exists p. split; [done|]. right. split; [done|].
      rewrite (resolution_app p (st_client σ') (c_bound (st_client σ)) [(p, res)]) by done.
      unfold resolution in Hr. rewrite Hr. cbn. rewrite Nat.eqb_refl. intros ? [= <-]. split; [done|].
      intros token' session Hr'. by rewrite Et, (Hres token' session Hr').
    + rewrite Hb, Hnext. intros q r [Hq|Hq%list_elem_of_singleton]%elem_of_app; [eauto|].
      injection Hq as -> ->. apply H7'. set_solver.
    + rewrite Hp. set_solver.
Qed.

(** A call that no longer waits. *)
Lemma release_ok σ i p s c :
  streams_ok σ → st_calls σ !! i = Some (AwaitBind p) →
  c_placeholders c = [] → c_bound c = c_bound (st_client σ) → c_next_ref c = c_next_ref (st_client σ) →
  match s with
  | AwaitLock | AwaitBind _ => False
  | Streaming token _ => stream_token (request i) = Some token ∧ i ∈ st_published σ
  | NoStream _ => True
  end →
  streams_ok (release_lock (set_call i s (with_client c σ))).
Proof.
  intros [H1' H2' H3' H4' H5' H6' H7'] Hi Hp Hb Hn Hs. pose proof (lookup_lt_Some _ _ _ Hi) as Hlt.
  split; cbn; rewrite ?Hp, ?Hb, ?Hn; try done; [..|set_solver].
  - intros j q. destruct (decide (j = i)) as [->|]; [rewrite list_lookup_insert_eq by done; by intros [= ->]|].
    rewrite list_lookup_insert_ne by done. intros Hj%H3'. pose proof (H3' _ _ Hi). congruence.
  - intros j token session. destruct (decide (j = i)) as [->|]; [rewrite list_lookup_insert_eq by done; by intros [= ->]|].
    rewrite list_lookup_insert_ne by done. apply H4'.
  - intros j Hj. destruct (decide (j = i)) as [->|].
    + rewrite list_lookup_insert_eq by done. split; [eauto|]. by intros [= ->].
    + rewrite list_lookup_insert_ne by done. by apply H5'.
Qed.

Lemma streams_step_ok σ a : streams_ok σ → orderly σ a = true → streams_ok (streams_step σ a).
Proof.
  intros Hok. destruct a as [|i|now i|now m|i|i|i e|]; cbn; intros Ho.
  - destruct Hok as [H1' H2' H3' H4' H5' H6' H7'].
    assert (∀ i s, s ≠ AwaitLock → (st_calls σ ++ [AwaitLock]) !! i = Some s → st_calls σ !! i = Some s) as Hnew.
    { intros i s Hs [Hi|[_ Hi]]%lookup_app_Some; [done|]. apply list_lookup_singleton_Some in Hi as [_ <-]. done. }
    split; cbn; auto.
    + intros i Hi. destruct (H2' i Hi) as (p & Hc & Hh). exists p. split; [|done]. by apply lookup_app_l_Some.
    + intros i p Hi. by eapply H3', Hnew.
    + intros i token session Hi. by eapply H4', Hnew.
    + intros i [[s Hi] Hne]%H5'. rewrite (lookup_app_l_Some _ _ _ _ Hi). rewrite Hi in Hne. eauto.
  - destruct (st_calls σ !! i) as [[]|] eqn:Hi; try done. destruct (st_lock σ) eqn:Hl; [done|]. cbn.
    destruct Hok as [H1' H2' H3' H4' H5' H6' H7']. pose proof (lookup_lt_Some _ _ _ Hi) as Hlt.
    split; cbn; rewrite ?(H1' Hl); try done.
    + intros j [= <-]. eexists. rewrite list_lookup_insert_eq by done. split; [done|]. left. cbn.
      split_and!; [done| |].
      * apply resolution_none. intros res Hin%H6'. cbn in Hin. lia.
      * intros _ [_ Hne]%H5'. done.
    + intros j p. destruct (decide (j = i)) as [->|]; [done|]. rewrite list_lookup_insert_ne by done.
      intros Hj%H3'. congruence.
    + intros j token session. destruct (decide (j = i)) as [->|]; [by rewrite list_lookup_insert_eq|].
      rewrite list_lookup_insert_ne by done. apply H4'.
    + intros j Hj. destruct (decide (j = i)) as [->|]; [rewrite list_lookup_insert_eq by done; eauto|].
      rewrite list_lookup_insert_ne by done. by apply H5'.
    + intros p res Hin%H6'. lia.
    + intros p Hp%list_elem_of_singleton. lia.
  - destruct (st_calls σ !! i) as [s|] eqn:Hi; [|done].
    assert (s = AwaitLock ∨ s ≠ AwaitLock) as [->|Hs] by (destruct s; auto); [done|].
    assert (streams_ok (if bool_decide (i ∈ st_published σ) then σ
      else mkStreams (bind_stream config now (request i) (st_client σ)) (st_lock σ) (st_calls σ) (st_published σ ++ [i]))) as Hgoal.
    { case_bool_decide as Hpub; [done|]. apply (publish_ok σ _ now (request i)); try done; cbn.
      - set_solver.
      - intros j [Hj|Hj%list_elem_of_singleton]%elem_of_app; [by left|right]. subst j. split; [done|]. rewrite Hi.
        split; [eauto|]. congruence.
      - intros j Hl Hne Htok. destruct (so_holder _ Hok j Hl) as (p & Hj & _).
        destruct (decide (i = j)) as [->|Hij]; [set_solver|].
        exfalso. destruct s as [|q|token session|e]; [done|..|discriminate Ho].
        + pose proof (so_await _ Hok _ _ Hi). congruence.
        + by destruct (so_stream _ Hok _ _ _ Hi). }
    by destruct s.
  - apply (publish_ok σ _ now m); try done; cbn; [by left|]. intros i _ Hne [token Htok].
    rewrite Htok in Ho. cbn in Ho. by apply bool_decide_eq_true in Ho.
  - destruct (st_calls σ !! i) as [[|p| |]|] eqn:Hi; try done.
    pose proof (so_await _ Hok _ _ Hi) as Hl. destruct (so_holder _ Hok i Hl) as (q & Hq & Hh).
    rewrite Hi in Hq. injection Hq as <-.
    destruct (resolution p (st_client σ)) as [res|] eqn:Er; [|done].
    destruct Hh as [(_ & Hr & _)|(Hpl & Hr)]; [congruence|]. destruct (Hr res Er) as [Hpub Htok].
    destruct res as [[token session]|e].
    + apply (release_ok σ i p (Streaming token session) (st_client σ)); try done. split; [by eapply Htok|done].
    + by apply (release_ok σ i p (NoStream e) (st_client σ)).
  - destruct (st_calls σ !! i) as [[|p| |]|] eqn:Hi; try done.
    pose proof (so_await _ Hok _ _ Hi) as Hl. destruct (so_holder _ Hok i Hl) as (q & Hq & Hh).
    rewrite Hi in Hq. injection Hq as <-. destruct (_ && _) eqn:Eg; [|done].
    apply andb_true_iff in Eg as [_ Eg]. apply negb_true_iff, bool_decide_eq_false in Eg.
    destruct Hh as [(Hpl & _)|(Hpl & _)]; [rewrite Hpl in Eg; set_solver|].
    by apply (release_ok σ i p (NoStream _) (st_client σ)).
  - destruct (st_calls σ !! i) as [[|p| |]|] eqn:Hi; try done.
    pose proof (so_await _ Hok _ _ Hi) as Hl. destruct (so_holder _ Hok i Hl) as (q & Hq & Hh).
    rewrite Hi in Hq. injection Hq as <-. destruct (waits _ _) eqn:Eg; [|done]. unfold waits in Eg.
    apply andb_true_iff in Eg as [_ Eg]. apply bool_decide_eq_true in Eg.
    destruct Hh as [(Hpl & _)|(Hpl & _)]; [|rewrite Hpl in Eg; set_solver].
    apply (release_ok σ i p (NoStream _) (cancel_outbound (st_client σ))); try done. cbn. by rewrite Hpl.
  - destruct Hok as [H1' H2' H3' H4' H5' H6' H7']. split; cbn; auto; [|set_solver].
    intros i Hl. destruct (H2' i Hl) as (p & Hc & Hh). exists p. split; [done|]. right. split; [done|]. cbn.
    destruct Hh as [(_ & Hr & _)|(_ & Hr)]; [|exact Hr]. intros res Hres. unfold resolution in Hr, Hres. cbn in Hres. congruence.
Qed.

(** No call has begun. *)
Definition no_calls (c : ClientTransport L) : Streams L := mkStreams c None [] [].

(** (C37) Streams are not crossed.  Any number of [call_tool_stream] calls run at once
    on one client whose placeholders are all taken, rmcp stamping and publishing their
    requests in any order and the transport possibly closing in between.  If no request
    of a call that already failed is published any more, and no tool call of somebody
    else while a placeholder waits, then every call that gets a stream gets the one of
    the token of its own request. *)
Theorem stream_calls_not_crossed c actions i token session :
  c_placeholders c = [] → (∀ p res, (p, res) ∈ c_bound c → (p < c_next_ref c)%nat) →
  orderly_run (no_calls c) actions = true →
  st_calls (streams_run (no_calls c) actions) !! i = Some (Streaming token session) →
  stream_token (request i) = Some token.
Proof.
  intros Hp Hb Ho Hi.
  assert (streams_ok (streams_run (no_calls c) actions)) as Hok; [|by apply (so_stream _ Hok) in Hi as [? _]].
  assert (streams_ok (no_calls c)) as H0' by (split; cbn; rewrite ?Hp; try done; set_solver).
  clear Hi. revert H0' Ho. generalize (no_calls c). induction actions as [|a actions IH]; intros σ Hok Ho; [done|].
  cbn in Ho. apply andb_true_iff in Ho as [Ha Ho]. by apply IH; [apply streams_step_ok|].
Qed.
End streams.

(** ** Where streams are crossed *)

#[local] Existing Instances bits_serde list_lru.

Definition demo_stream_config : NostrClientTransportConfig :=
  let c := demo_client_config in
  mkClientConfig (cc_relay_urls c) (cc_server_pubkey c) (cc_encryption_mode c) (cc_gift_wrap_mode c) (cc_is_stateless c)
    (cc_timeout c) (cc_discovery_relay_urls c) (cc_fallback_operational_relay_urls c) (cc_oversized_transfer c)
    (mkStreamConfig true 10 100 100000 1000 1000 1000 None) (cc_payment_interaction c) (cc_pmis c).

(** The [i]-th call, with the token rmcp stamps on it. *)
Definition demo_stream_request (i : nat) : JsonRpcMessage :=
  Request (mkRequest "2.0" (VNumber (PosInt (Z.of_nat i))) "tools/call"
    (Some (VObject [("_meta", VObject [("progressToken", VNumber (PosInt (Z.of_nat i)))]); ("name", VString "watch")]))).

Abbreviation demo_streams actions :=
  (streams_run demo_stream_config demo_stream_request
     (no_calls (@initial_client list_cache list_lru demo_stream_config)) actions).

(** A call whose request is still queued when it times out: the request is published
    later and takes the placeholder of the next call, which then reads the stream of
    the first one. *)
Theorem late_request_crosses_streams :
  let σ := demo_streams [Begin; Begin; Acquire 0; Settled 0 None; Acquire 1; PublishCall 5 0; Resolve 1; PublishCall 6 1] in
  stream_token demo_stream_config (demo_stream_request 1) = Some "1" ∧ st_calls σ !! 1%nat = Some (Streaming "0" 0).
Proof. by vm_compute. Qed.

(** An ordinary tool call published while a placeholder waits takes it. *)
Theorem plain_call_takes_stream :
  let σ := demo_streams [Begin; Acquire 0; PublishOther 5 (demo_stream_request 7); Resolve 0; PublishCall 6 0] in
  st_calls σ !! 0%nat = Some (Streaming "7" 0).
Proof. by vm_compute. Qed.

Lemma stream_calls_not_crossed_witness :
  let actions := [Begin; Begin; Begin; Acquire 1; PublishCall 5 1; Acquire 0; Resolve 1; Acquire 2; Settled 2 None;
                  PublishOther 6 (demo_stream_request 9); Acquire 0; PublishCall 7 0; Resolve 0] in
  st_calls (demo_streams actions) = [Streaming "0" 1; Streaming "1" 0;
    NoStream (EOther "open-stream tool call completed without establishing a stream")] ∧
  stream_token demo_stream_config (demo_stream_request 0) = Some "0".
Proof.
  cbv zeta. set (actions := [Begin; Begin; Begin; Acquire 1; PublishCall 5 1; Acquire 0; Resolve 1; Acquire 2;
    Settled 2 None; PublishOther 6 (demo_stream_request 9); Acquire 0; PublishCall 7 0; Resolve 0]).
  split; [by vm_compute|].
  apply (stream_calls_not_crossed demo_stream_config demo_stream_request
    (@initial_client list_cache list_lru demo_stream_config) actions 0 "0" 1); [done|cbn; set_solver|by vm_compute..].
Defined.
