(* ===== verification/TestDoubles.v ===== *)
(** * The test doubles

    Models [relay/mock.rs], the in-memory relay the tests of the SDK run on, and
    [payments/fakes.rs].  A [subscribe] releases the lock of the store before it
    replays what it found there, so its replay interleaves with what other pools do. *)

From S2P Require Import Prelude Json CoreTypes PaymentTypes ServerTasks BaseTransport.

(** ** The mock relay ([relay/mock.rs]) *)

Module MockRelay.

(** [MockRelayInner], with the notifications sent on the channel of each pool, the
    replays of the [subscribe] calls that have released the lock, and [NEXT_POOL_ID].
    [Filter] and [Keys] are those of [nostr_sdk]. *)
Record Inner (Filter : Type) : Type := mkInner {
  events : list Event;
  subscribers : gmap nat (list Filter);
  channels : gmap nat (list Event);
  replays : list (nat * list Event);
  next_pool_id : nat;
}.
Arguments mkInner {Filter}.
Arguments events {Filter}.
Arguments subscribers {Filter}.
Arguments channels {Filter}.
Arguments replays {Filter}.
Arguments next_pool_id {Filter}.

Record MockRelayPool (Keys : Type) : Type := mkPool {
  pool_id : nat;
  keys : Keys;
}.
Arguments mkPool {Keys}.
Arguments pool_id {Keys}.
Arguments keys {Keys}.

Section mock.
Context {Filter Keys : Type}.
(** [Filter::match_event], [EventBuilder::sign_with_keys] and [Keys::public_key]. *)
Variable match_event : Filter → Event → bool.
Variable key_sign : Keys → EventBuilder → result Event string.
Variable key_public : Keys → string.
Implicit Types (s : Inner Filter) (e : Event) (p : nat).

Definition inner_new : Inner Filter := mkInner [] ∅ ∅ [] 0.

(** A pool of its own channel on a store. *)
Definition linked (k : Keys) s : MockRelayPool Keys * Inner Filter :=
  let id := next_pool_id s in
  (mkPool id k, mkInner (events s) (subscribers s) (<[id := []]> (channels s)) (replays s) (S id)).
Definition with_keys (k : Keys) : MockRelayPool Keys * Inner Filter := linked k inner_new.
Definition create_pair (a b : Keys) : MockRelayPool Keys * MockRelayPool Keys * Inner Filter :=
  let '(a, s) := linked a inner_new in
  let '(b, s) := linked b s in (a, b, s).

Definition stored_events s : list Event := events s.
Definition inject_event e s : Inner Filter :=
  mkInner (events s ++ [e]) (subscribers s) (channels s) (replays s) (next_pool_id s).

Definition matches (filters : list Filter) e : bool := existsb (λ f, match_event f e) filters.

Definition publish_event e s : Inner Filter * result string Error :=
  let deliver p log :=
    match subscribers s !! p with
    | Some filters => if matches filters e then Some (log ++ [e]) else Some log
    | None => Some log
    end in
  (mkInner (events s ++ [e]) (subscribers s) (map_imap deliver (channels s)) (replays s) (next_pool_id s), Ok (ev_id e)).

Definition sign_with_keys (builder : EventBuilder) (k : Keys) : result Event Error := map_err ETransport (key_sign k builder).
Definition publish (pool : MockRelayPool Keys) (builder : EventBuilder) s : Inner Filter * result string Error :=
  match sign_with_keys builder (keys pool) with
  | Err e => (s, Err e)
  | Ok event => let '(s, res) := publish_event event s in (s, let? _ := res in Ok (ev_id event))
  end.
Definition sign (pool : MockRelayPool Keys) (builder : EventBuilder) : result Event Error :=
  sign_with_keys builder (keys pool).
Definition public_key (pool : MockRelayPool Keys) : result string Error := Ok (key_public (keys pool)).
Definition publish_to (pool : MockRelayPool Keys) (urls : list string) := publish pool.
Definition fetch_events (filters : list Filter) s : result (list Event) Error :=
  Ok (List.filter (matches filters) (events s)).

(** [subscribe] under the lock; what it replays is sent afterwards. *)
Definition subscribe (p : nat) (filters : list Filter) s : Inner Filter :=
  mkInner (events s) (<[p := default [] (subscribers s !! p) ++ filters]> (subscribers s)) (channels s)
    (replays s ++ [(p, List.filter (matches filters) (events s))]) (next_pool_id s).
(** One turn of the loop of the [i]-th [subscribe] call. *)
Definition replay (i : nat) s : Inner Filter :=
  match replays s !! i with
  | Some (p, e :: rest) =>
      mkInner (events s) (subscribers s) (alter (λ log, log ++ [e]) p (channels s)) (<[i := (p, rest)]> (replays s))
        (next_pool_id s)
  | _ => s
  end.

Inductive relay_event : Type :=
| Link (k : Keys)
| Publish (e : Event)
| Inject (e : Event)
| Subscribe (p : nat) (filters : list Filter)
| Replay (i : nat).
(** A call needs its pool. *)
Definition relay_step s (x : relay_event) : Inner Filter :=
  match x with
  | Link k => (linked k s).2
  | Publish e => (publish_event e s).1
  | Inject e => inject_event e s
  | Subscribe p filters => if bool_decide (p < next_pool_id s)%nat then subscribe p filters s else s
  | Replay i => replay i s
  end.
Definition relay_run s (xs : list relay_event) : Inner Filter := foldl relay_step s xs.

(** What the [subscribe] calls of [p] have still to replay. *)
Definition owed (p : nat) s : list Event := replays s ≫= λ r, if Nat.eqb r.1 p then r.2 else [].

(** *** A subscriber and its events *)

Definition not_subscribing p (x : relay_event) : Prop := ∀ fs, x ≠ Subscribe p fs.
Definition not_injecting (x : relay_event) : Prop := ∀ e, x ≠ Inject e.

(** A pool that has not subscribed, or does not exist yet. *)
Definition idle p s : Prop :=
  (∀ log, channels s !! p = Some log → log = []) ∧ ((p < next_pool_id s)%nat → is_Some (channels s !! p)) ∧
  subscribers s !! p = None ∧ owed p s = [].
(** A pool with filters [fs]: it was sent, or will be, each matching event once. *)
Definition served p fs s : Prop :=
  (p < next_pool_id s)%nat ∧ subscribers s !! p = Some fs ∧
  ∃ log, channels s !! p = Some log ∧ log ++ owed p s ≡ₚ List.filter (matches fs) (events s).

Lemma replays_middle {B} (i : nat) (l : list B) x y :
  l !! i = Some x → ∃ l1 l2, l = l1 ++ x :: l2 ∧ <[i := y]> l = l1 ++ y :: l2.
Proof.
  intros (l1 & l2 & -> & ->)%list_elem_of_split_length. exists l1, l2. split; [done|].
  by rewrite <- (Nat.add_0_r (length l1)), insert_app_r.
Qed.

Lemma served_step p fs x s :
  not_subscribing p x → not_injecting x → served p fs s → served p fs (relay_step s x).
Proof.
  intros Hs Hi Hserved. pose proof Hserved as (Hp & Hf & log & Hc & Hl). destruct x as [k|e|e|q gs|i]; cbn.
  - split_and!; cbn; [lia|done|]. exists log. rewrite lookup_insert_ne by lia. done.
  - split_and!; cbn; [done|done|]. rewrite map_lookup_imap, Hc. cbn. rewrite Hf, List.filter_app. cbn.
    destruct (matches fs e); [|rewrite app_nil_r; by exists log]. exists (log ++ [e]). split; [done|].
    rewrite <- app_assoc. change (owed p _) with (owed p s). rewrite (Permutation_app_comm [e]), app_assoc. by rewrite Hl.
  - by destruct (Hi e).
  - assert (p ≠ q) by (intros ->; by destruct (Hs gs)). destruct (bool_decide (q < next_pool_id s)%nat); [|exact Hserved].
    split_and!; cbn; [done|by rewrite lookup_insert_ne|].
    exists log. split; [done|]. unfold owed. cbn. rewrite bind_app. cbn. rewrite (proj2 (Nat.eqb_neq q p)) by done.
    by rewrite !app_nil_r.
  - unfold replay. destruct (replays s !! i) as [[q [|e rest]]|] eqn:Hr; try exact Hserved.
    destruct (replays_middle i (replays s) (q, e :: rest) (q, rest) Hr) as (l1 & l2 & Hl1 & Hl2).
    split_and!; cbn; [done|done|]. unfold owed in Hl |- *. cbn. rewrite Hl2. rewrite Hl1 in Hl.
    rewrite !bind_app in Hl |- *. cbn in Hl |- *. destruct (Nat.eqb_spec q p) as [->|Hne].
    + exists (log ++ [e]). rewrite lookup_alter_eq, Hc. split; [done|]. rewrite <- Hl, <- !app_assoc. cbn.
      by rewrite Permutation_middle.
    + exists log. rewrite lookup_alter_ne by done. done.
Qed.

Lemma idle_step p x s : not_subscribing p x → idle p s → idle p (relay_step s x).
Proof.
  intros Hs (Hc & He & Hf & Ho). destruct x as [k|e|e|q gs|i]; cbn.
  - split_and!; cbn; [intros log|intros Hlt|done|done]; (destruct (decide (next_pool_id s = p)) as [<-|];
      [rewrite lookup_insert_eq|rewrite lookup_insert_ne by done]); [by intros [= <-]|apply Hc|by eexists|apply He; lia].
  - split_and!; cbn; [| |done|done]; rewrite map_lookup_imap, Hf.
    + intros log. destruct (channels s !! p) as [log0|]; cbn; [|done]. intros [= <-]. by apply Hc.
    + intros [log Hlog]%He. rewrite Hlog. by eexists.
  - by split_and!.
  - assert (p ≠ q) by (intros ->; by destruct (Hs gs)). destruct (bool_decide (q < next_pool_id s)%nat); [|by split_and!].
    split_and!; cbn; [done|done|by rewrite lookup_insert_ne|]. unfold owed in *. cbn. rewrite bind_app, Ho. cbn.
    by rewrite (proj2 (Nat.eqb_neq q p)).
  - unfold replay. destruct (replays s !! i) as [[q [|e rest]]|] eqn:Hr; try (by split_and!).
    destruct (replays_middle i (replays s) (q, e :: rest) (q, rest) Hr) as (l1 & l2 & Hl1 & Hl2).
    unfold owed in Ho. rewrite Hl1, bind_app in Ho. cbn in Ho.
    destruct (Nat.eqb_spec q p) as [->|Hne]; [by destruct (l1 ≫= _)|].
    split_and!; cbn; rewrite ?lookup_alter_ne by done; try done. unfold owed. cbn. rewrite Hl2, bind_app. cbn.
    by rewrite (proj2 (Nat.eqb_neq q p)).
Qed.

Lemma run_idle p xs s : Forall (not_subscribing p) xs → idle p s → idle p (relay_run s xs).
Proof. revert s. induction xs as [|x xs IH]; intros s; [done|]. intros [? ?]%Forall_cons ?. apply IH; auto using idle_step. Qed.
Lemma run_served p fs xs s :
  Forall (not_subscribing p) xs → Forall not_injecting xs → served p fs s → served p fs (relay_run s xs).
Proof.
  revert s. induction xs as [|x xs IH]; intros s; [done|]. intros [? ?]%Forall_cons [? ?]%Forall_cons ?.
  apply IH; auto using served_step.
Qed.

(** What a subscriber of the mock relay gets.  However publications, the
    subscriptions of other pools and the turns of the replays interleave with it, a
    pool that subscribes once is sent each stored event its filters select exactly
    once, either live or from the replay of its subscription, counting what the replay
    has still to send, and no other event; before it subscribes it is sent nothing.
    (An event injected into the store after the subscription is not sent.) *)
Theorem mock_subscriber_served_once p fs before after :
  Forall (not_subscribing p) (before ++ after) → Forall not_injecting after →
  let s0 := relay_run inner_new before in
  let s := relay_run s0 (Subscribe p fs :: after) in
  (p < next_pool_id s0)%nat →
  channels s0 !! p = Some [] ∧
  ∃ log, channels s !! p = Some log ∧ log ++ owed p s ≡ₚ List.filter (matches fs) (stored_events s).
Proof.
  intros [Hb Ha]%Forall_app Hi s0 s Hp.
  assert (idle p s0) as (Hc & He & Hf & Ho).
  { apply run_idle; [done|]. split_and!; cbn; [intros log; by rewrite lookup_empty|lia|apply lookup_empty|done]. }
  destruct (He Hp) as [log0 Hlog]. pose proof (Hc _ Hlog) as ->. split; [done|].
  assert (served p fs (relay_step s0 (Subscribe p fs))) as Hserved.
  { cbn. rewrite bool_decide_eq_true_2 by done. split_and!; cbn; [done|by rewrite Hf, lookup_insert_eq|].
    exists []. split; [done|]. unfold owed in *. cbn. rewrite bind_app, Ho. cbn. by rewrite Nat.eqb_refl, app_nil_r. }
  by destruct (run_served p fs after _ Ha Hi Hserved) as (_ & _ & Hl).
Qed.
End mock.

(** A filter is a kind; the event published before the replay ends comes first. *)
Abbreviation demo_mock := (Link () :: Link () :: Publish (mkEvent "e1" "a" 1 [] "") :: []).
Abbreviation demo_mock_later := ([Publish (mkEvent "e2" "a" 1 [] ""); Publish (mkEvent "e3" "a" 2 [] ""); Replay 0]).
Lemma mock_subscriber_served_once_witness :
  let run := relay_run (Filter := Z) (Keys := unit) (λ k e, ev_kind e =? k) in
  let s := run (run inner_new demo_mock) (Subscribe 1 [1] :: demo_mock_later) in
  ev_id <$> default [] (channels s !! 1%nat) = ["e2"; "e1"] ∧ owed 1 s = [] ∧
  default [] (channels s !! 1%nat) ++ owed 1 s ≡ₚ List.filter (λ e, ev_kind e =? 1) (stored_events s).
Proof.
  intros run s. split; [by vm_compute|]. split; [by vm_compute|].
  destruct (mock_subscriber_served_once (Filter := Z) (Keys := unit) (λ k e, ev_kind e =? k) 1 [1] demo_mock demo_mock_later)
    as (_ & log & Hl & Hp); [by repeat constructor|by repeat constructor|vm_compute; lia|].
  change (channels s !! 1%nat = Some log) in Hl. rewrite Hl. etrans; [exact Hp|]. by vm_compute.
Defined.
End MockRelay.

(** ** The payment fakes ([payments/fakes.rs]) *)

Module Fakes.

Record FakePaymentProcessorOptions : Type := mkOptions {
  o_pmi : string;
  o_verify_delay_ms : Z;
  o_create_delay_ms : Z;
  o_ttl : option Z;
}.
Definition processor_options_default : FakePaymentProcessorOptions := mkOptions "fake" 50 0 None.
(** [FakePaymentProcessor] has the fields of its options. *)
Record FakePaymentProcessor : Type := mkFake {
  f_pmi : string;
  f_verify_delay_ms : Z;
  f_create_delay_ms : Z;
  f_ttl : option Z;
}.
Definition with_options (o : FakePaymentProcessorOptions) : FakePaymentProcessor :=
  mkFake (o_pmi o) (o_verify_delay_ms o) (o_create_delay_ms o) (o_ttl o).
Definition new : FakePaymentProcessor := with_options processor_options_default.

(** The calls, [waited_ms] after they began; [None] is a call that waits. *)
Definition create_payment_required (f : FakePaymentProcessor) (p : PaymentProcessorCreateParams) (waited_ms : Z)
  : option (result PaymentRequiredParams PaymentError) :=
  if waited_ms <? f_create_delay_ms f then None
  else Some (Ok (mkPaymentRequired (create_amount p)
         ("fake:" +:+ create_request_event_id p +:+ ":" +:+ create_client_pubkey p +:+ ":" +:+ show_Z (create_amount p))
         (f_pmi f) (create_description p) (f_ttl f) None)).
(** [select!] polls its branches in either order; [cancel_first] is the one it takes. *)
Definition verify_payment (f : FakePaymentProcessor) (cancelled : bool) (waited_ms : Z) (cancel_first : bool)
  : option (result VerifyOutcome PaymentError) :=
  let on_cancel := if cancelled then Some (Err (Processor "verify_payment cancelled")) else None in
  let on_sleep :=
    if waited_ms <? f_verify_delay_ms f then None
    else Some (Ok (mkVerifyOutcome (Some [("settled", VBool true)]))) in
  if cancel_first then (match on_cancel with Some r => Some r | None => on_sleep end)
  else match on_sleep with Some r => Some r | None => on_cancel end.

(** [FakePaymentHandler]. *)
Record FakePaymentHandlerOptions : Type := mkHandlerOptions {
  h_pmi : string;
  h_delay_ms : Z;
}.
Definition handler_options_default : FakePaymentHandlerOptions := mkHandlerOptions "fake" 50.
Definition handle (h : FakePaymentHandlerOptions) (waited_ms : Z) : option (result unit PaymentError) :=
  if waited_ms <? h_delay_ms h then None else Some (Ok tt).

(** A verification that is cancelled before its delay has passed never settles; once
    the delay has passed, a cancelled one may. *)
Lemma verify_cancelled f waited first :
  waited < f_verify_delay_ms f → verify_payment f true waited first = Some (Err (Processor "verify_payment cancelled")).
Proof. intros Hw%Z.ltb_lt. unfold verify_payment. rewrite Hw. by destruct first. Qed.
Lemma verify_cancelled_late f waited :
  f_verify_delay_ms f <= waited → ∃ outcome, verify_payment f true waited false = Some (Ok outcome).
Proof. intros Hw%Z.ltb_ge. unfold verify_payment. rewrite Hw. eauto. Qed.
End Fakes.
