(* ===== verification/FfiTypes.v ===== *)
(** * The foreign interface: errors, memory and configurations

    Models [contextvm-ffi/src/error.rs], the conversions and the [free] functions of
    [types.rs], [builders.rs], and the builder methods of the SDK's configurations it
    calls.  A pointer the library hands out is the address of a block of its heap;
    [malloc] chooses the addresses.  Freeing or reading a pointer that is not to such
    a block is undefined behaviour, [None].  A pointer of the caller is what it points
    to: [None] is [NULL], a C string is its bytes up to the terminator. *)

From S2P Require Import Prelude Json CoreTypes OversizedFrame OversizedCodec OpenStreamFrame BaseTransport Announcements ServerTasks ServerNegotiation ServerState ClientState.

(** ** Errors ([error.rs]) *)

Inductive ErrorCode : Type :=
| CodeOk | CodeTransport | CodeEncryption | CodeDecryption | CodeTimeout | CodeValidation | CodeUnauthorized
| CodeSerialization | CodePayment | CodeOther.
#[export] Instance ErrorCode_eq_dec : EqDecision ErrorCode.
Proof. solve_decision. Defined.

(** [#[repr(C)]]. *)
Definition code_repr (c : ErrorCode) : Z :=
  match c with
  | CodeOk => 0 | CodeTransport => 1 | CodeEncryption => 2 | CodeDecryption => 3 | CodeTimeout => 4
  | CodeValidation => 5 | CodeUnauthorized => 6 | CodeSerialization => 7 | CodePayment => 8 | CodeOther => 99
  end.

(** [From<&Error> for ErrorCode]. *)
Definition error_code (e : Error) : ErrorCode :=
  match e with
  | ETransport _ => CodeTransport
  | EEncryption _ => CodeEncryption
  | EDecryption _ => CodeDecryption
  | ETimeout => CodeTimeout
  | EValidation _ => CodeValidation
  | EUnauthorized _ => CodeUnauthorized
  | ESerialization _ => CodeSerialization
  | EOversizedTransfer _ => CodeTransport
  | EOpenStream _ => CodeTransport
  | EPayment _ => CodePayment
  | EOther _ => CodeOther
  end.

Record FfiError : Type := mkFfiError {
  err_code : ErrorCode;
  err_message : string;
}.
#[export] Instance FfiError_eq_dec : EqDecision FfiError.
Proof. solve_decision. Defined.

(** [From<Error> for FfiError]. *)
Definition ffi_error (e : Error) : FfiError := mkFfiError (error_code e) (Error_to_string e).

(** ** Structs *)

(** Discriminants a C caller passes or reads. *)
Definition ENCRYPTION_MODE_OPTIONAL : Z := 0.
Definition ENCRYPTION_MODE_REQUIRED : Z := 1.
Definition ENCRYPTION_MODE_DISABLED : Z := 2.
Definition GIFT_WRAP_MODE_OPTIONAL : Z := 0.
Definition GIFT_WRAP_MODE_EPHEMERAL : Z := 1.
Definition GIFT_WRAP_MODE_PERSISTENT : Z := 2.
Definition JSON_RPC_TYPE_REQUEST : Z := 0.
Definition JSON_RPC_TYPE_RESPONSE : Z := 1.
Definition JSON_RPC_TYPE_ERROR_RESPONSE : Z := 2.
Definition JSON_RPC_TYPE_NOTIFICATION : Z := 3.

(** [*mut c_char]; [NULL] is 0. *)
Abbreviation ptr := Z.
Definition NULL : ptr := 0.

Record FfiJsonRpcMessage : Type := mkFfiMessage {
  fm_msg_type : Z;
  fm_payload_json : ptr;
  fm_method : ptr;
  fm_id : ptr;
}.
Record FfiIncomingRequest : Type := mkFfiIncoming {
  fi_message : FfiJsonRpcMessage;
  fi_client_pubkey : ptr;
  fi_event_id : ptr;
  fi_is_encrypted : bool;
}.
Record FfiServerAnnouncement : Type := mkFfiAnnouncement {
  fa_pubkey : ptr;
  fa_name : ptr;
  fa_version : ptr;
  fa_picture : ptr;
  fa_about : ptr;
  fa_website : ptr;
  fa_event_id : ptr;
}.
Record FfiDiscoveredTool : Type := mkFfiTool {
  ft_provider_pubkey : ptr;
  ft_provider_display_name : ptr;
  ft_provider_name : ptr;
  ft_provider_about : ptr;
  ft_provider_picture : ptr;
  ft_provider_nip05 : ptr;
  ft_tool_name : ptr;
  ft_description : ptr;
  ft_schema_json : ptr;
}.
Record FfiProviderProfile : Type := mkFfiProfile {
  fp_pubkey : ptr;
  fp_name : ptr;
  fp_about : ptr;
  fp_picture : ptr;
  fp_nip05 : ptr;
}.
Record FfiPeerCapabilities : Type := mkFfiCapabilities {
  fc_supports_encryption : bool;
  fc_supports_ephemeral_encryption : bool;
  fc_supports_oversized_transfer : bool;
}.

(** The arrays discovery hands out. *)
Inductive c_array : Type :=
| Announcements (l : list FfiServerAnnouncement)
| Tools (l : list FfiDiscoveredTool)
| Profiles (l : list FfiProviderProfile).

(** ** Memory *)

(** What [into_raw] and [mem::forget] leave on the heap; an array keeps the capacity
    of its vector. *)
Inductive block : Type :=
| CStringBlock (s : string)
| ErrorBlock (e : FfiError)
| ArrayBlock (capacity : nat) (a : c_array).
Abbreviation memory := (gmap ptr block).

(** The global allocator, and [NonNull::dangling()], the pointer of a vector without a
    buffer. *)
Class Malloc := {
  malloc : memory → ptr;
  dangling : ptr;
}.
Class MallocLaws `{Malloc} : Prop := {
  malloc_fresh m : m !! malloc m = None;
  malloc_not_null m : malloc m ≠ NULL;
  malloc_not_dangling m : malloc m ≠ dangling;
  dangling_not_null : dangling ≠ NULL;
}.

(** [String::contains('\0')]. *)
Fixpoint has_nul (s : string) : bool :=
  match s with
  | EmptyString => false
  | String a s' => bool_decide (a = Ascii.zero) || has_nul s'
  end.
(** [CString::new(s).unwrap_or_default()]. *)
Definition c_string (s : string) : string := if has_nul s then "" else s.

Section memory.
Context `{Malloc}.
Implicit Types m : memory.

Definition alloc (b : block) m : ptr * memory := let p := malloc m in (p, <[p := b]> m).

Definition string_to_c (s : string) m : ptr * memory := alloc (CStringBlock (c_string s)) m.
Definition opt_string_to_c (s : option string) m : ptr * memory :=
  match s with Some s => string_to_c s m | None => (NULL, m) end.

Definition cvm_string_free (s : ptr) m : option memory :=
  if s =? NULL then Some m
  else match m !! s with Some (CStringBlock _) => Some (delete s m) | _ => None end.
(** Consecutive calls. *)
Fixpoint free_strings (ss : list ptr) m : option memory :=
  match ss with [] => Some m | s :: ss => m ← cvm_string_free s m; free_strings ss m end.

Definition message_strings (msg : FfiJsonRpcMessage) : list ptr := [fm_payload_json msg; fm_method msg; fm_id msg].
Definition cvm_message_free (msg : FfiJsonRpcMessage) m : option memory := free_strings (message_strings msg) m.
Definition incoming_strings (req : FfiIncomingRequest) : list ptr :=
  message_strings (fi_message req) ++ [fi_client_pubkey req; fi_event_id req].
Definition cvm_incoming_request_free (req : FfiIncomingRequest) m : option memory :=
  free_strings (incoming_strings req) m.

(** [slice::from_raw_parts_mut(p, count)]: an empty slice may have any pointer that is
    aligned and not [NULL]; another one has to lie in an array of its type. *)
Definition slice {A} (elements : c_array → option (list A)) (p : ptr) (count : nat) m : option (list A) :=
  if bool_decide (count = 0%nat) then Some []
  else
    match m !! p with
    | Some (ArrayBlock _ a) =>
        l ← elements a; if bool_decide (count <= length l)%nat then Some (take count l) else None
    | _ => None
    end.
(** The drop of [Vec::from_raw_parts(p, count, count)]: a vector of capacity zero has no
    buffer and frees nothing; otherwise the allocation has to have that capacity. *)
Definition drop_array (p : ptr) (count : nat) m : option memory :=
  if bool_decide (count = 0%nat) then Some m
  else
    match m !! p with
    | Some (ArrayBlock capacity _) => if bool_decide (capacity = count) then Some (delete p m) else None
    | _ => None
    end.

Definition as_announcements (a : c_array) : option (list FfiServerAnnouncement) :=
  match a with Announcements l => Some l | _ => None end.
Definition as_tools (a : c_array) : option (list FfiDiscoveredTool) := match a with Tools l => Some l | _ => None end.
Definition as_profiles (a : c_array) : option (list FfiProviderProfile) := match a with Profiles l => Some l | _ => None end.

Definition announcement_strings (a : FfiServerAnnouncement) : list ptr :=
  [fa_pubkey a; fa_name a; fa_version a; fa_picture a; fa_about a; fa_website a; fa_event_id a].
Definition cvm_announcements_free (announcements : ptr) (count : nat) m : option memory :=
  if announcements =? NULL then Some m
  else
    l ← slice as_announcements announcements count m;
    m ← free_strings (l ≫= announcement_strings) m;
    drop_array announcements count m.
Definition tool_strings (t : FfiDiscoveredTool) : list ptr :=
  [ft_provider_pubkey t; ft_provider_display_name t; ft_provider_name t; ft_provider_about t; ft_provider_picture t;
   ft_provider_nip05 t; ft_tool_name t; ft_description t; ft_schema_json t].
Definition cvm_discovered_tools_free (tools : ptr) (count : nat) m : option memory :=
  if tools =? NULL then Some m
  else
    l ← slice as_tools tools count m;
    m ← free_strings (l ≫= tool_strings) m;
    drop_array tools count m.
Definition profile_strings (p : FfiProviderProfile) : list ptr :=
  [fp_pubkey p; fp_name p; fp_about p; fp_picture p; fp_nip05 p].
Definition cvm_provider_profiles_free (profiles : ptr) (count : nat) m : option memory :=
  if profiles =? NULL then Some m
  else
    l ← slice as_profiles profiles count m;
    m ← free_strings (l ≫= profile_strings) m;
    drop_array profiles count m.

Definition cvm_error_free (e : ptr) m : option memory :=
  if e =? NULL then Some m
  else match m !! e with Some (ErrorBlock _) => Some (delete e m) | _ => None end.
Definition cvm_error_message (e : ptr) m : option (ptr * memory) :=
  if e =? NULL then Some (NULL, m)
  else match m !! e with Some (ErrorBlock err) => Some (string_to_c (err_message err) m) | _ => None end.
Definition cvm_error_code (e : ptr) m : option ErrorCode :=
  if e =? NULL then Some CodeOk
  else match m !! e with Some (ErrorBlock err) => Some (err_code err) | _ => None end.
(** [env!("CARGO_PKG_VERSION")]. *)
Definition CARGO_PKG_VERSION : string := "0.1.0".
Definition cvm_version m : ptr * memory := string_to_c CARGO_PKG_VERSION m.

(** The strings of an array. *)
Definition array_strings (a : c_array) : list ptr :=
  match a with
  | Announcements l => l ≫= announcement_strings
  | Tools l => l ≫= tool_strings
  | Profiles l => l ≫= profile_strings
  end.
Definition array_length (a : c_array) : nat :=
  match a with Announcements l => length l | Tools l => length l | Profiles l => length l end.

(** ** Messages *)

Context `{SerdeJson}.

Definition json_rpc_id_to_string (id : Value) : string :=
  match id with VString s => s | other => to_string other end.

Definition message_to_ffi (msg : JsonRpcMessage) m : FfiJsonRpcMessage * memory :=
  let json_str := to_string (message_to_value msg) in
  let msg_type :=
    match msg with
    | Request _ => JSON_RPC_TYPE_REQUEST
    | Response _ => JSON_RPC_TYPE_RESPONSE
    | ErrorResponse _ => JSON_RPC_TYPE_ERROR_RESPONSE
    | Notification _ => JSON_RPC_TYPE_NOTIFICATION
    end in
  let '(payload_json, m) := string_to_c json_str m in
  let '(method, m) := opt_string_to_c (msg_method msg) m in
  let '(id, m) := opt_string_to_c (json_rpc_id_to_string <$> msg_id msg) m in
  (mkFfiMessage msg_type payload_json method id, m).

(** The [FfiIncomingRequest] the receive functions write. *)
Definition incoming_to_ffi (incoming : IncomingRequest) m : FfiIncomingRequest * memory :=
  let '(message, m) := message_to_ffi (inc_message incoming) m in
  let '(client_pubkey, m) := string_to_c (inc_client_pubkey incoming) m in
  let '(event_id, m) := string_to_c (inc_event_id incoming) m in
  (mkFfiIncoming message client_pubkey event_id (inc_is_encrypted incoming), m).
End memory.

Definition peer_capabilities_to_ffi (caps : PeerCapabilities) : FfiPeerCapabilities :=
  mkFfiCapabilities (pc_supports_encryption caps) (pc_supports_ephemeral_encryption caps)
    (pc_supports_oversized_transfer caps).

(** ** The SDK's builders *)

Module InfoBuilder.
Implicit Types i : ServerInfo.
Definition with_name name i : ServerInfo := mkServerInfo (Some name) (si_version i) (si_picture i) (si_website i) (si_about i).
Definition with_version version i : ServerInfo :=
  mkServerInfo (si_name i) (Some version) (si_picture i) (si_website i) (si_about i).
Definition with_picture picture i : ServerInfo :=
  mkServerInfo (si_name i) (si_version i) (Some picture) (si_website i) (si_about i).
Definition with_website website i : ServerInfo :=
  mkServerInfo (si_name i) (si_version i) (si_picture i) (Some website) (si_about i).
Definition with_about about i : ServerInfo :=
  mkServerInfo (si_name i) (si_version i) (si_picture i) (si_website i) (Some about).
End InfoBuilder.

Module ServerBuilder.
Implicit Types c : NostrServerTransportConfig.
Definition with_relay_urls urls c : NostrServerTransportConfig :=
  mkServerConfig urls (cfg_encryption_mode c) (cfg_gift_wrap_mode c) (cfg_server_info c) (cfg_is_announced_server c)
    (cfg_allowed_public_keys c) (cfg_excluded_capabilities c) (cfg_max_sessions c) (cfg_cleanup_interval c)
    (cfg_session_timeout c) (cfg_request_timeout c) (cfg_relay_list_urls c) (cfg_bootstrap_relay_urls c)
    (cfg_publish_relay_list c) (cfg_profile_metadata c) (cfg_oversized_transfer c) (cfg_open_stream c).
Definition with_encryption_mode mode c : NostrServerTransportConfig :=
  mkServerConfig (cfg_relay_urls c) mode (cfg_gift_wrap_mode c) (cfg_server_info c) (cfg_is_announced_server c)
    (cfg_allowed_public_keys c) (cfg_excluded_capabilities c) (cfg_max_sessions c) (cfg_cleanup_interval c)
    (cfg_session_timeout c) (cfg_request_timeout c) (cfg_relay_list_urls c) (cfg_bootstrap_relay_urls c)
    (cfg_publish_relay_list c) (cfg_profile_metadata c) (cfg_oversized_transfer c) (cfg_open_stream c).
Definition with_gift_wrap_mode mode c : NostrServerTransportConfig :=
  mkServerConfig (cfg_relay_urls c) (cfg_encryption_mode c) mode (cfg_server_info c) (cfg_is_announced_server c)
    (cfg_allowed_public_keys c) (cfg_excluded_capabilities c) (cfg_max_sessions c) (cfg_cleanup_interval c)
    (cfg_session_timeout c) (cfg_request_timeout c) (cfg_relay_list_urls c) (cfg_bootstrap_relay_urls c)
    (cfg_publish_relay_list c) (cfg_profile_metadata c) (cfg_oversized_transfer c) (cfg_open_stream c).
Definition with_server_info info c : NostrServerTransportConfig :=
  mkServerConfig (cfg_relay_urls c) (cfg_encryption_mode c) (cfg_gift_wrap_mode c) (Some info)
    (cfg_is_announced_server c) (cfg_allowed_public_keys c) (cfg_excluded_capabilities c) (cfg_max_sessions c)
    (cfg_cleanup_interval c) (cfg_session_timeout c) (cfg_request_timeout c) (cfg_relay_list_urls c)
    (cfg_bootstrap_relay_urls c) (cfg_publish_relay_list c) (cfg_profile_metadata c) (cfg_oversized_transfer c)
    (cfg_open_stream c).
Definition with_announced_server announced c : NostrServerTransportConfig :=
  mkServerConfig (cfg_relay_urls c) (cfg_encryption_mode c) (cfg_gift_wrap_mode c) (cfg_server_info c) announced
    (cfg_allowed_public_keys c) (cfg_excluded_capabilities c) (cfg_max_sessions c) (cfg_cleanup_interval c)
    (cfg_session_timeout c) (cfg_request_timeout c) (cfg_relay_list_urls c) (cfg_bootstrap_relay_urls c)
    (cfg_publish_relay_list c) (cfg_profile_metadata c) (cfg_oversized_transfer c) (cfg_open_stream c).
Definition with_allowed_public_keys keys c : NostrServerTransportConfig :=
  mkServerConfig (cfg_relay_urls c) (cfg_encryption_mode c) (cfg_gift_wrap_mode c) (cfg_server_info c)
    (cfg_is_announced_server c) keys (cfg_excluded_capabilities c) (cfg_max_sessions c) (cfg_cleanup_interval c)
    (cfg_session_timeout c) (cfg_request_timeout c) (cfg_relay_list_urls c) (cfg_bootstrap_relay_urls c)
    (cfg_publish_relay_list c) (cfg_profile_metadata c) (cfg_oversized_transfer c) (cfg_open_stream c).
Definition with_excluded_capabilities caps c : NostrServerTransportConfig :=
  mkServerConfig (cfg_relay_urls c) (cfg_encryption_mode c) (cfg_gift_wrap_mode c) (cfg_server_info c)
    (cfg_is_announced_server c) (cfg_allowed_public_keys c) caps (cfg_max_sessions c) (cfg_cleanup_interval c)
    (cfg_session_timeout c) (cfg_request_timeout c) (cfg_relay_list_urls c) (cfg_bootstrap_relay_urls c)
    (cfg_publish_relay_list c) (cfg_profile_metadata c) (cfg_oversized_transfer c) (cfg_open_stream c).
Definition with_max_sessions max c : NostrServerTransportConfig :=
  mkServerConfig (cfg_relay_urls c) (cfg_encryption_mode c) (cfg_gift_wrap_mode c) (cfg_server_info c)
    (cfg_is_announced_server c) (cfg_allowed_public_keys c) (cfg_excluded_capabilities c) max (cfg_cleanup_interval c)
    (cfg_session_timeout c) (cfg_request_timeout c) (cfg_relay_list_urls c) (cfg_bootstrap_relay_urls c)
    (cfg_publish_relay_list c) (cfg_profile_metadata c) (cfg_oversized_transfer c) (cfg_open_stream c).
Definition with_cleanup_interval interval c : NostrServerTransportConfig :=
  mkServerConfig (cfg_relay_urls c) (cfg_encryption_mode c) (cfg_gift_wrap_mode c) (cfg_server_info c)
    (cfg_is_announced_server c) (cfg_allowed_public_keys c) (cfg_excluded_capabilities c) (cfg_max_sessions c) interval
    (cfg_session_timeout c) (cfg_request_timeout c) (cfg_relay_list_urls c) (cfg_bootstrap_relay_urls c)
    (cfg_publish_relay_list c) (cfg_profile_metadata c) (cfg_oversized_transfer c) (cfg_open_stream c).
Definition with_session_timeout timeout c : NostrServerTransportConfig :=
  mkServerConfig (cfg_relay_urls c) (cfg_encryption_mode c) (cfg_gift_wrap_mode c) (cfg_server_info c)
    (cfg_is_announced_server c) (cfg_allowed_public_keys c) (cfg_excluded_capabilities c) (cfg_max_sessions c)
    (cfg_cleanup_interval c) timeout (cfg_request_timeout c) (cfg_relay_list_urls c) (cfg_bootstrap_relay_urls c)
    (cfg_publish_relay_list c) (cfg_profile_metadata c) (cfg_oversized_transfer c) (cfg_open_stream c).
Definition with_request_timeout timeout c : NostrServerTransportConfig :=
  mkServerConfig (cfg_relay_urls c) (cfg_encryption_mode c) (cfg_gift_wrap_mode c) (cfg_server_info c)
    (cfg_is_announced_server c) (cfg_allowed_public_keys c) (cfg_excluded_capabilities c) (cfg_max_sessions c)
    (cfg_cleanup_interval c) (cfg_session_timeout c) timeout (cfg_relay_list_urls c) (cfg_bootstrap_relay_urls c)
    (cfg_publish_relay_list c) (cfg_profile_metadata c) (cfg_oversized_transfer c) (cfg_open_stream c).
Definition with_relay_list_urls urls c : NostrServerTransportConfig :=
  mkServerConfig (cfg_relay_urls c) (cfg_encryption_mode c) (cfg_gift_wrap_mode c) (cfg_server_info c)
    (cfg_is_announced_server c) (cfg_allowed_public_keys c) (cfg_excluded_capabilities c) (cfg_max_sessions c)
    (cfg_cleanup_interval c) (cfg_session_timeout c) (cfg_request_timeout c) (Some urls) (cfg_bootstrap_relay_urls c)
    (cfg_publish_relay_list c) (cfg_profile_metadata c) (cfg_oversized_transfer c) (cfg_open_stream c).
Definition with_bootstrap_relay_urls urls c : NostrServerTransportConfig :=
  mkServerConfig (cfg_relay_urls c) (cfg_encryption_mode c) (cfg_gift_wrap_mode c) (cfg_server_info c)
    (cfg_is_announced_server c) (cfg_allowed_public_keys c) (cfg_excluded_capabilities c) (cfg_max_sessions c)
    (cfg_cleanup_interval c) (cfg_session_timeout c) (cfg_request_timeout c) (cfg_relay_list_urls c) (Some urls)
    (cfg_publish_relay_list c) (cfg_profile_metadata c) (cfg_oversized_transfer c) (cfg_open_stream c).
Definition with_publish_relay_list publish c : NostrServerTransportConfig :=
  mkServerConfig (cfg_relay_urls c) (cfg_encryption_mode c) (cfg_gift_wrap_mode c) (cfg_server_info c)
    (cfg_is_announced_server c) (cfg_allowed_public_keys c) (cfg_excluded_capabilities c) (cfg_max_sessions c)
    (cfg_cleanup_interval c) (cfg_session_timeout c) (cfg_request_timeout c) (cfg_relay_list_urls c)
    (cfg_bootstrap_relay_urls c) publish (cfg_profile_metadata c) (cfg_oversized_transfer c) (cfg_open_stream c).
Definition with_profile_metadata metadata c : NostrServerTransportConfig :=
  mkServerConfig (cfg_relay_urls c) (cfg_encryption_mode c) (cfg_gift_wrap_mode c) (cfg_server_info c)
    (cfg_is_announced_server c) (cfg_allowed_public_keys c) (cfg_excluded_capabilities c) (cfg_max_sessions c)
    (cfg_cleanup_interval c) (cfg_session_timeout c) (cfg_request_timeout c) (cfg_relay_list_urls c)
    (cfg_bootstrap_relay_urls c) (cfg_publish_relay_list c) (Some metadata) (cfg_oversized_transfer c)
    (cfg_open_stream c).
End ServerBuilder.

Module ClientBuilder.
Implicit Types c : NostrClientTransportConfig.
Definition with_relay_urls urls c : NostrClientTransportConfig :=
  mkClientConfig urls (cc_server_pubkey c) (cc_encryption_mode c) (cc_gift_wrap_mode c) (cc_is_stateless c)
    (cc_timeout c) (cc_discovery_relay_urls c) (cc_fallback_operational_relay_urls c) (cc_oversized_transfer c)
    (cc_open_stream c) (cc_payment_interaction c) (cc_pmis c).
Definition with_server_pubkey pubkey c : NostrClientTransportConfig :=
  mkClientConfig (cc_relay_urls c) pubkey (cc_encryption_mode c) (cc_gift_wrap_mode c) (cc_is_stateless c)
    (cc_timeout c) (cc_discovery_relay_urls c) (cc_fallback_operational_relay_urls c) (cc_oversized_transfer c)
    (cc_open_stream c) (cc_payment_interaction c) (cc_pmis c).
Definition with_encryption_mode mode c : NostrClientTransportConfig :=
  mkClientConfig (cc_relay_urls c) (cc_server_pubkey c) mode (cc_gift_wrap_mode c) (cc_is_stateless c)
    (cc_timeout c) (cc_discovery_relay_urls c) (cc_fallback_operational_relay_urls c) (cc_oversized_transfer c)
    (cc_open_stream c) (cc_payment_interaction c) (cc_pmis c).
Definition with_gift_wrap_mode mode c : NostrClientTransportConfig :=
  mkClientConfig (cc_relay_urls c) (cc_server_pubkey c) (cc_encryption_mode c) mode (cc_is_stateless c)
    (cc_timeout c) (cc_discovery_relay_urls c) (cc_fallback_operational_relay_urls c) (cc_oversized_transfer c)
    (cc_open_stream c) (cc_payment_interaction c) (cc_pmis c).
Definition with_stateless stateless c : NostrClientTransportConfig :=
  mkClientConfig (cc_relay_urls c) (cc_server_pubkey c) (cc_encryption_mode c) (cc_gift_wrap_mode c) stateless
    (cc_timeout c) (cc_discovery_relay_urls c) (cc_fallback_operational_relay_urls c) (cc_oversized_transfer c)
    (cc_open_stream c) (cc_payment_interaction c) (cc_pmis c).
Definition with_timeout timeout c : NostrClientTransportConfig :=
  mkClientConfig (cc_relay_urls c) (cc_server_pubkey c) (cc_encryption_mode c) (cc_gift_wrap_mode c)
    (cc_is_stateless c) timeout (cc_discovery_relay_urls c) (cc_fallback_operational_relay_urls c)
    (cc_oversized_transfer c) (cc_open_stream c) (cc_payment_interaction c) (cc_pmis c).
Definition with_discovery_relay_urls urls c : NostrClientTransportConfig :=
  mkClientConfig (cc_relay_urls c) (cc_server_pubkey c) (cc_encryption_mode c) (cc_gift_wrap_mode c)
    (cc_is_stateless c) (cc_timeout c) (Some urls) (cc_fallback_operational_relay_urls c)
    (cc_oversized_transfer c) (cc_open_stream c) (cc_payment_interaction c) (cc_pmis c).
Definition with_fallback_operational_relay_urls urls c : NostrClientTransportConfig :=
  mkClientConfig (cc_relay_urls c) (cc_server_pubkey c) (cc_encryption_mode c) (cc_gift_wrap_mode c)
    (cc_is_stateless c) (cc_timeout c) (cc_discovery_relay_urls c) (Some urls) (cc_oversized_transfer c)
    (cc_open_stream c) (cc_payment_interaction c) (cc_pmis c).
End ClientBuilder.

(** ** Arguments from C *)

(** [*const c_char] and [*mut *mut c_char] of the caller. *)
Definition c_str : Type := option string.
Definition c_str_array : Type := option (list c_str).

(** Messages of third-party errors, and the deserializer derived for profiles. *)
Class FfiText := {
  utf8_error : string → string;
  serde_error : string → string → string;
  profile_from_str : string → result ProfileMetadata string;
  tag_parse : list string → result Tag string;
}.

Record FfiCapabilityExclusion : Type := mkFfiExclusion {
  fx_method : c_str;
  fx_name : c_str;
}.
Record FfiServerConfig : Type := mkFfiServerConfig {
  fsc_relay_urls : c_str_array; fsc_relay_url_count : nat;
  fsc_encryption_mode : Z;
  fsc_gift_wrap_mode : Z;
  fsc_is_announced_server : bool;
  fsc_server_name : c_str;
  fsc_server_version : c_str;
  fsc_server_picture : c_str;
  fsc_server_about : c_str;
  fsc_server_website : c_str;
  fsc_allowed_pubkeys : c_str_array; fsc_allowed_pubkey_count : nat;
  fsc_session_timeout_secs : Z;
  fsc_cleanup_interval_secs : Z;
  fsc_excluded_capabilities : option (list FfiCapabilityExclusion); fsc_excluded_capability_count : nat;
  fsc_max_sessions : Z;
  fsc_request_timeout_secs : Z;
  fsc_relay_list_urls : c_str_array; fsc_relay_list_url_count : nat;
  fsc_bootstrap_relay_urls : c_str_array; fsc_bootstrap_relay_url_count : nat;
  fsc_publish_relay_list : bool;
  fsc_profile_metadata_json : c_str;
}.
Record FfiClientConfig : Type := mkFfiClientConfig {
  fcc_relay_urls : c_str_array; fcc_relay_url_count : nat;
  fcc_server_pubkey : c_str;
  fcc_encryption_mode : Z;
  fcc_gift_wrap_mode : Z;
  fcc_is_stateless : bool;
  fcc_timeout_secs : Z;
  fcc_discovery_relay_urls : c_str_array; fcc_discovery_relay_url_count : nat;
  fcc_fallback_operational_relay_urls : c_str_array; fcc_fallback_operational_relay_url_count : nat;
}.

(** [CStr::from_ptr(p).to_str().ok()]. *)
Definition c_str_to_string (p : c_str) : option string :=
  s ← p; if valid_utf8 s then Some s else None.

Section arguments.
Context `{FfiText}.

Definition validation {A} (msg : string) : result A FfiError := Err (mkFfiError CodeValidation msg).

Definition c_str_to_string_checked (p : c_str) (name : string) : result string FfiError :=
  match p with
  | None => validation ("null " +:+ name)
  | Some s => if valid_utf8 s then Ok s else validation (name +:+ " is not valid UTF-8: " +:+ utf8_error s)
  end.
Definition optional_c_str_to_string_checked (p : c_str) (name : string) : result (option string) FfiError :=
  match p with
  | None => Ok None
  | Some _ => let? s := c_str_to_string_checked p name in Ok (Some s)
  end.

(** The caller's array has at least [count] elements. *)
Definition c_str_array_to_vec (p : c_str_array) (count : nat) : list string :=
  match p with
  | None => []
  | Some l => omap c_str_to_string (take count l)
  end.

(** The indexed loop of [c_str_array_to_vec_checked]. *)
Fixpoint strings_checked (name : string) (index : Z) (l : list c_str) : result (list string) FfiError :=
  match l with
  | [] => Ok []
  | p :: l =>
      let? s := match p with
                | None => validation (name +:+ "[" +:+ show_Z index +:+ "] is null")
                | Some s =>
                    if valid_utf8 s then Ok s
                    else validation (name +:+ "[" +:+ show_Z index +:+ "] is not valid UTF-8: " +:+ utf8_error s)
                end in
      let? rest := strings_checked name (index + 1) l in Ok (s :: rest)
  end.
Definition c_str_array_to_vec_checked (p : c_str_array) (count : nat) (name : string)
  : result (list string) FfiError :=
  if bool_decide (count = 0%nat) then Ok []
  else
    match p with
    | None => validation (name +:+ " has count " +:+ show_Z (Z.of_nat count) +:+ " but null pointer")
    | Some l => strings_checked name 0 (take count l)
    end.

Definition ffi_encryption_mode_to_sdk (mode : Z) : result EncryptionMode FfiError :=
  if mode =? ENCRYPTION_MODE_OPTIONAL then Ok EncOptional
  else if mode =? ENCRYPTION_MODE_REQUIRED then Ok EncRequired
  else if mode =? ENCRYPTION_MODE_DISABLED then Ok EncDisabled
  else validation ("invalid encryption_mode " +:+ show_Z mode).
Definition ffi_gift_wrap_mode_to_sdk (mode : Z) : result GiftWrapMode FfiError :=
  if mode =? GIFT_WRAP_MODE_OPTIONAL then Ok GwOptional
  else if mode =? GIFT_WRAP_MODE_EPHEMERAL then Ok GwEphemeral
  else if mode =? GIFT_WRAP_MODE_PERSISTENT then Ok GwPersistent
  else validation ("invalid gift_wrap_mode " +:+ show_Z mode).

(** ** Configurations ([builders.rs]) *)

Record CapabilityExclusionParts : Type := mkExclusionParts {
  xp_method : string;
  xp_name : option string;
}.
Record ServerConfigParts : Type := mkServerParts {
  sp_relay_urls : list string;
  sp_encryption_mode : EncryptionMode;
  sp_gift_wrap_mode : GiftWrapMode;
  sp_server_name : option string;
  sp_server_version : option string;
  sp_server_picture : option string;
  sp_server_about : option string;
  sp_server_website : option string;
  sp_is_announced_server : bool;
  sp_allowed_pubkeys : list string;
  sp_session_timeout_secs : Z;
  sp_cleanup_interval_secs : Z;
  sp_excluded_capabilities : list CapabilityExclusionParts;
  sp_max_sessions : Z;
  sp_request_timeout_secs : Z;
  sp_relay_list_urls : list string;
  sp_bootstrap_relay_urls : list string;
  sp_publish_relay_list : bool;
  sp_profile_metadata_json : option string;
}.
Record ClientConfigParts : Type := mkClientParts {
  cp_relay_urls : list string;
  cp_server_pubkey : string;
  cp_encryption_mode : EncryptionMode;
  cp_gift_wrap_mode : GiftWrapMode;
  cp_is_stateless : bool;
  cp_timeout_secs : Z;
  cp_discovery_relay_urls : list string;
  cp_fallback_operational_relay_urls : list string;
}.

(** [if let Some(x) = o { info = f(x, info) }]. *)
Definition set_some {A B} (f : A → B → B) (o : option A) (b : B) : B :=
  match o with Some a => f a b | None => b end.

Definition build_server_info (name version picture about website : option string) : option ServerInfo :=
  match name, version, picture, about, website with
  | None, None, None, None, None => None
  | _, _, _, _, _ =>
      Some (set_some InfoBuilder.with_website website
              (set_some InfoBuilder.with_about about
                 (set_some InfoBuilder.with_picture picture
                    (set_some InfoBuilder.with_version version
                       (set_some InfoBuilder.with_name name (mkServerInfo None None None None None))))))
  end.

Definition apply_extended_server_config (config : NostrServerTransportConfig)
    (excluded_capabilities : list CapabilityExclusionParts) (max_sessions request_timeout_secs : Z)
    (relay_list_urls bootstrap_relay_urls : list string) (profile_metadata : option ProfileMetadata)
  : NostrServerTransportConfig :=
  let config := match excluded_capabilities with
                | [] => config
                | caps => ServerBuilder.with_excluded_capabilities
                            (map (λ cap, mkExclusion (xp_method cap) (xp_name cap)) caps) config
                end in
  let config := if 0 <? max_sessions then ServerBuilder.with_max_sessions max_sessions config else config in
  let config := if 0 <? request_timeout_secs
                then ServerBuilder.with_request_timeout (from_secs request_timeout_secs) config else config in
  let config := match relay_list_urls with [] => config | urls => ServerBuilder.with_relay_list_urls urls config end in
  let config := match bootstrap_relay_urls with
                | [] => config
                | urls => ServerBuilder.with_bootstrap_relay_urls urls config
                end in
  set_some ServerBuilder.with_profile_metadata profile_metadata config.

Fixpoint exclusions_checked (l : list FfiCapabilityExclusion) : result (list CapabilityExclusionParts) FfiError :=
  match l with
  | [] => Ok []
  | cap :: l =>
      let? method := c_str_to_string_checked (fx_method cap) "capability_exclusions[].method" in
      let? name := optional_c_str_to_string_checked (fx_name cap) "capability_exclusions[].name" in
      let? rest := exclusions_checked l in Ok (mkExclusionParts method name :: rest)
  end.
Definition ffi_capability_exclusions_to_parts (p : option (list FfiCapabilityExclusion)) (count : nat)
  : result (list CapabilityExclusionParts) FfiError :=
  if bool_decide (count = 0%nat) then Ok []
  else
    match p with
    | None => validation ("excluded_capabilities has count " +:+ show_Z (Z.of_nat count) +:+ " but null pointer")
    | Some l => exclusions_checked (take count l)
    end.

(** [char::is_whitespace], as UTF-8. *)
Definition is_whitespace (ch : string) : bool :=
  match map Ascii.N_of_ascii (String.list_ascii_of_string ch) with
  | [b] => bool_decide (b ∈ [9; 10; 11; 12; 13; 32])%N
  | [194; b]%N => bool_decide (b ∈ [133; 160])%N
  | [225; 154; 128]%N => true
  | [226; 128; b]%N => ((128 <=? b) && (b <=? 138))%N || bool_decide (b ∈ [168; 169; 175])%N
  | [226; 129; 159]%N => true
  | [227; 128; 128]%N => true
  | _ => false
  end.
(** [s.trim().is_empty()]. *)
Definition is_blank (s : string) : bool := forallb is_whitespace (chars s).

Definition parse_profile_metadata_json (json : option string) : result (option ProfileMetadata) FfiError :=
  match json with
  | Some json =>
      if is_blank json then Ok None
      else match profile_from_str json with
           | Ok profile => Ok (Some profile)
           | Err e => Err (mkFfiError CodeSerialization ("invalid profile_metadata_json: " +:+ e))
           end
  | None => Ok None
  end.

(** The chain both builders of a server configuration end with. *)
Definition default_relays (relay_urls : list string) : list string :=
  match relay_urls with [] => ["wss://relay.damus.io"] | urls => urls end.
Definition build_sdk_server_config_from_fields (parts : ServerConfigParts)
  : result NostrServerTransportConfig FfiError :=
  let server_info := build_server_info (sp_server_name parts) (sp_server_version parts) (sp_server_picture parts)
                       (sp_server_about parts) (sp_server_website parts) in
  let? profile_metadata := parse_profile_metadata_json (sp_profile_metadata_json parts) in
  let sdk_config :=
    ServerBuilder.with_publish_relay_list (sp_publish_relay_list parts)
      (ServerBuilder.with_cleanup_interval (from_secs (Z.max (sp_cleanup_interval_secs parts) 1))
         (ServerBuilder.with_session_timeout (from_secs (Z.max (sp_session_timeout_secs parts) 1))
            (ServerBuilder.with_allowed_public_keys (sp_allowed_pubkeys parts)
               (ServerBuilder.with_announced_server (sp_is_announced_server parts)
                  (ServerBuilder.with_gift_wrap_mode (sp_gift_wrap_mode parts)
                     (ServerBuilder.with_encryption_mode (sp_encryption_mode parts)
                        (ServerBuilder.with_relay_urls (default_relays (sp_relay_urls parts))
                           NostrServerTransportConfig_default))))))) in
  let sdk_config := set_some ServerBuilder.with_server_info server_info sdk_config in
  Ok (apply_extended_server_config sdk_config (sp_excluded_capabilities parts) (sp_max_sessions parts)
        (sp_request_timeout_secs parts) (sp_relay_list_urls parts) (sp_bootstrap_relay_urls parts) profile_metadata).

Definition build_sdk_server_config (config : FfiServerConfig) : result NostrServerTransportConfig FfiError :=
  let? relay_urls := c_str_array_to_vec_checked (fsc_relay_urls config) (fsc_relay_url_count config) "relay_urls" in
  let? allowed := c_str_array_to_vec_checked (fsc_allowed_pubkeys config) (fsc_allowed_pubkey_count config)
                    "allowed_pubkeys" in
  let? excluded := ffi_capability_exclusions_to_parts (fsc_excluded_capabilities config)
                     (fsc_excluded_capability_count config) in
  let? relay_list_urls := c_str_array_to_vec_checked (fsc_relay_list_urls config) (fsc_relay_list_url_count config)
                            "relay_list_urls" in
  let? bootstrap_relay_urls := c_str_array_to_vec_checked (fsc_bootstrap_relay_urls config)
                                 (fsc_bootstrap_relay_url_count config) "bootstrap_relay_urls" in
  let? encryption_mode := ffi_encryption_mode_to_sdk (fsc_encryption_mode config) in
  let? gift_wrap_mode := ffi_gift_wrap_mode_to_sdk (fsc_gift_wrap_mode config) in
  let? server_name := optional_c_str_to_string_checked (fsc_server_name config) "server_name" in
  let? server_version := optional_c_str_to_string_checked (fsc_server_version config) "server_version" in
  let? server_picture := optional_c_str_to_string_checked (fsc_server_picture config) "server_picture" in
  let? server_about := optional_c_str_to_string_checked (fsc_server_about config) "server_about" in
  let? server_website := optional_c_str_to_string_checked (fsc_server_website config) "server_website" in
  let server_info := build_server_info server_name server_version server_picture server_about server_website in
  let? profile_json := optional_c_str_to_string_checked (fsc_profile_metadata_json config) "profile_metadata_json" in
  let? profile_metadata := parse_profile_metadata_json profile_json in
  let sdk_config :=
    ServerBuilder.with_publish_relay_list (fsc_publish_relay_list config)
      (ServerBuilder.with_cleanup_interval (from_secs (Z.max (fsc_cleanup_interval_secs config) 1))
         (ServerBuilder.with_session_timeout (from_secs (Z.max (fsc_session_timeout_secs config) 1))
            (ServerBuilder.with_allowed_public_keys allowed
               (ServerBuilder.with_announced_server (fsc_is_announced_server config)
                  (ServerBuilder.with_gift_wrap_mode gift_wrap_mode
                     (ServerBuilder.with_encryption_mode encryption_mode
                        (ServerBuilder.with_relay_urls (default_relays relay_urls)
                           NostrServerTransportConfig_default))))))) in
  let sdk_config := set_some ServerBuilder.with_server_info server_info sdk_config in
  Ok (apply_extended_server_config sdk_config excluded (fsc_max_sessions config) (fsc_request_timeout_secs config)
        relay_list_urls bootstrap_relay_urls profile_metadata).

Definition build_sdk_client_config_from_fields (parts : ClientConfigParts) : NostrClientTransportConfig :=
  let config :=
    ClientBuilder.with_timeout (from_secs (Z.max (cp_timeout_secs parts) 1))
      (ClientBuilder.with_stateless (cp_is_stateless parts)
         (ClientBuilder.with_gift_wrap_mode (cp_gift_wrap_mode parts)
            (ClientBuilder.with_encryption_mode (cp_encryption_mode parts)
               (ClientBuilder.with_server_pubkey (cp_server_pubkey parts)
                  (ClientBuilder.with_relay_urls (cp_relay_urls parts) NostrClientTransportConfig_default))))) in
  let config := match cp_discovery_relay_urls parts with
                | [] => config
                | urls => ClientBuilder.with_discovery_relay_urls urls config
                end in
  match cp_fallback_operational_relay_urls parts with
  | [] => config
  | urls => ClientBuilder.with_fallback_operational_relay_urls urls config
  end.

Definition build_sdk_client_config (config : FfiClientConfig) : result NostrClientTransportConfig FfiError :=
  let? server_pubkey := c_str_to_string_checked (fcc_server_pubkey config) "server_pubkey" in
  let? relay_urls := c_str_array_to_vec_checked (fcc_relay_urls config) (fcc_relay_url_count config) "relay_urls" in
  let? discovery_relay_urls := c_str_array_to_vec_checked (fcc_discovery_relay_urls config)
                                 (fcc_discovery_relay_url_count config) "discovery_relay_urls" in
  let? fallback_operational_relay_urls :=
    c_str_array_to_vec_checked (fcc_fallback_operational_relay_urls config)
      (fcc_fallback_operational_relay_url_count config) "fallback_operational_relay_urls" in
  let? encryption_mode := ffi_encryption_mode_to_sdk (fcc_encryption_mode config) in
  let? gift_wrap_mode := ffi_gift_wrap_mode_to_sdk (fcc_gift_wrap_mode config) in
  Ok (build_sdk_client_config_from_fields
        (mkClientParts relay_urls server_pubkey encryption_mode gift_wrap_mode (fcc_is_stateless config)
           (fcc_timeout_secs config) discovery_relay_urls fallback_operational_relay_urls)).
End arguments.

(** ** What the caller reads and frees *)

(** Consecutive allocations. *)
Fixpoint alloc_strings `{Malloc} (os : list (option string)) (m : memory) : list ptr * memory :=
  match os with
  | [] => ([], m)
  | o :: os =>
      let '(p, m) := opt_string_to_c o m in
      let '(ps, m) := alloc_strings os m in (p :: ps, m)
  end.

(** What the caller reads at [p]. *)
Definition reads (m : memory) (p : ptr) (o : option string) : Prop :=
  match o with
  | None => p = NULL
  | Some s => p ≠ NULL ∧ m !! p = Some (CStringBlock (c_string s))
  end.

Lemma reads_weaken m m' p o : m ⊆ m' → reads m p o → reads m' p o.
Proof. destruct o; cbn; [|done]. intros Hs [Hp Hm]. split; [done|]. by apply (lookup_weaken m). Qed.

Lemma c_string_id s : has_nul s = false → c_string s = s.
Proof. unfold c_string. by intros ->. Qed.

Section ownership.
Implicit Types m : memory.

Lemma string_free_delete p s m m1 :
  p ≠ NULL → p ≠ s → cvm_string_free s m = Some m1 → cvm_string_free s (delete p m) = Some (delete p m1).
Proof.
  unfold cvm_string_free. intros Hp Hps. destruct (s =? NULL); [by intros [= <-]|].
  rewrite lookup_delete_ne by done. destruct (m !! s) as [[]|]; try done. intros [= <-]. by rewrite delete_delete.
Qed.

Lemma free_strings_delete p ps m m1 :
  p ≠ NULL → p ∉ ps → free_strings ps m = Some m1 → free_strings ps (delete p m) = Some (delete p m1).
Proof.
  intros Hp. revert m. induction ps as [|s ps IH]; intros m Hin; cbn; [by intros [= <-]|].
  destruct (cvm_string_free s m) as [m2|] eqn:E; cbn; [|done]. rewrite not_elem_of_cons in Hin. destruct Hin as [Hs Hin].
  rewrite (string_free_delete p s m m2) by done. cbn. by apply IH.
Qed.

Lemma string_free_subseteq s m m1 : cvm_string_free s m = Some m1 → m1 ⊆ m ∧ (s ≠ NULL → m1 !! s = None).
Proof.
  unfold cvm_string_free. destruct (s =? NULL) eqn:E; [intros [= <-]; split; [done|]; b2p; done|].
  destruct (m !! s) as [[]|]; try done. intros [= <-]. split; [apply delete_subseteq|]. intros _. by rewrite lookup_delete_eq.
Qed.

Lemma free_strings_gone p ps m m1 :
  p ≠ NULL → p ∈ ps → free_strings ps m = Some m1 → m1 !! p = None.
Proof.
  intros Hp. assert (∀ ps m m1, free_strings ps m = Some m1 → m1 ⊆ m) as Hsub.
  { clear ps m m1. induction ps as [|s ps IH]; intros m m1; cbn; [by intros [= <-]|].
    destruct (cvm_string_free s m) as [m2|] eqn:E; cbn; [|done]. intros H%IH. etrans; [done|].
    by apply string_free_subseteq in E as [? _]. }
  revert m. induction ps as [|s ps IH]; intros m Hin; cbn; [by apply not_elem_of_nil in Hin|].
  destruct (cvm_string_free s m) as [m2|] eqn:E; cbn; [|done]. intros Hf.
  apply elem_of_cons in Hin as [->|Hin]; [|by apply (IH m2)].
  apply string_free_subseteq in E as [_ E]. destruct (m1 !! s) as [b|] eqn:Eb; [|done].
  apply Hsub in Hf. rewrite (lookup_weaken _ _ _ _ Eb Hf) in E. by rewrite E in *.
Qed.

Context `{MallocLaws}.

Lemma opt_string_spec o m :
  let '(p, m') := opt_string_to_c o m in
  reads m' p o ∧ m ⊆ m' ∧ cvm_string_free p m' = Some m ∧ (p ≠ NULL → m !! p = None ∧ m = delete p m').
Proof.
  destruct o as [s|]; cbn; [|done].
  pose proof (malloc_fresh m) as Hf. pose proof (malloc_not_null m) as Hn.
  assert (delete (malloc m) (<[malloc m := CStringBlock (c_string s)]> m) = m) as Hd by by rewrite delete_insert_id.
  split_and!.
  - done.
  - by rewrite lookup_insert_eq.
  - by apply insert_subseteq.
  - unfold cvm_string_free. rewrite (proj2 (Z.eqb_neq _ _) Hn), lookup_insert_eq. by rewrite Hd.
  - by rewrite Hd.
Qed.

(** Strings handed out are read back and, freed once each, leave the memory as it was. *)
Lemma alloc_strings_spec os m :
  let '(ps, m') := alloc_strings os m in
  Forall2 (reads m') ps os ∧ m ⊆ m' ∧ free_strings ps m' = Some m.
Proof.
  revert m. induction os as [|o os IH]; intros m; cbn; [by split_and!|].
  pose proof (opt_string_spec o m) as Ho. destruct (opt_string_to_c o m) as [p m1].
  destruct Ho as (Hr & Hs & Hfree & Hp). specialize (IH m1). destruct (alloc_strings os m1) as [ps m2].
  destruct IH as (Hrs & Hs1 & Hf). split_and!.
  - constructor; [by eapply reads_weaken|done].
  - by etrans.
  - cbn. destruct (decide (p = NULL)) as [->|Hnn].
    + unfold cvm_string_free in *. cbn in *. injection Hfree as <-. done.
    + destruct (Hp Hnn) as [Hm Hdel].
      assert (∃ s, m1 !! p = Some (CStringBlock s)) as [s Hs1p].
      { destruct o; [by destruct Hr; eauto|]. cbn in Hr. congruence. }
      unfold cvm_string_free at 1. rewrite (proj2 (Z.eqb_neq _ _) Hnn), (lookup_weaken _ _ _ _ Hs1p Hs1). cbn.
      rewrite (free_strings_delete p ps m2 m1); [by rewrite <- Hdel|done| |done].
      intros Hin. rewrite (free_strings_gone p ps m2 m1) in Hs1p by done. done.
Qed.

Context `{SerdeJson}.

(** The strings of a message, in the order of their allocation. *)
Definition message_texts (msg : JsonRpcMessage) : list (option string) :=
  [Some (to_string (message_to_value msg)); msg_method msg; json_rpc_id_to_string <$> msg_id msg].
Definition incoming_texts (incoming : IncomingRequest) : list (option string) :=
  message_texts (inc_message incoming) ++ [Some (inc_client_pubkey incoming); Some (inc_event_id incoming)].

Lemma message_to_ffi_alloc msg m :
  let '(fm, m') := message_to_ffi msg m in alloc_strings (message_texts msg) m = (message_strings fm, m').
Proof.
  unfold message_to_ffi, message_texts. cbn [alloc_strings opt_string_to_c].
  destruct (string_to_c (to_string (message_to_value msg)) m) as [p1 m1].
  destruct (opt_string_to_c (msg_method msg) m1) as [p2 m2].
  by destruct (opt_string_to_c (json_rpc_id_to_string <$> msg_id msg) m2) as [p3 m3].
Qed.

Lemma alloc_strings_app os1 os2 m :
  alloc_strings (os1 ++ os2) m =
  (let '(ps1, m1) := alloc_strings os1 m in let '(ps2, m2) := alloc_strings os2 m1 in (ps1 ++ ps2, m2)).
Proof.
  revert m. induction os1 as [|o os1 IH]; intros m; cbn; [by destruct (alloc_strings os2 m)|].
  destruct (opt_string_to_c o m) as [p m1]. rewrite IH. destruct (alloc_strings os1 m1) as [ps1 m2].
  by destruct (alloc_strings os2 m2).
Qed.

Lemma incoming_to_ffi_alloc incoming m :
  let '(req, m') := incoming_to_ffi incoming m in alloc_strings (incoming_texts incoming) m = (incoming_strings req, m').
Proof.
  unfold incoming_to_ffi, incoming_texts. rewrite alloc_strings_app.
  pose proof (message_to_ffi_alloc (inc_message incoming) m) as Hm.
  destruct (message_to_ffi _ m) as [fm m1]. by rewrite Hm.
Qed.
End ownership.
