(* ===== verification/FfiChannel.v ===== *)
(** * The foreign interface: handles and channels

    Models [contextvm-ffi/src/handle.rs], [kv.rs], [channel.rs], [signer/mod.rs] and the
    functions on keys of [types.rs].  The state is the table of handles, the heap of
    the library and the error variables of the caller.  A call is one step; where it
    would block it answers [None], and it goes on from the same state.  Time and the
    answers of the relays are an argument of the call. *)

From S2P Require Import Prelude Json CoreTypes OversizedFrame OversizedCodec OversizedReceiver Instances Lru Authorization RouteStore SessionStore OpenStreamFrame OpenStreamSession OpenStreamRegistry OpenStreamWriter PaymentTypes ServerTasks ServerPayments BaseTransport Announcements Discovery ServerNegotiation ServerState ServerOutbound ServerStreams ServerInbound ClientPayments ClientState ClientOutbound ClientInbound Lifecycle FfiTypes.

(** ** The outside *)

(** Key pairs ([nostr_sdk::Keys]) and the relay pool that signs with them. *)
Class Keychain := {
  Keys : Type;
  keys_generate : nat → Keys;
  keys_parse : string → result Keys string;
  public_key_hex : Keys → string;
  secret_key_hex : Keys → string;
  keys_nostr : Keys → Nostr;
  event_json : Event → result string string;
}.

(** [signer/mod.rs]. *)
Definition from_sk `{Keychain} (sk : string) : result Keys string := keys_parse sk.
Definition generate `{Keychain} (random : nat) : Keys := keys_generate random.

(** What happens outside during a call. *)
Record world : Type := mkWorld {
  w_now : Z;
  w_random : nat;
  w_server_start : Server.start_answers;
  w_client_start : ClientInbound.start_answers;
  w_publish : EventBuilder → result string Error;
  w_public_key : result string Error;
  w_fetch : Z → string → result (list string) Error;
  w_delete : list string → string → EventBuilder;
  w_disconnect : result unit Error;
}.

(** ** Channels *)

(** The receiver of a channel is the number of messages taken from it. *)
Record ServerChannel `{Keychain} (L : Type → Type) : Type := mkServerChannel {
  sch_keys : Keys;
  sch_config : NostrServerTransportConfig;
  sch_transport : NostrServerTransport L;
  sch_read : nat;
}.
Record ClientChannel `{Keychain} (L : Type → Type) : Type := mkClientChannel {
  cch_keys : Keys;
  cch_config : NostrClientTransportConfig;
  cch_setup : ClientSetup;
  cch_transport : NostrClientTransport L;
  cch_read : nat;
}.
Record GatewayChannel `{Keychain} (L : Type → Type) : Type := mkGatewayChannel {
  gch_keys : Keys;
  gch_config : NostrServerTransportConfig;
  gch_gateway : Facade (NostrServerTransport L);
  gch_read : nat;
}.
Record ProxyChannel `{Keychain} (L : Type → Type) : Type := mkProxyChannel {
  pch_keys : Keys;
  pch_config : NostrClientTransportConfig;
  pch_setup : ClientSetup;
  pch_proxy : Facade (NostrClientTransport L);
  pch_read : nat;
}.
Arguments mkServerChannel {_ L}.
Arguments sch_keys {_ L}.
Arguments sch_config {_ L}.
Arguments sch_transport {_ L}.
Arguments sch_read {_ L}.
Arguments mkClientChannel {_ L}.
Arguments cch_keys {_ L}.
Arguments cch_config {_ L}.
Arguments cch_setup {_ L}.
Arguments cch_transport {_ L}.
Arguments cch_read {_ L}.
Arguments mkGatewayChannel {_ L}.
Arguments gch_keys {_ L}.
Arguments gch_config {_ L}.
Arguments gch_gateway {_ L}.
Arguments gch_read {_ L}.
Arguments mkProxyChannel {_ L}.
Arguments pch_keys {_ L}.
Arguments pch_config {_ L}.
Arguments pch_setup {_ L}.
Arguments pch_proxy {_ L}.
Arguments pch_read {_ L}.

(** ** Handles ([handle.rs], [kv.rs]) *)

(** [Arc<dyn Any>], with the types the library inserts. *)
Inductive object `{Keychain} `{NostrClient} (L : Type → Type) : Type :=
| OKeys (keys : Keys)
| OPool (client : Discovery.Client)
| OServer (ch : ServerChannel L)
| OClient (ch : ClientChannel L)
| OGateway (ch : GatewayChannel L)
| OProxy (ch : ProxyChannel L).
Arguments OKeys {_ _ L}.
Arguments OPool {_ _ L}.
Arguments OServer {_ _ L}.
Arguments OClient {_ _ L}.
Arguments OGateway {_ _ L}.
Arguments OProxy {_ _ L}.

(** [NEXT_HANDLE], [STORE], the heap and the caller's variables of type
    [*mut FfiError]. *)
Record Ffi `{Keychain} `{NostrClient} (L : Type → Type) : Type := mkFfi {
  f_next : Z;
  f_store : gmap Z (object L);
  f_mem : memory;
  f_vars : gmap nat ptr;
}.
Arguments mkFfi {_ _ L}.
Arguments f_next {_ _ L}.
Arguments f_store {_ _ L}.
Arguments f_mem {_ _ L}.
Arguments f_vars {_ _ L}.

Section store.
Context `{Keychain} `{NostrClient} {L : Type → Type}.
Implicit Types σ : Ffi L.

Definition with_mem σ (m : memory) : Ffi L := mkFfi (f_next σ) (f_store σ) m (f_vars σ).
Definition with_store σ (s : gmap Z (object L)) : Ffi L := mkFfi (f_next σ) s (f_mem σ) (f_vars σ).

(** [FfiHandle::next]. *)
Definition handle_next σ : Z * Ffi L :=
  (f_next σ, mkFfi (u64_add (f_next σ) 1) (f_store σ) (f_mem σ) (f_vars σ)).

Definition insert_object (o : object L) σ : Ffi L * Z :=
  let '(id, σ) := handle_next σ in (with_store σ (<[id := o]> (f_store σ)), id).
Definition get_object {T} (downcast : object L → option T) (handle : Z) σ : option T :=
  value ← f_store σ !! handle; downcast value.
Definition remove (handle : Z) σ : Ffi L * bool :=
  (with_store σ (delete handle (f_store σ)), bool_decide (is_Some (f_store σ !! handle))).

Definition as_keys (o : object L) : option Keys := match o with OKeys k => Some k | _ => None end.
Definition as_pool (o : object L) : option Discovery.Client := match o with OPool c => Some c | _ => None end.
Definition as_server (o : object L) : option (ServerChannel L) := match o with OServer c => Some c | _ => None end.
Definition as_client (o : object L) : option (ClientChannel L) := match o with OClient c => Some c | _ => None end.
Definition as_gateway (o : object L) : option (GatewayChannel L) := match o with OGateway c => Some c | _ => None end.
Definition as_proxy (o : object L) : option (ProxyChannel L) := match o with OProxy c => Some c | _ => None end.

(** [set_error]; the out-parameter is [NULL] or a variable of the caller. *)
Context `{Malloc}.
Definition set_error (out : option nat) (e : FfiError) σ : Ffi L :=
  match out with
  | None => σ
  | Some v =>
      let '(p, m) := alloc (ErrorBlock e) (f_mem σ) in
      mkFfi (f_next σ) (f_store σ) m (<[v := p]> (f_vars σ))
  end.

Definition set_invalid_handle_error (error : option nat) (handle_type : string) σ : Ffi L :=
  set_error error (mkFfiError CodeOther ("invalid " +:+ handle_type +:+ " handle")) σ.
Definition set_null_arg_error (error : option nat) (name : string) σ : Ffi L :=
  set_error error (mkFfiError CodeValidation ("null " +:+ name)) σ.

(** A string as the result. *)
Definition return_string (s : string) σ : Ffi L * ptr :=
  let '(p, m) := string_to_c s (f_mem σ) in (with_mem σ m, p).

(** *** Keys *)

Definition cvm_keys_generate (w : world) σ : Ffi L * Z := insert_object (OKeys (generate (w_random w))) σ.

Definition cvm_keys_from_secret_key (sk : c_str) (error : option nat) σ : Ffi L * Z :=
  match c_str_to_string sk with
  | None => (set_error error (mkFfiError CodeValidation "null secret key string") σ, 0)
  | Some sk =>
      match from_sk sk with
      | Ok keys => insert_object (OKeys keys) σ
      | Err e => (set_error error (mkFfiError CodeOther e) σ, 0)
      end
  end.
Definition cvm_keys_public_key (handle : Z) (error : option nat) σ : Ffi L * ptr :=
  match get_object as_keys handle σ with
  | Some keys => return_string (public_key_hex keys) σ
  | None => (set_error error (mkFfiError CodeOther "invalid key handle") σ, NULL)
  end.
Definition cvm_keys_secret_key (handle : Z) (error : option nat) σ : Ffi L * ptr :=
  match get_object as_keys handle σ with
  | Some keys => return_string (secret_key_hex keys) σ
  | None => (set_error error (mkFfiError CodeOther "invalid key handle") σ, NULL)
  end.
Definition cvm_keys_free (handle : Z) σ : Ffi L := (remove handle σ).1.

(** *** Helpers of [channel.rs] *)

(** [Ok] of what the caller asked for, or the state with the error reported. *)
Definition get_keys (handle : Z) (error : option nat) σ : result Keys (Ffi L) :=
  match get_object as_keys handle σ with
  | Some keys => Ok keys
  | None => Err (set_error error (mkFfiError CodeOther "invalid key handle") σ)
  end.

Context `{SerdeJson} `{FfiText}.

(** [serde_json::from_str::<JsonRpcMessage>]. *)
Definition message_from_str (json : string) : option JsonRpcMessage := v ← from_str json; message_from_value v.
Definition parse_json_rpc_message (payload_json : c_str) (error : option nat) σ : result JsonRpcMessage (Ffi L) :=
  match c_str_to_string payload_json with
  | None => Err (set_error error (mkFfiError CodeValidation "null payload json") σ)
  | Some json_str =>
      match message_from_str json_str with
      | Some m => Ok m
      | None => Err (set_error error (mkFfiError CodeSerialization (serde_error "JsonRpcMessage" json_str)) σ)
      end
  end.

(** [serde_json::from_str::<Vec<Value>>]. *)
Definition values_from_str (json : string) : option (list Value) :=
  v ← from_str json; match v with VArray l => Some l | _ => None end.
Definition parse_json_value_array (payload_json : c_str) (name : string) (error : option nat) σ
  : result (list Value) (Ffi L) :=
  match c_str_to_string payload_json with
  | None => Err (set_null_arg_error error name σ)
  | Some json_str =>
      match values_from_str json_str with
      | Some values => Ok values
      | None => Err (set_error error (mkFfiError CodeSerialization (serde_error "Vec<Value>" json_str)) σ)
      end
  end.

(** [serde_json::from_str::<Vec<Vec<String>>>]. *)
Definition string_lists_from_str (json : string) : option (list (list string)) :=
  vs ← values_from_str json;
  mapM (λ v, match v with
             | VArray l => mapM (λ s, match s with VString s => Some s | _ => None end) l
             | _ => None
             end) vs.
Fixpoint parse_tags (parts : list (list string)) : result (list Tag) FfiError :=
  match parts with
  | [] => Ok []
  | tag :: parts =>
      let? t := map_err (mkFfiError CodeValidation) (tag_parse tag) in
      let? ts := parse_tags parts in Ok (t :: ts)
  end.
Definition parse_tags_json (tags_json : c_str) (error : option nat) σ : result (list Tag) (Ffi L) :=
  match c_str_to_string tags_json with
  | None => Err (set_null_arg_error error "tags_json" σ)
  | Some json_str =>
      match string_lists_from_str json_str with
      | None => Err (set_error error (mkFfiError CodeSerialization (serde_error "Vec<Vec<String>>" json_str)) σ)
      | Some parts => map_err (λ e, set_error error e σ) (parse_tags parts)
      end
  end.

(** [match result { Ok(()) => true, Err(e) => { set_error(..); false } }]. *)
Definition finish {A} (error : option nat) (res : result A Error) σ : Ffi L * bool :=
  match res with
  | Ok _ => (σ, true)
  | Err e => (set_error error (ffi_error e) σ, false)
  end.
(** The same for an event id, as a string. *)
Definition finish_id (error : option nat) (res : result string Error) σ : Ffi L * ptr :=
  match res with
  | Ok id => return_string id σ
  | Err e => (set_error error (ffi_error e) σ, NULL)
  end.
End store.

(** ** Receiving *)

(** [receiver.recv()]: a message, the end of the channel, or nothing yet. *)
Inductive polled (A : Type) : Type :=
| Ready (a : A)
| Closed
| Pending.
Arguments Ready {A}.
Arguments Closed {A}.
Arguments Pending {A}.
Definition poll_receiver {A} (messages : list A) (read : nat) (open : bool) : polled A :=
  match messages !! read with
  | Some a => Ready a
  | None => if open then Pending else Closed
  end.

(** The four channels as the receive functions see them: [C] is the channel, [A] what
    it carries. *)
Record channel_kind `{Keychain} `{NostrClient} (L : Type → Type) (C A : Type) : Type := mkKind {
  k_name : string;
  k_as : object L → option C;
  k_of : C → object L;
  k_messages : C → list A;
  k_read : C → nat;
  k_open : C → bool;
  k_take : C → C;
}.
Arguments mkKind {_ _ L C A}.
Arguments k_name {_ _ L C A}.
Arguments k_as {_ _ L C A}.
Arguments k_of {_ _ L C A}.
Arguments k_messages {_ _ L C A}.
Arguments k_read {_ _ L C A}.
Arguments k_open {_ _ L C A}.
Arguments k_take {_ _ L C A}.

Definition channel_closed : FfiError := mkFfiError CodeTransport "channel closed".
Definition receive_timed_out : FfiError := mkFfiError CodeTimeout "receive timed out".

Section receive.
Context `{Keychain} `{NostrClient} `{Malloc} {L : Type → Type} {C A O : Type}.
Variable k : channel_kind L C A.
(** The struct the caller gets. *)
Variable write : A → memory → O * memory.
Implicit Types σ : Ffi L.

Definition k_poll (ch : C) : polled A := poll_receiver (k_messages k ch) (k_read k ch) (k_open k ch).

(** The message is taken whether or not there is a place to write it to. *)
Definition deliver (handle : Z) (ch : C) (message : A) (out : bool) σ : Ffi L * option O * bool :=
  let σ := with_store σ (<[handle := k_of k (k_take k ch)]> (f_store σ)) in
  if out then let '(o, m) := write message (f_mem σ) in (with_mem σ m, Some o, true)
  else (σ, None, true).

Definition ch_recv (handle : Z) (out : bool) (error : option nat) σ : option (Ffi L * option O * bool) :=
  match get_object (k_as k) handle σ with
  | None => Some (set_invalid_handle_error error (k_name k) σ, None, false)
  | Some ch =>
      match k_poll ch with
      | Ready message => Some (deliver handle ch message out σ)
      | Closed => Some (set_error error channel_closed σ, None, false)
      | Pending => None
      end
  end.

(** [elapsed] is whether [timeout_secs] have passed since the receiver was locked. *)
Definition ch_recv_timeout (elapsed : bool) (handle : Z) (out : bool) (error : option nat) σ
  : option (Ffi L * option O * bool) :=
  match get_object (k_as k) handle σ with
  | None => Some (set_invalid_handle_error error (k_name k) σ, None, false)
  | Some ch =>
      match k_poll ch with
      | Ready message => Some (deliver handle ch message out σ)
      | Closed => Some (set_error error channel_closed σ, None, false)
      | Pending => if elapsed then Some (set_error error receive_timed_out σ, None, false) else None
      end
  end.
End receive.

(** ** The functions *)

Section channels.
Context `{Keychain} `{NostrClient} `{Malloc} `{FfiText} `{Lru L} `{SerdeJson} `{JsonCanon} `{Sha256}.
(** The bounds of the payment stores. *)
Variables max_entries max_pending_payments : Z.
Implicit Types (σ : Ffi L) (w : world).

Definition server_messages (ch : ServerChannel L) : list IncomingRequest :=
  incoming (t_world (Server.transport (sch_transport ch))).
Definition set_server (ch : ServerChannel L) (s : NostrServerTransport L) : ServerChannel L :=
  mkServerChannel (sch_keys ch) (sch_config ch) s (sch_read ch).
Definition server_kind : channel_kind L (ServerChannel L) IncomingRequest :=
  mkKind "server channel" as_server OServer server_messages sch_read (λ ch, Server.message_tx (sch_transport ch))
    (λ ch, mkServerChannel (sch_keys ch) (sch_config ch) (sch_transport ch) (S (sch_read ch))).

Definition set_client_channel (ch : ClientChannel L) (s : NostrClientTransport L) : ClientChannel L :=
  mkClientChannel (cch_keys ch) (cch_config ch) (cch_setup ch) s (cch_read ch).
Definition client_kind : channel_kind L (ClientChannel L) JsonRpcMessage :=
  mkKind "client channel" as_client OClient (λ ch, c_consumer (Client.transport (cch_transport ch))) cch_read
    (λ ch, c_open (Client.transport (cch_transport ch)))
    (λ ch, mkClientChannel (cch_keys ch) (cch_config ch) (cch_setup ch) (cch_transport ch) (S (cch_read ch))).

Definition set_gateway (ch : GatewayChannel L) (g : Facade (NostrServerTransport L)) : GatewayChannel L :=
  mkGatewayChannel (gch_keys ch) (gch_config ch) g (gch_read ch).
Definition gateway_kind : channel_kind L (GatewayChannel L) IncomingRequest :=
  mkKind "gateway channel" as_gateway OGateway
    (λ ch, incoming (t_world (Server.transport (fa_transport (gch_gateway ch))))) gch_read
    (λ ch, Server.message_tx (fa_transport (gch_gateway ch)))
    (λ ch, mkGatewayChannel (gch_keys ch) (gch_config ch) (gch_gateway ch) (S (gch_read ch))).

Definition set_proxy (ch : ProxyChannel L) (p : Facade (NostrClientTransport L)) : ProxyChannel L :=
  mkProxyChannel (pch_keys ch) (pch_config ch) (pch_setup ch) p (pch_read ch).
Definition proxy_kind : channel_kind L (ProxyChannel L) JsonRpcMessage :=
  mkKind "proxy channel" as_proxy OProxy (λ ch, c_consumer (Client.transport (fa_transport (pch_proxy ch)))) pch_read
    (λ ch, c_open (Client.transport (fa_transport (pch_proxy ch))))
    (λ ch, mkProxyChannel (pch_keys ch) (pch_config ch) (pch_setup ch) (pch_proxy ch) (S (pch_read ch))).

Definition cvm_server_ch_recv := ch_recv server_kind incoming_to_ffi.
Definition cvm_server_ch_recv_timeout := ch_recv_timeout server_kind incoming_to_ffi.
Definition cvm_client_ch_recv := ch_recv client_kind message_to_ffi.
Definition cvm_client_ch_recv_timeout := ch_recv_timeout client_kind message_to_ffi.
Definition cvm_gateway_ch_recv := ch_recv gateway_kind incoming_to_ffi.
Definition cvm_gateway_ch_recv_timeout := ch_recv_timeout gateway_kind incoming_to_ffi.
Definition cvm_proxy_ch_recv := ch_recv proxy_kind message_to_ffi.
Definition cvm_proxy_ch_recv_timeout := ch_recv_timeout proxy_kind message_to_ffi.

(** *** Server channels *)

(** The async block of [cvm_server_ch_new]; [Panicked] is a panic inside it. *)
Definition open_server w (keys : Keys) (config : NostrServerTransportConfig) : call (result (ServerChannel L) Error) :=
  let nostr := keys_nostr keys in
  match Server.new config max_entries max_pending_payments with
  | Err e => Returned (Err e)
  | Ok s =>
      match Server.start (w_now w) (w_server_start w) s with
      | (_, _, Panicked) => Panicked
      | (_, _, Returned (Err e)) => Returned (Err e)
      | (s, _, Returned (Ok _)) =>
          let '(s, taken) := Server.take_message_receiver (Server.spawn_discoverability_publication s) in
          Returned (if taken then Ok (mkServerChannel keys config s 0) else Err (EOther "receiver already taken"))
      end
  end.

(** The rest of the constructors: a channel becomes a handle. *)
Definition finish_new {C} (wrap : C → object L) (error : option nat) (made : call (result C Error)) σ : call (Ffi L * Z) :=
  match made with
  | Panicked => Panicked
  | Returned (Ok ch) => Returned (insert_object (wrap ch) σ)
  | Returned (Err e) => Returned (set_error error (ffi_error e) σ, 0)
  end.

Definition cvm_server_ch_new w (keys_handle : Z) (config : FfiServerConfig) (error : option nat) σ : call (Ffi L * Z) :=
  match get_keys keys_handle error σ with
  | Err σ => Returned (σ, 0)
  | Ok keys =>
      match build_sdk_server_config config with
      | Err e => Returned (set_error error e σ, 0)
      | Ok sdk_config => finish_new OServer error (open_server w keys sdk_config) σ
      end
  end.

(** What the functions on a channel do with its handle: [f] is the body. *)
Definition on_channel {C B} (as_channel : object L → option C) (name : string) (bad : B) (handle : Z)
    (error : option nat) (f : C → Ffi L * B) σ : Ffi L * B :=
  match get_object as_channel handle σ with
  | None => (set_invalid_handle_error error name σ, bad)
  | Some ch => f ch
  end.
Definition put (handle : Z) (o : object L) σ : Ffi L := with_store σ (<[handle := o]> (f_store σ)).

Definition cvm_server_ch_send_response w (handle : Z) (event_id payload_json : c_str) (error : option nat) σ
  : Ffi L * bool :=
  on_channel as_server "server channel" false handle error (λ ch,
    match c_str_to_string event_id with
    | None => (set_error error (mkFfiError CodeValidation "null event_id") σ, false)
    | Some eid =>
        match parse_json_rpc_message payload_json error σ with
        | Err σ => (σ, false)
        | Ok msg =>
            let nostr := keys_nostr (sch_keys ch) in
            let s := sch_transport ch in
            let '(t, res) := ServerOutbound.send_response (sch_config ch) (w_now w) eid msg (Server.transport s) in
            finish error res (put handle (OServer (set_server ch (Server.set_transport s t))) σ)
        end
    end) σ.

Definition cvm_server_ch_send_notification (handle : Z) (client_pubkey payload_json correlated_event_id : c_str)
    (error : option nat) σ : Ffi L * bool :=
  on_channel as_server "server channel" false handle error (λ ch,
    match c_str_to_string client_pubkey with
    | None => (set_null_arg_error error "client_pubkey" σ, false)
    | Some client_pubkey =>
        match parse_json_rpc_message payload_json error σ with
        | Err σ => (σ, false)
        | Ok msg =>
            let nostr := keys_nostr (sch_keys ch) in
            let s := sch_transport ch in
            let '(t, res) := send_notification (sch_config ch) client_pubkey msg (c_str_to_string correlated_event_id)
                               (Server.transport s) in
            finish error res (put handle (OServer (set_server ch (Server.set_transport s t))) σ)
        end
    end) σ.

Definition cvm_server_ch_broadcast_notification (handle : Z) (payload_json : c_str) (error : option nat) σ
  : Ffi L * bool :=
  on_channel as_server "server channel" false handle error (λ ch,
    match parse_json_rpc_message payload_json error σ with
    | Err σ => (σ, false)
    | Ok msg =>
        let nostr := keys_nostr (sch_keys ch) in
        let s := sch_transport ch in
        let t := broadcast_notification (sch_config ch) msg (Server.transport s) in
        finish (A := unit) error (Ok tt) (put handle (OServer (set_server ch (Server.set_transport s t))) σ)
    end) σ.

(** [set_announcement_extra_tags] and [set_announcement_pricing_tags] of the transport. *)
Definition on_manager (f : AnnouncementManager → AnnouncementManager) (s : NostrServerTransport L)
  : NostrServerTransport L :=
  let t := Server.transport s in Server.set_transport s (with_manager t (f (t_manager t))).
Definition set_announcement_extra_tags (tags : list Tag) := on_manager (Manager.set_extra_common_tags tags).
Definition set_announcement_pricing_tags (tags : list Tag) := on_manager (Manager.set_pricing_tags tags).

Definition cvm_server_ch_set_announcement_extra_tags (handle : Z) (tags_json : c_str) (error : option nat) σ
  : Ffi L * bool :=
  on_channel as_server "server channel" false handle error (λ ch,
    match parse_tags_json tags_json error σ with
    | Err σ => (σ, false)
    | Ok tags => (put handle (OServer (set_server ch (set_announcement_extra_tags tags (sch_transport ch)))) σ, true)
    end) σ.
Definition cvm_server_ch_set_announcement_pricing_tags (handle : Z) (tags_json : c_str) (error : option nat) σ
  : Ffi L * bool :=
  on_channel as_server "server channel" false handle error (λ ch,
    match parse_tags_json tags_json error σ with
    | Err σ => (σ, false)
    | Ok tags => (put handle (OServer (set_server ch (set_announcement_pricing_tags tags (sch_transport ch)))) σ, true)
    end) σ.

(** [NostrServerTransport::announce]; the builder goes to the relays of [w]. *)
Definition server_announce w (s : NostrServerTransport L) : NostrServerTransport L * result string Error :=
  let t := Server.transport s in
  let '(m, _, res) := Manager.announce (w_publish w) (t_manager t) in
  (Server.set_transport s (with_manager t m), res).
Definition cvm_server_ch_announce w (handle : Z) (error : option nat) σ : Ffi L * bool :=
  on_channel as_server "server channel" false handle error (λ ch,
    let '(s, res) := server_announce w (sch_transport ch) in
    finish error res (put handle (OServer (set_server ch s)) σ)) σ.
Definition cvm_server_ch_announce_event_id w (handle : Z) (error : option nat) σ : Ffi L * ptr :=
  on_channel as_server "server channel" NULL handle error (λ ch,
    let '(s, res) := server_announce w (sch_transport ch) in
    finish_id error res (put handle (OServer (set_server ch s)) σ)) σ.

Inductive ServerPublishListKind : Type := PublishTools | PublishResources | PublishPrompts | PublishResourceTemplates.
Definition publish_list_kind w (kind : ServerPublishListKind) (values : list Value) (s : NostrServerTransport L)
  : result string Error :=
  let m := t_manager (Server.transport s) in
  match kind with
  | PublishTools => (Manager.publish_tools (w_publish w) values m).2
  | PublishResources => (Manager.publish_resources (w_publish w) values m).2
  | PublishPrompts => (Manager.publish_prompts (w_publish w) values m).2
  | PublishResourceTemplates => (Manager.publish_resource_templates (w_publish w) values m).2
  end.
Definition publish_server_values w (handle : Z) (values : list Value) (kind : ServerPublishListKind)
    (error : option nat) σ : Ffi L * ptr :=
  on_channel as_server "server channel" NULL handle error (λ ch,
    finish_id error (publish_list_kind w kind values (sch_transport ch)) σ) σ.

(** The four functions parse their argument before they look at the handle. *)
Definition publish_json w (name : string) (kind : ServerPublishListKind) (handle : Z) (json : c_str)
    (error : option nat) σ : Ffi L * ptr :=
  match parse_json_value_array json name error σ with
  | Err σ => (σ, NULL)
  | Ok values => publish_server_values w handle values kind error σ
  end.
Definition cvm_server_ch_publish_tools w := publish_json w "tools_json" PublishTools.
Definition cvm_server_ch_publish_resources w := publish_json w "resources_json" PublishResources.
Definition cvm_server_ch_publish_prompts w := publish_json w "prompts_json" PublishPrompts.
Definition cvm_server_ch_publish_resource_templates w := publish_json w "templates_json" PublishResourceTemplates.

Definition server_delete_announcements w (reason : string) : result unit Error :=
  (Manager.delete_announcements (w_publish w) (w_public_key w) (w_fetch w) (w_delete w) reason).2.
Definition cvm_server_ch_delete_announcements w (handle : Z) (reason : c_str) (error : option nat) σ : Ffi L * bool :=
  on_channel as_server "server channel" false handle error (λ ch,
    match c_str_to_string reason with
    | None => (set_null_arg_error error "reason" σ, false)
    | Some reason => finish error (server_delete_announcements w reason) σ
    end) σ.

Definition cvm_server_ch_close w (handle : Z) (error : option nat) σ : Ffi L * bool :=
  on_channel as_server "server channel" false handle error (λ ch,
    let nostr := keys_nostr (sch_keys ch) in
    let '(s, res) := Server.close (w_disconnect w) (sch_transport ch) in
    let σ := put handle (OServer (set_server ch s)) σ in
    match res with
    | Ok _ => ((remove handle σ).1, true)
    | Err e => (set_error error (ffi_error e) σ, false)
    end) σ.

(** *** Client channels *)

Definition open_client w (keys : Keys) (config : NostrClientTransportConfig) : call (result (ClientChannel L) Error) :=
  let nostr := keys_nostr keys in
  match ClientState.client_new config with
  | Err e => Returned (Err e)
  | Ok (setup, c) =>
      match Client.start (w_now w) (w_client_start w) (Client.mkClientTransport c true) with
      | (_, _, Panicked) => Panicked
      | (_, _, Returned (Err e)) => Returned (Err e)
      | (s, _, Returned (Ok _)) =>
          let '(s, taken) := Client.take_message_receiver s in
          Returned (if taken then Ok (mkClientChannel keys config setup s 0) else Err (EOther "receiver already taken"))
      end
  end.
Definition cvm_client_ch_new w (keys_handle : Z) (config : FfiClientConfig) (error : option nat) σ : call (Ffi L * Z) :=
  match get_keys keys_handle error σ with
  | Err σ => Returned (σ, 0)
  | Ok keys =>
      match build_sdk_client_config config with
      | Err e => Returned (set_error error e σ, 0)
      | Ok sdk_config => finish_new OClient error (open_client w keys sdk_config) σ
      end
  end.

(** A send has ended, or it waits for the send task of that number. *)
Inductive send_call : Type :=
| SendEnded (ok : bool)
| SendAwaits (task : nat).
Definition start_send (s : NostrClientTransport L) (msg : JsonRpcMessage) : NostrClientTransport L * nat :=
  (Client.mkClientTransport (ClientOutbound.send msg (Client.transport s)) (Client.receiver s),
   length (c_tasks (Client.transport s))).
(** The result of a send task, once it is done. *)
Definition send_result (s : NostrClientTransport L) (task : nat) : option (result unit Error) :=
  match c_tasks (Client.transport s) !! task with
  | Some (SendTask _ (SendDone res)) => Some res
  | _ => None
  end.

Definition cvm_client_ch_send (handle : Z) (payload_json : c_str) (error : option nat) σ : Ffi L * send_call :=
  on_channel as_client "client channel" (SendEnded false) handle error (λ ch,
    match parse_json_rpc_message payload_json error σ with
    | Err σ => (σ, SendEnded false)
    | Ok msg =>
        let '(s, task) := start_send (cch_transport ch) msg in
        (put handle (OClient (set_client_channel ch s)) σ, SendAwaits task)
    end) σ.
(** The call when its send is done; it still holds the channel. *)
Definition cvm_client_ch_send_resume (ch : ClientChannel L) (task : nat) (error : option nat) σ
  : option (Ffi L * bool) :=
  res ← send_result (cch_transport ch) task; Some (finish error res σ).

Definition cvm_client_ch_discovered_server_capabilities (handle : Z) (out_caps : bool) (error : option nat) σ
  : Ffi L * (option FfiPeerCapabilities * bool) :=
  on_channel as_client "client channel" (None, false) handle error (λ ch,
    if out_caps
    then (σ, (Some (peer_capabilities_to_ffi (discovered_server_capabilities (Client.transport (cch_transport ch)))), true))
    else (set_null_arg_error error "out_caps" σ, (None, false))) σ.

Definition cvm_client_ch_server_supports_ephemeral_encryption (handle : Z) (error : option nat) σ : Ffi L * bool :=
  on_channel as_client "client channel" false handle error (λ ch,
    (σ, server_supports_ephemeral_encryption (Client.transport (cch_transport ch)))) σ.

Definition cvm_client_ch_server_initialize_event_json (handle : Z) (error : option nat) σ : Ffi L * ptr :=
  on_channel as_client "client channel" NULL handle error (λ ch,
    match get_server_initialize_event (Client.transport (cch_transport ch)) with
    | Some event =>
        match event_json event with
        | Ok json => return_string json σ
        | Err e => (set_error error (mkFfiError CodeSerialization e) σ, NULL)
        end
    | None => (σ, NULL)
    end) σ.

Definition cvm_client_ch_close w (handle : Z) (error : option nat) σ : Ffi L * bool :=
  on_channel as_client "client channel" false handle error (λ ch,
    let '(s, res) := Client.close (w_disconnect w) (cch_transport ch) in
    let σ := put handle (OClient (set_client_channel ch s)) σ in
    match res with
    | Ok _ => ((remove handle σ).1, true)
    | Err e => (set_error error (ffi_error e) σ, false)
    end) σ.

(** *** Gateway channels *)

Definition open_gateway w (keys : Keys) (config : NostrServerTransportConfig) : call (result (GatewayChannel L) Error) :=
  let nostr := keys_nostr keys in
  match Gateway.new max_entries max_pending_payments (Gateway.config_new config) with
  | Err e => Returned (Err e)
  | Ok gw =>
      match Gateway.start (w_now w) (w_server_start w) gw with
      | (_, Panicked) => Panicked
      | (_, Returned (Err e)) => Returned (Err e)
      | (gw, Returned (Ok _)) => Returned (Ok (mkGatewayChannel keys config gw 0))
      end
  end.
Definition cvm_gateway_ch_new w (keys_handle : Z) (config : FfiServerConfig) (error : option nat) σ : call (Ffi L * Z) :=
  match get_keys keys_handle error σ with
  | Err σ => Returned (σ, 0)
  | Ok keys =>
      match build_sdk_server_config config with
      | Err e => Returned (set_error error e σ, 0)
      | Ok sdk_config => finish_new OGateway error (open_gateway w keys sdk_config) σ
      end
  end.

Definition cvm_gateway_ch_send_response w (handle : Z) (event_id payload_json : c_str) (error : option nat) σ
  : Ffi L * bool :=
  on_channel as_gateway "gateway channel" false handle error (λ ch,
    match c_str_to_string event_id with
    | None => (set_error error (mkFfiError CodeValidation "null event_id") σ, false)
    | Some eid =>
        match parse_json_rpc_message payload_json error σ with
        | Err σ => (σ, false)
        | Ok msg =>
            let nostr := keys_nostr (gch_keys ch) in
            let '(g, res) := Gateway.send_response (gch_config ch) (w_now w) eid msg (gch_gateway ch) in
            finish error res (put handle (OGateway (set_gateway ch g)) σ)
        end
    end) σ.
Definition cvm_gateway_ch_announce w (handle : Z) (error : option nat) σ : Ffi L * bool :=
  on_channel as_gateway "gateway channel" false handle error (λ ch,
    let '(g, _, res) := Gateway.announce (w_publish w) (gch_gateway ch) in
    finish error res (put handle (OGateway (set_gateway ch g)) σ)) σ.
Definition cvm_gateway_ch_announce_event_id w (handle : Z) (error : option nat) σ : Ffi L * ptr :=
  on_channel as_gateway "gateway channel" NULL handle error (λ ch,
    let '(g, _, res) := Gateway.announce (w_publish w) (gch_gateway ch) in
    finish_id error res (put handle (OGateway (set_gateway ch g)) σ)) σ.
Definition cvm_gateway_ch_is_active (handle : Z) (error : option nat) σ : Ffi L * bool :=
  on_channel as_gateway "gateway channel" false handle error (λ ch, (σ, Gateway.is_active (gch_gateway ch))) σ.
Definition cvm_gateway_ch_stop w (handle : Z) (error : option nat) σ : Ffi L * bool :=
  on_channel as_gateway "gateway channel" false handle error (λ ch,
    let nostr := keys_nostr (gch_keys ch) in
    let '(g, res) := Gateway.stop (w_disconnect w) (gch_gateway ch) in
    let σ := put handle (OGateway (set_gateway ch g)) σ in
    match res with
    | Ok _ => ((remove handle σ).1, true)
    | Err e => (set_error error (ffi_error e) σ, false)
    end) σ.

(** *** Proxy channels *)

Definition open_proxy w (keys : Keys) (config : NostrClientTransportConfig) : call (result (ProxyChannel L) Error) :=
  let nostr := keys_nostr keys in
  match Proxy.new (Proxy.config_new config) with
  | Err e => Returned (Err e)
  | Ok (setup, p) =>
      match Proxy.start (w_now w) (w_client_start w) p with
      | (_, Panicked) => Panicked
      | (_, Returned (Err e)) => Returned (Err e)
      | (p, Returned (Ok _)) => Returned (Ok (mkProxyChannel keys config setup p 0))
      end
  end.
Definition cvm_proxy_ch_new w (keys_handle : Z) (config : FfiClientConfig) (error : option nat) σ : call (Ffi L * Z) :=
  match get_keys keys_handle error σ with
  | Err σ => Returned (σ, 0)
  | Ok keys =>
      match build_sdk_client_config config with
      | Err e => Returned (set_error error e σ, 0)
      | Ok sdk_config => finish_new OProxy error (open_proxy w keys sdk_config) σ
      end
  end.
Definition cvm_proxy_ch_send (handle : Z) (payload_json : c_str) (error : option nat) σ : Ffi L * send_call :=
  on_channel as_proxy "proxy channel" (SendEnded false) handle error (λ ch,
    match parse_json_rpc_message payload_json error σ with
    | Err σ => (σ, SendEnded false)
    | Ok msg =>
        let p := pch_proxy ch in
        (put handle (OProxy (set_proxy ch (Proxy.send msg p))) σ,
         SendAwaits (length (c_tasks (Client.transport (fa_transport p)))))
    end) σ.
Definition cvm_proxy_ch_send_resume (ch : ProxyChannel L) (task : nat) (error : option nat) σ : option (Ffi L * bool) :=
  res ← send_result (fa_transport (pch_proxy ch)) task; Some (finish error res σ).
Definition cvm_proxy_ch_is_active (handle : Z) (error : option nat) σ : Ffi L * bool :=
  on_channel as_proxy "proxy channel" false handle error (λ ch, (σ, Proxy.is_active (pch_proxy ch))) σ.
Definition cvm_proxy_ch_stop w (handle : Z) (error : option nat) σ : Ffi L * bool :=
  on_channel as_proxy "proxy channel" false handle error (λ ch,
    let nostr := keys_nostr (pch_keys ch) in
    let '(p, res) := Proxy.stop (w_disconnect w) (pch_proxy ch) in
    let σ := put handle (OProxy (set_proxy ch p)) σ in
    match res with
    | Ok _ => ((remove handle σ).1, true)
    | Err e => (set_error error (ffi_error e) σ, false)
    end) σ.
End channels.
