(* ===== verification/FfiDiscovery.v ===== *)
(** * The foreign interface: relay pools, discovery and encryption

    Models [contextvm-ffi/src/discovery.rs] and the functions of [types.rs] on relay
    pools, discovery, NIP-44 and NIP-19.  The discovery functions of the SDK do not
    look at the relay urls they are given, so neither do their models. *)

From S2P Require Import Prelude Json CoreTypes Instances BaseTransport Announcements Discovery FfiTypes FfiChannel.

(** The rest of [nostr_sdk] the library calls: a query for the profiles of some
    authors, disconnecting, NIP-44 with given keys, and NIP-19. *)
Class FfiNostr `{Keychain} `{NostrClient} := {
  client_fetch_metadata : Discovery.Client → list string → list string → result (list Event) string;
  client_disconnect : Discovery.Client → Discovery.Client;
  nip44_encrypt : Keys → string → string → result string string;
  hex_to_pubkey : string → result string string;
  to_bech32 : string → result string string;
}.

(** ** Shared helpers ([discovery.rs]) *)

Record DiscoveredToolRecord : Type := mkToolRecord {
  dt_provider_pubkey : string;
  dt_provider_display_name : option string;
  dt_provider_name : option string;
  dt_provider_about : option string;
  dt_provider_picture : option string;
  dt_provider_nip05 : option string;
  dt_tool_name : string;
  dt_description : string;
  dt_schema_json : string;
}.
Record ProviderProfileRecord : Type := mkProfileRecord {
  pr_pubkey : string;
  pr_name : option string;
  pr_about : option string;
  pr_picture : option string;
  pr_nip05 : option string;
}.

Section discovery.
Context `{FfiNostr} `{SerdeJson}.

Definition tool_record_from_value (provider_pubkey : string) (provider_display_name : option string) (value : Value)
  : result DiscoveredToolRecord Error :=
  match get_str value "name" with
  | None => Err (EOther "tool announcement missing name")
  | Some tool_name =>
      let description := default "" (get_str value "description") in
      match (match get value "inputSchema" with Some v => Some v | None => get value "input_schema" end) with
      | None => Err (EOther ("tool announcement " +:+ tool_name +:+ " missing inputSchema"))
      | Some schema =>
          Ok (mkToolRecord provider_pubkey provider_display_name None None None None tool_name description
                (to_string schema))
      end
  end.

(** [.map(f).collect::<Result<Vec<_>, _>>()]. *)
Fixpoint collect_results {A B} (f : A → result B Error) (l : list A) : result (list B) Error :=
  match l with
  | [] => Ok []
  | a :: l => let? b := f a in let? bs := collect_results f l in Ok (b :: bs)
  end.

Definition discover_tools (client : Discovery.Client) (provider_pubkey : string)
    (provider_display_name : option string) : result (list DiscoveredToolRecord) Error :=
  let? parsed_pubkey := map_err (λ e, EValidation ("bad pubkey: " +:+ e)) (hex_to_pubkey provider_pubkey) in
  let? raw_tools := Discovery.discover_tools client parsed_pubkey in
  collect_results (tool_record_from_value provider_pubkey provider_display_name) raw_tools.

Definition profile_from_metadata (pubkey content : string) : option ProviderProfileRecord :=
  metadata ← from_str content;
  Some (mkProfileRecord pubkey (get_str metadata "name") (get_str metadata "about") (get_str metadata "picture")
          (get_str metadata "nip05")).

Definition fetch_provider_profiles (client : Discovery.Client) (provider_pubkeys relay_urls : list string)
  : result (gmap string ProviderProfileRecord) Error :=
  match omap (λ pubkey, result_ok (hex_to_pubkey pubkey)) provider_pubkeys with
  | [] => Ok ∅
  | parsed_pubkeys =>
      let? events := map_err ETransport (client_fetch_metadata client parsed_pubkeys relay_urls) in
      Ok (foldl (λ profiles event,
            match profile_from_metadata (ev_pubkey event) (ev_content event) with
            | Some profile => <[pr_pubkey profile := profile]> profiles
            | None => profiles
            end) ∅ events)
  end.

(** The body of the last loop of [discover_all_tools]. *)
Definition add_profile (profiles : gmap string ProviderProfileRecord) (tool : DiscoveredToolRecord)
  : DiscoveredToolRecord :=
  match profiles !! dt_provider_pubkey tool with
  | Some profile =>
      mkToolRecord (dt_provider_pubkey tool) (dt_provider_display_name tool) (pr_name profile) (pr_about profile)
        (pr_picture profile) (pr_nip05 profile) (dt_tool_name tool) (dt_description tool) (dt_schema_json tool)
  | None => tool
  end.
(** The provider keys go through a hash set, in whatever order. *)
Definition discover_all_tools (client : Discovery.Client) (relay_urls : list string)
  : result (list DiscoveredToolRecord) Error :=
  let? servers := discover_servers client in
  let tools := servers ≫= λ server,
    match discover_tools client (sa_pubkey server) (si_name (sa_server_info server)) with
    | Ok server_tools => server_tools
    | Err _ => []
    end in
  let provider_pubkeys := elements (list_to_set (dt_provider_pubkey <$> tools) : gset string) in
  match fetch_provider_profiles client provider_pubkeys relay_urls with
  | Ok profiles => Ok (map (add_profile profiles) tools)
  | Err _ => Ok tools
  end.

Definition pubkey_hex_to_npub (pubkey_hex : string) : result string Error :=
  let? pubkey := map_err (λ e, EValidation ("bad pubkey: " +:+ e)) (hex_to_pubkey pubkey_hex) in
  map_err EOther (to_bech32 pubkey).

(** ** Arrays ([types.rs]) *)

(** The structs of an array, one after the other. *)
Fixpoint map_alloc {A B} (f : A → memory → B * memory) (l : list A) (m : memory) : list B * memory :=
  match l with
  | [] => ([], m)
  | a :: l => let '(b, m) := f a m in let '(bs, m) := map_alloc f l m in (b :: bs, m)
  end.

Context `{Malloc} {L : Type → Type}.
Implicit Types σ : Ffi L.

Definition announcement_to_ffi (a : ServerAnnouncement) (m : memory) : FfiServerAnnouncement * memory :=
  let info := sa_server_info a in
  let '(pubkey, m) := string_to_c (sa_pubkey a) m in
  let '(name, m) := opt_string_to_c (si_name info) m in
  let '(version, m) := opt_string_to_c (si_version info) m in
  let '(picture, m) := opt_string_to_c (si_picture info) m in
  let '(about, m) := opt_string_to_c (si_about info) m in
  let '(website, m) := opt_string_to_c (si_website info) m in
  let '(event_id, m) := string_to_c (sa_event_id a) m in
  (mkFfiAnnouncement pubkey name version picture about website event_id, m).
Definition tool_to_ffi (tool : DiscoveredToolRecord) (m : memory) : FfiDiscoveredTool * memory :=
  let '(provider_pubkey, m) := string_to_c (dt_provider_pubkey tool) m in
  let '(provider_display_name, m) := opt_string_to_c (dt_provider_display_name tool) m in
  let '(provider_name, m) := opt_string_to_c (dt_provider_name tool) m in
  let '(provider_about, m) := opt_string_to_c (dt_provider_about tool) m in
  let '(provider_picture, m) := opt_string_to_c (dt_provider_picture tool) m in
  let '(provider_nip05, m) := opt_string_to_c (dt_provider_nip05 tool) m in
  let '(tool_name, m) := string_to_c (dt_tool_name tool) m in
  let '(description, m) := string_to_c (dt_description tool) m in
  let '(schema_json, m) := string_to_c (dt_schema_json tool) m in
  (mkFfiTool provider_pubkey provider_display_name provider_name provider_about provider_picture provider_nip05
     tool_name description schema_json, m).
Definition profile_to_ffi (profile : ProviderProfileRecord) (m : memory) : FfiProviderProfile * memory :=
  let '(pubkey, m) := string_to_c (pr_pubkey profile) m in
  let '(name, m) := opt_string_to_c (pr_name profile) m in
  let '(about, m) := opt_string_to_c (pr_about profile) m in
  let '(picture, m) := opt_string_to_c (pr_picture profile) m in
  let '(nip05, m) := opt_string_to_c (pr_nip05 profile) m in
  (mkFfiProfile pubkey name about picture nip05, m).

(** [collect] leaves [spare] unused places in the vector whose buffer is handed out; a
    vector of capacity zero has no buffer, and its pointer dangles. *)
Definition to_ffi_array {A B} (spare : nat) (f : A → memory → B * memory) (array : list B → c_array) (l : list A) σ
  : Ffi L * (ptr * nat) :=
  let '(structs, m) := map_alloc f l (f_mem σ) in
  let capacity := (length l + spare)%nat in
  let '(p, m) := if bool_decide (capacity = 0%nat) then (dangling, m)
                 else alloc (ArrayBlock capacity (array structs)) m in
  (with_mem σ m, (p, length l)).
Definition announcements_to_ffi_array (spare : nat) := to_ffi_array spare announcement_to_ffi Announcements.
Definition tools_to_ffi_array (spare : nat) := to_ffi_array spare tool_to_ffi Tools.
Definition profiles_to_ffi_array (spare : nat) := to_ffi_array spare profile_to_ffi Profiles.

(** ** Relay pools *)

Definition cvm_relay_pool_new (keys_handle : Z) (error : option nat) σ : Ffi L * Z :=
  match get_object as_keys keys_handle σ with
  | None => (set_error error (mkFfiError CodeOther "invalid key handle") σ, 0)
  | Some _ =>
      match RelayPool.new with
      | Ok p => insert_object (OPool p) σ
      | Err e => (set_error error (ffi_error e) σ, 0)
      end
  end.

(** [RelayPool::connect]: the relays added before an error stay. *)
Fixpoint pool_connect (client : Discovery.Client) (relay_urls : list string) : Discovery.Client * result unit Error :=
  match relay_urls with
  | [] => (client_connect client, Ok tt)
  | url :: rest =>
      match client_add_relay client url with
      | Ok client => pool_connect client rest
      | Err e => (client, Err (ETransport e))
      end
  end.
Definition cvm_relay_pool_connect (pool_handle : Z) (urls : c_str_array) (url_count : nat) (error : option nat) σ
  : Ffi L * bool :=
  on_channel as_pool "pool" false pool_handle error (λ pool,
    let '(pool, res) := pool_connect pool (c_str_array_to_vec urls url_count) in
    finish error res (put pool_handle (OPool pool) σ)) σ.
Definition cvm_relay_pool_disconnect (pool_handle : Z) (error : option nat) σ : Ffi L * bool :=
  on_channel as_pool "pool" false pool_handle error (λ pool,
    finish (A := unit) error (Ok tt) (put pool_handle (OPool (client_disconnect pool)) σ)) σ.
Definition cvm_relay_pool_free (handle : Z) σ : Ffi L := (remove handle σ).1.

(** ** Discovery

    The pointer and the count; the count is written only on success. *)

Definition no_array : ptr * option nat := (NULL, None).
Definition returned_array (r : Ffi L * (ptr * nat)) (out_count : bool) : Ffi L * (ptr * option nat) :=
  (r.1, (r.2.1, if out_count then Some r.2.2 else None)).

Definition cvm_discover_servers (spare : nat) (pool_handle : Z) (relay_urls : c_str_array) (url_count : nat)
    (out_count : bool) (error : option nat) σ : Ffi L * (ptr * option nat) :=
  on_channel as_pool "pool" no_array pool_handle error (λ client,
    match discover_servers client with
    | Ok announcements => returned_array (announcements_to_ffi_array spare announcements σ) out_count
    | Err e => (set_error error (ffi_error e) σ, no_array)
    end) σ.

Definition cvm_discover_tools (spare : nat) (pool_handle : Z) (provider_pubkey_hex provider_display_name : c_str)
    (relay_urls : c_str_array) (url_count : nat) (out_count : bool) (error : option nat) σ
  : Ffi L * (ptr * option nat) :=
  on_channel as_pool "pool" no_array pool_handle error (λ client,
    match c_str_to_string provider_pubkey_hex with
    | None => (set_error error (mkFfiError CodeValidation "null provider pubkey") σ, no_array)
    | Some provider_pubkey =>
        match discover_tools client provider_pubkey (c_str_to_string provider_display_name) with
        | Ok tools => returned_array (tools_to_ffi_array spare tools σ) out_count
        | Err e => (set_error error (ffi_error e) σ, no_array)
        end
    end) σ.

Definition cvm_discover_all_tools (spare : nat) (pool_handle : Z) (relay_urls : c_str_array) (url_count : nat)
    (out_count : bool) (error : option nat) σ : Ffi L * (ptr * option nat) :=
  on_channel as_pool "pool" no_array pool_handle error (λ client,
    match discover_all_tools client (c_str_array_to_vec relay_urls url_count) with
    | Ok tools => returned_array (tools_to_ffi_array spare tools σ) out_count
    | Err e => (set_error error (ffi_error e) σ, no_array)
    end) σ.

(** The values of the map, in some order. *)
Definition cvm_fetch_provider_profiles (spare : nat) (pool_handle : Z) (provider_pubkeys : c_str_array)
    (provider_pubkey_count : nat) (relay_urls : c_str_array) (url_count : nat) (out_count : bool)
    (error : option nat) σ : Ffi L * (ptr * option nat) :=
  on_channel as_pool "pool" no_array pool_handle error (λ client,
    match fetch_provider_profiles client (c_str_array_to_vec provider_pubkeys provider_pubkey_count)
            (c_str_array_to_vec relay_urls url_count) with
    | Ok profiles => returned_array (profiles_to_ffi_array spare (map_to_list profiles).*2 σ) out_count
    | Err e => (set_error error (ffi_error e) σ, no_array)
    end) σ.

(** ** Encryption and NIP-19 *)

(** The arguments of [cvm_encrypt_nip44] and [cvm_decrypt_nip44], checked in this
    order; [run] is the operation. *)
Definition nip44_call (who text_name : string) (keys_handle : Z) (pubkey_hex text : c_str) (error : option nat)
    (run : Keys → string → string → result string Error) σ : Ffi L * ptr :=
  match get_object as_keys keys_handle σ with
  | None => (set_error error (mkFfiError CodeOther "invalid key handle") σ, NULL)
  | Some keys =>
      match c_str_to_string pubkey_hex with
      | None => (set_error error (mkFfiError CodeValidation ("null " +:+ who +:+ " pubkey")) σ, NULL)
      | Some pk_str =>
          match hex_to_pubkey pk_str with
          | Err e => (set_error error (mkFfiError CodeValidation ("invalid pubkey: " +:+ e)) σ, NULL)
          | Ok pk =>
              match c_str_to_string text with
              | None => (set_error error (mkFfiError CodeValidation ("null " +:+ text_name)) σ, NULL)
              | Some text => finish_id error (run keys pk text) σ
              end
          end
      end
  end.
Definition cvm_encrypt_nip44 (keys_handle : Z) (recipient_pubkey_hex plaintext : c_str) (error : option nat) σ
  : Ffi L * ptr :=
  nip44_call "recipient" "plaintext" keys_handle recipient_pubkey_hex plaintext error
    (λ keys pk pt, map_err EEncryption (nip44_encrypt keys pk pt)) σ.
Definition cvm_decrypt_nip44 (keys_handle : Z) (sender_pubkey_hex ciphertext : c_str) (error : option nat) σ
  : Ffi L * ptr :=
  nip44_call "sender" "ciphertext" keys_handle sender_pubkey_hex ciphertext error
    (λ keys pk ct, @decrypt_nip44 (keys_nostr keys) pk ct) σ.

Definition cvm_pubkey_hex_to_npub (pubkey_hex : c_str) (error : option nat) σ : Ffi L * ptr :=
  match c_str_to_string pubkey_hex with
  | None => (set_error error (mkFfiError CodeValidation "null pubkey") σ, NULL)
  | Some pubkey => finish_id error (pubkey_hex_to_npub pubkey) σ
  end.
End discovery.
