(* ===== verification/Uniffi.v ===== *)
(** * The object-oriented foreign interface

    Models [contextvm-ffi/src/uniffi_types.rs]: the records and objects UniFFI exposes
    to Python, Swift and Kotlin.  An object is the channel it owns; a method takes it
    and returns it with its result. *)

From S2P Require Import Prelude Json CoreTypes OversizedFrame OversizedCodec OversizedReceiver Instances Lru Authorization RouteStore SessionStore OpenStreamFrame OpenStreamSession OpenStreamRegistry OpenStreamWriter PaymentTypes ServerTasks ServerPayments BaseTransport Announcements Discovery ServerNegotiation ServerState ServerOutbound ServerStreams ServerInbound ClientPayments ClientState ClientOutbound ClientInbound Lifecycle FfiTypes FfiChannel FfiDiscovery.

Module Uniffi.

(** ** Records *)

Inductive EncryptionMode : Type := Optional | Required | Disabled.
Inductive GiftWrapMode : Type := WrapOptional | WrapEphemeral | WrapPersistent.
Inductive JsonRpcMessageType : Type := TypeRequest | TypeResponse | TypeErrorResponse | TypeNotification.

Record JsonRpcMessage : Type := mkMessage {
  msg_type : JsonRpcMessageType;
  payload_json : string;
  method : string;
  id : string;
}.
Record IncomingRequest : Type := mkRequest {
  message : JsonRpcMessage;
  client_pubkey : string;
  event_id : string;
  is_encrypted : bool;
}.
Record ServerAnnouncement : Type := mkAnnouncement {
  ann_pubkey : string;
  ann_name : option string;
  ann_version : option string;
  ann_picture : option string;
  ann_about : option string;
  ann_website : option string;
  ann_event_id : string;
}.
Record CapabilityExclusion : Type := mkExclusion {
  exclusion_method : string;
  exclusion_name : option string;
}.
Record PeerCapabilities : Type := mkCapabilities {
  supports_encryption : bool;
  supports_ephemeral_encryption : bool;
  supports_oversized_transfer : bool;
  supports_open_stream : bool;
}.
Record ServerConfig : Type := mkServerConfig {
  s_relay_urls : list string;
  s_encryption_mode : EncryptionMode;
  s_gift_wrap_mode : GiftWrapMode;
  s_is_announced_server : bool;
  s_server_name : option string;
  s_server_version : option string;
  s_server_picture : option string;
  s_server_about : option string;
  s_server_website : option string;
  s_allowed_pubkeys : list string;
  s_session_timeout_secs : Z;
  s_cleanup_interval_secs : Z;
  s_excluded_capabilities : list CapabilityExclusion;
  s_max_sessions : Z;
  s_request_timeout_secs : Z;
  s_relay_list_urls : list string;
  s_bootstrap_relay_urls : list string;
  s_publish_relay_list : bool;
  s_profile_metadata_json : option string;
}.
Definition ServerConfig_default : ServerConfig :=
  mkServerConfig ["wss://relay.damus.io"] Optional WrapOptional false None None None None None [] 300 60 [] 1000 60 [] []
    true None.
Record ClientConfig : Type := mkClientConfig {
  c_relay_urls : list string;
  c_server_pubkey : string;
  c_encryption_mode : EncryptionMode;
  c_gift_wrap_mode : GiftWrapMode;
  c_is_stateless : bool;
  c_timeout_secs : Z;
  c_discovery_relay_urls : list string;
  c_fallback_operational_relay_urls : list string;
}.
Definition ClientConfig_default : ClientConfig := mkClientConfig [] "" Optional WrapOptional false 30 [] [].

(** ** Conversions *)

Definition sdk_encryption_mode (m : EncryptionMode) : CoreTypes.EncryptionMode :=
  match m with Optional => EncOptional | Required => EncRequired | Disabled => EncDisabled end.
Definition sdk_gift_wrap_mode (m : GiftWrapMode) : CoreTypes.GiftWrapMode :=
  match m with WrapOptional => GwOptional | WrapEphemeral => GwEphemeral | WrapPersistent => GwPersistent end.

Definition capabilities_to_uniffi (caps : BaseTransport.PeerCapabilities) : PeerCapabilities :=
  mkCapabilities (pc_supports_encryption caps) (pc_supports_ephemeral_encryption caps)
    (pc_supports_oversized_transfer caps) (pc_supports_open_stream caps).

Definition recv_timeout_error : FfiError := mkFfiError CodeTimeout "receive timed out".

Section conversions.
Context `{SerdeJson} `{FfiText}.

Definition message_to_uniffi (msg : CoreTypes.JsonRpcMessage) : JsonRpcMessage :=
  mkMessage
    match msg with
    | Request _ => TypeRequest
    | Response _ => TypeResponse
    | ErrorResponse _ => TypeErrorResponse
    | Notification _ => TypeNotification
    end
    (to_string (message_to_value msg)) (default "" (msg_method msg))
    (default "" (json_rpc_id_to_string <$> msg_id msg)).
Definition incoming_to_uniffi (req : ServerTasks.IncomingRequest) : IncomingRequest :=
  mkRequest (message_to_uniffi (inc_message req)) (inc_client_pubkey req) (inc_event_id req) (inc_is_encrypted req).

Definition parse_json_rpc (json : string) : result CoreTypes.JsonRpcMessage FfiError :=
  match message_from_str json with
  | Some m => Ok m
  | None => Err (mkFfiError CodeSerialization (serde_error "JsonRpcMessage" json))
  end.
Definition parse_json_value_array (json name : string) : result (list Value) FfiError :=
  match values_from_str json with
  | Some values => Ok values
  | None => Err (mkFfiError CodeSerialization ("invalid " +:+ name +:+ ": " +:+ serde_error "Vec<Value>" json))
  end.
Definition parse_tags_json (json : string) : result (list Tag) FfiError :=
  match string_lists_from_str json with
  | None => Err (mkFfiError CodeSerialization ("invalid tags_json: " +:+ serde_error "Vec<Vec<String>>" json))
  | Some parts => parse_tags parts
  end.

(** Requests, notifications and responses as text; [serde_json::from_str] of the
    parameters falls back to nothing, that of a result to [null]. *)
Definition make_request (id method : string) (params : option string) : string :=
  to_string (message_to_value (Request (CoreTypes.mkRequest "2.0" (VString id) method (params ≫= from_str)))).
Definition make_notification (method : string) (params : option string) : string :=
  to_string (message_to_value (Notification (mkNotification "2.0" method (params ≫= from_str)))).
Definition make_response (id result : string) : string :=
  to_string (message_to_value (Response (mkResponse "2.0" (VString id) (default VNull (from_str result))))).
End conversions.

(** ** Receiving

    [recv], [recv_timeout] and [recv_try] of a channel, on what its receiver answers:
    [None] is a call that goes on waiting. *)

Section receiving.
Context `{Keychain} `{NostrClient} {L : Type → Type} {C A B : Type}.
Variable k : channel_kind L C A.
Variable to_uniffi : A → B.

Definition recv_channel (ch : C) : option (C * result B FfiError) :=
  match k_poll k ch with
  | Ready a => Some (k_take k ch, Ok (to_uniffi a))
  | Closed => Some (ch, Err channel_closed)
  | Pending => None
  end.
(** [elapsed] is whether the timeout has passed since the call began; [locked] whether
    another call has the receiver. *)
Definition recv_channel_timeout (elapsed locked : bool) (ch : C) : option (C * result B FfiError) :=
  if locked then (if elapsed then Some (ch, Err recv_timeout_error) else None)
  else
    match k_poll k ch with
    | Ready a => Some (k_take k ch, Ok (to_uniffi a))
    | Closed => Some (ch, Err channel_closed)
    | Pending => if elapsed then Some (ch, Err recv_timeout_error) else None
    end.
Definition recv_channel_try (locked : bool) (ch : C) : C * result (option B) FfiError :=
  if locked then (ch, Ok None)
  else
    match k_poll k ch with
    | Ready a => (k_take k ch, Ok (Some (to_uniffi a)))
    | Closed => (ch, Err channel_closed)
    | Pending => (ch, Ok None)
    end.
End receiving.

(** ** Objects *)

Section objects.
Context `{Keychain} `{NostrClient} `{FfiText} `{Lru L} `{SerdeJson} `{JsonCanon} `{Sha256}.
Variables max_entries max_pending_payments : Z.
Implicit Types w : world.

(** *** Keys *)

Definition Keys_generate w : Keys := generate (w_random w).
Definition Keys_from_secret_key (sk : string) : result Keys FfiError := map_err (mkFfiError CodeOther) (from_sk sk).
Definition Keys_public_key (k : Keys) : string := public_key_hex k.
Definition Keys_secret_key (k : Keys) : string := secret_key_hex k.

(** [block_on(..).map_err(FfiError::from)]. *)
Definition ffi_result {A} (r : result A Error) : result A FfiError := map_err ffi_error r.
Definition ffi_call {A} (r : call (result A Error)) : call (result A FfiError) :=
  match r with Panicked => Panicked | Returned r => Returned (ffi_result r) end.

(** *** Server *)

Definition server_parts (config : ServerConfig) : ServerConfigParts :=
  mkServerParts (s_relay_urls config) (sdk_encryption_mode (s_encryption_mode config))
    (sdk_gift_wrap_mode (s_gift_wrap_mode config)) (s_server_name config) (s_server_version config)
    (s_server_picture config) (s_server_about config) (s_server_website config) (s_is_announced_server config)
    (s_allowed_pubkeys config) (s_session_timeout_secs config) (s_cleanup_interval_secs config)
    (map (λ cap, mkExclusionParts (exclusion_method cap) (exclusion_name cap)) (s_excluded_capabilities config))
    (s_max_sessions config) (s_request_timeout_secs config) (s_relay_list_urls config)
    (s_bootstrap_relay_urls config) (s_publish_relay_list config) (s_profile_metadata_json config).

Definition Server_new w (keys : Keys) (config : ServerConfig) : call (result (ServerChannel L) FfiError) :=
  match build_sdk_server_config_from_fields (server_parts config) with
  | Err e => Returned (Err e)
  | Ok sdk_config => ffi_call (open_server max_entries max_pending_payments w keys sdk_config)
  end.
Definition Server_recv := recv_channel (L := L) server_kind incoming_to_uniffi.
Definition Server_recv_timeout := recv_channel_timeout (L := L) server_kind incoming_to_uniffi.
Definition Server_recv_try := recv_channel_try (L := L) server_kind incoming_to_uniffi.

Implicit Types (sc : ServerChannel L) (cc : ClientChannel L) (gc : GatewayChannel L) (pc : ProxyChannel L).

Definition Server_send_response w (event_id payload_json : string) sc : ServerChannel L * result unit FfiError :=
  match parse_json_rpc payload_json with
  | Err e => (sc, Err e)
  | Ok message =>
      let nostr := keys_nostr (sch_keys sc) in
      let s := sch_transport sc in
      let '(t, res) := ServerOutbound.send_response (sch_config sc) (w_now w) event_id message (Server.transport s) in
      (set_server sc (Server.set_transport s t), ffi_result res)
  end.
Definition Server_send_notification (client_pubkey payload_json : string) (correlated_event_id : option string) sc
  : ServerChannel L * result unit FfiError :=
  match parse_json_rpc payload_json with
  | Err e => (sc, Err e)
  | Ok message =>
      let nostr := keys_nostr (sch_keys sc) in
      let s := sch_transport sc in
      let '(t, res) := send_notification (sch_config sc) client_pubkey message correlated_event_id (Server.transport s) in
      (set_server sc (Server.set_transport s t), ffi_result res)
  end.
Definition Server_broadcast_notification (payload_json : string) sc : ServerChannel L * result unit FfiError :=
  match parse_json_rpc payload_json with
  | Err e => (sc, Err e)
  | Ok message =>
      let nostr := keys_nostr (sch_keys sc) in
      let s := sch_transport sc in
      (set_server sc (Server.set_transport s (broadcast_notification (sch_config sc) message (Server.transport s))), Ok tt)
  end.
Definition Server_set_announcement_extra_tags (tags_json : string) sc : ServerChannel L * result unit FfiError :=
  match parse_tags_json tags_json with
  | Err e => (sc, Err e)
  | Ok tags => (set_server sc (set_announcement_extra_tags tags (sch_transport sc)), Ok tt)
  end.
Definition Server_set_announcement_pricing_tags (tags_json : string) sc : ServerChannel L * result unit FfiError :=
  match parse_tags_json tags_json with
  | Err e => (sc, Err e)
  | Ok tags => (set_server sc (set_announcement_pricing_tags tags (sch_transport sc)), Ok tt)
  end.
Definition Server_announce_event_id w sc : ServerChannel L * result string FfiError :=
  let '(s, res) := server_announce w (sch_transport sc) in (set_server sc s, ffi_result res).
Definition Server_announce w sc : ServerChannel L * result unit FfiError :=
  let '(sc, res) := Server_announce_event_id w sc in (sc, let? _ := res in Ok tt).
Definition Server_publish w (name : string) (kind : ServerPublishListKind) (json : string) sc : result string FfiError :=
  let? values := parse_json_value_array json name in
  ffi_result (publish_list_kind w kind values (sch_transport sc)).
Definition Server_publish_tools w := Server_publish w "tools_json" PublishTools.
Definition Server_publish_resources w := Server_publish w "resources_json" PublishResources.
Definition Server_publish_prompts w := Server_publish w "prompts_json" PublishPrompts.
Definition Server_publish_resource_templates w := Server_publish w "templates_json" PublishResourceTemplates.
Definition Server_delete_announcements w (reason : string) : result unit FfiError :=
  ffi_result (server_delete_announcements w reason).
Definition Server_close w sc : ServerChannel L * result unit FfiError :=
  let nostr := keys_nostr (sch_keys sc) in
  let '(s, res) := Server.close (w_disconnect w) (sch_transport sc) in (set_server sc s, ffi_result res).

(** *** Client *)

Definition client_parts (config : ClientConfig) : ClientConfigParts :=
  mkClientParts (c_relay_urls config) (c_server_pubkey config) (sdk_encryption_mode (c_encryption_mode config))
    (sdk_gift_wrap_mode (c_gift_wrap_mode config)) (c_is_stateless config) (c_timeout_secs config)
    (c_discovery_relay_urls config) (c_fallback_operational_relay_urls config).
Definition Client_new w (keys : Keys) (config : ClientConfig) : call (result (ClientChannel L) FfiError) :=
  ffi_call (open_client w keys (build_sdk_client_config_from_fields (client_parts config))).
(** The number of the send task the call waits for. *)
Definition Client_send (payload_json : string) cc : ClientChannel L * result nat FfiError :=
  match parse_json_rpc payload_json with
  | Err e => (cc, Err e)
  | Ok message => let '(s, task) := start_send (cch_transport cc) message in (set_client_channel cc s, Ok task)
  end.
Definition Client_send_resume (task : nat) cc : option (result unit FfiError) :=
  ffi_result <$> send_result (cch_transport cc) task.
Definition Client_recv := recv_channel (L := L) client_kind message_to_uniffi.
Definition Client_recv_timeout := recv_channel_timeout (L := L) client_kind message_to_uniffi.
Definition Client_recv_try := recv_channel_try (L := L) client_kind message_to_uniffi.
Definition Client_discovered_server_capabilities cc : PeerCapabilities :=
  capabilities_to_uniffi (discovered_server_capabilities (Client.transport (cch_transport cc))).
Definition Client_server_supports_ephemeral_encryption cc : bool :=
  server_supports_ephemeral_encryption (Client.transport (cch_transport cc)).
Definition Client_server_initialize_event_json cc : result (option string) FfiError :=
  match get_server_initialize_event (Client.transport (cch_transport cc)) with
  | Some event => let? json := map_err (mkFfiError CodeSerialization) (event_json event) in Ok (Some json)
  | None => Ok None
  end.
Definition Client_close w cc : ClientChannel L * result unit FfiError :=
  let '(s, res) := Client.close (w_disconnect w) (cch_transport cc) in (set_client_channel cc s, ffi_result res).

(** *** Gateway *)

Definition Gateway_new w (keys : Keys) (config : ServerConfig) : call (result (GatewayChannel L) FfiError) :=
  match build_sdk_server_config_from_fields (server_parts config) with
  | Err e => Returned (Err e)
  | Ok sdk_config => ffi_call (open_gateway max_entries max_pending_payments w keys sdk_config)
  end.
Definition Gateway_recv := recv_channel (L := L) gateway_kind incoming_to_uniffi.
Definition Gateway_recv_timeout := recv_channel_timeout (L := L) gateway_kind incoming_to_uniffi.
Definition Gateway_recv_try := recv_channel_try (L := L) gateway_kind incoming_to_uniffi.
Definition Gateway_send_response w (event_id payload_json : string) gc : GatewayChannel L * result unit FfiError :=
  match parse_json_rpc payload_json with
  | Err e => (gc, Err e)
  | Ok message =>
      let nostr := keys_nostr (gch_keys gc) in
      let '(g, res) := Gateway.send_response (gch_config gc) (w_now w) event_id message (gch_gateway gc) in
      (set_gateway gc g, ffi_result res)
  end.
Definition Gateway_announce_event_id w gc : GatewayChannel L * result string FfiError :=
  let '(g, _, res) := Gateway.announce (w_publish w) (gch_gateway gc) in (set_gateway gc g, ffi_result res).
Definition Gateway_announce w gc : GatewayChannel L * result unit FfiError :=
  let '(gc, res) := Gateway_announce_event_id w gc in (gc, let? _ := res in Ok tt).
Definition Gateway_is_active gc : bool := Gateway.is_active (gch_gateway gc).
Definition Gateway_stop w gc : GatewayChannel L * result unit FfiError :=
  let nostr := keys_nostr (gch_keys gc) in
  let '(g, res) := Gateway.stop (w_disconnect w) (gch_gateway gc) in (set_gateway gc g, ffi_result res).

(** *** Proxy *)

Definition Proxy_new w (keys : Keys) (config : ClientConfig) : call (result (ProxyChannel L) FfiError) :=
  ffi_call (open_proxy w keys (build_sdk_client_config_from_fields (client_parts config))).
Definition Proxy_send (payload_json : string) pc : ProxyChannel L * result nat FfiError :=
  match parse_json_rpc payload_json with
  | Err e => (pc, Err e)
  | Ok message =>
      (set_proxy pc (Proxy.send message (pch_proxy pc)),
       Ok (length (c_tasks (Client.transport (fa_transport (pch_proxy pc))))))
  end.
Definition Proxy_send_resume (task : nat) pc : option (result unit FfiError) :=
  ffi_result <$> send_result (fa_transport (pch_proxy pc)) task.
Definition Proxy_recv := recv_channel (L := L) proxy_kind message_to_uniffi.
Definition Proxy_recv_timeout := recv_channel_timeout (L := L) proxy_kind message_to_uniffi.
Definition Proxy_recv_try := recv_channel_try (L := L) proxy_kind message_to_uniffi.
Definition Proxy_is_active pc : bool := Proxy.is_active (pch_proxy pc).
Definition Proxy_stop w pc : ProxyChannel L * result unit FfiError :=
  let nostr := keys_nostr (pch_keys pc) in
  let '(p, res) := Proxy.stop (w_disconnect w) (pch_proxy pc) in (set_proxy pc p, ffi_result res).

(** *** Relay pool and discovery *)

Context `{!FfiNostr}.

Definition RelayPool_new : result Discovery.Client FfiError := ffi_result RelayPool.new.
Definition RelayPool_connect (relay_urls : list string) (pool : Discovery.Client)
  : Discovery.Client * result unit FfiError :=
  let '(pool, res) := pool_connect pool relay_urls in (pool, ffi_result res).
Definition RelayPool_disconnect (pool : Discovery.Client) : Discovery.Client * result unit FfiError :=
  (client_disconnect pool, Ok tt).

Definition announcement_to_uniffi (a : Discovery.ServerAnnouncement) : ServerAnnouncement :=
  let info := sa_server_info a in
  mkAnnouncement (sa_pubkey a) (si_name info) (si_version info) (si_picture info) (si_about info) (si_website info)
    (sa_event_id a).
Definition Discovery_discover_servers (pool : Discovery.Client) : result (list ServerAnnouncement) FfiError :=
  let? announcements := ffi_result (discover_servers pool) in Ok (map announcement_to_uniffi announcements).
(** The records of tools and profiles have the fields of those of [discovery.rs]. *)
Definition Discovery_discover_tools (pool : Discovery.Client) (provider_pubkey : string)
    (provider_display_name : option string) : result (list DiscoveredToolRecord) FfiError :=
  ffi_result (FfiDiscovery.discover_tools pool provider_pubkey provider_display_name).
Definition Discovery_discover_all_tools (pool : Discovery.Client) (relay_urls : list string)
  : result (list DiscoveredToolRecord) FfiError :=
  ffi_result (discover_all_tools pool relay_urls).
Definition Discovery_fetch_provider_profiles (pool : Discovery.Client) (provider_pubkeys relay_urls : list string)
  : result (list ProviderProfileRecord) FfiError :=
  let? profiles := ffi_result (fetch_provider_profiles pool provider_pubkeys relay_urls) in
  Ok (map_to_list profiles).*2.
Definition uniffi_pubkey_hex_to_npub (pubkey_hex : string) : result string FfiError :=
  ffi_result (pubkey_hex_to_npub pubkey_hex).
End objects.
End Uniffi.
