(* ===== verification/FfiInstances.v ===== *)
(** * A concrete environment of the foreign interface

    An allocator, key pairs and relays that answer, for the concrete runs of the files
    that follow. *)

From S2P Require Import Prelude Json CoreTypes OversizedFrame OversizedCodec OversizedReceiver Instances Lru Authorization RouteStore SessionStore PaymentTypes ServerTasks BaseTransport Announcements Discovery ServerState ClientState ClientInbound Lifecycle FfiTypes FfiChannel FfiDiscovery.

(** An allocator that goes on after the highest block in use. *)
Definition top (m : memory) : ptr := map_fold (λ p _ r, Z.max p r) 0 m.
#[export] Instance bump_malloc : Malloc := {| malloc m := top m + 1; dangling := -1 |}.

Lemma top_bounds m : 0 <= top m ∧ ∀ p, is_Some (m !! p) → p <= top m.
Proof.
  unfold top. apply (map_fold_weak_ind (λ r (m : memory), 0 <= r ∧ ∀ p, is_Some (m !! p) → p <= r)).
  - split; [done|]. intros p. rewrite lookup_empty. by intros [].
  - intros p b m' r Hp [H0 Hr]. split; [lia|]. intros q. destruct (decide (q = p)) as [->|]; [lia|].
    rewrite lookup_insert_ne by done. intros ?%Hr. lia.
Qed.
#[export] Instance bump_malloc_laws : MallocLaws.
Proof.
  split; [intros m; cbn..|done].
  - apply eq_None_not_Some. intros Hs%top_bounds. lia.
  - destruct (top_bounds m) as [? _]. unfold NULL. lia.
  - destruct (top_bounds m) as [? _]. lia.
Qed.

#[export] Instance demo_ffi_text : FfiText := {|
  utf8_error s := s;
  serde_error what s := what +:+ s;
  profile_from_str s := Err s;
  tag_parse parts := match parts with [] => Err "empty tag" | _ => Ok parts end;
|}.
(** A key pair is its secret; its relays are [demo_nostr]. *)
#[export] Instance demo_keychain : Keychain := {|
  Keys := string;
  keys_generate n := "key";
  keys_parse s := if str_is_empty s then Err "empty key" else Ok s;
  public_key_hex s := "pub" +:+ s;
  secret_key_hex s := s;
  keys_nostr _ := demo_nostr (λ _, false);
  event_json e := Ok (ev_content e);
|}.
#[export] Instance demo_ffi_client : NostrClient := demo_client [].
#[export] Instance demo_ffi_nostr : FfiNostr := {|
  client_fetch_metadata _ _ _ := Ok [];
  client_disconnect c := c;
  nip44_encrypt k pk s := Ok s;
  hex_to_pubkey s := Ok s;
  to_bech32 s := Ok ("npub1" +:+ s);
|}.

Definition demo_world : world :=
  mkWorld 1 0 (Server.mkStartAnswers (Ok tt) (Ok "serve") (Ok tt)) demo_start demo_publish (Ok "serve") (λ _ _, Ok [])
    (λ _ _, mkBuilder 5 "" []) (Ok tt).

(** A server that listens on one relay, and a client of it. *)
Definition demo_server_fields : FfiServerConfig :=
  mkFfiServerConfig (Some [Some "wss://r"]) 1 0 0 false None None None None None None 0 300 60 None 0 100 30 None 0 None 0
    false None.
Definition demo_client_fields : FfiClientConfig :=
  mkFfiClientConfig (Some [Some "wss://r"]) 1 (Some "serve") 0 0 false 30 None 0 None 0.
