(* ===== verification/FfiCalls.v ===== *)
(** * The C interface as a machine

    The functions of [channel.rs] and [types.rs] that take a handle or an error
    variable, as the alphabet of one machine, and what holds for all of them: the error
    contract of [headers/contextvm.h], the ownership of what is handed out, and the life
    of handles.  The other ten functions ([cvm_version], [cvm_error_code],
    [cvm_error_message] and the seven that free memory) have neither, and are functions
    of the heap alone, in [FfiTypes]. *)

From S2P Require Import Prelude Json CoreTypes OversizedFrame OversizedCodec OversizedReceiver Instances Lru Authorization RouteStore SessionStore OpenStreamFrame OpenStreamSession OpenStreamRegistry OpenStreamWriter PaymentTypes ServerTasks ServerPayments BaseTransport Announcements Discovery ServerNegotiation ServerState ServerOutbound ServerStreams ServerInbound ClientPayments ClientState ClientOutbound ClientInbound Lifecycle FfiTypes FfiChannel FfiDiscovery FfiInstances.

(** ** Calls *)

(** A send that waits goes on as a call of its own, [ClientSendResume] or
    [ProxySendResume], with the channel it still holds. *)
Inductive c_call `{Keychain} {L : Type → Type} : Type :=
| KeysGenerate
| KeysFromSecretKey (sk : c_str)
| KeysPublicKey (h : Z)
| KeysSecretKey (h : Z)
| KeysFree (h : Z)
| PoolNew (keys : Z)
| PoolConnect (h : Z) (urls : c_str_array) (count : nat)
| PoolDisconnect (h : Z)
| PoolFree (h : Z)
| DiscoverServers (h : Z) (urls : c_str_array) (count : nat) (out_count : bool)
| DiscoverTools (h : Z) (provider name : c_str) (urls : c_str_array) (count : nat) (out_count : bool)
| DiscoverAllTools (h : Z) (urls : c_str_array) (count : nat) (out_count : bool)
| FetchProviderProfiles (h : Z) (keys : c_str_array) (keys_count : nat) (urls : c_str_array) (count : nat) (out_count : bool)
| EncryptNip44 (keys : Z) (recipient plaintext : c_str)
| DecryptNip44 (keys : Z) (sender ciphertext : c_str)
| HexToNpub (hex : c_str)
| ServerNew (keys : Z) (config : FfiServerConfig)
| ServerRecv (h : Z) (out : bool)
| ServerRecvTimeout (elapsed : bool) (h : Z) (out : bool)
| ServerSendResponse (h : Z) (event_id payload : c_str)
| ServerSendNotification (h : Z) (client payload correlated : c_str)
| ServerBroadcast (h : Z) (payload : c_str)
| ServerSetExtraTags (h : Z) (tags : c_str)
| ServerSetPricingTags (h : Z) (tags : c_str)
| ServerAnnounce (h : Z)
| ServerAnnounceEventId (h : Z)
| ServerPublishTools (h : Z) (json : c_str)
| ServerPublishResources (h : Z) (json : c_str)
| ServerPublishPrompts (h : Z) (json : c_str)
| ServerPublishResourceTemplates (h : Z) (json : c_str)
| ServerDeleteAnnouncements (h : Z) (reason : c_str)
| ServerClose (h : Z)
| ClientNew (keys : Z) (config : FfiClientConfig)
| ClientSend (h : Z) (payload : c_str)
| ClientSendResume (ch : ClientChannel L) (task : nat)
| ClientRecv (h : Z) (out : bool)
| ClientRecvTimeout (elapsed : bool) (h : Z) (out : bool)
| ClientCapabilities (h : Z) (out : bool)
| ClientSupportsEphemeral (h : Z)
| ClientInitializeEvent (h : Z)
| ClientClose (h : Z)
| GatewayNew (keys : Z) (config : FfiServerConfig)
| GatewayRecv (h : Z) (out : bool)
| GatewayRecvTimeout (elapsed : bool) (h : Z) (out : bool)
| GatewaySendResponse (h : Z) (event_id payload : c_str)
| GatewayAnnounce (h : Z)
| GatewayAnnounceEventId (h : Z)
| GatewayIsActive (h : Z)
| GatewayStop (h : Z)
| ProxyNew (keys : Z) (config : FfiClientConfig)
| ProxySend (h : Z) (payload : c_str)
| ProxySendResume (ch : ProxyChannel L) (task : nat)
| ProxyRecv (h : Z) (out : bool)
| ProxyRecvTimeout (elapsed : bool) (h : Z) (out : bool)
| ProxyIsActive (h : Z)
| ProxyStop (h : Z).
Arguments c_call {_} L.

(** What the caller gets: [Received] is the struct written to the out-parameter, by its
    strings; [Answer] is the value of a query. *)
Inductive c_result : Type :=
| Handle (h : Z)
| Flag (ok : bool)
| Received (strings : option (list ptr)) (ok : bool)
| Text (p : ptr)
| OptionalText (p : ptr)
| Array (p : ptr) (count : option nat)
| Answer (b : bool)
| Capabilities (caps : option FfiPeerCapabilities) (ok : bool)
| Awaits (task : nat)
| Nothing
| Blocks.

Section machine.
Context `{Keychain} `{NostrClient} `{!FfiNostr} `{Malloc} `{FfiText} `{Lru L} `{SerdeJson} `{JsonCanon} `{Sha256}.
Variables max_entries max_pending_payments : Z.
(** The unused capacity of a collected vector. *)
Variable spare : nat.
Implicit Types (σ : Ffi L) (w : world) (c : c_call L).

(** Results of each shape. *)
Definition as_handle (r : Ffi L * Z) : Ffi L * c_result := (r.1, Handle r.2).
Definition as_flag (r : Ffi L * bool) : Ffi L * c_result := (r.1, Flag r.2).
Definition as_answer (r : Ffi L * bool) : Ffi L * c_result := (r.1, Answer r.2).
Definition as_text (r : Ffi L * ptr) : Ffi L * c_result := (r.1, Text r.2).
Definition as_array (r : Ffi L * (ptr * option nat)) : Ffi L * c_result := (r.1, Array r.2.1 r.2.2).
Definition as_received {O} (strings : O → list ptr) σ (r : option (Ffi L * option O * bool)) : Ffi L * c_result :=
  match r with
  | None => (σ, Blocks)
  | Some (σ, o, ok) => (σ, Received (strings <$> o) ok)
  end.
Definition as_send (r : Ffi L * send_call) : Ffi L * c_result :=
  (r.1, match r.2 with SendEnded ok => Flag ok | SendAwaits task => Awaits task end).
Definition as_resumed (task : nat) σ (r : option (Ffi L * bool)) : Ffi L * c_result :=
  match r with None => (σ, Awaits task) | Some r => as_flag r end.
Definition as_new (r : call (Ffi L * Z)) : call (Ffi L * c_result) :=
  match r with Panicked => Panicked | Returned r => Returned (as_handle r) end.

Definition c_step w (error : option nat) σ c : call (Ffi L * c_result) :=
  match c with
  | ServerNew keys config => as_new (cvm_server_ch_new max_entries max_pending_payments w keys config error σ)
  | ClientNew keys config => as_new (cvm_client_ch_new w keys config error σ)
  | GatewayNew keys config => as_new (cvm_gateway_ch_new max_entries max_pending_payments w keys config error σ)
  | ProxyNew keys config => as_new (cvm_proxy_ch_new w keys config error σ)
  | KeysGenerate => Returned (as_handle (cvm_keys_generate w σ))
  | KeysFromSecretKey sk => Returned (as_handle (cvm_keys_from_secret_key sk error σ))
  | KeysPublicKey h => Returned (as_text (cvm_keys_public_key h error σ))
  | KeysSecretKey h => Returned (as_text (cvm_keys_secret_key h error σ))
  | KeysFree h => Returned (cvm_keys_free h σ, Nothing)
  | PoolNew keys => Returned (as_handle (cvm_relay_pool_new keys error σ))
  | PoolConnect h urls count => Returned (as_flag (cvm_relay_pool_connect h urls count error σ))
  | PoolDisconnect h => Returned (as_flag (cvm_relay_pool_disconnect h error σ))
  | PoolFree h => Returned (cvm_relay_pool_free h σ, Nothing)
  | DiscoverServers h urls count out => Returned (as_array (cvm_discover_servers spare h urls count out error σ))
  | DiscoverTools h provider name urls count out =>
      Returned (as_array (cvm_discover_tools spare h provider name urls count out error σ))
  | DiscoverAllTools h urls count out => Returned (as_array (cvm_discover_all_tools spare h urls count out error σ))
  | FetchProviderProfiles h keys kcount urls count out =>
      Returned (as_array (cvm_fetch_provider_profiles spare h keys kcount urls count out error σ))
  | EncryptNip44 keys recipient text => Returned (as_text (cvm_encrypt_nip44 keys recipient text error σ))
  | DecryptNip44 keys sender text => Returned (as_text (cvm_decrypt_nip44 keys sender text error σ))
  | HexToNpub hex => Returned (as_text (cvm_pubkey_hex_to_npub hex error σ))
  | ServerRecv h out => Returned (as_received incoming_strings σ (cvm_server_ch_recv h out error σ))
  | ServerRecvTimeout e h out => Returned (as_received incoming_strings σ (cvm_server_ch_recv_timeout e h out error σ))
  | ServerSendResponse h eid payload => Returned (as_flag (cvm_server_ch_send_response w h eid payload error σ))
  | ServerSendNotification h client payload correlated =>
      Returned (as_flag (cvm_server_ch_send_notification h client payload correlated error σ))
  | ServerBroadcast h payload => Returned (as_flag (cvm_server_ch_broadcast_notification h payload error σ))
  | ServerSetExtraTags h tags => Returned (as_flag (cvm_server_ch_set_announcement_extra_tags h tags error σ))
  | ServerSetPricingTags h tags => Returned (as_flag (cvm_server_ch_set_announcement_pricing_tags h tags error σ))
  | ServerAnnounce h => Returned (as_flag (cvm_server_ch_announce w h error σ))
  | ServerAnnounceEventId h => Returned (as_text (cvm_server_ch_announce_event_id w h error σ))
  | ServerPublishTools h json => Returned (as_text (cvm_server_ch_publish_tools w h json error σ))
  | ServerPublishResources h json => Returned (as_text (cvm_server_ch_publish_resources w h json error σ))
  | ServerPublishPrompts h json => Returned (as_text (cvm_server_ch_publish_prompts w h json error σ))
  | ServerPublishResourceTemplates h json =>
      Returned (as_text (cvm_server_ch_publish_resource_templates w h json error σ))
  | ServerDeleteAnnouncements h reason => Returned (as_flag (cvm_server_ch_delete_announcements w h reason error σ))
  | ServerClose h => Returned (as_flag (cvm_server_ch_close w h error σ))
  | ClientSend h payload => Returned (as_send (cvm_client_ch_send h payload error σ))
  | ClientSendResume ch task => Returned (as_resumed task σ (cvm_client_ch_send_resume ch task error σ))
  | ClientRecv h out => Returned (as_received message_strings σ (cvm_client_ch_recv h out error σ))
  | ClientRecvTimeout e h out => Returned (as_received message_strings σ (cvm_client_ch_recv_timeout e h out error σ))
  | ClientCapabilities h out =>
      let '(σ, (caps, ok)) := cvm_client_ch_discovered_server_capabilities h out error σ in
      Returned (σ, Capabilities caps ok)
  | ClientSupportsEphemeral h => Returned (as_answer (cvm_client_ch_server_supports_ephemeral_encryption h error σ))
  | ClientInitializeEvent h =>
      let '(σ, p) := cvm_client_ch_server_initialize_event_json h error σ in Returned (σ, OptionalText p)
  | ClientClose h => Returned (as_flag (cvm_client_ch_close w h error σ))
  | GatewayRecv h out => Returned (as_received incoming_strings σ (cvm_gateway_ch_recv h out error σ))
  | GatewayRecvTimeout e h out => Returned (as_received incoming_strings σ (cvm_gateway_ch_recv_timeout e h out error σ))
  | GatewaySendResponse h eid payload => Returned (as_flag (cvm_gateway_ch_send_response w h eid payload error σ))
  | GatewayAnnounce h => Returned (as_flag (cvm_gateway_ch_announce w h error σ))
  | GatewayAnnounceEventId h => Returned (as_text (cvm_gateway_ch_announce_event_id w h error σ))
  | GatewayIsActive h => Returned (as_answer (cvm_gateway_ch_is_active h error σ))
  | GatewayStop h => Returned (as_flag (cvm_gateway_ch_stop w h error σ))
  | ProxySend h payload => Returned (as_send (cvm_proxy_ch_send h payload error σ))
  | ProxySendResume ch task => Returned (as_resumed task σ (cvm_proxy_ch_send_resume ch task error σ))
  | ProxyRecv h out => Returned (as_received message_strings σ (cvm_proxy_ch_recv h out error σ))
  | ProxyRecvTimeout e h out => Returned (as_received message_strings σ (cvm_proxy_ch_recv_timeout e h out error σ))
  | ProxyIsActive h => Returned (as_answer (cvm_proxy_ch_is_active h error σ))
  | ProxyStop h => Returned (as_flag (cvm_proxy_ch_stop w h error σ))
  end.

(** *** The error contract *)

(** The caller's variable points to a new error object and nothing else was
    allocated; without a variable, nothing was. *)
Definition reported (error : option nat) σ σ' : Prop :=
  match error with
  | None => f_mem σ' = f_mem σ ∧ f_vars σ' = f_vars σ
  | Some v =>
      ∃ p e, p ≠ NULL ∧ f_mem σ !! p = None ∧ err_code e ≠ CodeOk ∧
        f_mem σ' = <[p := ErrorBlock e]> (f_mem σ) ∧ f_vars σ' = <[v := p]> (f_vars σ)
  end.
(** Nothing was allocated and no variable written. *)
Definition quiet σ σ' : Prop := f_mem σ' = f_mem σ ∧ f_vars σ' = f_vars σ.
(** One string was allocated, at [p]. *)
Definition gives_string p σ σ' : Prop :=
  p ≠ NULL ∧ f_mem σ !! p = None ∧ (∃ s, f_mem σ' = <[p := CStringBlock s]> (f_mem σ)) ∧ f_vars σ' = f_vars σ.
(** The strings [ps] were allocated and nothing else. *)
Definition gives_strings ps σ σ' : Prop :=
  f_mem σ ⊆ f_mem σ' ∧ free_strings ps (f_mem σ') = Some (f_mem σ) ∧ f_vars σ' = f_vars σ.
(** An array of [count] structs with their strings was allocated, at [p], and nothing
    else; a vector without a buffer has none, and its pointer dangles. *)
Definition gives_array p (count : option nat) σ σ' : Prop :=
  p ≠ NULL ∧ f_vars σ' = f_vars σ ∧
  (p = dangling ∧ f_mem σ' = f_mem σ ∧ (∀ n, count = Some n → n = 0%nat) ∨
   ∃ capacity a m, f_mem σ' = <[p := ArrayBlock capacity a]> m ∧ m !! p = None ∧ f_mem σ ⊆ m ∧
     free_strings (array_strings a) m = Some (f_mem σ) ∧ (∀ n, count = Some n → n = array_length a)).

(** Whether a query fails: its value does not say so.  The event of a client that has
    not seen one is [NULL] without an error. *)
Definition query_fails σ c : bool :=
  match c with
  | ClientSupportsEphemeral h => negb (bool_decide (is_Some (get_object as_client h σ)))
  | GatewayIsActive h => negb (bool_decide (is_Some (get_object as_gateway h σ)))
  | ProxyIsActive h => negb (bool_decide (is_Some (get_object as_proxy h σ)))
  | ClientInitializeEvent h =>
      match get_object as_client h σ with
      | None => true
      | Some ch =>
          match get_server_initialize_event (Client.transport (cch_transport ch)) with
          | None => false
          | Some event => match event_json event with Ok _ => false | Err _ => true end
          end
      end
  | _ => false
  end.

(** The result of a call that failed; [query] is whether a query did. *)
Definition failed (query : bool) (r : c_result) : bool :=
  match r with
  | Handle h => h =? 0
  | Flag ok | Received _ ok | Capabilities _ ok => negb ok
  | Text p | Array p _ => p =? NULL
  | OptionalText _ | Answer _ => query
  | Awaits _ | Nothing | Blocks => false
  end.
(** A failed call hands out nothing. *)
Definition empty_handed (r : c_result) : Prop :=
  match r with
  | OptionalText p => p = NULL
  | Answer b => b = false
  | Received strings _ => strings = None
  | Capabilities caps _ => caps = None
  | Array _ count => count = None
  | _ => True
  end.
(** What was allocated is what was handed out. *)
Definition hands_out σ σ' (r : c_result) : Prop :=
  match r with
  | Received (Some ps) _ => gives_strings ps σ σ'
  | Text p => gives_string p σ σ'
  | OptionalText p => if p =? NULL then quiet σ σ' else gives_string p σ σ'
  | Array p count => gives_array p count σ σ'
  | _ => quiet σ σ'
  end.
Definition contract (query : bool) (error : option nat) σ σ' (r : c_result) : Prop :=
  if failed query r then reported error σ σ' ∧ empty_handed r else hands_out σ σ' r.
End machine.

(** ** The contract is kept *)

(** Functions that refuse with an error code other than [Ok]. *)
Definition refuses {A} (r : result A FfiError) : Prop := ∀ e, r = Err e → err_code e ≠ CodeOk.

Lemma refuses_ok {A} (a : A) : refuses (Ok a).
Proof. by intros e [=]. Qed.
Lemma refuses_bind {A B} (r : result A FfiError) (k : A → result B FfiError) :
  refuses r → (∀ a, refuses (k a)) → refuses (let? a := r in k a).
Proof. intros Hr Hk e [He|(a & _ & He)]%result_bind_Err; [by apply Hr|by apply (Hk a)]. Qed.
Lemma refuses_err {A} c msg : c ≠ CodeOk → refuses (A := A) (Err (mkFfiError c msg)).
Proof. by intros Hc e [= <-]. Qed.
Create HintDb ffi.
#[export] Hint Resolve refuses_ok refuses_bind : ffi.
#[export] Hint Extern 2 (refuses (Err _)) => apply refuses_err; discriminate : ffi.
#[export] Hint Extern 2 (refuses (validation _)) => apply refuses_err; discriminate : ffi.

Section refusals.
Context `{FfiText}.

Lemma strings_refuse name i l : refuses (strings_checked name i l).
Proof. revert i. induction l as [|[s|] l IH]; intros i; cbn [strings_checked]; [|case_match|]; auto with ffi. Qed.
Lemma array_refuses p count name : refuses (c_str_array_to_vec_checked p count name).
Proof.
  unfold c_str_array_to_vec_checked. case_bool_decide; [auto with ffi|].
  destruct p; [apply strings_refuse|auto with ffi].
Qed.
Lemma string_refuses p name : refuses (c_str_to_string_checked p name).
Proof. unfold c_str_to_string_checked. repeat case_match; auto with ffi. Qed.
Lemma optional_refuses p name : refuses (optional_c_str_to_string_checked p name).
Proof. unfold optional_c_str_to_string_checked. case_match; auto using string_refuses with ffi. Qed.
Lemma exclusions_refuse p count : refuses (ffi_capability_exclusions_to_parts p count).
Proof.
  unfold ffi_capability_exclusions_to_parts. case_bool_decide; [auto with ffi|].
  destruct p as [l|]; [|auto with ffi]. generalize (take count l). clear. intros l.
  induction l; cbn; auto using string_refuses, optional_refuses with ffi.
Qed.
Lemma modes_refuse enc gw :
  refuses (ffi_encryption_mode_to_sdk enc) ∧ refuses (ffi_gift_wrap_mode_to_sdk gw).
Proof.
  unfold ffi_encryption_mode_to_sdk, ffi_gift_wrap_mode_to_sdk.
  split; repeat case_match; auto with ffi.
Qed.
Lemma profile_refuses json : refuses (parse_profile_metadata_json json).
Proof. unfold parse_profile_metadata_json. repeat case_match; auto with ffi. Qed.
Lemma tags_refuse parts : refuses (parse_tags parts).
Proof.
  induction parts as [|tag parts IH]; cbn; [auto with ffi|]. apply refuses_bind; [|auto with ffi].
  destruct (tag_parse tag); cbn; auto with ffi.
Qed.
Lemma server_config_refuses config : refuses (build_sdk_server_config config).
Proof.
  unfold build_sdk_server_config. destruct (modes_refuse (fsc_encryption_mode config) (fsc_gift_wrap_mode config)).
  repeat (apply refuses_bind; [auto using array_refuses, exclusions_refuse, optional_refuses, profile_refuses|intros]).
  auto with ffi.
Qed.
Lemma client_config_refuses config : refuses (build_sdk_client_config config).
Proof.
  unfold build_sdk_client_config. destruct (modes_refuse (fcc_encryption_mode config) (fcc_gift_wrap_mode config)).
  repeat (apply refuses_bind; [auto using array_refuses, string_refuses|intros]). auto with ffi.
Qed.
End refusals.

Lemma ffi_error_code e : err_code (ffi_error e) ≠ CodeOk.
Proof. by destruct e. Qed.

Section contract.
Context `{Keychain} `{NostrClient} `{!FfiNostr} `{MallocLaws} `{FfiText} `{Lru L} `{SerdeJson} `{JsonCanon} `{Sha256}.
(** Whether a query fails. *)
Variable query : bool.
Implicit Types (σ : Ffi L) (w : world) (c : c_call L).

Lemma nothing_written_refl σ : quiet σ σ.
Proof. done. Qed.
Lemma quiet_put σ h o : quiet σ (put h o σ).
Proof. done. Qed.
Lemma nothing_written_trans σ1 σ2 σ3 : quiet σ1 σ2 → quiet σ2 σ3 → quiet σ1 σ3.
Proof. unfold quiet. intros [-> ->] [-> ->]. done. Qed.

Lemma set_error_reported error e σ σ1 :
  err_code e ≠ CodeOk → quiet σ σ1 → reported error σ (set_error error e σ1).
Proof.
  intros He [Hm Hv]. destruct error as [v|]; cbn; [|done].
  exists (malloc (f_mem σ1)), e. rewrite <- Hm, <- Hv. split_and!; auto using malloc_fresh, malloc_not_null.
Qed.

Lemma invalid_reported error name σ : reported error σ (set_invalid_handle_error error name σ).
Proof. by apply set_error_reported. Qed.
Lemma null_reported error name σ : reported error σ (set_null_arg_error error name σ).
Proof. by apply set_error_reported. Qed.

Lemma return_string_gives s σ σ1 :
  quiet σ σ1 → let '(σ', p) := return_string s σ1 in (p =? NULL) = false ∧ gives_string p σ σ'.
Proof.
  intros [Hm Hv]. cbn. pose proof (malloc_not_null (f_mem σ1)) as Hn. split; [by apply Z.eqb_neq|].
  unfold gives_string. cbn. rewrite <- Hm, <- Hv. split_and!; eauto using malloc_fresh.
Qed.

Lemma finish_contract {A} error (res : result A Error) σ σ1 :
  quiet σ σ1 → contract query error σ (finish error res σ1).1 (Flag (finish error res σ1).2).
Proof. intros Hq. destruct res; [done|]. split; [|done]. apply set_error_reported; [apply ffi_error_code|done]. Qed.
Lemma finish_id_contract error (res : result string Error) σ σ1 :
  quiet σ σ1 → contract query error σ (finish_id error res σ1).1 (Text (finish_id error res σ1).2).
Proof.
  intros Hq. destruct res as [s|e]; cbn [finish_id]; [|split; [apply set_error_reported; [apply ffi_error_code|done]|done]].
  pose proof (return_string_gives s σ σ1 Hq) as Hg. destruct (return_string s σ1). unfold contract. cbn.
  by destruct Hg as [-> ?].
Qed.

(** Results that report an error. *)
Definition fails {B} (shape : B → c_result) (bad : B) : Prop :=
  ∀ error σ σ', reported error σ σ' → contract query error σ σ' (shape bad).

Lemma on_channel_contract {C B} (shape : B → c_result) (as_c : object L → option C) name (bad : B) h error f σ :
  fails shape bad → (∀ ch, contract query error σ (f ch).1 (shape (f ch).2)) →
  let r := on_channel as_c name bad h error f σ in contract query error σ r.1 (shape r.2).
Proof.
  intros Hbad Hf. cbn. unfold on_channel. destruct (get_object as_c h σ) as [ch|]; [apply Hf|].
  cbn. apply Hbad, invalid_reported.
Qed.

(** A parser that fails has reported why. *)
Lemma parse_message_reported payload error σ σ' :
  parse_json_rpc_message payload error σ = Err σ' → reported error σ σ'.
Proof. unfold parse_json_rpc_message. repeat case_match; try done; intros [= <-]; by apply set_error_reported. Qed.
Lemma parse_values_reported payload name error σ σ' :
  parse_json_value_array payload name error σ = Err σ' → reported error σ σ'.
Proof.
  unfold parse_json_value_array. repeat case_match; try done; intros [= <-]; [by apply set_error_reported|].
  apply null_reported.
Qed.
Lemma parse_tags_reported tags error σ σ' : parse_tags_json tags error σ = Err σ' → reported error σ σ'.
Proof.
  unfold parse_tags_json. destruct (c_str_to_string tags) as [s|]; [|intros [= <-]; apply null_reported].
  destruct (string_lists_from_str s) as [parts|]; [|intros [= <-]; by apply set_error_reported].
  pose proof (tags_refuse parts) as Hr. destruct (parse_tags parts) as [ts|e]; cbn; [done|]. intros [= <-].
  apply set_error_reported; [by apply Hr|done].
Qed.
Lemma get_keys_reported h error σ σ' : get_keys h error σ = Err σ' → reported error σ σ'.
Proof. unfold get_keys. case_match; [done|]. intros [= <-]. by apply set_error_reported. Qed.

(** *** Receiving *)

Lemma deliver_contract {C A O} (k : channel_kind L C A) (write : A → memory → O * memory) (strings : O → list ptr)
    (texts : A → list (option string)) h ch a out error σ :
  (∀ a m, let '(o, m') := write a m in alloc_strings (texts a) m = (strings o, m')) →
  let r := as_received strings σ (Some (deliver k write h ch a out σ)) in contract query error σ r.1 r.2.
Proof.
  intros Hw. unfold deliver. destruct out; [|done]. cbn. specialize (Hw a (f_mem σ)).
  destruct (write a (f_mem σ)) as [o m']. pose proof (alloc_strings_spec (texts a) (f_mem σ)) as Hs. rewrite Hw in Hs.
  destruct Hs as (_ & Hsub & Hfree). cbn. by split_and!.
Qed.

Lemma recv_contract {C A O} (k : channel_kind L C A) (write : A → memory → O * memory) (strings : O → list ptr)
    (texts : A → list (option string)) h out error σ :
  (∀ a m, let '(o, m') := write a m in alloc_strings (texts a) m = (strings o, m')) →
  let r := as_received strings σ (ch_recv k write h out error σ) in contract query error σ r.1 r.2.
Proof.
  intros Hw. unfold ch_recv. destruct (get_object (k_as k) h σ) as [ch|]; [|split; [apply invalid_reported|done]].
  destruct (k_poll k ch) as [a| |]; [by eapply deliver_contract|split; [by apply set_error_reported|done]|done].
Qed.
Lemma recv_timeout_contract {C A O} (k : channel_kind L C A) (write : A → memory → O * memory)
    (strings : O → list ptr) (texts : A → list (option string)) elapsed h out error σ :
  (∀ a m, let '(o, m') := write a m in alloc_strings (texts a) m = (strings o, m')) →
  let r := as_received strings σ (ch_recv_timeout k write elapsed h out error σ) in contract query error σ r.1 r.2.
Proof.
  intros Hw. unfold ch_recv_timeout. destruct (get_object (k_as k) h σ) as [ch|]; [|split; [apply invalid_reported|done]].
  destruct (k_poll k ch) as [a| |]; [by eapply deliver_contract|split; [by apply set_error_reported|done]|].
  destruct elapsed; [split; [by apply set_error_reported|done]|done].
Qed.

(** *** Arrays *)

Lemma map_alloc_strings {A B} (f : A → memory → B * memory) (texts : A → list (option string)) (strings : B → list ptr) l m :
  (∀ a m, let '(b, m') := f a m in alloc_strings (texts a) m = (strings b, m')) →
  let '(bs, m') := map_alloc f l m in alloc_strings (l ≫= texts) m = (bs ≫= strings, m').
Proof.
  intros Hf. revert m. induction l as [|a l IH]; intros m; [done|].
  cbn [map_alloc]. specialize (Hf a m). destruct (f a m) as [b m1]. specialize (IH m1).
  destruct (map_alloc f l m1) as [bs m2]. change ((a :: l) ≫= texts) with (texts a ++ (l ≫= texts)).
  by rewrite alloc_strings_app, Hf, IH.
Qed.

Lemma map_alloc_length {A B} (f : A → memory → B * memory) l m : length (map_alloc f l m).1 = length l.
Proof.
  revert m. induction l as [|a l IH]; intros m; [done|]. cbn. destruct (f a m) as [b m1]. specialize (IH m1).
  destruct (map_alloc f l m1). cbn in *. by rewrite IH.
Qed.

Lemma announcement_to_ffi_alloc a m :
  let info := sa_server_info a in
  let '(b, m') := announcement_to_ffi a m in
  alloc_strings [Some (sa_pubkey a); si_name info; si_version info; si_picture info; si_about info; si_website info;
    Some (sa_event_id a)] m = (announcement_strings b, m').
Proof.
  unfold announcement_to_ffi. cbn [alloc_strings opt_string_to_c].
  repeat match goal with |- context [string_to_c ?s ?m] => destruct (string_to_c s m) end.
  repeat match goal with |- context [opt_string_to_c ?s ?m] => destruct (opt_string_to_c s m) end.
  by destruct (string_to_c _ _).
Qed.
Lemma tool_to_ffi_alloc t m :
  let '(b, m') := tool_to_ffi t m in
  alloc_strings [Some (dt_provider_pubkey t); dt_provider_display_name t; dt_provider_name t; dt_provider_about t;
    dt_provider_picture t; dt_provider_nip05 t; Some (dt_tool_name t); Some (dt_description t); Some (dt_schema_json t)] m
  = (tool_strings b, m').
Proof.
  unfold tool_to_ffi. cbn [alloc_strings opt_string_to_c].
  repeat match goal with |- context [string_to_c ?s ?m] => destruct (string_to_c s m) end.
  repeat match goal with |- context [opt_string_to_c ?s ?m] => destruct (opt_string_to_c s m) end.
  repeat match goal with |- context [string_to_c ?s ?m] => destruct (string_to_c s m) end. done.
Qed.
Lemma profile_to_ffi_alloc p m :
  let '(b, m') := profile_to_ffi p m in
  alloc_strings [Some (pr_pubkey p); pr_name p; pr_about p; pr_picture p; pr_nip05 p] m = (profile_strings b, m').
Proof.
  unfold profile_to_ffi. cbn [alloc_strings opt_string_to_c].
  repeat match goal with |- context [string_to_c ?s ?m] => destruct (string_to_c s m) end.
  repeat match goal with |- context [opt_string_to_c ?s ?m] => destruct (opt_string_to_c s m) end. done.
Qed.

Lemma to_ffi_array_contract {A B} spare (f : A → memory → B * memory) (texts : A → list (option string))
    (strings : B → list ptr) array l out error σ :
  (∀ a m, let '(b, m') := f a m in alloc_strings (texts a) m = (strings b, m')) →
  (∀ bs, array_strings (array bs) = bs ≫= strings ∧ array_length (array bs) = length bs) →
  let r := as_array (returned_array (to_ffi_array spare f array l σ) out) in contract query error σ r.1 r.2.
Proof.
  intros Hf Harr. unfold to_ffi_array. pose proof (map_alloc_strings f texts strings l (f_mem σ) Hf) as Ha.
  destruct (map_alloc f l (f_mem σ)) as [bs m'] eqn:Em. destruct (Harr bs) as [Hstrings Hcount]. pose proof (alloc_strings_spec (l ≫= texts) (f_mem σ)) as Hs.
  rewrite Ha in Hs. destruct Hs as (_ & Hsub & Hfree).
  assert (∀ l m, length (map_alloc f l m).1 = length l) as Hlen by apply map_alloc_length.
  specialize (Hlen l (f_mem σ)). rewrite Em in Hlen. cbn in Hlen.
  pose proof (malloc_fresh m') as Hfr. pose proof (malloc_not_null m') as Hn. pose proof dangling_not_null as Hd.
  unfold contract, as_array, returned_array, gives_array. case_bool_decide as Hc; cbn.
  - rewrite (proj2 (Z.eqb_neq _ _) Hd). destruct l; [|done]. cbn in Em. injection Em as <- <-.
    split_and!; [done..|]. left. split_and!; [done..|]. destruct out; by intros ? [= <-].
  - rewrite (proj2 (Z.eqb_neq _ _) Hn). split_and!; [done..|]. right. exists (length l + spare)%nat, (array bs), m'.
    rewrite Hstrings, Hcount, Hlen. split_and!; try done. destruct out; by intros ? [= <-].
Qed.

(** Every kind of call. *)
Ltac call_fails := intros ? ? ? ?; by split.
#[local] Hint Resolve nothing_written_refl quiet_put : ffi.
#[local] Hint Resolve invalid_reported null_reported parse_message_reported parse_values_reported parse_tags_reported
  get_keys_reported : ffi.
#[local] Hint Extern 1 (fails _ _) => call_fails : ffi.
#[local] Hint Extern 1 (reported _ _ _ ∧ _) => split; [|done] : ffi.
#[local] Hint Extern 1 (quiet _ _) => split; reflexivity : ffi.
#[local] Hint Extern 1 (reported _ _ (set_error _ _ _)) =>
  apply set_error_reported; [first [apply ffi_error_code|discriminate]|auto with ffi] : ffi.

Lemma insert_contract error o σ : f_next σ ≠ 0 → contract query error σ (insert_object o σ).1 (Handle (insert_object o σ).2).
Proof. intros Hn. unfold contract. cbn. by rewrite (proj2 (Z.eqb_neq _ _) Hn). Qed.

Lemma finish_new_contract {C} (wrap : C → object L) error made σ σ' r :
  f_next σ ≠ 0 → as_new (finish_new wrap error made σ) = Returned (σ', r) → contract query error σ σ' r.
Proof.
  intros Hn. destruct made as [[ch|e]|]; cbn; [| |done]; intros [= <- <-].
  - by apply (insert_contract error (wrap ch)).
  - split; [auto with ffi|done].
Qed.

Lemma close_contract {C} (as_c : object L → option C) name h error (f : C → Ffi L * result unit Error) σ :
  (∀ ch, quiet σ (f ch).1) →
  let r := on_channel as_c name false h error (λ ch, let '(σ, res) := f ch in
             match res with Ok _ => ((remove h σ).1, true) | Err e => (set_error error (ffi_error e) σ, false) end) σ in
  contract query error σ r.1 (Flag r.2).
Proof.
  intros Hq. cbn. apply (on_channel_contract Flag); [auto with ffi|]. intros ch. specialize (Hq ch).
  destruct (f ch) as [σ1 [u|e]]; cbn in *; [exact Hq|]. split; [|done]. apply set_error_reported; [apply ffi_error_code|done].
Qed.

Ltac leaf :=
  match goal with
  | |- contract _ _ _ (finish _ _ _).1 _ => apply finish_contract; auto with ffi
  | |- contract _ _ _ (finish_id _ _ _).1 _ => apply finish_id_contract; auto with ffi
  | |- contract _ _ _ (return_string ?s _).1 (Text _) => apply (finish_id_contract _ (Ok s)); auto with ffi
  | |- _ => cbn; solve [eauto with ffi]
  end.
(** Split a body at its matches. *)
Ltac body :=
  cbn [fst snd] in *;
  repeat match goal with
  | |- context [match ?x with _ => _ end] => destruct x eqn:?; cbn [fst snd]
  end; leaf.

(** A function on a channel, by the shape of its result. *)
Ltac on_channel_call shape := apply (on_channel_contract shape); [auto with ffi|]; intros ch; body.

Lemma contract_pair error σ (x : Ffi L * c_result) σ' r :
  contract query error σ x.1 x.2 → Returned x = Returned (σ', r) → contract query error σ σ' r.
Proof. by intros Hc [= ->]. Qed.

Lemma publish_json_contract w name kind h json error σ :
  let r := as_text (publish_json w name kind h json error σ) in contract query error σ r.1 r.2.
Proof.
  unfold publish_json, as_text. destruct (parse_json_value_array json name error σ) as [vs|σ'] eqn:E.
  - on_channel_call Text.
  - cbn. eauto with ffi.
Qed.
Lemma nip44_contract who text_name h pk text error run σ :
  let r := as_text (nip44_call who text_name h pk text error run σ) in contract query error σ r.1 r.2.
Proof. unfold nip44_call, as_text. body. Qed.

(** The constructors of channels. *)
Lemma new_contract {S C} (wrap : C → object L) (config : result S FfiError) (open : Keys → S → call (result C Error))
    keys error σ σ' r :
  f_next σ ≠ 0 → refuses config →
  as_new (match get_keys keys error σ with
          | Err σ => Returned (σ, 0)
          | Ok keys =>
              match config with
              | Err e => Returned (set_error error e σ, 0)
              | Ok sdk_config => finish_new wrap error (open keys sdk_config) σ
              end
          end) = Returned (σ', r) → contract query error σ σ' r.
Proof.
  intros Hn Hr. destruct (get_keys keys error σ) as [k|σ1] eqn:E; [|intros [= <- <-]; cbn; eauto with ffi].
  destruct config as [sc|e]; [by apply finish_new_contract|].
  intros [= <- <-]. split; [|done]. apply set_error_reported; [by apply Hr|done].
Qed.

(** The discovery functions. *)
Lemma array_call_contract {A B} spare (found : Discovery.Client → result (list A) Error) (f : A → memory → B * memory)
    (texts : A → list (option string)) (strings : B → list ptr) array h out error σ :
  (∀ a m, let '(b, m') := f a m in alloc_strings (texts a) m = (strings b, m')) →
  (∀ bs, array_strings (array bs) = bs ≫= strings ∧ array_length (array bs) = length bs) →
  let r := as_array (on_channel as_pool "pool" no_array h error (λ client,
    match found client with
    | Ok l => returned_array (to_ffi_array spare f array l σ) out
    | Err e => (set_error error (ffi_error e) σ, no_array)
    end) σ) in contract query error σ r.1 r.2.
Proof.
  intros Hf Ha. apply (on_channel_contract (λ r, Array r.1 r.2)); [auto with ffi|]. intros ch.
  destruct (found ch) as [l|e]; [by eapply to_ffi_array_contract|cbn; auto with ffi].
Qed.
Lemma discover_tools_contract spare h provider name urls count out error σ :
  let r := as_array (cvm_discover_tools spare h provider name urls count out error σ) in contract query error σ r.1 r.2.
Proof.
  apply (on_channel_contract (λ r, Array r.1 r.2)); [auto with ffi|]. intros ch.
  destruct (c_str_to_string provider) as [pk|]; [|cbn; auto with ffi].
  destruct (discover_tools _ _ _) as [l|e]; [|cbn; auto with ffi].
  by eapply to_ffi_array_contract; [apply tool_to_ffi_alloc|].
Qed.

Lemma capabilities_contract h out error σ :
  let r := cvm_client_ch_discovered_server_capabilities h out error σ in
  contract query error σ r.1 (Capabilities r.2.1 r.2.2).
Proof. on_channel_call (λ r : option FfiPeerCapabilities * bool, Capabilities r.1 r.2). Qed.
Lemma initialize_event_contract h error σ :
  query = query_fails σ (ClientInitializeEvent h) →
  let r := cvm_client_ch_server_initialize_event_json h error σ in contract query error σ r.1 (OptionalText r.2).
Proof.
  intros Hq. unfold query_fails in Hq. unfold cvm_client_ch_server_initialize_event_json, on_channel, contract.
  destruct (get_object as_client h σ) as [ch|]; [|cbn; rewrite Hq; auto with ffi].
  destruct (get_server_initialize_event _) as [ev|]; [|cbn; rewrite Hq; auto with ffi].
  destruct (event_json ev) as [s|e]; [|cbn; rewrite Hq; auto with ffi].
  pose proof (return_string_gives s σ σ (nothing_written_refl σ)) as Hg. destruct (return_string s σ) as [σ2 q].
  destruct Hg as [Hn Hg]. cbn -[NULL] in *. by rewrite Hq, Hn.
Qed.
(** A query of a channel: it fails without one. *)
Lemma answer_contract {C} (as_c : object L → option C) name h error (f : C → bool) σ :
  query = negb (bool_decide (is_Some (get_object as_c h σ))) →
  let r := on_channel as_c name false h error (λ ch, (σ, f ch)) σ in contract query error σ r.1 (Answer r.2).
Proof.
  intros Hq. cbn. unfold on_channel, contract. destruct (get_object as_c h σ) as [ch|]; cbn in *; rewrite Hq; auto with ffi.
Qed.
(** A send that waited. *)
Lemma resumed_contract {C} (send : C → option (result unit Error)) (ch : C) task error σ :
  let r := as_resumed task σ (res ← send ch; Some (finish error res σ)) in contract query error σ r.1 r.2.
Proof. cbn. destruct (send ch) as [res|]; [|done]. apply finish_contract. auto with ffi. Qed.

(** A call, by the lemma of its kind. *)
Ltac call_contract :=
  first
    [ by apply insert_contract
    | by eapply new_contract; [| |done]; auto using server_config_refuses, client_config_refuses
    | match goal with Hc : _ = Returned _ |- _ => eapply contract_pair; [|exact Hc] end;
      first [eapply recv_contract|eapply recv_timeout_contract];
      first [apply incoming_to_ffi_alloc|apply message_to_ffi_alloc]
    | apply publish_json_contract
    | apply nip44_contract
    | apply discover_tools_contract
    | eapply array_call_contract;
        first [apply announcement_to_ffi_alloc|apply tool_to_ffi_alloc|apply profile_to_ffi_alloc|done]
    | on_channel_call Flag
    | on_channel_call Text
    | by apply answer_contract
    | on_channel_call (λ r, match r with SendEnded ok => Flag ok | SendAwaits task => Awaits task end)
    | done ].

Lemma step_contract max_entries max_pending spare w error σ c σ' r :
  query = query_fails σ c → f_next σ ≠ 0 → c_step max_entries max_pending spare w error σ c = Returned (σ', r) →
  contract query error σ σ' r.
Proof.
  intros Hq Hn. destruct c; try (intros [= <- <-]; try call_contract); try (intros Hc; call_contract).
  - unfold as_handle, cvm_keys_from_secret_key. repeat case_match; try (by apply insert_contract); cbn; auto with ffi.
  - unfold as_text, cvm_keys_public_key. body.
  - unfold as_text, cvm_keys_secret_key. body.
  - unfold as_handle, cvm_relay_pool_new. repeat case_match; try (by apply insert_contract); cbn; auto with ffi.
  - apply (on_channel_contract (λ r, Array r.1 r.2)); [auto with ffi|]. intros ch.
    destruct (fetch_provider_profiles _ _ _) as [l|e]; [|cbn; auto with ffi].
    by eapply to_ffi_array_contract; [apply profile_to_ffi_alloc|].
  - unfold as_text, cvm_pubkey_hex_to_npub. body.
  - apply contract_pair, (resumed_contract (λ ch, send_result (cch_transport ch) task)).
  - cbn. pose proof (capabilities_contract h out error σ) as Hc.
    destruct (cvm_client_ch_discovered_server_capabilities _ _ _ _) as [σ1 [caps ok]]. by intros [= <- <-].
  - cbn. pose proof (initialize_event_contract h error σ Hq) as Hc.
    destruct (cvm_client_ch_server_initialize_event_json _ _ _) as [σ1 p]. by intros [= <- <-].
  - apply contract_pair, (resumed_contract (λ ch, send_result (fa_transport (pch_proxy ch)) task)).
Qed.
End contract.

(** (C23) The error contract of the C header, for every function of the C interface that
    takes an error variable, a send that waited included: a call that fails points the
    caller's error variable to one new error object, with a code other than [Ok],
    allocates nothing else and hands out nothing; a call that succeeds leaves the
    variable alone, and what it allocates is exactly what it hands out: the strings of
    the struct it wrote, the string it returned, the array with the strings of its
    structs, or nothing.  Without an error variable a failing call allocates nothing.
    A query (whether the channel is active, whether the server supports ephemeral
    wraps, which event it was initialized with) fails on a handle of no such channel
    or when the event has no JSON. *)
Theorem error_contract_kept `{Keychain} `{NostrClient} `{!FfiNostr} `{MallocLaws} `{FfiText} `{Lru L} `{SerdeJson}
    `{JsonCanon} `{Sha256} max_entries max_pending spare w error (σ : Ffi L) c σ' r :
  f_next σ ≠ 0 → c_step max_entries max_pending spare w error σ c = Returned (σ', r) →
  contract (query_fails σ c) error σ σ' r.
Proof. by apply step_contract. Qed.

(** ** The life of handles *)

(** What [downcast] tells apart. *)
Inductive object_type : Type := TKeys | TPool | TServer | TClient | TGateway | TProxy.
#[export] Instance object_type_eq_dec : EqDecision object_type.
Proof. solve_decision. Defined.

Section handles.
Context `{Keychain} `{NostrClient} `{!FfiNostr} `{Malloc} `{FfiText} `{Lru L} `{SerdeJson} `{JsonCanon} `{Sha256}.
Variables max_entries max_pending_payments : Z.
Variable spare : nat.
Implicit Types (σ : Ffi L) (w : world) (c : c_call L) (o : object L).

Definition type_of o : object_type :=
  match o with
  | OKeys _ => TKeys | OPool _ => TPool | OServer _ => TServer | OClient _ => TClient | OGateway _ => TGateway
  | OProxy _ => TProxy
  end.

(** Between the calls the tasks of the transports change what a handle stands for. *)
Definition background (h : Z) o σ : Ffi L :=
  match f_store σ !! h with
  | Some o0 => if decide (type_of o = type_of o0) then put h o σ else σ
  | None => σ
  end.
Inductive ffi_event : Type :=
| Call (w : world) (error : option nat) (c : c_call L)
| Background (h : Z) (o : object L).

(** The results of the calls; a panic would end the process. *)
Fixpoint ffi_run σ (events : list ffi_event) : Ffi L * list c_result :=
  match events with
  | [] => (σ, [])
  | Background h o :: events => ffi_run (background h o σ) events
  | Call w error c :: events =>
      match c_step max_entries max_pending_payments spare w error σ c with
      | Panicked => (σ, [])
      | Returned (σ, r) => let '(σ, rs) := ffi_run σ events in (σ, r :: rs)
      end
  end.

(** The handles among the results. *)
Definition new_handle (r : c_result) : option Z :=
  match r with Handle h => if h =? 0 then None else Some h | _ => None end.
Definition handles (rs : list c_result) : list Z := omap new_handle rs.
Definition is_call (e : ffi_event) : bool := match e with Call _ _ _ => true | _ => false end.

(** No handle was added and none changed its type. *)
Definition kept σ σ' : Prop :=
  f_next σ' = f_next σ ∧
  ∀ h o', f_store σ' !! h = Some o' → ∃ o, f_store σ !! h = Some o ∧ type_of o = type_of o'.

Lemma kept_refl σ : kept σ σ.
Proof. split; [done|eauto]. Qed.
Lemma kept_trans σ1 σ2 σ3 : kept σ1 σ2 → kept σ2 σ3 → kept σ1 σ3.
Proof.
  intros [Hn1 Hs1] [Hn2 Hs2]. split; [congruence|]. intros h o (o2 & Ho2 & Ht)%Hs2.
  destruct (Hs1 h o2 Ho2) as (o1 & Ho1 & ?). exists o1. by split; [|congruence].
Qed.
Lemma kept_same σ σ' : f_next σ' = f_next σ → f_store σ' = f_store σ → kept σ σ'.
Proof. intros Hn Hs. split; [done|]. rewrite Hs. eauto. Qed.
Lemma kept_set_error error e σ σ' : kept σ σ' → kept σ (set_error error e σ').
Proof. intros Hk. eapply kept_trans; [done|]. by destruct error; apply kept_same. Qed.
Lemma kept_with_mem m σ σ' : kept σ σ' → kept σ (with_mem σ' m).
Proof. intros Hk. eapply kept_trans; [done|]. by apply kept_same. Qed.
Lemma kept_put h o0 o σ : f_store σ !! h = Some o0 → type_of o = type_of o0 → kept σ (put h o σ).
Proof.
  intros Ho Ht. split; [done|]. intros h' o' Hl. cbn in Hl.
  destruct (decide (h' = h)) as [->|]; [rewrite lookup_insert_eq in Hl|rewrite lookup_insert_ne in Hl by done; eauto].
  injection Hl as <-. eauto.
Qed.
Lemma kept_remove h σ σ' : kept σ σ' → kept σ (remove h σ').1.
Proof.
  intros Hk. eapply kept_trans; [done|]. split; [done|]. cbn. intros h' o'. rewrite lookup_delete_Some. intros [_ ?]. eauto.
Qed.
Lemma kept_finish {A} error (res : result A Error) σ σ' : kept σ σ' → kept σ (finish error res σ').1.
Proof. destruct res; cbn; auto using kept_set_error. Qed.
Lemma kept_return_string s σ σ' : kept σ σ' → kept σ (return_string s σ').1.
Proof. intros Hk. cbn. by apply kept_with_mem. Qed.
Lemma kept_finish_id error res σ σ' : kept σ σ' → kept σ (finish_id error res σ').1.
Proof. intros Hk. destruct res; cbn [finish_id]; [by apply kept_return_string|by apply kept_set_error]. Qed.

(** A successful lookup is an object of that type. *)
Lemma get_object_type {T} (as_c : object L → option T) h σ ch :
  get_object as_c h σ = Some ch → ∃ o, f_store σ !! h = Some o ∧ as_c o = Some ch.
Proof. unfold get_object. destruct (f_store σ !! h) as [o|]; cbn; eauto. done. Qed.

Lemma kept_put_channel {C} (as_c : object L → option C) (wrap : C → object L) h ch ch' σ :
  (∀ o ch, as_c o = Some ch → ∀ ch', type_of (wrap ch') = type_of o) → get_object as_c h σ = Some ch →
  kept σ (put h (wrap ch') σ).
Proof. intros Hw (o & Ho & Hc)%get_object_type. by eapply kept_put; [|eapply Hw]. Qed.

Lemma types_match :
  (∀ o ch, as_pool o = Some ch → ∀ ch', type_of (OPool ch') = type_of o) ∧
  (∀ o ch, as_server o = Some ch → ∀ ch', type_of (OServer ch') = type_of o) ∧
  (∀ o ch, as_client o = Some ch → ∀ ch', type_of (OClient ch') = type_of o) ∧
  (∀ o ch, as_gateway o = Some ch → ∀ ch', type_of (OGateway ch') = type_of o) ∧
  (∀ o ch, as_proxy o = Some ch → ∀ ch', type_of (OProxy ch') = type_of o).
Proof. by split_and!; intros [] ?. Qed.

Lemma kept_pool h ch ch' σ : get_object as_pool h σ = Some ch → kept σ (put h (OPool ch') σ).
Proof. apply kept_put_channel, types_match. Qed.
Lemma kept_server h ch ch' σ : get_object as_server h σ = Some ch → kept σ (put h (OServer ch') σ).
Proof. apply kept_put_channel, types_match. Qed.
Lemma kept_client h ch ch' σ : get_object as_client h σ = Some ch → kept σ (put h (OClient ch') σ).
Proof. apply kept_put_channel, types_match. Qed.
Lemma kept_gateway h ch ch' σ : get_object as_gateway h σ = Some ch → kept σ (put h (OGateway ch') σ).
Proof. apply kept_put_channel, types_match. Qed.
Lemma kept_proxy h ch ch' σ : get_object as_proxy h σ = Some ch → kept σ (put h (OProxy ch') σ).
Proof. apply kept_put_channel, types_match. Qed.

Lemma on_channel_kept {C B} (as_c : object L → option C) name (bad : B) h error f σ :
  (∀ ch, get_object as_c h σ = Some ch → kept σ (f ch).1) → kept σ (on_channel as_c name bad h error f σ).1.
Proof.
  intros Hf. unfold on_channel. destruct (get_object as_c h σ) as [ch|]; [by apply Hf|].
  apply kept_set_error, kept_refl.
Qed.

#[local] Hint Resolve kept_refl kept_set_error kept_finish kept_finish_id kept_return_string kept_remove kept_with_mem : ffi.
#[local] Hint Resolve kept_pool kept_server kept_client kept_gateway kept_proxy : ffi.

Lemma parsers_kept error σ :
  (∀ p σ', parse_json_rpc_message p error σ = Err σ' → kept σ σ') ∧
  (∀ p name σ', parse_json_value_array p name error σ = Err σ' → kept σ σ') ∧
  (∀ p σ', parse_tags_json p error σ = Err σ' → kept σ σ') ∧
  (∀ h σ', get_keys h error σ = Err σ' → kept σ σ').
Proof.
  unfold parse_json_rpc_message, parse_json_value_array, parse_tags_json, get_keys.
  split_and!; intros; repeat case_match; try destruct (parse_tags _); simplify_eq/=;
    unfold set_null_arg_error; auto with ffi.
Qed.
Lemma parse_message_kept p error σ σ' : parse_json_rpc_message p error σ = Err σ' → kept σ σ'.
Proof. apply parsers_kept. Qed.
Lemma parse_values_kept p name error σ σ' : parse_json_value_array p name error σ = Err σ' → kept σ σ'.
Proof. apply parsers_kept. Qed.
Lemma parse_tags_kept p error σ σ' : parse_tags_json p error σ = Err σ' → kept σ σ'.
Proof. apply parsers_kept. Qed.
Lemma get_keys_kept h error σ σ' : get_keys h error σ = Err σ' → kept σ σ'.
Proof. apply parsers_kept. Qed.
#[local] Hint Resolve parse_message_kept parse_values_kept parse_tags_kept get_keys_kept : ffi.

Lemma kept_array {A B} (f : A → memory → B * memory) array l out σ :
  kept σ (returned_array (to_ffi_array spare f array l σ) out).1.
Proof. unfold to_ffi_array. destruct (map_alloc f l (f_mem σ)). case_bool_decide; cbn; auto with ffi. Qed.
#[local] Hint Resolve kept_array : ffi.

Lemma kept_received {C A O} (k : channel_kind L C A) (write : A → memory → O * memory) (strings : O → list ptr) elapsed h out error σ :
  (∀ o ch, k_as k o = Some ch → ∀ ch', type_of (k_of k ch') = type_of o) →
  kept σ (as_received strings σ (ch_recv k write h out error σ)).1 ∧
  kept σ (as_received strings σ (ch_recv_timeout k write elapsed h out error σ)).1.
Proof.
  intros Hk. unfold ch_recv, ch_recv_timeout, deliver.
  destruct (get_object (k_as k) h σ) as [ch|] eqn:Hg; [|split; cbn; unfold set_invalid_handle_error; auto with ffi].
  assert (kept σ (put h (k_of k (k_take k ch)) σ)) as Hp by by eapply kept_put_channel.
  split; destruct (k_poll k ch), out, elapsed; try destruct (write _ _); cbn in *; auto with ffi.
Qed.

(** What a call does to the handles: it keeps them, or it hands out the next one. *)
Definition advance σ σ' (r : c_result) : Prop :=
  (new_handle r = None ∧ kept σ σ') ∨
  ∃ o, r = Handle (f_next σ) ∧ f_next σ' = u64_add (f_next σ) 1 ∧ f_store σ' = <[f_next σ := o]> (f_store σ).

Lemma advance_kept σ σ' r : new_handle r = None → kept σ σ' → advance σ σ' r.
Proof. by left. Qed.
Lemma advance_insert o σ : advance σ (insert_object o σ).1 (Handle (insert_object o σ).2).
Proof. right. by exists o. Qed.

Lemma advance_new {S C} (wrap : C → object L) (config : result S FfiError) (open : Keys → S → call (result C Error))
    keys error σ σ' r :
  as_new (match get_keys keys error σ with
          | Err σ => Returned (σ, 0)
          | Ok keys =>
              match config with
              | Err e => Returned (set_error error e σ, 0)
              | Ok sdk_config => finish_new wrap error (open keys sdk_config) σ
              end
          end) = Returned (σ', r) → advance σ σ' r.
Proof.
  destruct (get_keys keys error σ) as [k|σ1] eqn:E; [|intros [= <- <-]; apply advance_kept; cbn; eauto with ffi].
  destruct config as [sc|e]; [|intros [= <- <-]; apply advance_kept; cbn; auto with ffi].
  unfold finish_new. destruct (open k sc) as [[ch|e]|]; cbn; [| |done]; intros [= <- <-].
  - apply (advance_insert (wrap ch)).
  - apply advance_kept; cbn; auto with ffi.
Qed.

Ltac kept_body :=
  cbn [fst snd] in *;
  repeat match goal with
  | |- context [match ?x with _ => _ end] => destruct x eqn:?; cbn [fst snd]
  end; unfold set_invalid_handle_error, set_null_arg_error in *; eauto with ffi.

Lemma advance_pair σ (x : Ffi L * c_result) σ' r :
  new_handle x.2 = None → kept σ x.1 → Returned x = Returned (σ', r) → advance σ σ' r.
Proof. intros ? ? [= ->]. by apply advance_kept. Qed.
Lemma received_no_handle {O} (strings : O → list ptr) σ r : new_handle (as_received strings σ r).2 = None.
Proof. by destruct r as [[[]]|]. Qed.
Lemma resumed_no_handle task σ r : new_handle (as_resumed task σ r).2 = None.
Proof. by destruct r as [[]|]. Qed.
Lemma kept_resumed task error σ (res : option (result unit Error)) :
  kept σ (as_resumed task σ (res ← res; Some (finish error res σ))).1.
Proof. destruct res as [[]|]; cbn; auto with ffi. Qed.
Lemma send_no_handle (r : Ffi L * send_call) : new_handle (as_send r).2 = None.
Proof. by destruct r as [? []]. Qed.

Lemma kept_publish_json w name kind h json error σ : kept σ (publish_json w name kind h json error σ).1.
Proof.
  unfold publish_json. destruct (parse_json_value_array json name error σ) eqn:?; [|cbn; eauto with ffi].
  apply on_channel_kept. intros ch ?. kept_body.
Qed.
Lemma kept_nip44 who text_name h pk text error run σ : kept σ (nip44_call who text_name h pk text error run σ).1.
Proof. unfold nip44_call. kept_body. Qed.

Lemma step_advance w error σ c σ' r :
  c_step max_entries max_pending_payments spare w error σ c = Returned (σ', r) → advance σ σ' r.
Proof.
  destruct c; try (by apply advance_new);
    try (apply advance_pair; [apply received_no_handle|]; apply (kept_received _ _ _ true), types_match; fail);
    try (apply advance_pair; [apply received_no_handle|]; apply (kept_received _ _ _ elapsed), types_match; fail);
    try (apply advance_pair; [apply resumed_no_handle|apply kept_resumed]; fail);
    try (apply advance_pair; [apply send_no_handle|]; eapply on_channel_kept; intros ch ?; kept_body; fail);
    try (apply advance_pair; [done|]; first
      [ apply kept_publish_json | apply kept_nip44 | eapply on_channel_kept; intros ch ?; kept_body; fail
      | unfold as_text, cvm_keys_public_key, cvm_keys_secret_key, cvm_pubkey_hex_to_npub; kept_body; fail ]).
  - intros [= <- <-]. apply advance_insert.
  - cbn. unfold cvm_keys_from_secret_key.
    repeat case_match; intros [= <- <-]; first [apply advance_insert|apply advance_kept; [done|]; cbn; auto with ffi].
  - cbn. unfold cvm_relay_pool_new.
    repeat case_match; intros [= <- <-]; first [apply advance_insert|apply advance_kept; [done|]; cbn; auto with ffi].
  - assert (kept σ (cvm_client_ch_discovered_server_capabilities h out error σ).1) as Hk
      by (apply on_channel_kept; intros ch ?; kept_body).
    cbn. destruct (cvm_client_ch_discovered_server_capabilities _ _ _ _) as [σ1 [caps ok]]. by apply advance_pair.
  - assert (kept σ (cvm_client_ch_server_initialize_event_json h error σ).1) as Hk
      by (apply on_channel_kept; intros ch ?; kept_body).
    cbn. destruct (cvm_client_ch_server_initialize_event_json _ _ _) as [σ1 p]. by apply advance_pair.
Qed.

(** *** No constructor panics *)

Lemma fresh_start_returns `{LifecycleLaws T A} name (f : Facade T) a :
  in_phase f Fresh → (facade_start name a f).2 ≠ Panicked ∧ (lt_start a (fa_transport f)).2 ≠ Panicked.
Proof.
  intros (Hr & Htx & _). unfold facade_start. rewrite Hr. pose proof (lt_start_law a (fa_transport f)) as Hl.
  destruct (lt_start a (fa_transport f)) as [t [[u|e]|]]; [destruct (lt_take_message_receiver t)|..]; cbn; try done.
  destruct Hl as (_ & _ & Hl). congruence.
Qed.

Lemma open_server_returns w keys config : open_server (L := L) max_entries max_pending_payments w keys config ≠ Panicked.
Proof.
  unfold open_server. destruct (Server.new config max_entries max_pending_payments) as [s|] eqn:Hs; [|done].
  set (nostr := keys_nostr keys).
  assert (Gateway.new max_entries max_pending_payments (Gateway.config_new config) = Ok (mkFacade s false)) as Hg
    by (change (Server.new (Gateway.nostr_config (Gateway.config_new config)) max_entries max_pending_payments = Ok s) in Hs;
        unfold Gateway.new, Gateway.build; by rewrite Hs).
  destruct (fresh_start_returns "Gateway" _ (w_now w, w_server_start w) (gateway_is_fresh _ _ _ _ Hg)) as [_ Hl].
  cbn in Hl. destruct (Server.start _ _ _) as [[s1 fs] [[u|e]|]]; [|done|done].
  by destruct (Server.take_message_receiver s1).
Qed.
Lemma open_client_returns w keys config : open_client (L := L) w keys config ≠ Panicked.
Proof.
  unfold open_client. set (nostr := keys_nostr keys).
  destruct (ClientState.client_new config) as [[setup c]|] eqn:Hc; [|done].
  assert (Proxy.new (Proxy.config_new config) = Ok (setup, mkFacade (Client.mkClientTransport c true) false)) as Hp
    by (unfold Proxy.new, Proxy.build; cbn; by rewrite Hc).
  destruct (fresh_start_returns "Proxy" _ (w_now w, w_client_start w) (proxy_is_fresh _ _ _ Hp)) as [_ Hl].
  cbn in Hl. destruct (Client.start _ _ _) as [[s1 fs] [[u|e]|]]; [|done|done].
  by destruct (Client.take_message_receiver s1).
Qed.
Lemma open_gateway_returns w keys config : open_gateway (L := L) max_entries max_pending_payments w keys config ≠ Panicked.
Proof.
  unfold open_gateway. set (nostr := keys_nostr keys).
  destruct (Gateway.new _ _ _) as [gw|] eqn:Hg; [|done].
  destruct (fresh_start_returns "Gateway" _ (w_now w, w_server_start w) (gateway_is_fresh _ _ _ _ Hg)) as [Hl _].
  unfold Gateway.start. by destruct (facade_start "Gateway" _ gw) as [g1 [[u|e]|]].
Qed.
Lemma open_proxy_returns w keys config : open_proxy (L := L) w keys config ≠ Panicked.
Proof.
  unfold open_proxy. set (nostr := keys_nostr keys).
  destruct (Proxy.new _) as [[setup p]|] eqn:Hp; [|done].
  destruct (fresh_start_returns "Proxy" _ (w_now w, w_client_start w) (proxy_is_fresh _ _ _ Hp)) as [Hl _].
  unfold Proxy.start. by destruct (facade_start "Proxy" _ p) as [g1 [[u|e]|]].
Qed.

Lemma new_returns {S C} (wrap : C → object L) (config : result S FfiError) (open : Keys → S → call (result C Error))
    keys error σ :
  (∀ k s, open k s ≠ Panicked) →
  as_new (match get_keys keys error σ with
          | Err σ => Returned (σ, 0)
          | Ok keys =>
              match config with
              | Err e => Returned (set_error error e σ, 0)
              | Ok sdk_config => finish_new wrap error (open keys sdk_config) σ
              end
          end) ≠ Panicked.
Proof.
  intros Ho. destruct (get_keys keys error σ) as [k|]; [|done]. destruct config as [s|]; [|done].
  specialize (Ho k s). unfold finish_new. by destruct (open k s) as [[]|].
Qed.

Lemma step_returns w error σ c :
  ∃ σ' r, c_step max_entries max_pending_payments spare w error σ c = Returned (σ', r).
Proof.
  destruct (c_step max_entries max_pending_payments spare w error σ c) as [[σ' r]|] eqn:Hc; [eauto|exfalso].
  destruct c; try done;
    try (revert Hc; apply new_returns; intros k s;
         first [apply open_server_returns|apply open_client_returns|apply open_gateway_returns|apply open_proxy_returns]).
  - cbn in Hc. by destruct (cvm_client_ch_discovered_server_capabilities h out error σ) as [? []].
  - cbn in Hc. by destruct (cvm_client_ch_server_initialize_event_json h error σ).
Qed.

(** *** Runs *)

(** Handles come from the counter. *)
Definition issued σ : Prop := 1 <= f_next σ ∧ ∀ h, is_Some (f_store σ !! h) → 1 <= h < f_next σ.
(** From [σ] to [σ'] no issued handle came back or changed its type. *)
Definition stable σ σ' : Prop :=
  f_next σ <= f_next σ' ∧
  ∀ h o', h < f_next σ → f_store σ' !! h = Some o' → ∃ o, f_store σ !! h = Some o ∧ type_of o = type_of o'.

Lemma stable_refl σ : stable σ σ.
Proof. split; [lia|eauto]. Qed.
Lemma stable_trans σ1 σ2 σ3 : stable σ1 σ2 → stable σ2 σ3 → stable σ1 σ3.
Proof.
  intros [Hn1 Hs1] [Hn2 Hs2]. split; [lia|]. intros h o3 Hh Ho3.
  destruct (Hs2 h o3 ltac:(lia) Ho3) as (o2 & Ho2 & ?). destruct (Hs1 h o2 Hh Ho2) as (o1 & ? & ?).
  exists o1. split; [done|congruence].
Qed.
Lemma kept_stable σ σ' : kept σ σ' → stable σ σ'.
Proof. intros [Hn Hs]. split; [lia|eauto]. Qed.
Lemma kept_issued σ σ' : kept σ σ' → issued σ → issued σ'.
Proof.
  intros [Hn Hs] [Hi1 Hi2]. split; [lia|]. rewrite Hn. intros h [o (o0 & Ho0 & _)%Hs]. eauto.
Qed.
Lemma kept_background h o σ : kept σ (background h o σ).
Proof.
  unfold background. destruct (f_store σ !! h) as [o0|] eqn:E; [|apply kept_refl].
  case_decide; [by eapply kept_put|apply kept_refl].
Qed.

Lemma advance_insert_stable σ σ' o :
  f_next σ' = f_next σ + 1 → f_store σ' = <[f_next σ := o]> (f_store σ) → issued σ → stable σ σ' ∧ issued σ'.
Proof.
  intros Hn Hs [Hi1 Hi2]. unfold stable, issued. rewrite Hn, Hs. split_and!; [lia| |lia|].
  - intros h o' Hh. rewrite lookup_insert_ne by lia. eauto.
  - intros h. destruct (decide (h = f_next σ)) as [->|]; [lia|]. rewrite lookup_insert_ne by done.
    intros ?%Hi2. lia.
Qed.

Definition calls (events : list ffi_event) : Z := Z.of_nat (length (List.filter is_call events)).
(** The handles given out lie between the counters. *)
Definition between σ σ' (hs : list Z) : Prop := NoDup hs ∧ Forall (λ h, f_next σ <= h < f_next σ') hs.

Lemma step_handles w error σ c σ' r :
  issued σ → f_next σ + 1 < u64_modulus →
  c_step max_entries max_pending_payments spare w error σ c = Returned (σ', r) →
  issued σ' ∧ stable σ σ' ∧
  (new_handle r = None ∧ f_next σ' = f_next σ ∨ new_handle r = Some (f_next σ) ∧ f_next σ' = f_next σ + 1).
Proof.
  intros Hi Hb [[Hr Hk]|(o & -> & Hn & Hs)]%step_advance.
  - split_and!; eauto using kept_issued, kept_stable. left. split; [done|apply Hk].
  - rewrite u64_add_small in Hn by (destruct Hi; lia).
    destruct (advance_insert_stable σ σ' o Hn Hs Hi) as [? ?]. split_and!; [done..|]. right. split; [|done]. cbn.
    rewrite (proj2 (Z.eqb_neq _ _)); [done|]. destruct Hi; lia.
Qed.

Lemma run_handles σ events :
  issued σ → f_next σ + calls events < u64_modulus →
  let '(σ', rs) := ffi_run σ events in
  issued σ' ∧ stable σ σ' ∧ f_next σ' <= f_next σ + calls events ∧ length rs = length (List.filter is_call events) ∧
  between σ σ' (handles rs).
Proof.
  revert σ. induction events as [|[w error c|h o] events IH]; intros σ Hi Hb; unfold calls in *; cbn in *.
  - split_and!; auto using stable_refl; [lia|by split; constructor].
  - destruct (step_returns w error σ c) as (σ1 & r & Hc). rewrite Hc.
    destruct (step_handles w error σ c σ1 r Hi) as (Hi1 & Hs1 & Hn); [lia|done|].
    specialize (IH σ1 Hi1). destruct (ffi_run σ1 events) as [σ2 rs]. destruct IH as (Hi2 & Hs2 & Hb2 & Hl & Hd & Hf); [lia|].
    split_and!; [done|by eapply stable_trans|lia|cbn; lia|].
    assert (Forall (λ h, f_next σ <= h < f_next σ2) (handles rs)) as Hf' by (eapply Forall_impl; [exact Hf|cbn; lia]).
    destruct Hn as [[Hr _]|[Hr Hn]]; unfold handles; cbn; rewrite Hr; [by split|]. destruct Hs2 as [Hle _].
    split; constructor; try done; [|lia]. intros Hin. rewrite Forall_forall in Hf. apply Hf in Hin. lia.
  - destruct (kept_background h o σ) as [Hn _]. specialize (IH (background h o σ)).
    destruct (ffi_run (background h o σ) events) as [σ2 rs].
    destruct IH as (? & ? & ? & ? & ?); [eapply kept_issued; [apply kept_background|done]|rewrite Hn; lia|].
    split_and!; try done; [|lia|].
    + eapply stable_trans; [apply kept_stable, kept_background|done].
    + unfold between in *. by rewrite Hn in *.
Qed.

(** The library before the first call. *)
Definition ffi_start : Ffi L := mkFfi 1 ∅ ∅ ∅.

(** (C22) The life of handles, for every sequence of calls of the C interface,
    interleaved with the tasks of the transports: no call panics; the handles given
    out are pairwise different; and from any moment on, a handle that
    was freed or closed stays invalid for ever, and a live one keeps its type, so that
    a stale handle never reaches an object it was not given for.  The counter is a
    [u64], and the calls are fewer than what it counts. *)
Theorem handles_never_reused events1 events2 :
  calls (events1 ++ events2) < u64_modulus - 1 →
  let '(σ1, rs1) := ffi_run ffi_start events1 in
  let '(σ2, rs2) := ffi_run σ1 events2 in
  (length rs1 + length rs2 = length (List.filter is_call (events1 ++ events2)))%nat ∧
  NoDup (handles rs1 ++ handles rs2) ∧
  ∀ h, h ∈ handles rs1 →
    (f_store σ1 !! h = None → f_store σ2 !! h = None) ∧
    (∀ o1 o2, f_store σ1 !! h = Some o1 → f_store σ2 !! h = Some o2 → type_of o1 = type_of o2).
Proof.
  unfold calls. rewrite List.filter_app, length_app. intros Hb.
  assert (issued ffi_start) as Hi by (split; [done|]; cbn; intros h; rewrite lookup_empty; by intros []).
  pose proof (run_handles ffi_start events1 Hi) as HR1. unfold calls in HR1. cbn [f_next ffi_start] in HR1.
  destruct (ffi_run ffi_start events1) as [σ1 rs1]. destruct HR1 as (Hi1 & _ & Hn1 & Hl1 & Hd1 & Hf1); [cbn; lia|].
  pose proof (run_handles σ1 events2 Hi1) as HR2. unfold calls in HR2.
  destruct (ffi_run σ1 events2) as [σ2 rs2]. cbn in Hn1. destruct HR2 as (_ & [_ Hs] & _ & Hl2 & Hd2 & Hf2); [lia|].
  rewrite Forall_forall in Hf1, Hf2. split_and!; [lia| |].
  - apply NoDup_app. split_and!; [done| |done]. intros h ?%Hf1 ?%Hf2. lia.
  - intros h Hh%Hf1. cbn in Hh. split.
    + intros Hnone. apply eq_None_not_Some. intros [o (o0 & ? & _)%Hs]; [congruence|lia].
    + intros o1 o2 Ho1 (o0 & Ho0 & Ht)%Hs; [congruence|lia].
Qed.
End handles.

(** ** A concrete run *)

#[local] Existing Instances bits_serde bits_canon id_sha256.

(** Keys, a server of them, the keys freed; then more keys, and the freed ones used. *)
Abbreviation demo_made := [Call (L := list_cache) demo_world (Some 0%nat) KeysGenerate;
  Call demo_world (Some 0%nat) (ServerNew 1 demo_server_fields); Call demo_world (Some 0%nat) (KeysFree 1)].
Abbreviation demo_later := [Call (L := list_cache) demo_world (Some 0%nat) KeysGenerate;
  Call demo_world (Some 0%nat) (KeysPublicKey 1)].

Lemma handles_never_reused_witness :
  let '(σ1, rs1) := ffi_run 10 10 0 ffi_start demo_made in
  let '(σ2, rs2) := ffi_run 10 10 0 σ1 demo_later in
  rs1 = [Handle 1; Handle 2; Nothing] ∧ rs2 = [Handle 3; Text NULL] ∧ f_store σ2 !! 1 = None.
Proof.
  pose proof (handles_never_reused 10 10 0 demo_made demo_later ltac:(by vm_compute)) as Hw.
  destruct (ffi_run 10 10 0 ffi_start demo_made) as [σ1 rs1] eqn:E1. destruct (ffi_run 10 10 0 σ1 demo_later) as [σ2 rs2] eqn:E2.
  assert (rs1 = (ffi_run 10 10 0 ffi_start demo_made).2) as -> by by rewrite E1.
  assert (σ1 = (ffi_run 10 10 0 ffi_start demo_made).1) as -> by by rewrite E1.
  split; [by vm_compute|]. split.
  - assert (rs2 = (ffi_run 10 10 0 (ffi_run 10 10 0 ffi_start demo_made).1 demo_later).2) as -> by by rewrite E2.
    by vm_compute.
  - apply Hw; [by vm_compute; left|by vm_compute].
Defined.

(** A public key of a handle that was never given out. *)
Lemma error_contract_kept_witness :
  let σ' := (cvm_keys_public_key 5 (Some 0%nat) (ffi_start (L := list_cache))).1 in
  ∃ p e, f_vars σ' !! 0%nat = Some p ∧ f_mem σ' !! p = Some (ErrorBlock e) ∧ err_code e ≠ CodeOk.
Proof.
  destruct (error_contract_kept (L := list_cache) 10 10 0 demo_world (Some 0%nat) ffi_start (KeysPublicKey 5)
    (cvm_keys_public_key 5 (Some 0%nat) ffi_start).1 (Text NULL)) as [(p & e & _ & _ & He & Hm & Hv) _]; [done|by vm_compute|].
  exists p, e. cbn zeta. rewrite Hm, Hv, !lookup_insert_eq. done.
Defined.
