(* ===== verification/FfiOwnership.v ===== *)
(** * The foreign interface: what is handed out comes back

    The strings of a received message are read by the caller as the SDK produced them,
    and the free functions give back exactly what a call allocated. *)

From S2P Require Import Prelude Json CoreTypes OversizedFrame OversizedCodec OversizedReceiver Instances Lru Authorization RouteStore SessionStore OpenStreamFrame OpenStreamSession OpenStreamRegistry OpenStreamWriter PaymentTypes ServerTasks ServerPayments BaseTransport Announcements Discovery ServerNegotiation ServerState ServerOutbound ServerStreams ServerInbound ClientPayments ClientState ClientOutbound ClientInbound Lifecycle FfiTypes FfiChannel FfiDiscovery FfiInstances FfiCalls.

(** ** Received messages *)

Section received.
Context `{Keychain} `{NostrClient} `{MallocLaws} `{FfiText} `{Lru L} `{SerdeJsonLaws}.
Implicit Types σ : Ffi L.

(** A message whose text a C caller can hold: serde escapes control characters, and
    the strings of Rust are UTF-8. *)
Definition c_text (msg : JsonRpcMessage) : Prop :=
  let text := to_string (message_to_value msg) in
  message_ok msg = true ∧ (json_depth (message_to_value msg) <= RECURSION_LIMIT)%nat ∧
  has_nul text = false ∧ valid_utf8 text = true.

(** The C string at a pointer. *)
Definition c_read (m : memory) (p : ptr) : c_str :=
  match m !! p with Some (CStringBlock s) => Some s | _ => None end.

Lemma payload_parsed_back msg p m error σ :
  c_text msg → reads m p (Some (to_string (message_to_value msg))) →
  parse_json_rpc_message (c_read m p) error σ = Ok msg.
Proof.
  intros (Hok & Hd & Hnul & Hutf) [_ Hr]. unfold parse_json_rpc_message, c_read. rewrite Hr, c_string_id by done.
  cbn. rewrite Hutf. unfold message_from_str.
  pose proof (parse_message_text msg Hok Hd) as Hp. destruct (from_str _) as [v|]; [|done]. cbn in *.
  unfold validate_message in Hp. destruct (get v "jsonrpc" ≫= as_str) as [j|]; [|done]. cbn in Hp.
  destruct (String.eqb j "2.0"); [|done]. cbn in Hp. by rewrite Hp.
Qed.

(** A delivery, by the strings of what it carries. *)
Lemma deliver_owned {C A O} (k : channel_kind L C A) (write : A → memory → O * memory) (strings : O → list ptr)
    (texts : A → list (option string)) h ch a σ :
  (∀ a m, let '(o, m') := write a m in alloc_strings (texts a) m = (strings o, m')) →
  ∃ σ' o, deliver k write h ch a true σ = (σ', Some o, true) ∧
    Forall2 (reads (f_mem σ')) (strings o) (texts a) ∧ free_strings (strings o) (f_mem σ') = Some (f_mem σ) ∧
    o = (write a (f_mem σ)).1 ∧ f_store σ' = <[h := k_of k (k_take k ch)]> (f_store σ).
Proof.
  intros Hw. unfold deliver. cbn. specialize (Hw a (f_mem σ)). destruct (write a (f_mem σ)) as [o m'].
  pose proof (alloc_strings_spec (texts a) (f_mem σ)) as Hs. rewrite Hw in Hs. destruct Hs as (Hr & _ & Hf).
  by exists (with_mem (with_store σ (<[h:=k_of k (k_take k ch)]> (f_store σ))) m'), o.
Qed.

(** (C26) A request a C server receives: the call writes one struct, whose pointers are
    the payload, the method, the id, the client's key and the event id, each a string
    of its own ([NULL] for what the message has not) that reads as the SDK's string,
    truncated to the empty one if it has a NUL; the payload, given back to any function
    that takes a JSON payload, is parsed to the message that was received; the message
    leaves the channel, and [cvm_incoming_request_free] gives back exactly what the
    call allocated. *)
Theorem received_request_roundtrip h error σ ch incoming :
  get_object as_server h σ = Some ch → server_messages ch !! sch_read ch = Some incoming →
  ∃ σ' req, cvm_server_ch_recv h true error σ = Some (σ', Some req, true) ∧
    Forall2 (reads (f_mem σ')) (incoming_strings req)
      [Some (to_string (message_to_value (inc_message incoming))); msg_method (inc_message incoming);
       json_rpc_id_to_string <$> msg_id (inc_message incoming); Some (inc_client_pubkey incoming);
       Some (inc_event_id incoming)] ∧
    (c_text (inc_message incoming) → ∀ error' σ'',
       parse_json_rpc_message (c_read (f_mem σ') (fm_payload_json (fi_message req))) error' σ'' = Ok (inc_message incoming)) ∧
    cvm_incoming_request_free req (f_mem σ') = Some (f_mem σ) ∧
    server_messages <$> get_object as_server h σ' = Some (server_messages ch) ∧
    sch_read <$> get_object as_server h σ' = Some (S (sch_read ch)).
Proof.
  intros Hg Hm. unfold cvm_server_ch_recv, ch_recv. cbn [k_as server_kind]. rewrite Hg.
  unfold k_poll, poll_receiver. cbn [k_messages k_read server_kind]. rewrite Hm.
  destruct (deliver_owned server_kind incoming_to_ffi incoming_strings incoming_texts h ch incoming σ
    incoming_to_ffi_alloc) as (σ' & req & Hd & Hr & Hf & _ & Hs).
  exists σ', req. rewrite Hd. split_and!; try done.
  - intros Ht error' σ''. apply payload_parsed_back; [done|]. by inversion Hr.
  - unfold get_object. rewrite Hs, lookup_insert_eq. done.
  - unfold get_object. rewrite Hs, lookup_insert_eq. done.
Qed.
End received.

(** ** Arrays *)

(** A block that is not among them does not matter to the strings. *)
Lemma free_strings_frame ps p b m m1 :
  m !! p = None → free_strings ps m = Some m1 → free_strings ps (<[p := b]> m) = Some (<[p := b]> m1).
Proof.
  revert m. induction ps as [|s ps IH]; intros m Hp; cbn; [by intros [= <-]|].
  unfold cvm_string_free. destruct (s =? NULL) eqn:Es; cbn; [by apply IH|].
  destruct (m !! s) as [[t| |]|] eqn:Hs; try done. cbn. intros Hf.
  assert (s ≠ p) by congruence. rewrite lookup_insert_ne, Hs by done. cbn.
  rewrite delete_insert_ne by done. apply IH; [|done]. by rewrite lookup_delete_ne.
Qed.

Section arrays.
Context `{Keychain} `{NostrClient} `{MallocLaws} {L : Type → Type}.
Implicit Types σ : Ffi L.

(** What becomes of the memory [m] of a caller that got an array in the memory [m'] and
    frees it with its count; [None] is undefined behaviour. *)
Definition freed {A} (l : list A) (spare : nat) (m m' : memory) : option memory :=
  match l with
  | [] => Some m'
  | _ => if bool_decide (spare = 0%nat) then Some m else None
  end.

Lemma array_freed {A B} spare (f : A → memory → B * memory) (texts : A → list (option string))
    (strings : B → list ptr) (array : list B → c_array) (elements : c_array → option (list B)) (l : list A) σ
    (free : ptr → nat → memory → option memory) :
  (∀ a m, let '(b, m') := f a m in alloc_strings (texts a) m = (strings b, m')) →
  (∀ bs, elements (array bs) = Some bs) →
  (∀ p n m, p ≠ NULL → free p n m = (l ← slice elements p n m; m ← free_strings (l ≫= strings) m; drop_array p n m)) →
  let '(σ', (p, count)) := to_ffi_array spare f array l σ in
  count = length l ∧ free p count (f_mem σ') = freed l spare (f_mem σ) (f_mem σ') ∧
  (l = [] → f_mem σ' = if bool_decide (spare = 0%nat) then f_mem σ else <[p := ArrayBlock spare (array [])]> (f_mem σ)).
Proof.
  intros Hf He Hfree. unfold to_ffi_array. pose proof (map_alloc_strings f texts strings l (f_mem σ) Hf) as Ha.
  pose proof (map_alloc_length f l (f_mem σ)) as Hlen.
  destruct (map_alloc f l (f_mem σ)) as [bs m'] eqn:Em. cbn in Hlen.
  pose proof (alloc_strings_spec (l ≫= texts) (f_mem σ)) as Hs. rewrite Ha in Hs. destruct Hs as (_ & Hsub & Hstrings).
  pose proof dangling_not_null. pose proof (malloc_not_null m').
  destruct l as [|a l].
  - injection Em as <- <-. case_bool_decide as Hc; cbn in Hc |- *.
    + split_and!; [done|by rewrite Hfree|]. intros _. by rewrite bool_decide_eq_true_2 by lia.
    + split_and!; [done|by rewrite Hfree|]. intros _. by rewrite bool_decide_eq_false_2 by lia.
  - rewrite bool_decide_eq_false_2 by done. cbn [alloc]. set (p := malloc m'). pose proof (malloc_fresh m') as Hp.
    split_and!; [done| |done]. cbn [f_mem with_mem]. rewrite Hfree by done. unfold slice.
    rewrite bool_decide_eq_false_2, lookup_insert_eq by done. cbn [mbind option_bind]. rewrite He. cbn [mbind option_bind].
    rewrite bool_decide_eq_true_2 by lia. cbn [mbind option_bind]. rewrite <- Hlen, take_ge by lia.
    rewrite (free_strings_frame _ p _ _ _ Hp Hstrings). cbn [mbind option_bind].
    unfold drop_array. rewrite bool_decide_eq_false_2, lookup_insert_eq by (rewrite Hlen; done).
    assert (f_mem σ !! p = None) by by eapply lookup_weaken_None. unfold freed.
    destruct (decide (spare = 0%nat)) as [->|]; [rewrite !bool_decide_eq_true_2 by lia|rewrite !bool_decide_eq_false_2 by lia; done].
    by rewrite delete_insert_id.
Qed.

(** (C39) What discovery hands to C, freed with the count it was given.  If the vector
    that was collected had no spare capacity, the free function gives back exactly
    what the call allocated, the strings and the buffer; an empty one had no buffer.
    If it had spare capacity, an empty array leaks its buffer: nothing is freed; and
    for any other the free function passes the wrong capacity to the allocator, which
    is undefined behaviour. *)
Theorem array_free_needs_exact_capacity spare announcements tools profiles σ :
  (let '(σ', (p, count)) := announcements_to_ffi_array spare announcements σ in
   count = length announcements ∧
   cvm_announcements_free p count (f_mem σ') = freed announcements spare (f_mem σ) (f_mem σ') ∧
   (announcements = [] →
      f_mem σ' = if bool_decide (spare = 0%nat) then f_mem σ else <[p := ArrayBlock spare (Announcements [])]> (f_mem σ))) ∧
  (let '(σ', (p, count)) := tools_to_ffi_array spare tools σ in
   count = length tools ∧
   cvm_discovered_tools_free p count (f_mem σ') = freed tools spare (f_mem σ) (f_mem σ') ∧
   (tools = [] →
      f_mem σ' = if bool_decide (spare = 0%nat) then f_mem σ else <[p := ArrayBlock spare (Tools [])]> (f_mem σ))) ∧
  (let '(σ', (p, count)) := profiles_to_ffi_array spare profiles σ in
   count = length profiles ∧
   cvm_provider_profiles_free p count (f_mem σ') = freed profiles spare (f_mem σ) (f_mem σ') ∧
   (profiles = [] →
      f_mem σ' = if bool_decide (spare = 0%nat) then f_mem σ else <[p := ArrayBlock spare (Profiles [])]> (f_mem σ))).
Proof.
  split_and!.
  - eapply (array_freed _ _ _ announcement_strings _ as_announcements); [apply announcement_to_ffi_alloc|done|].
    intros p n m Hp%Z.eqb_neq. unfold cvm_announcements_free. by rewrite Hp.
  - eapply (array_freed _ _ _ tool_strings _ as_tools); [apply tool_to_ffi_alloc|done|].
    intros p n m Hp%Z.eqb_neq. unfold cvm_discovered_tools_free. by rewrite Hp.
  - eapply (array_freed _ _ _ profile_strings _ as_profiles); [apply profile_to_ffi_alloc|done|].
    intros p n m Hp%Z.eqb_neq. unfold cvm_provider_profiles_free. by rewrite Hp.
Qed.
End arrays.

(** ** Concrete runs *)

#[local] Existing Instances bits_serde bits_serde_laws bits_canon id_sha256.

(** A server channel, handle 1, with one notification to receive. *)
Definition demo_incoming : IncomingRequest := mkIncoming demo_message "alice" "e1" false None.
Definition demo_server_channel : ServerChannel list_cache :=
  let s := Server.with_relay_pool NostrServerTransportConfig_default 10 10 in
  let t := Server.transport s in
  mkServerChannel "key" NostrServerTransportConfig_default
    (Server.set_transport s (with_world t (set_incoming (t_world t) [demo_incoming]))) 0.
Definition demo_listening : Ffi list_cache := mkFfi 2 {[1 := OServer demo_server_channel]} ∅ ∅.

Lemma received_request_roundtrip_witness :
  ∃ σ' req, cvm_server_ch_recv 1 true None demo_listening = Some (σ', Some req, true) ∧
    c_read (f_mem σ') (fi_client_pubkey req) = Some "alice" ∧ cvm_incoming_request_free req (f_mem σ') = Some ∅.
Proof.
  destruct (received_request_roundtrip 1 None demo_listening demo_server_channel demo_incoming) as (σ' & req & Hr & Hs & _ & Hf & _);
    [reflexivity|reflexivity|].
  exists σ', req. split; [done|]. split; [|done]. unfold c_read.
  unfold incoming_strings, message_strings in Hs. cbn [app] in Hs. rewrite !Forall2_cons in Hs.
  destruct Hs as (_ & _ & _ & [_ Hp] & _). by rewrite Hp.
Defined.

Lemma array_free_needs_exact_capacity_witness :
  let tool := mkToolRecord "pk" None None None None None "echo" "says it again" "{}" in
  (let '(σ', (p, count)) := tools_to_ffi_array 0 [tool] demo_listening in
   cvm_discovered_tools_free p count (f_mem σ') = Some ∅) ∧
  (let '(σ', (p, count)) := tools_to_ffi_array 3 [] demo_listening in
   cvm_discovered_tools_free p count (f_mem σ') = Some {[p := ArrayBlock 3 (Tools [])]}).
Proof.
  intros tool. split.
  - destruct (array_free_needs_exact_capacity 0 [] [tool] [] demo_listening) as (_ & Ht & _).
    destruct (tools_to_ffi_array 0 [tool] demo_listening) as [σ' [p count]]. destruct Ht as (_ & -> & _). reflexivity.
  - destruct (array_free_needs_exact_capacity 3 [] [] [] demo_listening) as (_ & Ht & _).
    destruct (tools_to_ffi_array 3 [] demo_listening) as [σ' [p count]]. destruct Ht as (_ & -> & Hm). cbn. by rewrite Hm.
Defined.
