(* ===== verification/FfiEquivalence.v ===== *)
(** * The two foreign interfaces agree

    A call of the C interface on a valid handle, with the strings a Rust [String] can
    hold, is the call of the object interface on the channel behind the handle. *)

From S2P Require Import Prelude Json CoreTypes OversizedFrame OversizedCodec OversizedReceiver Instances Lru Authorization RouteStore SessionStore OpenStreamFrame OpenStreamSession OpenStreamRegistry OpenStreamWriter PaymentTypes ServerTasks ServerPayments BaseTransport Announcements Discovery ServerNegotiation ServerState ServerOutbound ServerStreams ServerInbound ClientPayments ClientState ClientOutbound ClientInbound Lifecycle FfiTypes FfiChannel FfiDiscovery Uniffi FfiInstances FfiCalls.

(** ** A configuration in C *)

Section configurations.
Implicit Types s : string.

(** Vectors as pointer and length, options as pointers, modes as their numbers. *)
Definition c_vec (l : list string) : c_str_array := Some (map Some l).
Definition c_encryption_mode (m : Uniffi.EncryptionMode) : Z :=
  match m with
  | Uniffi.Optional => ENCRYPTION_MODE_OPTIONAL
  | Uniffi.Required => ENCRYPTION_MODE_REQUIRED
  | Uniffi.Disabled => ENCRYPTION_MODE_DISABLED
  end.
Definition c_gift_wrap_mode (m : Uniffi.GiftWrapMode) : Z :=
  match m with
  | Uniffi.WrapOptional => GIFT_WRAP_MODE_OPTIONAL
  | Uniffi.WrapEphemeral => GIFT_WRAP_MODE_EPHEMERAL
  | Uniffi.WrapPersistent => GIFT_WRAP_MODE_PERSISTENT
  end.
Definition c_exclusion (x : Uniffi.CapabilityExclusion) : FfiCapabilityExclusion :=
  mkFfiExclusion (Some (Uniffi.exclusion_method x)) (Uniffi.exclusion_name x).
Definition c_server_config (c : Uniffi.ServerConfig) : FfiServerConfig :=
  mkFfiServerConfig (c_vec (Uniffi.s_relay_urls c)) (length (Uniffi.s_relay_urls c))
    (c_encryption_mode (Uniffi.s_encryption_mode c)) (c_gift_wrap_mode (Uniffi.s_gift_wrap_mode c))
    (Uniffi.s_is_announced_server c) (Uniffi.s_server_name c) (Uniffi.s_server_version c) (Uniffi.s_server_picture c)
    (Uniffi.s_server_about c) (Uniffi.s_server_website c)
    (c_vec (Uniffi.s_allowed_pubkeys c)) (length (Uniffi.s_allowed_pubkeys c))
    (Uniffi.s_session_timeout_secs c) (Uniffi.s_cleanup_interval_secs c)
    (Some (map c_exclusion (Uniffi.s_excluded_capabilities c))) (length (Uniffi.s_excluded_capabilities c))
    (Uniffi.s_max_sessions c) (Uniffi.s_request_timeout_secs c)
    (c_vec (Uniffi.s_relay_list_urls c)) (length (Uniffi.s_relay_list_urls c))
    (c_vec (Uniffi.s_bootstrap_relay_urls c)) (length (Uniffi.s_bootstrap_relay_urls c))
    (Uniffi.s_publish_relay_list c) (Uniffi.s_profile_metadata_json c).
Definition c_client_config (c : Uniffi.ClientConfig) : FfiClientConfig :=
  mkFfiClientConfig (c_vec (Uniffi.c_relay_urls c)) (length (Uniffi.c_relay_urls c)) (Some (Uniffi.c_server_pubkey c))
    (c_encryption_mode (Uniffi.c_encryption_mode c)) (c_gift_wrap_mode (Uniffi.c_gift_wrap_mode c))
    (Uniffi.c_is_stateless c) (Uniffi.c_timeout_secs c)
    (c_vec (Uniffi.c_discovery_relay_urls c)) (length (Uniffi.c_discovery_relay_urls c))
    (c_vec (Uniffi.c_fallback_operational_relay_urls c)) (length (Uniffi.c_fallback_operational_relay_urls c)).

(** The strings of a configuration are UTF-8, as every [String] is. *)
Definition utf8 s : Prop := valid_utf8 s = true.
Definition opt_utf8 (o : option string) : Prop := from_option utf8 True o.
Definition server_utf8 (c : Uniffi.ServerConfig) : Prop :=
  Forall utf8 (Uniffi.s_relay_urls c) ∧ Forall utf8 (Uniffi.s_allowed_pubkeys c) ∧
  Forall utf8 (Uniffi.s_relay_list_urls c) ∧ Forall utf8 (Uniffi.s_bootstrap_relay_urls c) ∧
  Forall (λ x, utf8 (Uniffi.exclusion_method x) ∧ opt_utf8 (Uniffi.exclusion_name x)) (Uniffi.s_excluded_capabilities c) ∧
  Forall opt_utf8 [Uniffi.s_server_name c; Uniffi.s_server_version c; Uniffi.s_server_picture c;
    Uniffi.s_server_about c; Uniffi.s_server_website c; Uniffi.s_profile_metadata_json c].
Definition client_utf8 (c : Uniffi.ClientConfig) : Prop :=
  utf8 (Uniffi.c_server_pubkey c) ∧ Forall utf8 (Uniffi.c_relay_urls c) ∧
  Forall utf8 (Uniffi.c_discovery_relay_urls c) ∧ Forall utf8 (Uniffi.c_fallback_operational_relay_urls c).

Context `{FfiText}.

Lemma strings_checked_utf8 name i l : Forall utf8 l → strings_checked name i (map Some l) = Ok l.
Proof.
  revert i. induction l as [|s l IH]; intros i Hl; [done|]. apply Forall_cons in Hl as [Hs Hl].
  cbn. rewrite Hs. cbn. by rewrite IH.
Qed.
Lemma array_utf8 l name : Forall utf8 l → c_str_array_to_vec_checked (c_vec l) (length l) name = Ok l.
Proof.
  intros Hl. unfold c_str_array_to_vec_checked, c_vec. case_bool_decide; [by destruct l|].
  rewrite take_ge by by rewrite length_map. by apply strings_checked_utf8.
Qed.
Lemma optional_utf8 o name : opt_utf8 o → optional_c_str_to_string_checked o name = Ok o.
Proof. destruct o as [s|]; cbn; [|done]. by intros ->. Qed.
Lemma exclusions_utf8 l :
  Forall (λ x, utf8 (Uniffi.exclusion_method x) ∧ opt_utf8 (Uniffi.exclusion_name x)) l →
  ffi_capability_exclusions_to_parts (Some (map c_exclusion l)) (length l) =
  Ok (map (λ x, mkExclusionParts (Uniffi.exclusion_method x) (Uniffi.exclusion_name x)) l).
Proof.
  intros Hl. unfold ffi_capability_exclusions_to_parts. case_bool_decide; [by destruct l|].
  rewrite take_ge by by rewrite length_map. clear -Hl. induction Hl as [|x l [Hm Hn] _ IH]; [done|].
  cbn. rewrite Hm. cbn. rewrite optional_utf8 by done. cbn. by rewrite IH.
Qed.
Lemma encryption_mode_c m : ffi_encryption_mode_to_sdk (c_encryption_mode m) = Ok (Uniffi.sdk_encryption_mode m).
Proof. by destruct m. Qed.
Lemma gift_wrap_mode_c m : ffi_gift_wrap_mode_to_sdk (c_gift_wrap_mode m) = Ok (Uniffi.sdk_gift_wrap_mode m).
Proof. by destruct m. Qed.

Lemma server_config_c c :
  server_utf8 c → build_sdk_server_config (c_server_config c) = build_sdk_server_config_from_fields (Uniffi.server_parts c).
Proof.
  intros (H1 & H2 & H3 & H4 & H5 & H6). unfold build_sdk_server_config, build_sdk_server_config_from_fields. cbn.
  rewrite !Forall_cons in H6. destruct H6 as (? & ? & ? & ? & ? & ? & _).
  by rewrite !array_utf8, exclusions_utf8, encryption_mode_c, gift_wrap_mode_c, !optional_utf8 by done.
Qed.
Lemma client_config_c c :
  client_utf8 c → build_sdk_client_config (c_client_config c) = Ok (build_sdk_client_config_from_fields (Uniffi.client_parts c)).
Proof.
  intros (H1 & H2 & H3 & H4). unfold build_sdk_client_config. cbn. rewrite H1. cbn.
  by rewrite !array_utf8, encryption_mode_c, gift_wrap_mode_c by done.
Qed.
End configurations.

(** ** The calls *)

Section calls.
Context `{Keychain} `{NostrClient} `{MallocLaws} `{FfiText} `{Lru L} `{SerdeJson} `{JsonCanon} `{Sha256}.
Variables max_entries max_pending : Z.
Implicit Types (σ : Ffi L) (w : world).

(** What the C interface makes of a constructor, of a method without a value, of one
    that returns a string, of one that ends the object, and of a send that started. *)
Definition c_new {C} (wrap : C → object L) (error : option nat) (made : call (result C FfiError)) σ : call (Ffi L * Z) :=
  match made with
  | Panicked => Panicked
  | Returned (Ok ch) => Returned (insert_object (wrap ch) σ)
  | Returned (Err e) => Returned (set_error error e σ, 0)
  end.
Section outcomes.
Context {C : Type} (wrap : C → object L) (h : Z) (error : option nat).
Definition c_unit {A} (r : C * result A FfiError) σ : Ffi L * bool :=
  let σ := put h (wrap r.1) σ in
  match r.2 with Ok _ => (σ, true) | Err e => (set_error error e σ, false) end.
Definition c_text_of (r : C * result string FfiError) σ : Ffi L * ptr :=
  let σ := put h (wrap r.1) σ in
  match r.2 with Ok s => return_string s σ | Err e => (set_error error e σ, NULL) end.
Definition c_end (r : C * result unit FfiError) σ : Ffi L * bool :=
  let σ := put h (wrap r.1) σ in
  match r.2 with Ok _ => ((remove h σ).1, true) | Err e => (set_error error e σ, false) end.
Definition c_send (r : C * result nat FfiError) σ : Ffi L * send_call :=
  let σ := put h (wrap r.1) σ in
  match r.2 with Ok task => (σ, SendAwaits task) | Err e => (set_error error e σ, SendEnded false) end.
(** An optional string; [NULL] is none. *)
Definition c_optional (r : result (option string) FfiError) σ : Ffi L * ptr :=
  match r with
  | Ok (Some s) => return_string s σ
  | Ok None => (σ, NULL)
  | Err e => (set_error error e σ, NULL)
  end.
(** A receive.  The object interface goes on waiting, fails, or takes a message; [same]
    compares the struct of C, if the caller wants one, with the record. *)
Definition recv_agrees {B O} (same : memory → O → B → Prop) (out : bool) σ
    (c : option (Ffi L * option O * bool)) (u : option (C * result B FfiError)) : Prop :=
  match u with
  | None => c = None
  | Some (_, Err e) => c = Some (set_error error e σ, None, false)
  | Some (ch, Ok b) =>
      ∃ m o, c = Some (with_mem (put h (wrap ch) σ) m, o, true) ∧
        if out then ∃ s, o = Some s ∧ same m s b else o = None ∧ m = f_mem σ
  end.
(** A call whose JSON argument is parsed to [parsed]: if that fails, both refuse with the
    parser's error, the object interface with the name of the argument before it. *)
Definition agrees_on_json {X B} (parsed : option X) (name what json : string) (bad : B) σ (c : Ffi L * B)
    (u : option FfiError) (agrees : Prop) : Prop :=
  match parsed with
  | Some _ => agrees
  | None =>
      c = (set_error error (mkFfiError CodeSerialization (serde_error what json)) σ, bad) ∧
      u = Some (mkFfiError CodeSerialization ("invalid " +:+ name +:+ ": " +:+ serde_error what json))
  end.
End outcomes.

Definition error_of {A} (r : result A FfiError) : option FfiError := match r with Ok _ => None | Err e => Some e end.

(** The string of a record at a pointer of C; an absent one is empty in the record. *)
Definition c_shows (m : memory) (p : ptr) (s : string) : Prop :=
  p = NULL ∧ s = "" ∨ p ≠ NULL ∧ m !! p = Some (CStringBlock (c_string s)).
Definition type_code (ty : Uniffi.JsonRpcMessageType) : Z :=
  match ty with
  | Uniffi.TypeRequest => JSON_RPC_TYPE_REQUEST
  | Uniffi.TypeResponse => JSON_RPC_TYPE_RESPONSE
  | Uniffi.TypeErrorResponse => JSON_RPC_TYPE_ERROR_RESPONSE
  | Uniffi.TypeNotification => JSON_RPC_TYPE_NOTIFICATION
  end.
Definition same_message (m : memory) (s : FfiJsonRpcMessage) (b : Uniffi.JsonRpcMessage) : Prop :=
  fm_msg_type s = type_code (Uniffi.msg_type b) ∧ c_shows m (fm_payload_json s) (Uniffi.payload_json b) ∧
  c_shows m (fm_method s) (Uniffi.method b) ∧ c_shows m (fm_id s) (Uniffi.id b).
Definition same_request (m : memory) (s : FfiIncomingRequest) (b : Uniffi.IncomingRequest) : Prop :=
  same_message m (fi_message s) (Uniffi.message b) ∧ c_shows m (fi_client_pubkey s) (Uniffi.client_pubkey b) ∧
  c_shows m (fi_event_id s) (Uniffi.event_id b) ∧ fi_is_encrypted s = Uniffi.is_encrypted b.

Lemma reads_shows m p o : reads m p o → c_shows m p (default "" o).
Proof. destruct o; [by right|by left]. Qed.
Lemma message_same msg m : let '(s, m') := message_to_ffi msg m in same_message m' s (Uniffi.message_to_uniffi msg).
Proof.
  pose proof (message_to_ffi_alloc msg m) as Ha. pose proof (alloc_strings_spec (message_texts msg) m) as Hs.
  assert (fm_msg_type (message_to_ffi msg m).1 = type_code (Uniffi.msg_type (Uniffi.message_to_uniffi msg))) as Ht.
  { unfold message_to_ffi. repeat case_match; simplify_eq/=; done. }
  destruct (message_to_ffi msg m) as [s m']. rewrite Ha in Hs. destruct Hs as (Hr & _).
  unfold message_strings, message_texts in Hr. rewrite !Forall2_cons in Hr. destruct Hr as (Hr1 & Hr2 & Hr3 & _).
  split_and!; [exact Ht|by apply (reads_shows _ _ (Some _))|by apply reads_shows|by apply reads_shows].
Qed.
Lemma request_same incoming m :
  let '(s, m') := incoming_to_ffi incoming m in same_request m' s (Uniffi.incoming_to_uniffi incoming).
Proof.
  pose proof (incoming_to_ffi_alloc incoming m) as Ha. pose proof (alloc_strings_spec (incoming_texts incoming) m) as Hs.
  assert (let s := (incoming_to_ffi incoming m).1 in fi_is_encrypted s = inc_is_encrypted incoming ∧
    fm_msg_type (fi_message s) = type_code (Uniffi.msg_type (Uniffi.message_to_uniffi (inc_message incoming)))) as [He Ht].
  { unfold incoming_to_ffi. pose proof (message_same (inc_message incoming) m) as Hm.
    destruct (message_to_ffi _ m). by destruct Hm as [? _]. }
  destruct (incoming_to_ffi incoming m) as [s m']. rewrite Ha in Hs. destruct Hs as (Hr & _).
  unfold incoming_strings, message_strings, incoming_texts, message_texts in Hr. cbn [app] in Hr.
  rewrite !Forall2_cons in Hr. destruct Hr as (Hr1 & Hr2 & Hr3 & Hr4 & Hr5 & _).
  split_and!; [|by apply (reads_shows _ _ (Some _))|by apply (reads_shows _ _ (Some _))|exact He].
  split_and!; [exact Ht|by apply (reads_shows _ _ (Some _))|by apply reads_shows|by apply reads_shows].
Qed.

Lemma parse_message_c payload error σ :
  utf8 payload →
  parse_json_rpc_message (Some payload) error σ =
  match Uniffi.parse_json_rpc payload with Ok m => Ok m | Err e => Err (set_error error e σ) end.
Proof.
  unfold parse_json_rpc_message, Uniffi.parse_json_rpc. cbn. intros ->. by destruct (message_from_str payload).
Qed.

Lemma c_string_arg s : utf8 s → c_str_to_string (Some s) = Some s.
Proof. cbn. by intros ->. Qed.

(** A handle that keeps its channel. *)
Lemma put_same {C} (as_c : object L → option C) (wrap : C → object L) h ch σ :
  (∀ o ch, as_c o = Some ch → o = wrap ch) → get_object as_c h σ = Some ch → put h (wrap ch) σ = σ.
Proof.
  intros Hw (o & Ho & Hc)%get_object_type. destruct σ. cbn in *. unfold put, with_store. cbn.
  rewrite <- (Hw _ _ Hc), insert_id by done. done.
Qed.
Lemma put_server h ch σ : get_object as_server h σ = Some ch → put h (OServer ch) σ = σ.
Proof. apply put_same. by intros [] ? [= <-]. Qed.
Lemma put_client h ch σ : get_object as_client h σ = Some ch → put h (OClient ch) σ = σ.
Proof. apply put_same. by intros [] ? [= <-]. Qed.
Lemma put_gateway h ch σ : get_object as_gateway h σ = Some ch → put h (OGateway ch) σ = σ.
Proof. apply put_same. by intros [] ? [= <-]. Qed.
Lemma put_proxy h ch σ : get_object as_proxy h σ = Some ch → put h (OProxy ch) σ = σ.
Proof. apply put_same. by intros [] ? [= <-]. Qed.
Ltac put_back Hg :=
  first [rewrite (put_server _ _ _ Hg)|rewrite (put_client _ _ _ Hg)|rewrite (put_gateway _ _ _ Hg)|rewrite (put_proxy _ _ _ Hg)].

(** One method: the body on the channel is the method, a refusal leaving the channel. *)
Ltac same_method Hg :=
  unfold on_channel; rewrite Hg;
  repeat match goal with Hc : c_str_to_string _ = _ |- _ => rewrite ?Hc; clear Hc end;
  repeat match goal with Hp : utf8 ?p |- context [parse_json_rpc_message (Some ?p)] => rewrite (parse_message_c p) by done end;
  unfold c_unit, c_text_of, c_end, c_send, finish, finish_id, Uniffi.ffi_result;
  repeat match goal with
         | |- context [match ?x with _ => _ end] =>
             lazymatch x with context [match _ with _ => _ end] => fail | _ => destruct x; cbn [fst snd map_err result_bind] end
         end;
  try done; by put_back Hg.

(** *** The methods of each object *)

(** The arguments of the calls. *)
Record call_args : Type := mkArgs {
  a_event_id : string;
  a_client : string;
  a_payload : string;
  a_correlated : option string;
  a_json : string;
  a_reason : string;
}.
Definition args_utf8 (x : call_args) : Prop :=
  utf8 (a_event_id x) ∧ utf8 (a_client x) ∧ utf8 (a_payload x) ∧ opt_utf8 (a_correlated x) ∧ utf8 (a_json x) ∧
  utf8 (a_reason x).

(** A list to publish. *)
Definition publish_agrees w h error σ (x : call_args) (ch : ServerChannel L) (name : string)
    (c : world → Z → c_str → option nat → Ffi L → Ffi L * ptr)
    (u : world → string → ServerChannel L → result string FfiError) : Prop :=
  let published := c w h (Some (a_json x)) error σ in
  agrees_on_json error (values_from_str (a_json x)) name "Vec<Value>" (a_json x) NULL σ published
    (error_of (u w (a_json x) ch)) (published = c_text_of OServer h error (ch, u w (a_json x) ch) σ).
(** Tags to announce with. *)
Definition tags_agree h error σ (x : call_args) (ch : ServerChannel L)
    (c : Z → c_str → option nat → Ffi L → Ffi L * bool)
    (u : string → ServerChannel L → ServerChannel L * result unit FfiError) : Prop :=
  let set := c h (Some (a_json x)) error σ in
  (string_lists_from_str (a_json x) = None → (u (a_json x) ch).1 = ch) ∧
  agrees_on_json error (string_lists_from_str (a_json x)) "tags_json" "Vec<Vec<String>>" (a_json x) false σ set
    (error_of (u (a_json x) ch).2) (set = c_unit OServer h error (u (a_json x) ch) σ).

Definition server_agrees w h error σ (x : call_args) (elapsed out : bool) (ch : ServerChannel L) : Prop :=
  cvm_server_ch_send_response w h (Some (a_event_id x)) (Some (a_payload x)) error σ =
    c_unit OServer h error (Uniffi.Server_send_response w (a_event_id x) (a_payload x) ch) σ ∧
  cvm_server_ch_send_notification h (Some (a_client x)) (Some (a_payload x)) (a_correlated x) error σ =
    c_unit OServer h error (Uniffi.Server_send_notification (a_client x) (a_payload x) (a_correlated x) ch) σ ∧
  cvm_server_ch_broadcast_notification h (Some (a_payload x)) error σ =
    c_unit OServer h error (Uniffi.Server_broadcast_notification (a_payload x) ch) σ ∧
  tags_agree h error σ x ch cvm_server_ch_set_announcement_extra_tags Uniffi.Server_set_announcement_extra_tags ∧
  tags_agree h error σ x ch cvm_server_ch_set_announcement_pricing_tags Uniffi.Server_set_announcement_pricing_tags ∧
  cvm_server_ch_announce w h error σ = c_unit OServer h error (Uniffi.Server_announce w ch) σ ∧
  cvm_server_ch_announce_event_id w h error σ = c_text_of OServer h error (Uniffi.Server_announce_event_id w ch) σ ∧
  publish_agrees w h error σ x ch "tools_json" cvm_server_ch_publish_tools Uniffi.Server_publish_tools ∧
  publish_agrees w h error σ x ch "resources_json" cvm_server_ch_publish_resources Uniffi.Server_publish_resources ∧
  publish_agrees w h error σ x ch "prompts_json" cvm_server_ch_publish_prompts Uniffi.Server_publish_prompts ∧
  publish_agrees w h error σ x ch "templates_json" cvm_server_ch_publish_resource_templates
    Uniffi.Server_publish_resource_templates ∧
  cvm_server_ch_delete_announcements w h (Some (a_reason x)) error σ =
    c_unit OServer h error (ch, Uniffi.Server_delete_announcements w (a_reason x)) σ ∧
  cvm_server_ch_close w h error σ = c_end OServer h error (Uniffi.Server_close w ch) σ ∧
  recv_agrees OServer h error same_request out σ (cvm_server_ch_recv h out error σ) (Uniffi.Server_recv ch) ∧
  recv_agrees OServer h error same_request out σ (cvm_server_ch_recv_timeout elapsed h out error σ)
    (Uniffi.Server_recv_timeout elapsed false ch).

Definition gateway_agrees w h error σ (x : call_args) (elapsed out : bool) (ch : GatewayChannel L) : Prop :=
  cvm_gateway_ch_send_response w h (Some (a_event_id x)) (Some (a_payload x)) error σ =
    c_unit OGateway h error (Uniffi.Gateway_send_response w (a_event_id x) (a_payload x) ch) σ ∧
  cvm_gateway_ch_announce w h error σ = c_unit OGateway h error (Uniffi.Gateway_announce w ch) σ ∧
  cvm_gateway_ch_announce_event_id w h error σ = c_text_of OGateway h error (Uniffi.Gateway_announce_event_id w ch) σ ∧
  cvm_gateway_ch_is_active h error σ = (σ, Uniffi.Gateway_is_active ch) ∧
  cvm_gateway_ch_stop w h error σ = c_end OGateway h error (Uniffi.Gateway_stop w ch) σ ∧
  recv_agrees OGateway h error same_request out σ (cvm_gateway_ch_recv h out error σ) (Uniffi.Gateway_recv ch) ∧
  recv_agrees OGateway h error same_request out σ (cvm_gateway_ch_recv_timeout elapsed h out error σ)
    (Uniffi.Gateway_recv_timeout elapsed false ch).

Definition client_agrees w h error σ (x : call_args) (elapsed out : bool) (ch : ClientChannel L) : Prop :=
  let caps := Uniffi.Client_discovered_server_capabilities ch in
  cvm_client_ch_send h (Some (a_payload x)) error σ = c_send OClient h error (Uniffi.Client_send (a_payload x) ch) σ ∧
  (∀ task, cvm_client_ch_send_resume ch task error σ =
     r ← Uniffi.Client_send_resume task ch; Some (c_unit OClient h error (ch, r) σ)) ∧
  cvm_client_ch_discovered_server_capabilities h true error σ =
    (σ, (Some (mkFfiCapabilities (Uniffi.supports_encryption caps) (Uniffi.supports_ephemeral_encryption caps)
                 (Uniffi.supports_oversized_transfer caps)), true)) ∧
  cvm_client_ch_server_supports_ephemeral_encryption h error σ =
    (σ, Uniffi.Client_server_supports_ephemeral_encryption ch) ∧
  cvm_client_ch_server_initialize_event_json h error σ =
    c_optional error (Uniffi.Client_server_initialize_event_json ch) σ ∧
  cvm_client_ch_close w h error σ = c_end OClient h error (Uniffi.Client_close w ch) σ ∧
  recv_agrees OClient h error same_message out σ (cvm_client_ch_recv h out error σ) (Uniffi.Client_recv ch) ∧
  recv_agrees OClient h error same_message out σ (cvm_client_ch_recv_timeout elapsed h out error σ)
    (Uniffi.Client_recv_timeout elapsed false ch).

Definition proxy_agrees w h error σ (x : call_args) (elapsed out : bool) (ch : ProxyChannel L) : Prop :=
  cvm_proxy_ch_send h (Some (a_payload x)) error σ = c_send OProxy h error (Uniffi.Proxy_send (a_payload x) ch) σ ∧
  (∀ task, cvm_proxy_ch_send_resume ch task error σ =
     r ← Uniffi.Proxy_send_resume task ch; Some (c_unit OProxy h error (ch, r) σ)) ∧
  cvm_proxy_ch_is_active h error σ = (σ, Uniffi.Proxy_is_active ch) ∧
  cvm_proxy_ch_stop w h error σ = c_end OProxy h error (Uniffi.Proxy_stop w ch) σ ∧
  recv_agrees OProxy h error same_message out σ (cvm_proxy_ch_recv h out error σ) (Uniffi.Proxy_recv ch) ∧
  recv_agrees OProxy h error same_message out σ (cvm_proxy_ch_recv_timeout elapsed h out error σ)
    (Uniffi.Proxy_recv_timeout elapsed false ch).

Lemma recv_c {C A B O} (k : channel_kind L C A) (write : A → memory → O * memory) (to_uniffi : A → B)
    (same : memory → O → B → Prop) elapsed out h error σ ch :
  (∀ a m, let '(s, m') := write a m in same m' s (to_uniffi a)) → get_object (k_as k) h σ = Some ch →
  recv_agrees (k_of k) h error same out σ (ch_recv k write h out error σ) (Uniffi.recv_channel k to_uniffi ch) ∧
  recv_agrees (k_of k) h error same out σ (ch_recv_timeout k write elapsed h out error σ)
    (Uniffi.recv_channel_timeout k to_uniffi elapsed false ch).
Proof.
  intros Hw Hg. unfold ch_recv, ch_recv_timeout, Uniffi.recv_channel, Uniffi.recv_channel_timeout. rewrite Hg.
  assert (∀ a, recv_agrees (k_of k) h error same out σ (Some (deliver k write h ch a out σ))
    (Some (k_take k ch, Ok (to_uniffi a)))) as Hd.
  { intros a. unfold deliver, recv_agrees. specialize (Hw a (f_mem σ)). destruct out; cbn.
    - destruct (write a (f_mem σ)) as [s m']. by exists m', (Some s); eauto.
    - by exists (f_mem σ), None. }
  split; destruct (k_poll k ch); try apply Hd; try destruct elapsed; done.
Qed.

Lemma publish_json_c w h error σ x ch name kind :
  get_object as_server h σ = Some ch → utf8 (a_json x) →
  publish_agrees w h error σ x ch name (λ w, publish_json w name kind) (λ w, Uniffi.Server_publish w name kind).
Proof.
  intros Hg Hj. unfold publish_agrees, agrees_on_json, publish_json, publish_server_values, on_channel,
    Uniffi.Server_publish, parse_json_value_array, Uniffi.parse_json_value_array.
  rewrite (c_string_arg _ Hj), Hg. destruct (values_from_str (a_json x)); cbn [result_bind]; [|done].
  unfold c_text_of, finish_id, Uniffi.ffi_result. cbn [fst snd]. rewrite (put_server _ _ _ Hg).
  by destruct (publish_list_kind _ _ _ _).
Qed.
Lemma tags_json_c h error σ x ch :
  get_object as_server h σ = Some ch → utf8 (a_json x) →
  tags_agree h error σ x ch cvm_server_ch_set_announcement_extra_tags Uniffi.Server_set_announcement_extra_tags ∧
  tags_agree h error σ x ch cvm_server_ch_set_announcement_pricing_tags Uniffi.Server_set_announcement_pricing_tags.
Proof.
  intros Hg Hj. unfold tags_agree, agrees_on_json, cvm_server_ch_set_announcement_extra_tags,
    cvm_server_ch_set_announcement_pricing_tags, on_channel, Uniffi.Server_set_announcement_extra_tags,
    Uniffi.Server_set_announcement_pricing_tags, parse_tags_json, Uniffi.parse_tags_json.
  rewrite (c_string_arg _ Hj), Hg. destruct (string_lists_from_str (a_json x)) as [parts|]; [|done].
  unfold c_unit. destruct (parse_tags parts); cbn [map_err fst snd]; rewrite ?(put_server _ _ _ Hg); done.
Qed.

Lemma server_methods w h error σ x elapsed out ch :
  args_utf8 x → get_object as_server h σ = Some ch → server_agrees w h error σ x elapsed out ch.
Proof.
  intros (He & Hc & Hp & Hcor & Hj & Hr) Hg.
  assert (c_str_to_string (a_correlated x) = a_correlated x) as Hcc
    by (destruct (a_correlated x); cbn in *; [by rewrite Hcor|done]).
  apply c_string_arg in He, Hc, Hr. destruct (tags_json_c h error σ x ch Hg Hj).
  destruct (recv_c server_kind incoming_to_ffi Uniffi.incoming_to_uniffi same_request elapsed out h error σ ch request_same Hg).
  split_and!; try (by apply publish_json_c); try done;
    unfold cvm_server_ch_send_response, cvm_server_ch_send_notification, cvm_server_ch_broadcast_notification,
      cvm_server_ch_announce, cvm_server_ch_announce_event_id, cvm_server_ch_close, cvm_server_ch_delete_announcements,
      Uniffi.Server_send_response, Uniffi.Server_send_notification, Uniffi.Server_broadcast_notification,
      Uniffi.Server_announce, Uniffi.Server_announce_event_id, Uniffi.Server_close, Uniffi.Server_delete_announcements;
    same_method Hg.
Qed.
Lemma gateway_methods w h error σ x elapsed out ch :
  args_utf8 x → get_object as_gateway h σ = Some ch → gateway_agrees w h error σ x elapsed out ch.
Proof.
  intros (He & _ & Hp & _) Hg. apply c_string_arg in He.
  destruct (recv_c gateway_kind incoming_to_ffi Uniffi.incoming_to_uniffi same_request elapsed out h error σ ch request_same Hg).
  split_and!; try done;
    unfold cvm_gateway_ch_send_response, cvm_gateway_ch_announce, cvm_gateway_ch_announce_event_id,
      cvm_gateway_ch_is_active, cvm_gateway_ch_stop, Uniffi.Gateway_send_response, Uniffi.Gateway_announce,
      Uniffi.Gateway_announce_event_id, Uniffi.Gateway_is_active, Uniffi.Gateway_stop; same_method Hg.
Qed.
Lemma client_methods w h error σ x elapsed out ch :
  args_utf8 x → get_object as_client h σ = Some ch → client_agrees w h error σ x elapsed out ch.
Proof.
  intros (_ & _ & Hp & _) Hg.
  destruct (recv_c client_kind message_to_ffi Uniffi.message_to_uniffi same_message elapsed out h error σ ch message_same Hg).
  split_and!; try done.
  - unfold cvm_client_ch_send, Uniffi.Client_send. same_method Hg.
  - intros task. unfold cvm_client_ch_send_resume, Uniffi.Client_send_resume, c_unit. cbn [fst snd].
    put_back Hg. by destruct (send_result _ task) as [[]|].
  - unfold cvm_client_ch_discovered_server_capabilities, on_channel. by rewrite Hg.
  - unfold cvm_client_ch_server_supports_ephemeral_encryption, on_channel. by rewrite Hg.
  - unfold cvm_client_ch_server_initialize_event_json, Uniffi.Client_server_initialize_event_json, on_channel, c_optional.
    rewrite Hg. destruct (get_server_initialize_event _) as [ev|]; [|done]. by destruct (event_json ev).
  - unfold cvm_client_ch_close, Uniffi.Client_close. same_method Hg.
Qed.
Lemma proxy_methods w h error σ x elapsed out ch :
  args_utf8 x → get_object as_proxy h σ = Some ch → proxy_agrees w h error σ x elapsed out ch.
Proof.
  intros (_ & _ & Hp & _) Hg.
  destruct (recv_c proxy_kind message_to_ffi Uniffi.message_to_uniffi same_message elapsed out h error σ ch message_same Hg).
  split_and!; try done.
  - unfold cvm_proxy_ch_send, Uniffi.Proxy_send. same_method Hg.
  - intros task. unfold cvm_proxy_ch_send_resume, Uniffi.Proxy_send_resume, c_unit. cbn [fst snd].
    put_back Hg. by destruct (send_result _ task) as [[]|].
  - unfold cvm_proxy_ch_is_active, on_channel. by rewrite Hg.
  - unfold cvm_proxy_ch_stop, Uniffi.Proxy_stop. same_method Hg.
Qed.

Lemma ffi_call_new {C} (wrap : C → object L) error made σ :
  c_new wrap error (Uniffi.ffi_call made) σ = finish_new wrap error made σ.
Proof. by destruct made as [[]|]. Qed.

(** (C38) The constructors of the two foreign interfaces make the same thing.  Whatever
    the relays answer, a C constructor on a valid key handle, given a configuration in
    C's types, behaves as the constructor of the object interface on those keys and
    that configuration: it panics, refuses with the same error, or makes the same
    channel, which becomes the next handle. *)
Theorem constructors_agree w error σ h keys sconfig cconfig :
  get_object as_keys h σ = Some keys → server_utf8 sconfig → client_utf8 cconfig →
  cvm_server_ch_new max_entries max_pending w h (c_server_config sconfig) error σ =
    c_new OServer error (Uniffi.Server_new max_entries max_pending w keys sconfig) σ ∧
  cvm_gateway_ch_new max_entries max_pending w h (c_server_config sconfig) error σ =
    c_new OGateway error (Uniffi.Gateway_new max_entries max_pending w keys sconfig) σ ∧
  cvm_client_ch_new w h (c_client_config cconfig) error σ = c_new OClient error (Uniffi.Client_new w keys cconfig) σ ∧
  cvm_proxy_ch_new w h (c_client_config cconfig) error σ = c_new OProxy error (Uniffi.Proxy_new w keys cconfig) σ.
Proof.
  intros Hk Hs Hc.
  unfold cvm_server_ch_new, cvm_gateway_ch_new, cvm_client_ch_new, cvm_proxy_ch_new, get_keys, Uniffi.Server_new,
    Uniffi.Gateway_new, Uniffi.Client_new, Uniffi.Proxy_new.
  rewrite Hk, (server_config_c _ Hs), (client_config_c _ Hc), !ffi_call_new.
  by destruct (build_sdk_server_config_from_fields _); rewrite ?ffi_call_new.
Qed.

(** (C24) The methods of the two foreign interfaces do the same thing.  On a handle of
    a server, client, gateway or proxy, every C call with UTF-8 strings leaves in the
    table the channel the method of the object interface leaves, and reports success,
    the same value or the same error; only a JSON list that does not parse is refused
    with another text, the object interface naming the argument before the parser's
    message.  Closing also retires the handle, and only when the method succeeded.  A
    receive on a receiver no other call holds goes on waiting, ends with the same
    error, or takes the same message: the struct of C, if the caller passed a place for
    one, shows the strings of the record (none where the record has the empty one). *)
Theorem methods_agree w error σ h x elapsed out :
  args_utf8 x →
  (∀ ch, get_object as_server h σ = Some ch → server_agrees w h error σ x elapsed out ch) ∧
  (∀ ch, get_object as_gateway h σ = Some ch → gateway_agrees w h error σ x elapsed out ch) ∧
  (∀ ch, get_object as_client h σ = Some ch → client_agrees w h error σ x elapsed out ch) ∧
  (∀ ch, get_object as_proxy h σ = Some ch → proxy_agrees w h error σ x elapsed out ch).
Proof.
  intros Hx. split_and!; intros ch Hg;
    [by apply server_methods|by apply gateway_methods|by apply client_methods|by apply proxy_methods].
Qed.
End calls.

(** ** Concrete calls *)

#[local] Existing Instances bits_serde bits_canon id_sha256.

Definition demo_keyed : Ffi list_cache := (cvm_keys_generate demo_world ffi_start).1.
Definition demo_proxied : Ffi list_cache :=
  match cvm_client_ch_new demo_world 1 demo_client_fields None demo_keyed with
  | Returned (σ, _) => σ
  | Panicked => demo_keyed
  end.

Lemma constructors_agree_witness :
  ∃ ch, Uniffi.Server_new (L := list_cache) 10 10 demo_world "key" Uniffi.ServerConfig_default = Returned (Ok ch) ∧
    cvm_server_ch_new 10 10 demo_world 1 (c_server_config Uniffi.ServerConfig_default) None demo_keyed =
    Returned (insert_object (OServer ch) demo_keyed).
Proof.
  destruct (constructors_agree (L := list_cache) 10 10 demo_world None demo_keyed 1 "key" Uniffi.ServerConfig_default
    Uniffi.ClientConfig_default) as [Hs _]; [reflexivity|repeat (constructor; try reflexivity)..|].
  rewrite Hs. destruct (Uniffi.Server_new 10 10 demo_world _ _) as [[ch|]|] eqn:E;
    [by exists ch|discriminate E..].
Defined.

(** Text that is no JSON is refused, and the client is told why. *)
Lemma methods_agree_witness :
  ∃ ch, get_object as_client 2 demo_proxied = Some ch ∧
    cvm_client_ch_send 2 (Some "?") None demo_proxied = c_send OClient 2 None (Uniffi.Client_send "?" ch) demo_proxied ∧
    (cvm_client_ch_send 2 (Some "?") None demo_proxied).2 = SendEnded false.
Proof.
  destruct (get_object as_client 2 demo_proxied) as [ch|] eqn:E; [|discriminate E].
  destruct (methods_agree demo_world None demo_proxied 2 (mkArgs "e" "alice" "?" None "[]" "") true true)
    as (_ & _ & Hc & _); [by split_and!|].
  exists ch. split; [done|]. destruct (Hc ch E) as [Hs _]. cbn [a_payload] in Hs. rewrite Hs. split; [done|]. vm_compute. reflexivity.
Defined.
