(* ===== verification/FfiReceive.v ===== *)
(** * The foreign interface: threads that receive

    A channel has one receiver, behind a lock that serves its waiters in order.  The
    receive functions of both interfaces, called by any number of threads, as a
    machine: a [Poll] runs the future of one call until it waits or completes, which
    releases the lock; the call returns, with what it converted, in a later step. *)

From Stdlib Require Import Sorting.Sorted.
From S2P Require Import Prelude Json CoreTypes ServerTasks BaseTransport Discovery Lifecycle FfiTypes FfiChannel.

(** ** The machine *)

(** [cvm_*_recv] and [recv] are the same future; a timed receive of C takes the lock
    before it starts its timer, one of the object interface after. *)
Inductive receive : Type :=
| Recv
| CTimed (timeout_secs : Z)
| UTimed (timeout_secs : Z)
| UTry.

(** [deadline] is set when the timer starts. *)
Record caller : Type := mkCaller {
  c_receive : receive;
  c_deadline : option Z;
}.

Inductive outcome (A : Type) : Type :=
| Got (a : A)
| Ended (e : FfiError)
| Empty.
Arguments Got {A}.
Arguments Ended {A}.
Arguments Empty {A}.

(** A future that completed: the call, its number and the time it began, the time it
    completed and with what. *)
Record completion (A : Type) : Type := mkCompletion {
  cm_thread : nat;
  cm_receive : receive;
  cm_ticket : nat;
  cm_begun : Z;
  cm_at : Z;
  cm_outcome : outcome A;
}.
Arguments mkCompletion {A}.
Arguments cm_thread {A}.
Arguments cm_receive {A}.
Arguments cm_ticket {A}.
Arguments cm_begun {A}.
Arguments cm_at {A}.
Arguments cm_outcome {A}.

(** The channel; the lock with its holder and its queue; the calls that wait, with the
    number and the time each began; the futures that completed, oldest first; the calls
    that still have to return what theirs completed with, and what the others
    returned. *)
Record Inbox (A : Type) : Type := mkInbox {
  ib_messages : list A;
  ib_read : nat;
  ib_open : bool;
  ib_now : Z;
  ib_holder : option nat;
  ib_waiting : list nat;
  ib_callers : gmap nat caller;
  ib_begun : gmap nat (nat * Z);
  ib_next : nat;
  ib_completed : list (completion A);
  ib_finishing : gmap nat (outcome A);
  ib_returned : list (nat * outcome A);
}.
Arguments mkInbox {A}.
Arguments ib_messages {A}.
Arguments ib_read {A}.
Arguments ib_open {A}.
Arguments ib_now {A}.
Arguments ib_holder {A}.
Arguments ib_waiting {A}.
Arguments ib_callers {A}.
Arguments ib_begun {A}.
Arguments ib_next {A}.
Arguments ib_completed {A}.
Arguments ib_finishing {A}.
Arguments ib_returned {A}.

Section machine.
Context {A : Type}.
Implicit Types (b : Inbox A) (t : nat).

Definition inbox_new : Inbox A := mkInbox [] 0 true 0 None [] ∅ ∅ 0 [] ∅ [].

Definition set_channel b (messages : list A) (open : bool) (now : Z) : Inbox A :=
  mkInbox messages (ib_read b) open now (ib_holder b) (ib_waiting b) (ib_callers b) (ib_begun b) (ib_next b)
    (ib_completed b) (ib_finishing b) (ib_returned b).
Definition set_lock b (holder : option nat) (waiting : list nat) (callers : gmap nat caller) : Inbox A :=
  mkInbox (ib_messages b) (ib_read b) (ib_open b) (ib_now b) holder waiting callers (ib_begun b) (ib_next b)
    (ib_completed b) (ib_finishing b) (ib_returned b).

(** The future of [t] completes; its guard and its place in the queue go with it. *)
Definition complete t (c : caller) (read : nat) (o : outcome A) b : Inbox A :=
  let call := default (0%nat, 0) (ib_begun b !! t) in
  mkInbox (ib_messages b) read (ib_open b) (ib_now b)
    (if bool_decide (ib_holder b = Some t) then None else ib_holder b)
    (List.filter (λ t', negb (Nat.eqb t' t)) (ib_waiting b)) (delete t (ib_callers b)) (ib_begun b) (ib_next b)
    (ib_completed b ++ [mkCompletion t (c_receive c) call.1 call.2 (ib_now b) o]) (<[t := o]> (ib_finishing b))
    (ib_returned b).

Definition elapsed b (c : caller) : bool :=
  match c_deadline c with Some d => d <=? ib_now b | None => false end.

(** [lock().await]: the lock is [t]'s, or it is free and [t] is next. *)
Definition has_lock t b : bool :=
  bool_decide (ib_holder b = Some t) || (bool_decide (ib_holder b = None) && bool_decide (head (ib_waiting b) = Some t)).
Definition lock t b : Inbox A := set_lock b (Some t) (List.filter (λ t', negb (Nat.eqb t' t)) (ib_waiting b)) (ib_callers b).

(** The timer of a timed receive of C starts once the lock is held. *)
Definition start_timer t (c : caller) b : caller * Inbox A :=
  match c_receive c, c_deadline c with
  | CTimed secs, None =>
      let c := mkCaller (c_receive c) (Some (ib_now b + secs)) in
      (c, set_lock b (ib_holder b) (ib_waiting b) (<[t := c]> (ib_callers b)))
  | _, _ => (c, b)
  end.

(** [recv().await] inside its timer: the receiver is polled before the timer. *)
Definition poll_locked t (c : caller) b : Inbox A :=
  match poll_receiver (ib_messages b) (ib_read b) (ib_open b) with
  | Ready a => complete t c (S (ib_read b)) (Got a) b
  | Closed => complete t c (ib_read b) (Ended channel_closed) b
  | Pending => if elapsed b c then complete t c (ib_read b) (Ended receive_timed_out) b else b
  end.
Definition poll_waiting t (c : caller) b : Inbox A :=
  if has_lock t b then let '(c, b) := start_timer t c (lock t b) in poll_locked t c b
  else if elapsed b c then complete t c (ib_read b) (Ended receive_timed_out) b else b.
(** [try_lock] and [try_recv]; the lock of a free receiver goes to its waiters. *)
Definition poll_try t (c : caller) b : Inbox A :=
  if bool_decide (ib_holder b = None) && bool_decide (ib_waiting b = []) then
    match poll_receiver (ib_messages b) (ib_read b) (ib_open b) with
    | Ready a => complete t c (S (ib_read b)) (Got a) b
    | Closed => complete t c (ib_read b) (Ended channel_closed) b
    | Pending => complete t c (ib_read b) Empty b
    end
  else complete t c (ib_read b) Empty b.
Definition poll_call t (c : caller) b : Inbox A :=
  match c_receive c with UTry => poll_try t c b | _ => poll_waiting t c b end.

Inductive inbox_event : Type :=
| Push (a : A)
| DropSender
| Tick
| Begin (t : nat) (r : receive)
| Poll (t : nat)
| Return (t : nat).

Definition begin_call t (r : receive) b : Inbox A :=
  let c := mkCaller r (match r with UTimed secs => Some (ib_now b + secs) | _ => None end) in
  mkInbox (ib_messages b) (ib_read b) (ib_open b) (ib_now b) (ib_holder b)
    (match r with UTry => ib_waiting b | _ => ib_waiting b ++ [t] end) (<[t := c]> (ib_callers b))
    (<[t := (ib_next b, ib_now b)]> (ib_begun b)) (S (ib_next b)) (ib_completed b) (ib_finishing b) (ib_returned b).
(** The message is converted and the call returns. *)
Definition return_call t (o : outcome A) b : Inbox A :=
  mkInbox (ib_messages b) (ib_read b) (ib_open b) (ib_now b) (ib_holder b) (ib_waiting b) (ib_callers b) (ib_begun b)
    (ib_next b) (ib_completed b) (delete t (ib_finishing b)) (ib_returned b ++ [(t, o)]).

Definition inbox_step b (e : inbox_event) : Inbox A :=
  match e with
  | Push a => if ib_open b then set_channel b (ib_messages b ++ [a]) true (ib_now b) else b
  | DropSender => set_channel b (ib_messages b) false (ib_now b)
  | Tick => set_channel b (ib_messages b) (ib_open b) (ib_now b + 1)
  | Begin t r =>
      match ib_callers b !! t, ib_finishing b !! t with
      | None, None => begin_call t r b
      | _, _ => b
      end
  | Poll t => match ib_callers b !! t with Some c => poll_call t c b | None => b end
  | Return t => match ib_finishing b !! t with Some o => return_call t o b | None => b end
  end.
Definition inbox_run b (events : list inbox_event) : Inbox A := foldl inbox_step b events.

(** The messages the completed futures took, in order. *)
Definition taken (cs : list (completion A)) : list A :=
  omap (λ c, match cm_outcome c with Got a => Some a | _ => None end) cs.
(** The messages sent before the sender was dropped. *)
Fixpoint sent (events : list inbox_event) : list A :=
  match events with
  | [] => []
  | Push a :: events => a :: sent events
  | DropSender :: _ => []
  | _ :: events => sent events
  end.
(** What [t]'s calls completed with. *)
Definition results_of t b : list (outcome A) :=
  cm_outcome <$> List.filter (λ c, Nat.eqb (cm_thread c) t) (ib_completed b).
(** Whether the call waits for the lock, and whether it got the receiver: it completed
    with a message or the end of the channel. *)
Definition queued (r : receive) : bool := match r with UTry => false | _ => true end.
Definition was_served (c : completion A) : bool :=
  queued (cm_receive c) && match cm_outcome c with Ended e => bool_decide (e = channel_closed) | Got _ => true | Empty => false end.
(** The numbers of the calls that got the receiver, in the order they did. *)
Definition served b : list nat := cm_ticket <$> List.filter was_served (ib_completed b).
End machine.
Arguments inbox_event : clear implicits.
#[global] Arguments taken : simpl never.

(** ** Nothing is lost, nothing arrives twice, nobody is overtaken *)

Section delivery.
Context {A : Type}.
Implicit Types (b : Inbox A) (t : nat) (c : caller).

(** The receiver has handed out the messages it has read, in order. *)
Definition handed_out b : Prop :=
  (ib_read b <= length (ib_messages b))%nat ∧ taken (ib_completed b) = take (ib_read b) (ib_messages b).
(** A call that ran into the end of the channel left nothing behind. *)
Definition ends_last b : Prop :=
  Exists (λ x, cm_outcome x = Ended channel_closed) (ib_completed b) →
  ib_open b = false ∧ drop (ib_read b) (ib_messages b) = [].
Definition timed (r : receive) (secs : Z) : Prop := r = CTimed secs ∨ r = UTimed secs.
(** Why a call completed without a message: the channel ended, its own timeout passed
    since it began, or it did not want to wait. *)
Definition ended_soundly (x : completion A) : Prop :=
  match cm_outcome x with
  | Got _ => True
  | Ended e =>
      e = channel_closed ∨ e = receive_timed_out ∧ ∃ secs, timed (cm_receive x) secs ∧ cm_begun x + secs <= cm_at x
  | Empty => cm_receive x = UTry
  end.
(** A timer runs from no earlier than the call. *)
Definition timers b : Prop :=
  Forall ended_soundly (ib_completed b) ∧
  ∀ t c, ib_callers b !! t = Some c → ∃ n z, ib_begun b !! t = Some (n, z) ∧ z <= ib_now b ∧
    ∀ d, c_deadline c = Some d → ∃ secs, timed (c_receive c) secs ∧ z + secs <= d.
(** The holder of the lock and its queue, by the numbers of the calls. *)
Definition queue b : list nat := option_list (ib_holder b) ++ ib_waiting b.
Definition ticket_of b t : option nat := fst <$> ib_begun b !! t.
Definition fifo b : Prop :=
  NoDup (queue b) ∧ (∀ t, t ∈ queue b → ∃ c, ib_callers b !! t = Some c ∧ queued (c_receive c) = true) ∧
  StronglySorted lt (served b ++ omap (ticket_of b) (queue b)) ∧
  Forall (λ n, n < ib_next b)%nat (served b ++ omap (ticket_of b) (queue b)).
(** Each completed future is one call that returns once. *)
Definition outcomes b : list (nat * outcome A) := (λ x, (cm_thread x, cm_outcome x)) <$> ib_completed b.
Definition accounted b : Prop :=
  (∀ t, is_Some (ib_callers b !! t) → ib_finishing b !! t = None) ∧
  outcomes b ≡ₚ ib_returned b ++ map_to_list (ib_finishing b).

Record inbox_inv b : Prop := mkInv {
  inv_handed_out : handed_out b;
  inv_ends_last : ends_last b;
  inv_timers : timers b;
  inv_fifo : fifo b;
  inv_accounted : accounted b;
}.

(** *** What a poll does *)

(** How a future may complete. *)
Inductive allowed b t c : nat → outcome A → Prop :=
| AllowGot a :
    ib_messages b !! ib_read b = Some a → (queued (c_receive c) = true → ib_holder b = Some t) →
    allowed b t c (S (ib_read b)) (Got a)
| AllowClosed :
    ib_messages b !! ib_read b = None → ib_open b = false → (queued (c_receive c) = true → ib_holder b = Some t) →
    allowed b t c (ib_read b) (Ended channel_closed)
| AllowTimeout : elapsed b c = true → allowed b t c (ib_read b) (Ended receive_timed_out)
| AllowEmpty : c_receive c = UTry → allowed b t c (ib_read b) Empty.

Lemma poll_receiver_spec b :
  match poll_receiver (ib_messages b) (ib_read b) (ib_open b) with
  | Ready a => ib_messages b !! ib_read b = Some a
  | Closed => ib_messages b !! ib_read b = None ∧ ib_open b = false
  | Pending => True
  end.
Proof. unfold poll_receiver. by destruct (ib_messages b !! ib_read b), (ib_open b). Qed.

Lemma poll_locked_spec t c b :
  ib_holder b = Some t →
  poll_locked t c b = b ∨ ∃ read o, allowed b t c read o ∧ poll_locked t c b = complete t c read o b.
Proof.
  intros Hh. unfold poll_locked. pose proof (poll_receiver_spec b) as Hp.
  destruct (poll_receiver _ _ _) as [a| |]; [right; eauto using allowed|destruct Hp; right; eauto using allowed|].
  destruct (elapsed b c) eqn:He; [right; eauto using allowed|by left].
Qed.

(** A poll completes the future or not, after it may have got the lock and started its
    timer. *)
Lemma poll_call_spec t c b :
  ∃ c1 b1,
    ((c1, b1) = (c, b) ∨
     queued (c_receive c) = true ∧ has_lock t b = true ∧ (c1, b1) = start_timer t c (lock t b)) ∧
    (poll_call t c b = b1 ∨ ∃ read o, allowed b1 t c1 read o ∧ poll_call t c b = complete t c1 read o b1).
Proof.
  unfold poll_call. destruct (queued (c_receive c)) eqn:Hq.
  - replace (match c_receive c with UTry => poll_try t c b | _ => poll_waiting t c b end) with (poll_waiting t c b)
      by by destruct (c_receive c).
    unfold poll_waiting. destruct (has_lock t b) eqn:Hl.
    + destruct (start_timer t c (lock t b)) as [c1 b1] eqn:Es. exists c1, b1. split; [by right|].
      apply poll_locked_spec. unfold start_timer in Es. repeat case_match; by simplify_eq/=.
    + exists c, b. split; [by left|]. destruct (elapsed b c) eqn:He; [right; eauto using allowed|by left].
  - exists c, b. split; [by left|]. right. destruct (c_receive c) eqn:Hr; try done. unfold poll_try.
    pose proof (poll_receiver_spec b) as Hp.
    destruct (bool_decide (ib_holder b = None) && bool_decide (ib_waiting b = [])); [|eauto using allowed].
    assert (queued (c_receive c) = true → ib_holder b = Some t) by by rewrite Hr.
    destruct (poll_receiver _ _ _); [|destruct Hp|]; eauto using allowed.
Qed.

(** *** The invariant is kept *)

Lemma without_self t l : t ∉ l → List.filter (λ t', negb (Nat.eqb t' t)) l = l.
Proof.
  induction l as [|x l IH]; [done|]. rewrite not_elem_of_cons. intros [Hx Hl]. cbn.
  rewrite (proj2 (Nat.eqb_neq x t)) by done. cbn. by rewrite IH.
Qed.
Lemma without_elem t x l : x ∈ List.filter (λ t', negb (Nat.eqb t' t)) l ↔ x ∈ l ∧ x ≠ t.
Proof.
  rewrite !list_elem_of_In, filter_In. split; intros [Hx Hn]; (split; [done|]).
  - intros ->. by rewrite Nat.eqb_refl in Hn.
  - by rewrite (proj2 (Nat.eqb_neq x t)).
Qed.
Lemma without_sublist t l : sublist (List.filter (λ t', negb (Nat.eqb t' t)) l) l.
Proof. induction l as [|x l IH]; cbn; [done|]. destruct (negb _); by constructor. Qed.

(** The lock passes to the head of the queue. *)
Lemma lock_queue t b : NoDup (queue b) → has_lock t b = true → queue (lock t b) = queue b ∧ ib_holder (lock t b) = Some t.
Proof.
  unfold has_lock, queue. intros Hn Hl. rewrite orb_true_iff, andb_true_iff, !bool_decide_eq_true in Hl.
  destruct Hl as [Hl|[Hh Hl]].
  - rewrite Hl in *. cbn in *. split; [|done]. f_equal. apply without_self. by apply NoDup_cons in Hn as [? _].
  - rewrite Hh in *. destruct (ib_waiting b) as [|x l] eqn:Hw; [done|]. cbn in Hl. injection Hl as ->. cbn in *.
    apply NoDup_cons in Hn as [Hx _]. rewrite Hw. cbn. rewrite Nat.eqb_refl. cbn. by rewrite without_self.
Qed.

Lemma lock_inv t b : inbox_inv b → has_lock t b = true → inbox_inv (lock t b).
Proof.
  intros [Hh He Ht (Hn & Hc & Hs & Hf) Ha] Hl. destruct (lock_queue t b Hn Hl) as [Hq _]. constructor; try done.
  unfold fifo. rewrite Hq. by split_and!.
Qed.

Lemma start_timer_inv t c b :
  inbox_inv b → ib_callers b !! t = Some c →
  inbox_inv (start_timer t c b).2 ∧ ib_callers (start_timer t c b).2 !! t = Some (start_timer t c b).1 ∧
  c_receive (start_timer t c b).1 = c_receive c.
Proof.
  intros [Hh He [Hts Htc] (Hn & Hq & Hs & Hf) [Ha Hp]] Hc. destruct c as [r [d|]]; [by destruct r|].
  destruct r as [|secs| |]; try done. cbn. rewrite lookup_insert_eq. split_and!; try done. constructor; try done.
  - split; [done|]. intros t' c'. cbn. destruct (decide (t' = t)) as [->|]; [|rewrite lookup_insert_ne by done; apply Htc].
    rewrite lookup_insert_eq. intros [= <-]. destruct (Htc t _ Hc) as (n & z & Hb & Hz & _). exists n, z.
    split_and!; [done..|]. intros d [= <-]. exists secs. split; [by left|]. cbn. lia.
  - unfold fifo. split_and!; try done. intros t' Ht'. cbn. destruct (decide (t' = t)) as [->|].
    + rewrite lookup_insert_eq. eauto.
    + rewrite lookup_insert_ne by done. by apply Hq.
  - split; [|done]. intros t'. cbn. destruct (decide (t' = t)) as [->|]; [|rewrite lookup_insert_ne by done; apply Ha].
    intros _. apply Ha. eauto.
Qed.

Lemma taken_snoc xs (x : completion A) :
  taken (xs ++ [x]) = taken xs ++ match cm_outcome x with Got a => [a] | _ => [] end.
Proof. unfold taken. rewrite omap_app. cbn. by destruct (cm_outcome x). Qed.

Lemma complete_handed_out t c read o b : handed_out b → allowed b t c read o → handed_out (complete t c read o b).
Proof.
  intros [Hr Hd] [a Ha _|Hno Ho _|He|He]; split; cbn; rewrite ?taken_snoc, ?Hd; cbn; rewrite ?app_nil_r; try done.
  - by apply lookup_lt_Some in Ha.
  - by rewrite (take_S_r _ _ a).
Qed.
Lemma complete_ends_last t c read o b : ends_last b → allowed b t c read o → ends_last (complete t c read o b).
Proof.
  intros Hb Hal Hex. cbn in Hex. apply Exists_app in Hex as [Hex|Hex]; [apply Hb in Hex as [Ho Hd]|];
    inversion Hal as [a Ha _|Hno Ho' _|He|He]; subst; cbn; try done.
  - split; [done|]. apply (f_equal length) in Hd. rewrite length_drop in Hd. cbn in Hd.
    apply lookup_lt_Some in Ha. lia.
  - apply Exists_cons in Hex as [Hex|Hex%Exists_nil]; [|done]. done.
  - split; [done|]. apply drop_ge. by apply lookup_ge_None.
  - apply Exists_cons in Hex as [Hex|Hex%Exists_nil]; [|done]. done.
  - apply Exists_cons in Hex as [Hex|Hex%Exists_nil]; [|done]. done.
Qed.
Lemma complete_timers t c read o b :
  timers b → ib_callers b !! t = Some c → allowed b t c read o → timers (complete t c read o b).
Proof.
  intros [Hs Hc] Ht Hal. destruct (Hc t c Ht) as (n & z & Hb & Hz & Hd). split; cbn.
  - apply Forall_app. split; [done|]. apply Forall_singleton. rewrite Hb. cbn.
    destruct Hal as [a _ _|_ _ _|He|He]; cbn; [done|by left| |done]. right. split; [done|].
    unfold elapsed in He. destruct (c_deadline c) as [d|]; [|done]. destruct (Hd d eq_refl) as (secs & Hsecs & Hle).
    exists secs. split; [done|]. b2p. lia.
  - intros t' c'. rewrite lookup_delete_Some. intros [_ Hc']. by apply Hc.
Qed.
Lemma complete_accounted t c read o b :
  accounted b → ib_callers b !! t = Some c → accounted (complete t c read o b).
Proof.
  intros [Ha Hp] Hc. assert (ib_finishing b !! t = None) as Hf by by apply Ha. split; cbn.
  - intros t'. destruct (decide (t' = t)) as [->|]; [rewrite lookup_delete_eq; by intros []|].
    rewrite lookup_delete_ne, lookup_insert_ne by done. apply Ha.
  - unfold outcomes in *. cbn. rewrite fmap_app, map_to_list_insert by done. cbn. rewrite Hp.
    rewrite <- app_assoc. f_equiv. by rewrite Permutation_app_comm.
Qed.

Lemma sorted_sublist (l l' : list nat) : sublist l' l → StronglySorted lt l → StronglySorted lt l'.
Proof.
  induction 1 as [|x l1 l2 Hs IH|x l1 l2 Hs IH]; [done|..]; intros [Hss Hf]%StronglySorted_inv; [|by apply IH].
  constructor; [by apply IH|]. apply Forall_forall. intros y Hy. rewrite Forall_forall in Hf. apply Hf.
  by eapply elem_of_sublist.
Qed.
Lemma sorted_snoc (l : list nat) n : StronglySorted lt l → Forall (λ m, m < n)%nat l → StronglySorted lt (l ++ [n]).
Proof.
  induction l as [|x l IH]; intros Hs Hf; [repeat constructor|]. apply StronglySorted_inv in Hs as [Hs Hx].
  apply Forall_cons in Hf as [Hxn Hf]. cbn. constructor; [by apply IH|]. apply Forall_app. split; [done|by repeat constructor].
Qed.
Lemma omap_sublist (f : nat → option nat) l l' : sublist l' l → sublist (omap f l') (omap f l).
Proof. induction 1; cbn; try case_match; try constructor; done. Qed.

Lemma complete_queue t c read o b :
  NoDup (queue b) → queue (complete t c read o b) = List.filter (λ t', negb (Nat.eqb t' t)) (queue b).
Proof.
  unfold queue. intros Hn. cbn. case_bool_decide as Hh; [rewrite Hh; cbn; by rewrite Nat.eqb_refl|].
  destruct (ib_holder b) as [t0|]; [|done]. cbn. rewrite (proj2 (Nat.eqb_neq t0 t)) by congruence. done.
Qed.
Lemma complete_served t c read o b n z :
  ib_begun b !! t = Some (n, z) →
  served (complete t c read o b) =
  served b ++ (if was_served (mkCompletion t (c_receive c) n z (ib_now b) o) then [n] else []).
Proof.
  intros Hb. unfold served. cbn. rewrite Hb, List.filter_app, fmap_app. cbn. by destruct (was_served _).
Qed.

Lemma complete_fifo t c read o b :
  timers b → fifo b → ib_callers b !! t = Some c → allowed b t c read o → fifo (complete t c read o b).
Proof.
  intros [_ Htc] (Hn & Hq & Hs & Hf) Hc Hal. destruct (Htc t c Hc) as (n & z & Hb & _).
  unfold fifo. rewrite (complete_queue t c read o b Hn), (complete_served t c read o b n z Hb).
  change (ticket_of (complete t c read o b)) with (ticket_of b).
  change (ib_next (complete t c read o b)) with (ib_next b).
  assert (NoDup (List.filter (λ t', negb (Nat.eqb t' t)) (queue b))) as Hn' by (eapply sublist_NoDup; [done|apply without_sublist]).
  assert (∀ t', t' ∈ List.filter (λ t', negb (Nat.eqb t' t)) (queue b) → ∃ c', ib_callers (complete t c read o b) !! t' = Some c'
    ∧ queued (c_receive c') = true) as Hq'.
  { intros t' [Hin Hne]%without_elem. cbn. rewrite lookup_delete_ne by done. by apply Hq. }
  destruct (was_served _) eqn:Hw.
  - assert (ib_holder b = Some t) as Hh.
    { unfold was_served in Hw. cbn in Hw. apply andb_true_iff in Hw as [Hqd Hw]. inversion Hal; subst; auto; done. }
    unfold queue in *. rewrite Hh in *. cbn in Hn, Hs, Hf, Hn', Hq' |- *. rewrite Nat.eqb_refl in *. cbn in Hn', Hq' |- *.
    apply NoDup_cons in Hn as [Hx _]. assert (ticket_of b t = Some n) as Hn0 by (unfold ticket_of; by rewrite Hb).
    rewrite Hn0 in Hs, Hf.
    rewrite without_self in * by done. rewrite <- app_assoc. by split_and!.
  - rewrite app_nil_r.
    assert (sublist (served b ++ omap (ticket_of b) (List.filter (λ t', negb (Nat.eqb t' t)) (queue b)))
      (served b ++ omap (ticket_of b) (queue b))) as Hsub by (apply sublist_app; [done|]; apply omap_sublist, without_sublist).
    split_and!; [done|done|by eapply sorted_sublist|]. apply Forall_forall. intros x Hx. rewrite Forall_forall in Hf.
    apply Hf. by eapply elem_of_sublist.
Qed.

Lemma complete_inv t c read o b :
  inbox_inv b → ib_callers b !! t = Some c → allowed b t c read o → inbox_inv (complete t c read o b).
Proof.
  intros [Hh He Ht Hf Ha] Hc Hal.
  constructor; eauto using complete_handed_out, complete_ends_last, complete_timers, complete_fifo, complete_accounted.
Qed.

Lemma poll_inv t c b : inbox_inv b → ib_callers b !! t = Some c → inbox_inv (poll_call t c b).
Proof.
  intros Hb Hc. destruct (poll_call_spec t c b) as (c1 & b1 & Hprep & Hend).
  assert (inbox_inv b1 ∧ ib_callers b1 !! t = Some c1) as [Hb1 Hc1].
  { destruct Hprep as [[= -> ->]|(_ & Hl & Hs)]; [done|].
    destruct (start_timer_inv t c (lock t b)) as (Hi & Hci & _); [by apply lock_inv|done|]. rewrite <- Hs in *. done. }
  destruct Hend as [->|(read & o & Hal & ->)]; [done|]. by apply complete_inv.
Qed.

Lemma begin_inv t r b :
  inbox_inv b → ib_callers b !! t = None → ib_finishing b !! t = None → inbox_inv (begin_call t r b).
Proof.
  intros [Hh He [Hts Htc] (Hn & Hq & Hs & Hf) [Ha Hp]] Hc Hfin.
  assert (t ∉ queue b) as Hnq by (intros (c & Hc' & _)%Hq; congruence).
  assert (∀ l : list nat, t ∉ l → omap (ticket_of (begin_call t r b)) l = omap (ticket_of b) l) as Homap.
  { assert (∀ x, x ≠ t → ticket_of (begin_call t r b) x = ticket_of b x) as Hx
      by (intros x Hx; unfold ticket_of; cbn; by rewrite lookup_insert_ne).
    induction l as [|x l IH]; [done|]. rewrite not_elem_of_cons. intros [? Hl]. cbn. by rewrite Hx, IH. }
  constructor; try done.
  - split; [done|]. intros t' c'. cbn. destruct (decide (t' = t)) as [->|]; [|rewrite !lookup_insert_ne by done; apply Htc].
    rewrite !lookup_insert_eq. intros [= <-]. exists (ib_next b), (ib_now b). split_and!; [done|lia|]. cbn.
    destruct r; try done. intros d [= <-]. exists timeout_secs. split; [by right|lia].
  - assert (queue (begin_call t r b) = if queued r then queue b ++ [t] else queue b) as Hqueue
      by (unfold queue; destruct r; cbn; by rewrite <- ?app_assoc).
    assert (omap (ticket_of (begin_call t r b)) (queue (begin_call t r b)) =
      omap (ticket_of b) (queue b) ++ if queued r then [ib_next b] else []) as Htickets.
    { rewrite Hqueue. destruct (queued r); [|by rewrite app_nil_r, Homap]. rewrite omap_app, Homap by done. cbn.
      unfold ticket_of at 2. cbn. by rewrite lookup_insert_eq. }
    unfold fifo. rewrite Htickets, app_assoc.
    change (served (begin_call t r b)) with (served b). change (ib_next (begin_call t r b)) with (S (ib_next b)). split_and!.
    + rewrite Hqueue. destruct (queued r); [|done]. apply NoDup_app. split_and!; [done| |apply NoDup_singleton].
      intros x Hx ->%list_elem_of_singleton. done.
    + intros t' Ht'. cbn. destruct (decide (t' = t)) as [->|].
      * rewrite lookup_insert_eq. eexists. split; [done|]. cbn. rewrite Hqueue in Ht'. by destruct (queued r).
      * rewrite lookup_insert_ne by done. apply Hq. rewrite Hqueue in Ht'. destruct (queued r); [|done].
        apply elem_of_app in Ht' as [?|?%list_elem_of_singleton]; [done|congruence].
    + destruct (queued r); [|by rewrite app_nil_r]. by apply sorted_snoc.
    + apply Forall_app. split; [eapply Forall_impl; [exact Hf|cbn; lia]|]. destruct (queued r); repeat constructor.
  - split; [|done]. intros t'. cbn. destruct (decide (t' = t)) as [->|]; [done|]. rewrite lookup_insert_ne by done. apply Ha.
Qed.

Lemma return_inv t o b : inbox_inv b → ib_finishing b !! t = Some o → inbox_inv (return_call t o b).
Proof.
  intros [Hh He Ht Hf [Ha Hp]] Ho. constructor; try done. split; cbn.
  - intros t' Ht'. apply lookup_delete_None. right. by apply Ha.
  - unfold outcomes in *. cbn. rewrite Hp, <- app_assoc. f_equiv. cbn. by rewrite map_to_list_delete.
Qed.

Lemma inbox_step_inv e b : inbox_inv b → inbox_inv (inbox_step b e).
Proof.
  intros Hb. destruct e as [a| | |t r|t|t]; cbn.
  - destruct (ib_open b) eqn:Ho; [|done]. destruct Hb as [[Hr Hd] He Ht Hf Ha]. constructor; try done.
    + split; cbn; [rewrite length_app; lia|]. by rewrite take_app_le.
    + intros Hex. apply He in Hex as [? _]. congruence.
  - destruct Hb as [Hh He Ht Hf Ha]. constructor; try done. intros Hex. split; [done|]. by apply He.
  - destruct Hb as [Hh He [Hts Htc] Hf Ha]. constructor; try done. split; [done|].
    intros t c Hc. destruct (Htc t c Hc) as (n & z & ? & ? & ?). exists n, z. cbn. split_and!; [done|lia|done].
  - destruct (ib_callers b !! t) eqn:Hc; [done|]. destruct (ib_finishing b !! t) eqn:Hf; [done|]. by apply begin_inv.
  - destruct (ib_callers b !! t) eqn:Hc; [by apply poll_inv|done].
  - destruct (ib_finishing b !! t) eqn:Hf; [by apply return_inv|done].
Qed.
Lemma inbox_run_inv events : inbox_inv (inbox_run (inbox_new (A := A)) events).
Proof.
  unfold inbox_run. rewrite <- (reverse_involutive events). generalize (reverse events). clear events.
  induction l as [|e l IH].
  - cbn. constructor.
    + by split.
    + intros Hex. by apply Exists_nil in Hex.
    + split; [constructor|]. intros t c. cbn. by rewrite lookup_empty.
    + split_and!; [constructor| |constructor|constructor]. intros t Hin. by apply not_elem_of_nil in Hin.
    + split; [done|]. cbn. by rewrite map_to_list_empty.
  - rewrite reverse_cons, foldl_app. by apply inbox_step_inv.
Qed.

(** The messages of the channel are those sent. *)
Lemma poll_messages t c b : ib_messages (poll_call t c b) = ib_messages b ∧ ib_open (poll_call t c b) = ib_open b.
Proof.
  destruct (poll_call_spec t c b) as (c1 & b1 & Hprep & Hend).
  assert (ib_messages b1 = ib_messages b ∧ ib_open b1 = ib_open b) as [Hm Ho].
  { destruct Hprep as [[= -> ->]|(_ & _ & Hs)]; [done|]. unfold start_timer in Hs. repeat case_match; by simplify_eq/=. }
  destruct Hend as [->|(read & o & _ & ->)]; done.
Qed.
Lemma step_messages e b :
  ib_messages (inbox_step b e) = ib_messages b ++ (if ib_open b then sent [e] else []) ∧
  ib_open (inbox_step b e) = ib_open b && (if e is DropSender then false else true).
Proof.
  destruct e as [a| | |t r|t|t]; cbn; rewrite ?andb_true_r, ?andb_false_r.
  - destruct (ib_open b) eqn:E; cbn; [done|]. by rewrite app_nil_r.
  - by destruct (ib_open b); rewrite app_nil_r.
  - by destruct (ib_open b); rewrite app_nil_r.
  - repeat case_match; cbn; by rewrite app_nil_r.
  - destruct (ib_callers b !! t) as [c|]; [destruct (poll_messages t c b) as [-> ->]|];
      by destruct (ib_open b); rewrite app_nil_r.
  - case_match; cbn; by destruct (ib_open b); rewrite app_nil_r.
Qed.
Lemma run_messages events b :
  ib_messages (inbox_run b events) = ib_messages b ++ (if ib_open b then sent events else []).
Proof.
  revert b. induction events as [|e events IH]; intros b; cbn [inbox_run foldl].
  { by destruct (ib_open b); rewrite app_nil_r. }
  change (foldl inbox_step (inbox_step b e) events) with (inbox_run (inbox_step b e) events).
  rewrite IH. destruct (step_messages e b) as [-> ->]. destruct (ib_open b); [|cbn; by rewrite !app_nil_r].
  destruct e; cbn; rewrite ?app_nil_r; try done. by rewrite <- app_assoc.
Qed.

End delivery.

(** ** Timeouts *)

Section timeouts.
Context {A : Type}.
Implicit Types (b : Inbox A) (t : nat).

(** A poll touches no other call. *)
Lemma poll_others t t' c b :
  t ≠ t' → ib_callers (poll_call t' c b) !! t = ib_callers b !! t ∧ results_of t (poll_call t' c b) = results_of t b.
Proof.
  intros Ht.
  assert (∀ c read o b, ib_callers (complete t' c read o b) !! t = ib_callers b !! t ∧
    results_of t (complete t' c read o b) = results_of t b) as Hr.
  { intros c' read o b'. unfold results_of. cbn. rewrite lookup_delete_ne, List.filter_app, fmap_app by done. cbn.
    rewrite (proj2 (Nat.eqb_neq t' t)) by done. by rewrite app_nil_r. }
  assert (∀ c b, ib_callers (poll_locked t' c b) !! t = ib_callers b !! t ∧ results_of t (poll_locked t' c b) = results_of t b)
    as Hlocked by (intros c' b'; unfold poll_locked; repeat case_match; done).
  assert (∀ c b, ib_callers (start_timer t' c b).2 !! t = ib_callers b !! t ∧ results_of t (start_timer t' c b).2 = results_of t b)
    as Htimer by (intros [[] []] b'; cbn; rewrite ?lookup_insert_ne by done; done).
  unfold poll_call. destruct (c_receive c); unfold poll_try, poll_waiting.
  4: repeat case_match; done.
  all: destruct (has_lock t' b); [|by destruct (elapsed b c)].
  all: specialize (Htimer c (lock t' b)); destruct (start_timer t' c (lock t' b)) as [c1 b1]; cbn in Htimer.
  all: destruct (Hlocked c1 b1) as [-> ->]; exact Htimer.
Qed.

(** A timed receive of the object interface waits or returns, and returns when its time
    is over. *)
Lemma poll_timed t secs d b :
  let c := mkCaller (UTimed secs) d in
  ib_callers b !! t = Some c →
  (ib_callers (poll_call t c b) !! t = Some c ∨ ib_callers (poll_call t c b) !! t = None) ∧
  (elapsed b c = true → ib_callers (poll_call t c b) !! t = None).
Proof.
  intros c Hc. cbn. unfold poll_waiting, poll_locked. cbn.
  assert (elapsed (lock t b) c = elapsed b c) as He by done. fold c. rewrite He.
  destruct (has_lock t b), (elapsed b c), (poll_receiver (ib_messages b) (ib_read b) (ib_open b)); cbn;
    rewrite ?lookup_delete_eq; split; auto; done.
Qed.

Lemma timed_stays t secs d b events :
  let c := mkCaller (UTimed secs) d in
  ib_callers b !! t = Some c ∨ ib_callers b !! t = None → Forall (λ e, ∀ r, e ≠ Begin t r) events →
  ib_callers (inbox_run b events) !! t = Some c ∨ ib_callers (inbox_run b events) !! t = None.
Proof.
  intros c. revert b. induction events as [|e events IH]; intros b Hb Hev; [done|].
  apply Forall_cons in Hev as [He Hev]. cbn. apply IH; [|done]. clear IH.
  destruct e as [a| | |t' r|t'|t']; cbn.
  - by destruct (ib_open b).
  - done.
  - done.
  - assert (t' ≠ t) by (intros ->; by destruct (He r)). repeat case_match; try done. cbn. by rewrite lookup_insert_ne.
  - destruct (ib_callers b !! t') as [c'|] eqn:Hc'; [|done]. destruct (decide (t = t')) as [->|Hne].
    + destruct Hb as [Hb|Hb]; rewrite Hb in Hc'; [|done]. injection Hc' as <-. by apply poll_timed.
    + by destruct (poll_others t t' c' b Hne) as [-> _].
  - by case_match.
Qed.

(** A receive without a timer that has the receiver, and finds nothing there. *)
Definition blocked t0 b : Prop :=
  ib_holder b = Some t0 ∧ ib_callers b !! t0 = Some (mkCaller Recv None) ∧
  poll_receiver (ib_messages b) (ib_read b) (ib_open b) = Pending.
Definition no_message (e : inbox_event A) : Prop := match e with Push _ | DropSender => False | _ => True end.

Lemma held_elsewhere t t0 b : t ≠ t0 → ib_holder b = Some t0 → has_lock t b = false.
Proof. intros Hne Hh. unfold has_lock. rewrite Hh. rewrite bool_decide_eq_false_2 by congruence. done. Qed.

Lemma poll_blocked t0 t c b :
  blocked t0 b → ib_callers b !! t = Some c → blocked t0 (poll_call t c b).
Proof.
  intros (Hh & Hc0 & Hp) Hc. destruct (decide (t = t0)) as [->|Hne].
  - rewrite Hc in Hc0. injection Hc0 as ->. cbn. unfold poll_waiting, has_lock. rewrite Hh, bool_decide_eq_true_2 by done.
    cbn. unfold poll_locked. cbn. rewrite Hp. by split_and!.
  - pose proof (held_elsewhere t t0 b Hne Hh) as Hl.
    assert (∀ o, blocked t0 (complete t c (ib_read b) o b)) as Hret.
    { intros o. split_and!; cbn; [by rewrite Hh, bool_decide_eq_false_2 by congruence|by rewrite lookup_delete_ne|done]. }
    unfold poll_call, poll_try, poll_waiting. rewrite Hl, Hh. destruct (c_receive c); [..|apply Hret].
    all: destruct (elapsed b c); [apply Hret|done].
Qed.

(** A timed receive of C that does not have the receiver yet. *)
Lemma blocked_step t0 t secs e b :
  t ≠ t0 → blocked t0 b → ib_callers b !! t = Some (mkCaller (CTimed secs) None) → no_message e →
  blocked t0 (inbox_step b e) ∧ ib_callers (inbox_step b e) !! t = Some (mkCaller (CTimed secs) None) ∧
  results_of t (inbox_step b e) = results_of t b.
Proof.
  intros Hne Hb Ht. destruct e as [a| | |t' r|t'|t']; cbn; try done; intros _.
  - destruct (ib_callers b !! t') eqn:Hc'; [done|]. destruct (ib_finishing b !! t'); [done|]. destruct Hb as (Hh & Hc0 & Hp).
    assert (t' ≠ t ∧ t' ≠ t0) as [??] by (split; congruence). split_and!; cbn; rewrite ?lookup_insert_ne by done; try done.
    by split_and!; cbn; rewrite ?lookup_insert_ne by done.
  - destruct (ib_callers b !! t') as [c'|] eqn:Hc'; [|done]. split; [by apply poll_blocked|].
    destruct (decide (t = t')) as [->|Ht']; [|by destruct (poll_others t t' c' b Ht') as [-> ->]].
    rewrite Ht in Hc'. injection Hc' as <-. destruct Hb as (Hh & _).
    cbn. unfold poll_waiting. by rewrite (held_elsewhere _ t0).
  - by destruct (ib_finishing b !! t').
Qed.
Lemma blocked_run t0 t secs b events :
  t ≠ t0 → blocked t0 b → ib_callers b !! t = Some (mkCaller (CTimed secs) None) → Forall no_message events →
  ib_callers (inbox_run b events) !! t = Some (mkCaller (CTimed secs) None) ∧
  results_of t (inbox_run b events) = results_of t b.
Proof.
  intros Hne. revert b. induction events as [|e events IH]; intros b Hb Ht Hev; [done|].
  apply Forall_cons in Hev as [He Hev]. destruct (blocked_step t0 t secs e b Hne Hb Ht He) as (Hb' & Ht' & Hr).
  destruct (IH _ Hb' Ht' Hev) as [Hc Hrs]. split; [exact Hc|]. etrans; [exact Hrs|done].
Qed.

(** (C40) Timed receives and the lock of the receiver.  In the object interface a
    receive with a timeout, run once its time is over, has completed, and a [recv_try]
    completes at once, whatever the other threads do.  In the C interface the timer
    starts only when the lock is held: while another thread is in a receive without a
    timeout and no message arrives, a [recv_timeout] does not complete, however much
    time passes and whatever its timeout, zero included. *)
Theorem timed_receives t t0 secs b0 b events :
  t ≠ t0 → ib_callers b0 !! t = None → Forall (λ e, ∀ r, e ≠ Begin t r) events →
  (let b1 := inbox_run (inbox_step b0 (Begin t (UTimed secs))) events in
   ib_now b0 + secs <= ib_now b1 → ib_callers (inbox_step b1 (Poll t)) !! t = None) ∧
  ib_callers (inbox_step (inbox_step b0 (Begin t UTry)) (Poll t)) !! t = None ∧
  (blocked t0 b → ib_callers b !! t = Some (mkCaller (CTimed secs) None) → ∀ waits, Forall no_message waits →
     ib_callers (inbox_run b waits) !! t = Some (mkCaller (CTimed secs) None) ∧
     results_of t (inbox_run b waits) = results_of t b).
Proof.
  intros Hne Hfresh Hev. cbn zeta. split_and!.
  - set (d := Some (ib_now b0 + secs)).
    assert (ib_callers (inbox_step b0 (Begin t (UTimed secs))) !! t = Some (mkCaller (UTimed secs) d) ∨
      ib_callers (inbox_step b0 (Begin t (UTimed secs))) !! t = None) as Hbegun
      by (cbn; rewrite Hfresh; case_match; cbn; rewrite ?lookup_insert_eq; auto).
    pose proof (timed_stays t secs d _ events Hbegun Hev) as Hc. revert Hc.
    generalize (inbox_run (inbox_step b0 (Begin t (UTimed secs))) events). intros b1 [Hc|Hc] Hnow; cbn; rewrite Hc; [|done].
    apply (poll_timed t secs d b1 Hc). cbn. lia.
  - cbn. rewrite Hfresh. destruct (ib_finishing b0 !! t); cbn; [by rewrite Hfresh|]. rewrite lookup_insert_eq. cbn. unfold poll_try.
    repeat case_match; cbn; by rewrite lookup_delete_eq.
  - intros Hb Ht waits Hw. by apply (blocked_run t0).
Qed.
End timeouts.

(** ** A thread that waits behind another *)

(** Thread 0 receives and waits; thread 1 asks for what is there, with a timeout of
    zero, and a thousand seconds pass. *)
Abbreviation demo_waiting := (inbox_run (inbox_new (A := nat)) [Begin 0 Recv; Poll 0; Begin 1 (CTimed 0)]).

Lemma timed_receives_witness :
  results_of 1 (inbox_run demo_waiting (replicate 1000 Tick ++ [Poll 1])) = [] ∧
  results_of 1 (inbox_run (inbox_new (A := nat)) [Begin 0 Recv; Poll 0; Begin 1 (UTimed 0); Poll 1]) =
    [Ended receive_timed_out].
Proof.
  split; [|by vm_compute].
  destruct (timed_receives 1 0 0 (inbox_new (A := nat)) demo_waiting []) as (_ & _ & Hw); [done..|].
  apply Hw; [by split_and!|done|]. apply Forall_app. split; [by apply Forall_replicate|by repeat constructor].
Defined.
